(* ===== verification/_CoqProject ===== *)
-Q . S2P
Prelude.v
RustStr.v
RustUtf8.v
UnitTest.v
Bits.v
HttpText.v
HtmlText.v
RustSort.v
F32.v
F32Math.v
F32Text.v
Scanner.v
HtmlParser.v
HtmlParserProps.v
Css.v
CssProps.v
Style.v
StyleProps.v
Layout.v
PaintProps.v
BrowserMain.v
LayoutProps.v
LinkedList.v
LinkedListDemo.v
LinkedListTests.v
Nes6502.v
Nes6502Props.v
Nes6502Main.v
Roguelike.v
RoguelikeMap.v
RoguelikeGame.v
RoguelikeDemo.v
RoguelikeTests.v
Todo.v
TodoProps.v
TodoTests.v
WebSocket.v
WebSocketProps.v
HandshakeSpec.v
ChatServer.v
TextDocument.v
TextDocumentProps.v
TextEditor.v
TextEditorProps.v
TextEditorSession.v
TextEditorTests.v
KvStore.v
HttpService.v
HttpServiceProps.v
MicroserviceTests.v
NotesApp.v
NotesAppProps.v
Servers.v
Genetic.v
GeneticProps.v
Evolution.v
EvolutionProps.v
StatisticsProps.v
SimulationProps.v
EvolutionMain.v
NeuroevolutionTests.v
