(* ===== verification/Prelude.v ===== *)
(** * Verification of the Rust projects of daily-projects

    The repository holds one independent project per day, in many languages.  This
    development is about the projects in Rust.  They call no code of each other: what
    they share is the standard library, and so the files below share a model of the
    part of it that they use.

    ** The parts

    - [Prelude] (this file): fallible values and loops that can panic, machine
      integers and their automation, bits, lists whose elements differ pairwise.
    - [RustStr], [RustUtf8]: [str], [char] and the integer parsers as lists of code
      points; UTF-8; readers of byte streams as a monad with panic, error and rest
      of the stream.  [UnitTest]: what the unit tests of the projects are made of.
    - [Bits]: words and bytes as sequences of bits.  [RustSort]: stable sorting.  [F32], [F32Math], [F32Text]: [f32], exactly; its square roots
      and remainders; its text.  [Scanner]: the cursor over a text that two parsers share, as a
      monad, with what it means that a parser uses fuel well.
    - [HttpText], [HtmlText]: how clients print HTTP headers and numbers and how they are
      read back; text escaped into HTML.
    - [2026-10-12-rust-nes-6502]: [Nes6502] has [Cpu], the 256-entry decoder,
      addressing, every instruction, [step] and [run]; [Nes6502Props] its properties; [Nes6502Main] is [main.rs] with
      the program it loads.
    - [2026-08-04-rust-text-editor]: [TextDocument] has [row.rs] and [document.rs],
      [TextEditor] has [editor.rs], [terminal.rs] and [main.rs];
      [TextDocumentProps], [TextEditorProps]; [TextEditorSession] is about whole
      sessions, from the first draw to the terminal's last mode.
    - [2026-10-02-rust-roguelike]: [Roguelike] has [lib.rs]; [RoguelikeMap] is about
      the generator and the dungeon, [RoguelikeGame] about turns; [RoguelikeDemo] is
      [main.rs].
    - [2026-09-05-rust-websocket-chat]: [WebSocket] has [base64.rs], [sha1.rs] and
      [websocket.rs], [WebSocketProps] their properties, [HandshakeSpec] the standards
      that the handshake implements; [ChatServer] is [server.rs] as a step relation,
      with its invariant.
    - [2026-08-13-rust-microservice]: [KvStore] has [store.rs], its interface and
      its concurrent runs; [HttpService] has [http.rs] and [server.rs];
      [HttpServiceProps] their properties, proved against the interface.
    - [2026-10-29-rust-simple-web-app]: [NotesApp] has [http.rs], [app.rs] and
      [serve_connection]; [NotesAppProps].
    - [2026-09-21-rust-wasm-todo]: [Todo] has [state.rs] and [dom.rs]; [TodoProps].
    - [2026-07-22-rust-linked-list]: [LinkedList] has [lib.rs] and its properties,
      [LinkedListDemo] what [main.rs] prints.
    - [2026-08-26-rust-browser-engine]: [HtmlParser] has [dom.rs] and [html_parser.rs],
      [Css] has [css.rs], [Style] has [style.rs], and [Layout] has [layout.rs],
      [painting.rs] and the pipeline of [main] from two texts to a picture;
      [HtmlParserProps], [CssProps], [StyleProps], [LayoutProps], [PaintProps];
      [BrowserMain] is [main.rs], from the command line to the file.
    - [2026-09-13-rust-neuroevolution]: [Genetic] has [neural_network.rs] and
      [genetic_algorithm.rs], [GeneticProps] their properties; [Evolution] has the
      animals, the world, [simulation.rs] and the run of [main]; [EvolutionProps] is about brains
      and motion, [StatisticsProps] about the statistics of a generation,
      [SimulationProps] about ticks and generations; [EvolutionMain] is [main], from
      the command line to the text that is printed.
    - [Servers] has [main] and [run] of the three servers, around [HttpService],
      [ChatServer] and [NotesApp].
    - [LinkedListTests], [MicroserviceTests], [TodoTests], [TextEditorTests],
      [RoguelikeTests], [NeuroevolutionTests]: the [#[test]] functions of the sources,
      under their names, run on the definitions above.

    Names follow the source: the definition [f] of a file models the function [f]
    of the Rust file that its header names, a [Record] or [Inductive] the [struct]
    or [enum], and a piece of a function that is a definition of its own (a loop
    body, a closure) says which in its comment.

    ** Conventions

    - A method on [&mut self] takes the state and returns it.  [option] is panic
      ([None]); [result] is [Result].  A monadic bind sequences both.
    - A [u8], [u16], [u32], [u64], [i32] is a [Z], with every wrap, cast and shift
      written out.  A plain [+ - *] that the source does not show to be in range takes
      the overflow mode [oc]: out of range it panics in a build that checks overflow
      ([true]) and wraps in one that does not ([false]).  Theorems hold for both
      unless they say so.  A [usize] that counts or indexes what is in memory is a
      [nat], below [isize::MAX].
    - An [f32] is a NaN, an infinity or a sign and a whole number of 2^-149, the unit of
      its format; every operation rounds as IEEE 754 says (checked against the standard
      library's executable floats on samples).  Functions whose precision Rust does not
      fix ([sin], [cos], [atan2]) and the crate [rand] are the classes [Trig], [Rng]
      and [SeedableRng]; [TrigLaws] and [RngLaws] state what their documentation promises, and instances
      of them show that the promises can be kept.
    - A [HashMap] is a [gmap]; where an order is observable the source sorts it.
    - A loop without a bound in the code has fuel, enough for every input: the
      length of the input plus one for the loops over lines of a stream
      ([read_request], [read_headers], each turn of which reads a byte), the number
      of steps asked for in [Cpu::run], the length of the list in [drop], the length of
      the text plus one for each loop or recursion of a parser, the length of a
      generation in [Simulation::train].  That it is enough is proved where the
      function is shown to return.
    - Threads interleave by atomic actions: [ChatServer] has a step relation over its
      connections and the lock of its registry, in which a [write_all] is as many
      actions as the network makes of it and a broadcast holds the lock meanwhile;
      [KvStore] runs a schedule over a pool of tasks.

    ** What the theorems show

    - 6502: no instruction reaches [unreachable!]; the arithmetic and its flags; calls
      and interrupts return; what an instruction does to the program counter and to
      memory; [run] ends; the program of [main.rs] multiplies, for all operands.
    - Editor: edits of rows are edits of one text; no key press panics or leaves the
      cursor off the text or the screen (with ASCII where a prompt opens); saving and
      opening round-trip but for a carriage return at the end of a row; searching;
      unsaved work needs four presses of Ctrl-Q to be lost; every session ends and gives
      the terminal back as it was, and from every state the user can end it.
    - Roguelike: a generated dungeon is connected and walled; no play panics and
      actors never share a tile; what a move and a monster's turn do; the demo runs to
      its end, though its player does not fight an orc in the same column.
    - Chat: frames round-trip; in every interleaving a registered client is sent the
      broadcasts of the others, once and in order, merged with the pongs of its own
      thread, which can fall inside of a broadcast; the handshake, whose hash is that of
      FIPS 180-4, whose encoding is that of RFC 4648 and whose key is that of RFC 6455.
    - Microservice: the routes refine an abstract REST service, but for a put at the
      largest id; requests and responses round-trip through their bytes; ids are distinct
      under concurrency as long as puts stay in the lower half of the ids, and where
      the source's ids can still meet; a poisoned lock changes no answer.
    - Notes board: no input panics or is read in more than bounded memory; forms
      round-trip through their encoding; sessions from bytes to bytes.
    - Todo list: the operations refine a map; storage round-trips; the page shows its
      state after every event, and after a reload what the storage last accepted; user text cannot become markup.
    - Stack: it refines a list; the iterators; dropping does not recurse.
    - Browser engine: documents and style sheets in the grammar are parsed to what they
      mean; every style sheet is parsed or panics; where the HTML parser loops, panics or
      drops text; a parsed sheet is well formed; displayed values are read back; the cascade picks the declaration that its specification picks; block
      widths add up to their container and blocks stack without gaps, in whole pixels;
      painting is the painter's algorithm; the file that a command line writes, byte by
      byte, every error it can end with, and when it panics or never ends.
    - Neuroevolution: networks and their weights are in bijection; brains answer within
      their limits on any input; what children inherit; what every tick keeps; every
      generation ends, and with it the program and its output, with statistics in order
      and in bounds.
    - Unit tests: the definitions pass the tests that the programs have to pass.

    ** What is not modelled

    Terminals, sockets, the DOM, threads' scheduling and the disk appear only as the
    data that crosses them (keys and commands, bytes, events and stored strings,
    actions, a map of files); faults of them are arguments where the code reacts to
    them.  Allocations below [isize::MAX] succeed.  Unicode's case tables are the
    class [Unicode] of [TextDocument].  Logging is left out, and so
    is printing where no file is about the program that prints.

    The recursion of the browser engine's parsers on deeply nested input is, like all
    recursion here, taken not to exhaust the stack.  What a seed makes of a generator is
    [rand]'s.  What the operating system gives for a path or an address, with the text of
    its errors, is an argument of the programs; what a failed write leaves in a file is
    not said.  What the escape sequences of [crossterm] do to a screen is that library's;
    here they are commands.  Accessors that only return a field, [use] and [mod] lines and
    [Display] of the microservice's [ParseError], which nothing prints, have no definition
    of their own; the tests in the [tests] directories are not translated.
    The projects in other languages are out of scope. *)
From Stdlib Require Export ZArith Lia.
From stdpp Require Export base option list numbers gmap sorting.

Declare Scope rust_scope.
Delimit Scope rust_scope with rust.
#[global] Open Scope Z_scope.

(** ** Fallible values

    A Rust [Result<T, E>].  A panic is not a [Result]: an operation that can
    panic returns an [option], whose [None] is the panic, and is sequenced with
    the bind of stdpp's option monad ([x ← e; k]). *)
Inductive result (T E : Type) : Type :=
| Ok (t : T)
| Err (e : E).
Arguments Ok {T E} t.
Arguments Err {T E} e.

#[export] Instance result_eq_dec {T E} `{EqDecision T, EqDecision E} : EqDecision (result T E).
Proof. solve_decision. Defined.

Definition result_of_option {T E} (e : E) (o : option T) : result T E :=
  match o with Some t => Ok t | None => Err e end.

(** [for x in l { s = f(x, s) }], where the body can panic. *)
Fixpoint for_each {A S} (f : A → S → option S) (l : list A) (s : S) : option S :=
  match l with
  | [] => Some s
  | x :: l' => s' ← f x s; for_each f l' s'
  end.

Lemma for_each_app {A S} (f : A → S → option S) l1 l2 s :
  for_each f (l1 ++ l2) s = (for_each f l1 s ≫= for_each f l2).
Proof.
  revert s; induction l1 as [|x l1 IH]; intros s; simpl; [done|].
  destruct (f x s); simpl; auto.
Qed.

(** A loop whose body keeps [P] runs to its end and keeps [P]. *)
Lemma for_each_inv {A S} (P : S → Prop) (f : A → S → option S) l s :
  P s → (∀ x s, x ∈ l → P s → ∃ s', f x s = Some s' ∧ P s') →
  ∃ s', for_each f l s = Some s' ∧ P s'.
Proof.
  revert s; induction l as [|x l IH]; intros s Hs Hf; simpl; [eauto|].
  destruct (Hf x s) as (s' & -> & Hs'); [by left|done|]. simpl.
  apply IH; [done|]. intros y t Hy. apply Hf. by right.
Qed.

(** ... and what each turn establishes and later turns keep holds at the end of
    a loop with at least one turn for it. *)
Lemma for_each_post {A S} (P : S → Prop) (Q : A → S → Prop) (f : A → S → option S) l s :
  P s → (∀ x s, x ∈ l → P s → ∃ s', f x s = Some s' ∧ P s' ∧ Q x s' ∧ ∀ y, y ∈ l → Q y s → Q y s') →
  ∃ s', for_each f l s = Some s' ∧ P s' ∧ ∀ x, x ∈ l → Q x s'.
Proof.
  intros Hs Hf.
  enough (H : ∀ k s, k ⊆ l → P s → ∃ s', for_each f k s = Some s' ∧ P s' ∧
    (∀ x, x ∈ k → Q x s') ∧ ∀ y, y ∈ l → Q y s → Q y s')
    by (destruct (H l s) as (s' & ? & ? & ? & _); [done|done|eauto]).
  clear s Hs. induction k as [|x k IH]; intros s Hk Hs.
  - exists s. split_and!; auto. by intros x Hx%elem_of_nil.
  - destruct (Hf x s) as (s1 & E & H1 & HQ & Hkeep); [apply Hk; by left|done|].
    destruct (IH s1) as (s2 & E2 & H2 & HQ2 & Hkeep2); [intros y Hy; apply Hk; by right|done|].
    exists s2. simpl. rewrite E. simpl. split_and!; auto.
    intros y [->|Hy]%elem_of_cons; [|auto]. apply Hkeep2; [apply Hk; by left|done].
Qed.

(** The same with an invariant on the number of turns. *)
Lemma for_each_count {A S} (P : nat → S → Prop) (f : A → S → option S) l n s :
  P n s →
  (∀ x k s, x ∈ l → (k < n + length l)%nat → P k s → ∃ s', f x s = Some s' ∧ P (1 + k)%nat s') →
  ∃ s', for_each f l s = Some s' ∧ P (n + length l)%nat s'.
Proof.
  revert n s; induction l as [|x l IH]; intros n s Hs Hf; simpl.
  - rewrite Nat.add_0_r. eauto.
  - destruct (Hf x n s) as (s' & -> & Hs'); [by left|simpl; lia|done|]. simpl.
    rewrite <-Nat.add_succ_comm. apply IH; [done|]. intros y k t Hy Hk. apply Hf; [by right|simpl; lia].
Qed.

(** ... or on the index of a loop over a range. *)
Lemma for_each_seq {S} (P : nat → S → Prop) (f : nat → S → option S) i n s :
  P i s → (∀ k s, (i ≤ k < i + n)%nat → P k s → ∃ s', f k s = Some s' ∧ P (1 + k)%nat s') →
  ∃ s', for_each f (seq i n) s = Some s' ∧ P (i + n)%nat s'.
Proof.
  revert i s; induction n as [|n IH]; intros i s Hs Hf; simpl.
  - rewrite Nat.add_0_r. eauto.
  - destruct (Hf i s) as (s' & -> & Hs'); [lia|done|]. simpl. rewrite <-Nat.add_succ_comm.
    apply IH; [done|]. intros k t Hk. apply Hf. lia.
Qed.

(** [l.chunks(k)]: pieces of [k] elements, the last one perhaps shorter. *)
Fixpoint chunks_fuel {A} (fuel : nat) (k : nat) (l : list A) : list (list A) :=
  match fuel, l with
  | S fuel, _ :: _ => take k l :: chunks_fuel fuel k (drop k l)
  | _, _ => []
  end.
Definition chunks {A} (k : nat) (l : list A) : list (list A) := chunks_fuel (length l) k l.

Lemma chunks_fuel_enough {A} f k (l : list A) :
  (0 < k)%nat → (length l ≤ f)%nat → chunks_fuel f k l = chunks k l.
Proof.
  intros Hk. unfold chunks. remember (length l) as n eqn:En. revert f l En.
  induction n as [n IH] using lt_wf_ind; intros f l En Hf.
  destruct l as [|x l], n as [|n], f as [|f]; simpl in *; try done; try lia. f_equal.
  assert (Hd : (length (drop k (x :: l)) ≤ n)%nat) by (rewrite length_drop; simpl; lia).
  rewrite (IH (length (drop k (x :: l))) ltac:(lia) n) by lia.
  apply IH; [lia|done|lia].
Qed.

Lemma chunks_step {A} k (l : list A) :
  (0 < k)%nat → l ≠ [] → chunks k l = take k l :: chunks k (drop k l).
Proof.
  intros Hk Hl. destruct l as [|x l]; [done|]. unfold chunks at 1. cbn [length chunks_fuel]. f_equal.
  apply chunks_fuel_enough; [done|]. rewrite length_drop. simpl. lia.
Qed.

Lemma chunks_cons {A} k (p l : list A) :
  (0 < k)%nat → length p = k → chunks k (p ++ l) = p :: chunks k l.
Proof.
  intros Hk Hp. rewrite chunks_step; [|done|by destruct p; simpl in *; [lia|]].
  by rewrite take_app_length', drop_app_length'.
Qed.

(** [lo..hi] over machine integers. *)
Definition zrange (lo hi : Z) : list Z := seqZ lo (hi - lo).

Lemma elem_of_zrange lo hi x : x ∈ zrange lo hi ↔ lo ≤ x < hi.
Proof. unfold zrange. rewrite elem_of_seqZ. lia. Qed.

(** ** Machine integers

    A [w]-bit unsigned integer is a [Z] between 0 and [2^w]; the definitions
    write their wrap-around out.  [wrapping_add] and the like, [as] casts to a
    narrower type, and shifts that drop bits are [wrap8 .. wrap64]. *)
Definition wrap8 (z : Z) : Z := z mod 256.
Definition wrap16 (z : Z) : Z := z mod 65536.
Definition wrap32 (z : Z) : Z := z mod 4294967296.
Definition wrap64 (z : Z) : Z := z mod 18446744073709551616.
Definition wrap_i32 (z : Z) : Z := (z + 2147483648) mod 4294967296 - 2147483648.

Definition is_u8 (z : Z) : Prop := 0 ≤ z < 256.
Definition is_u16 (z : Z) : Prop := 0 ≤ z < 65536.
Definition is_u32 (z : Z) : Prop := 0 ≤ z < 4294967296.
Definition is_u64 (z : Z) : Prop := 0 ≤ z < 18446744073709551616.
Definition is_i32 (z : Z) : Prop := -2147483648 ≤ z < 2147483648.

#[export] Instance is_u8_dec z : Decision (is_u8 z).
Proof. unfold is_u8. apply _. Defined.
#[export] Instance is_u16_dec z : Decision (is_u16 z).
Proof. unfold is_u16. apply _. Defined.
#[export] Instance is_u32_dec z : Decision (is_u32 z).
Proof. unfold is_u32. apply _. Defined.
#[export] Instance is_u64_dec z : Decision (is_u64 z).
Proof. unfold is_u64. apply _. Defined.
#[export] Instance is_i32_dec z : Decision (is_i32 z).
Proof. unfold is_i32. apply _. Defined.

(** The plain operators [+ - *]: out of range they panic when the build checks
    overflow ([oc = true], the debug profile) and wrap when it does not. *)
Definition add_u32 (oc : bool) (a b : Z) : option Z :=
  if bool_decide (is_u32 (a + b)) then Some (a + b)
  else if oc then None else Some (wrap32 (a + b)).
Definition add_u64 (oc : bool) (a b : Z) : option Z :=
  if bool_decide (is_u64 (a + b)) then Some (a + b)
  else if oc then None else Some (wrap64 (a + b)).
Definition chk_u64 (oc : bool) (z : Z) : option Z :=
  if bool_decide (is_u64 z) then Some z
  else if oc then None else Some (wrap64 z).
Definition chk_i32 (oc : bool) (z : Z) : option Z :=
  if bool_decide (is_i32 z) then Some z
  else if oc then None else Some (wrap_i32 z).

(** The automation of machine arithmetic: unfold the widths and let [lia]
    reason about the divisions. *)
Ltac unfold_int :=
  unfold wrap8, wrap16, wrap32, wrap64, wrap_i32, is_u8, is_u16, is_u32, is_u64, is_i32 in *.
Ltac int_lia := unfold_int; Z.to_euclidean_division_equations; lia.

Lemma wrap8_u8 z : is_u8 (wrap8 z). Proof. int_lia. Qed.
Lemma wrap16_u16 z : is_u16 (wrap16 z). Proof. int_lia. Qed.
Lemma wrap32_u32 z : is_u32 (wrap32 z). Proof. int_lia. Qed.
Lemma wrap64_u64 z : is_u64 (wrap64 z). Proof. int_lia. Qed.
Lemma wrap8_id z : is_u8 z → wrap8 z = z. Proof. intros; int_lia. Qed.
Lemma wrap16_id z : is_u16 z → wrap16 z = z. Proof. intros; int_lia. Qed.
Lemma wrap32_id z : is_u32 z → wrap32 z = z. Proof. intros; int_lia. Qed.
Lemma u8_u16 z : is_u8 z → is_u16 z. Proof. unfold_int; lia. Qed.

(** A closed decidable goal, such as the range of a literal. *)
Ltac closed := apply (bool_decide_unpack _); vm_compute; exact I.

Create HintDb rust discriminated.
#[export] Hint Resolve wrap8_u8 wrap16_u16 wrap32_u32 wrap64_u64 u8_u16 : rust.

Lemma chk_i32_ok oc z : is_i32 z → chk_i32 oc z = Some z.
Proof. intros H. unfold chk_i32. by rewrite bool_decide_true. Qed.
Lemma chk_u64_ok oc z : is_u64 z → chk_u64 oc z = Some z.
Proof. intros H. unfold chk_u64. by rewrite bool_decide_true. Qed.
Lemma add_u32_ok oc a b : is_u32 (a + b) → add_u32 oc a b = Some (a + b).
Proof. intros H. unfold add_u32. by rewrite bool_decide_true. Qed.
Lemma add_u64_ok oc a b : is_u64 (a + b) → add_u64 oc a b = Some (a + b).
Proof. intros H. unfold add_u64. by rewrite bool_decide_true. Qed.

(** ** Reasoning on bytes by enumeration

    A boolean property of a byte (or of a pair of bytes) holds of every byte
    when it evaluates to [true] on all 256 (or 65536) of them. *)
Definition bytes : list Z := seqZ 0 256.

Lemma byte_enum (P : Z → bool) : forallb P bytes = true → ∀ b, is_u8 b → P b = true.
Proof.
  intros H b Hb. rewrite forallb_forall in H. apply H.
  apply list_elem_of_In, elem_of_seqZ. unfold_int. lia.
Qed.

Lemma byte2_enum (P : Z → Z → bool) :
  forallb (λ a, forallb (P a) bytes) bytes = true →
  ∀ a b, is_u8 a → is_u8 b → P a b = true.
Proof.
  intros H a b Ha Hb. apply byte_enum; [|done].
  by apply (byte_enum (λ a, forallb (P a) bytes)).
Qed.

(** ** Bit operations stay within a width *)
Lemma pow2_bits_bound n z : 0 ≤ n → 0 ≤ z → (∀ i, n ≤ i → Z.testbit z i = false) → z < 2 ^ n.
Proof.
  intros Hn Hz Hb. destruct (Z.eq_dec z 0) as [->|Hz0]; [by apply Z.pow_pos_nonneg|].
  apply Z.log2_lt_pow2; [lia|]. destruct (Z.lt_ge_cases (Z.log2 z) n) as [|Hge]; [done|].
  specialize (Hb _ Hge). rewrite Z.bit_log2 in Hb; [done|lia].
Qed.

Lemma testbit_above n z i : 0 ≤ z < 2 ^ n → n ≤ i → Z.testbit z i = false.
Proof.
  intros Hz Hi. destruct (Z.eq_dec z 0) as [->|Hz0]; [apply Z.bits_0|].
  destruct (Z.lt_ge_cases n 0) as [Hn|Hn]; [rewrite Z.pow_neg_r in Hz; lia|].
  apply Z.bits_above_log2; [lia|]. enough (Z.log2 z < n) by lia.
  apply Z.log2_lt_pow2; lia.
Qed.

Section bit_bounds.
Context (n : Z) (p q : Z) (Hn : 0 ≤ n) (Hp : 0 ≤ p < 2 ^ n) (Hq : 0 ≤ q < 2 ^ n).

Lemma lor_bound : 0 ≤ Z.lor p q < 2 ^ n.
Proof using All.
  split; [apply Z.lor_nonneg; lia|].
  apply pow2_bits_bound; [done|apply Z.lor_nonneg; lia|]. intros i Hi.
  by rewrite Z.lor_spec, !(testbit_above n).
Qed.
Lemma lxor_bound : 0 ≤ Z.lxor p q < 2 ^ n.
Proof using All.
  assert (0 ≤ Z.lxor p q) by (apply Z.lxor_nonneg; lia). split; [done|].
  apply pow2_bits_bound; [done..|]. intros i Hi.
  by rewrite Z.lxor_spec, !(testbit_above n).
Qed.
Lemma land_bound : 0 ≤ Z.land p q < 2 ^ n.
Proof using All.
  assert (0 ≤ Z.land p q) by (apply Z.land_nonneg; lia). split; [done|].
  apply pow2_bits_bound; [done..|]. intros i Hi.
  by rewrite Z.land_spec, !(testbit_above n).
Qed.
End bit_bounds.

Lemma u8_lor p q : is_u8 p → is_u8 q → is_u8 (Z.lor p q).
Proof. apply (lor_bound 8); lia. Qed.
Lemma u8_lxor p q : is_u8 p → is_u8 q → is_u8 (Z.lxor p q).
Proof. apply (lxor_bound 8); lia. Qed.
Lemma u8_land p q : is_u8 p → is_u8 q → is_u8 (Z.land p q).
Proof. apply (land_bound 8); lia. Qed.
Lemma u16_lor p q : is_u16 p → is_u16 q → is_u16 (Z.lor p q).
Proof. apply (lor_bound 16); lia. Qed.
Lemma u16_land p q : is_u16 p → is_u16 q → is_u16 (Z.land p q).
Proof. apply (land_bound 16); lia. Qed.
#[export] Hint Resolve u8_lor u8_lxor u8_land u16_lor u16_land : rust.

(** Joining a low part below [2^n] with a high part shifted past it adds them. *)
Lemma lor_shiftl_add n lo hi :
  0 ≤ n → 0 ≤ lo < 2 ^ n → Z.lor lo (Z.shiftl hi n) = lo + hi * 2 ^ n.
Proof.
  intros Hn Hlo. assert (0 < 2 ^ n) by lia. apply Z.bits_inj'. intros i Hi.
  rewrite Z.lor_spec, Z.shiftl_spec by done.
  destruct (Z.lt_ge_cases i n) as [Hlt|Hge].
  - rewrite (Z.testbit_neg_r hi) by lia. rewrite orb_false_r.
    rewrite <-(Z.mod_pow2_bits_low (lo + hi * 2 ^ n) n i) by done.
    by rewrite Z_mod_plus_full, Z.mod_small.
  - rewrite (testbit_above n lo) by done. simpl.
    rewrite <-(Z.sub_add n i) at 2. rewrite <-Z.div_pow2_bits by lia.
    by rewrite Z.div_add, Z.div_small by lia.
Qed.

(** ** Elements of a list that differ pairwise *)
Definition pairwise {A} (R : A → A → Prop) (l : list A) : Prop :=
  ∀ i j x y, i ≠ j → l !! i = Some x → l !! j = Some y → R x y.

Lemma pairwise_nil {A} (R : A → A → Prop) : pairwise R [].
Proof. intros i j x y _ H. by rewrite lookup_nil in H. Qed.

Lemma pairwise_snoc {A} (R : A → A → Prop) l a :
  pairwise R l → (∀ x, x ∈ l → R x a ∧ R a x) → pairwise R (l ++ [a]).
Proof.
  intros Hl Ha i j x y Hij [Hi|[Hi <-]]%lookup_snoc_Some [Hj|[Hj <-]]%lookup_snoc_Some.
  - by apply (Hl i j); [|apply Hi|apply Hj].
  - eapply Ha, list_elem_of_lookup_2, Hi.
  - eapply Ha, list_elem_of_lookup_2, Hj.
  - congruence.
Qed.

Lemma pairwise_insert {A} (R : A → A → Prop) l i a :
  pairwise R l → (∀ j x, j ≠ i → l !! j = Some x → R x a ∧ R a x) → pairwise R (<[i := a]> l).
Proof.
  intros Hl Ha j k x y Hjk [(-> & <- & _)|[Hj Ej]]%list_lookup_insert_Some
    [(-> & <- & _)|[Hk Ek]]%list_lookup_insert_Some; [done| | |by eapply (Hl j k)].
  - by eapply (Ha k).
  - by eapply (Ha j).
Qed.
