(* ===== verification/RustStr.v ===== *)
(** * Rust strings

    What the projects use of [str], [char] and the integer parsers of Rust's
    standard library.  A [char] is its code point, a [str] the list of its
    chars; [RustUtf8] relates it to bytes.  No definition here models a file of
    the repository. *)
From S2P Require Import Prelude.
From Stdlib Require Ascii String.
From stdpp Require Export strings.
#[global] Close Scope string_scope.
#[global] Open Scope list_scope.
#[global] Open Scope Z_scope.

Abbreviation char := Z (only parsing).
Abbreviation str := (list Z) (only parsing).

(** A literal of the source.  The backquote stands for the double quote, and
    occurs in no literal of the source. *)
Definition char_of_ascii (c : Ascii.ascii) : char :=
  let n := Z.of_N (Ascii.N_of_ascii c) in if n =? 96 then 34 else n.
Definition lit (s : String.string) : str := List.map char_of_ascii (String.list_ascii_of_string s).
Arguments lit s%_string.

Definition LF : char := 10.
Definition CR : char := 13.
Definition TAB : char := 9.
Definition SPACE : char := 32.
Definition BACKSLASH : char := 92.

(** Unicode scalar values: the code points a [char] can be. *)
Definition is_scalar (c : Z) : bool :=
  ((0 <=? c) && (c <? 0xD800)) || ((0xE000 <=? c) && (c <? 0x110000)).

(** [char::is_whitespace]: the White_Space property. *)
Definition is_whitespace (c : char) : bool :=
  ((9 <=? c) && (c <=? 13)) || (c =? 0x20) || (c =? 0x85) || (c =? 0xA0) || (c =? 0x1680)
  || ((0x2000 <=? c) && (c <=? 0x200A)) || (c =? 0x2028) || (c =? 0x2029) || (c =? 0x202F)
  || (c =? 0x205F) || (c =? 0x3000).

Definition is_ascii_digit (c : char) : bool := (48 <=? c) && (c <=? 57).
Definition is_ascii_upper (c : char) : bool := (65 <=? c) && (c <=? 90).
Definition is_ascii_lower (c : char) : bool := (97 <=? c) && (c <=? 122).
Definition is_ascii_alphanumeric (c : char) : bool :=
  is_ascii_digit c || is_ascii_upper c || is_ascii_lower c.
Definition is_ascii_hexdigit (c : char) : bool :=
  is_ascii_digit c || ((65 <=? c) && (c <=? 70)) || ((97 <=? c) && (c <=? 102)).

Definition ascii_lower (c : char) : char := if is_ascii_upper c then c + 32 else c.
Definition to_ascii_lowercase (s : str) : str := List.map ascii_lower s.
Definition eq_ignore_ascii_case (s t : str) : bool :=
  bool_decide (to_ascii_lowercase s = to_ascii_lowercase t).

(** ** Searching, trimming and splitting *)
Fixpoint drop_while (p : char → bool) (s : str) : str :=
  match s with
  | [] => []
  | c :: s' => if p c then drop_while p s' else s
  end.
Fixpoint take_while (p : char → bool) (s : str) : str :=
  match s with
  | [] => []
  | c :: s' => if p c then c :: take_while p s' else []
  end.

Definition trim_start (s : str) : str := drop_while is_whitespace s.
Definition trim_end (s : str) : str := rev (drop_while is_whitespace (rev s)).
Definition trim (s : str) : str := trim_end (trim_start s).
Definition trim_start_matches (c : char) (s : str) : str := drop_while (Z.eqb c) s.

Fixpoint starts_with (p s : str) : bool :=
  match p, s with
  | [], _ => true
  | c :: p', d :: s' => (c =? d) && starts_with p' s'
  | _ :: _, [] => false
  end.

(** [s.split(c)]: one piece more than separators. *)
Fixpoint split_on (c : char) (s : str) : list str :=
  match s with
  | [] => [[]]
  | d :: s' =>
      if d =? c then [] :: split_on c s'
      else match split_on c s' with
           | [] => [[d]]
           | p :: ps => (d :: p) :: ps
           end
  end.

Fixpoint split_once (c : char) (s : str) : option (str * str) :=
  match s with
  | [] => None
  | d :: s' =>
      if d =? c then Some ([], s')
      else match split_once c s' with
           | Some (p, q) => Some (d :: p, q)
           | None => None
           end
  end.

(** [s.splitn(n, c)]: at most [n] pieces, the last one unsplit. *)
Fixpoint splitn (n : nat) (c : char) (s : str) : list str :=
  match n with
  | O => []
  | S O => [s]
  | S n' =>
      match split_once c s with
      | Some (p, q) => p :: splitn n' c q
      | None => [s]
      end
  end.

(** [s.lines()]: split after each line feed, no piece after a final one, and
    one carriage return before the line feed dropped. *)
Definition strip_cr (s : str) : str :=
  match rev s with
  | c :: r => if c =? CR then rev r else s
  | [] => s
  end.
Fixpoint lines_from (pieces : list str) : list str :=
  match pieces with
  | [] => []
  | [p] => match p with [] => [] | _ => [p] end
  | p :: ps => strip_cr p :: lines_from ps
  end.
Definition lines (s : str) : list str := lines_from (split_on LF s).

Fixpoint join (sep : str) (l : list str) : str :=
  match l with
  | [] => []
  | [p] => p
  | p :: l' => p ++ sep ++ join sep l'
  end.

(** [s.replace(c, t)] for a char [c]. *)
Definition replace_char (c : char) (t : str) (s : str) : str :=
  flat_map (λ d, if d =? c then t else [d]) s.

(** ** Numbers *)
Fixpoint show_fuel (fuel : nat) (n : Z) : str :=
  match fuel with
  | O => []
  | S fuel => if n <? 10 then [48 + n] else show_fuel fuel (n / 10) ++ [48 + n mod 10]
  end.
(** Decimal display of a natural number. *)
Definition show (n : Z) : str := show_fuel (S (Z.to_nat (Z.log2 n))) n.
(** Decimal display of an [i32]. *)
Definition show_i32 (z : Z) : str := if z <? 0 then lit "-" ++ show (- z) else show z.

Definition digits_value (s : str) : Z := foldl (λ acc c, acc * 10 + (c - 48)) 0 s.

Definition strip_plus (s : str) : str :=
  match s with
  | c :: ((_ :: _) as r) => if c =? 43 then r else s
  | _ => s
  end.

(** [s.parse()] at an unsigned type with values below [bound]: an optional [+],
    then at least one digit; a value out of range is an error. *)
Definition parse_uint (bound : Z) (s : str) : option Z :=
  let ds := strip_plus s in
  match ds with
  | [] => None
  | _ =>
      if forallb is_ascii_digit ds then
        let v := digits_value ds in if v <? bound then Some v else None
      else None
  end.
Definition parse_u32 : str → option Z := parse_uint 4294967296.
Definition parse_u64 : str → option Z := parse_uint 18446744073709551616.
(** [usize] is 64 bits wide. *)
Definition parse_usize : str → option Z := parse_uint 18446744073709551616.

Definition show_bool (b : bool) : str := if b then lit "true" else lit "false".
Definition parse_bool (s : str) : option bool :=
  if bool_decide (s = lit "true") then Some true
  else if bool_decide (s = lit "false") then Some false else None.

(** ** Lemmas: numbers *)
Lemma show_fuel_digits fuel n : 0 ≤ n → forallb is_ascii_digit (show_fuel fuel n) = true.
Proof.
  revert n. induction fuel as [|fuel IH]; intros n Hn; [done|]. cbn [show_fuel].
  destruct (Z.ltb_spec n 10) as [Hlt|Hge].
  - simpl. unfold is_ascii_digit. lia.
  - rewrite forallb_app, IH by int_lia. simpl. unfold is_ascii_digit. rewrite andb_true_r.
    apply andb_true_intro. split; apply Z.leb_le; int_lia.
Qed.

Lemma digits_value_snoc s c : digits_value (s ++ [c]) = digits_value s * 10 + (c - 48).
Proof. unfold digits_value. by rewrite foldl_app. Qed.

Lemma show_fuel_value fuel n : 0 ≤ n < 2 ^ Z.of_nat fuel → digits_value (show_fuel fuel n) = n.
Proof.
  revert n. induction fuel as [|fuel IH]; intros n Hn; [unfold digits_value; simpl in *; lia|].
  cbn [show_fuel]. destruct (Z.ltb_spec n 10) as [Hlt|Hge]; [unfold digits_value; simpl; lia|].
  rewrite digits_value_snoc, IH; [Z.to_euclidean_division_equations; lia|].
  rewrite Nat2Z.inj_succ, Z.pow_succ_r in Hn by lia. Z.to_euclidean_division_equations; lia.
Qed.

Lemma show_value n : 0 ≤ n → digits_value (show n) = n.
Proof.
  intros Hn. apply show_fuel_value. split; [done|].
  rewrite Nat2Z.inj_succ, Z2Nat.id by apply Z.log2_nonneg.
  destruct (Z.eq_dec n 0) as [->|Hz]; [done|]. apply Z.log2_spec. lia.
Qed.

Lemma show_digits n : 0 ≤ n → forallb is_ascii_digit (show n) = true.
Proof. apply show_fuel_digits. Qed.

Lemma show_nonempty n : ∃ c s, show n = c :: s.
Proof.
  unfold show. cbn [show_fuel]. destruct (n <? 10); [eauto|].
  destruct (show_fuel _ (n / 10)); simpl; eauto.
Qed.

Lemma show_not_in n c : 0 ≤ n → is_ascii_digit c = false → c ∉ show n.
Proof.
  intros Hn Hc Hin. pose proof (show_digits n Hn) as H. rewrite forallb_forall in H.
  rewrite (H c) in Hc; [done|]. by apply list_elem_of_In.
Qed.

(** Displaying and parsing back. *)
Lemma parse_show bound n : 0 ≤ n < bound → parse_uint bound (show n) = Some n.
Proof.
  intros Hn. destruct (show_nonempty n) as (c & s & E).
  pose proof (show_digits n (proj1 Hn)) as Hd. pose proof (show_value n (proj1 Hn)) as Hv.
  assert (Hc : is_ascii_digit c = true) by (rewrite E in Hd; simpl in Hd; by apply andb_prop in Hd as [? _]).
  assert (E43 : strip_plus (show n) = show n).
  { rewrite E. destruct s as [|d s]; simpl; [done|].
    destruct (Z.eqb_spec c 43) as [->|]; [discriminate Hc|done]. }
  unfold parse_uint. rewrite E43, Hd, Hv. rewrite E. destruct (Z.ltb_spec n bound); [done|lia].
Qed.

Lemma parse_uint_range bound s n : parse_uint bound s = Some n → 0 ≤ n < bound.
Proof.
  unfold parse_uint. set (ds := strip_plus s). clearbody ds.
  assert (Hge : ∀ l z, forallb is_ascii_digit l = true → 0 ≤ z →
    0 ≤ foldl (λ acc c, acc * 10 + (c - 48)) z l).
  { induction l as [|c l IH]; intros z Hl Hz; simpl; [done|]. simpl in Hl.
    apply andb_prop in Hl as [Hc Hl]. apply IH; [done|]. unfold is_ascii_digit in Hc. lia. }
  destruct ds as [|c ds]; [done|]. destruct (forallb _ _) eqn:Hd; [|done].
  destruct (Z.ltb_spec (digits_value (c :: ds)) bound) as [Hlt|]; [|done]. intros [= <-].
  split; [by apply Hge|done].
Qed.

Lemma parse_show_bool b : parse_bool (show_bool b) = Some b.
Proof. by destruct b. Qed.

(** ** Lemmas: trimming, splitting and joining *)
Lemma drop_while_head p s c : head (drop_while p s) = Some c → p c = false.
Proof.
  induction s as [|d s IH]; simpl; [done|]. destruct (p d) eqn:E; [done|]. by intros [= <-].
Qed.

Lemma drop_while_suffix p s : ∃ k, s = k ++ drop_while p s.
Proof.
  induction s as [|d s [k IH]]; simpl; [by exists []|].
  destruct (p d); [exists (d :: k); simpl; congruence|by exists []].
Qed.

(** Trimmed text neither begins nor ends with white space. *)
Definition trimmed (s : str) : Prop :=
  (∃ c, head s = Some c ∧ is_whitespace c = false) ∧ (∃ c, last s = Some c ∧ is_whitespace c = false).

Lemma trim_trimmed s : trim s ≠ [] → trimmed (trim s).
Proof.
  unfold trim, trim_end. intros Hne. set (t := trim_start s) in *. split.
  - destruct (drop_while_suffix is_whitespace (rev t)) as [k Ek].
    apply (f_equal (@rev Z)) in Ek. rewrite rev_involutive, rev_app_distr in Ek.
    destruct (rev (drop_while is_whitespace (rev t))) as [|c u] eqn:Eu; [done|].
    exists c. split; [done|]. apply (drop_while_head is_whitespace s). fold (trim_start s). fold t. by rewrite Ek.
  - destruct (drop_while is_whitespace (rev t)) as [|c u] eqn:Eu; [done|].
    exists c. split; [by simpl; rewrite last_snoc|]. by apply (drop_while_head is_whitespace (rev t)); rewrite Eu.
Qed.

Lemma split_once_app c p q : c ∉ p → split_once c (p ++ c :: q) = Some (p, q).
Proof.
  induction p as [|d p IH]; intros Hp; simpl; [by rewrite Z.eqb_refl|].
  destruct (Z.eqb_spec d c) as [->|]; [destruct Hp; by left|]. rewrite IH; [done|].
  intros H. apply Hp. by right.
Qed.

Lemma split_on_not_in c s : c ∉ s → split_on c s = [s].
Proof.
  induction s as [|d s IH]; intros Hs; simpl; [done|].
  destruct (Z.eqb_spec d c) as [->|]; [destruct Hs; by left|]. rewrite IH; [done|].
  intros H. apply Hs. by right.
Qed.

Lemma split_on_app c p q : c ∉ p → split_on c (p ++ c :: q) = p :: split_on c q.
Proof.
  induction p as [|d p IH]; intros Hp; simpl; [by rewrite Z.eqb_refl|].
  destruct (Z.eqb_spec d c) as [->|]; [destruct Hp; by left|]. rewrite IH; [done|].
  intros H. apply Hp. by right.
Qed.

Lemma split_on_join c l :
  l ≠ [] → Forall (λ p, (c ∉ p)) l → split_on c (join [c] l) = l.
Proof.
  intros Hne H. induction H as [|p l Hp H IH]; [done|]. destruct l as [|q l].
  - by apply split_on_not_in.
  - change (join [c] (p :: q :: l)) with (p ++ c :: join [c] (q :: l)).
    rewrite split_on_app by done. by rewrite IH.
Qed.

Lemma strip_cr_id s : last s ≠ Some CR → strip_cr s = s.
Proof.
  intros H. unfold strip_cr. destruct (rev s) as [|c r] eqn:E; [done|].
  destruct (Z.eqb_spec c CR) as [->|]; [|done]. destruct H.
  rewrite <-(rev_involutive s), E. simpl. by rewrite last_snoc.
Qed.

(** Lines joined with line feeds are read back, if they are not empty, hold no
    line feed and do not end in a carriage return. *)
Lemma lines_join l :
  Forall (λ p, p ≠ [] ∧ (LF ∉ p) ∧ last p ≠ Some CR) l → lines (join [LF] l) = l.
Proof.
  intros H. destruct l as [|p l]; [done|]. unfold lines.
  rewrite split_on_join; [|done|by eapply Forall_impl; [exact H|naive_solver]].
  induction H as [|q k (Hq & _ & Hcr) Hk IH]; [done|]. destruct k as [|r k].
  - simpl. by destruct q.
  - change (lines_from (q :: r :: k)) with (strip_cr q :: lines_from (r :: k)).
    by rewrite strip_cr_id, IH.
Qed.

(** Lines that each end in a line feed. *)
Lemma lines_terminated ts :
  Forall (λ t, LF ∉ t) ts → lines (flat_map (λ t, t ++ [LF]) ts) = List.map strip_cr ts.
Proof.
  intros Hts. unfold lines.
  assert (E : split_on LF (flat_map (λ t, t ++ [LF]) ts) = ts ++ [[]]).
  { induction Hts as [|t ts Ht Hts IH]; [done|]. cbn [flat_map]. rewrite <-app_assoc.
    change ([LF] ++ ?x) with (LF :: x). rewrite split_on_app by done. by rewrite IH. }
  rewrite E. clear E Hts. induction ts as [|t ts IH]; [done|]. cbn [List.map app]. rewrite <-IH. by destruct ts.
Qed.

Lemma strip_cr_snoc t : strip_cr (t ++ [CR]) = t.
Proof. unfold strip_cr. rewrite rev_app_distr. simpl. by rewrite rev_involutive. Qed.

Lemma replace_char_app c t s1 s2 : replace_char c t (s1 ++ s2) = replace_char c t s1 ++ replace_char c t s2.
Proof. apply flat_map_app. Qed.

Lemma replace_char_cons c t d s :
  replace_char c t (d :: s) = (if d =? c then t else [d]) ++ replace_char c t s.
Proof. done. Qed.

Lemma show_bool_not_in c b : is_ascii_lower c = false → c ∉ show_bool b.
Proof. intros Hc Hin. destruct b; repeat apply elem_of_cons in Hin as [->|Hin]; try done; by apply elem_of_nil in Hin. Qed.
