(* ===== verification/RustUtf8.v ===== *)
(** * UTF-8

    [str::as_bytes], [String::from_utf8] and the readers of bytes of Rust's
    standard library.  No definition here models a file of the repository. *)
From S2P Require Import Prelude RustStr.

(** The bytes of a [char]. *)
Definition utf8_char (c : char) : list Z :=
  if c <? 0x80 then [c]
  else if c <? 0x800 then [0xC0 + c / 64; 0x80 + c mod 64]
  else if c <? 0x10000 then [0xE0 + c / 4096; 0x80 + c / 64 mod 64; 0x80 + c mod 64]
  else [0xF0 + c / 262144; 0x80 + c / 4096 mod 64; 0x80 + c / 64 mod 64; 0x80 + c mod 64].
Definition as_bytes (s : str) : list Z := flat_map utf8_char s.

Definition is_cont (b : Z) : bool := (0x80 <=? b) && (b <? 0xC0).

(** Strict decoding: [None] on any byte sequence that is not well-formed (overlong
    forms, surrogates and values past 0x10FFFF included). *)
Fixpoint from_utf8 (bs : list Z) : option str :=
  match bs with
  | [] => Some []
  | b0 :: r =>
      if b0 <? 0x80 then s ← from_utf8 r; Some (b0 :: s)
      else if b0 <? 0xC2 then None
      else if b0 <? 0xE0 then
        match r with
        | b1 :: r =>
            if is_cont b1 then s ← from_utf8 r; Some ((b0 - 0xC0) * 64 + (b1 - 0x80) :: s) else None
        | _ => None
        end
      else if b0 <? 0xF0 then
        match r with
        | b1 :: b2 :: r =>
            let c := (b0 - 0xE0) * 4096 + (b1 - 0x80) * 64 + (b2 - 0x80) in
            if is_cont b1 && is_cont b2 && (0x800 <=? c) && is_scalar c
            then s ← from_utf8 r; Some (c :: s) else None
        | _ => None
        end
      else if b0 <? 0xF5 then
        match r with
        | b1 :: b2 :: b3 :: r =>
            let c := (b0 - 0xF0) * 262144 + (b1 - 0x80) * 4096 + (b2 - 0x80) * 64 + (b3 - 0x80) in
            if is_cont b1 && is_cont b2 && is_cont b3 && (0x10000 <=? c) && is_scalar c
            then s ← from_utf8 r; Some (c :: s) else None
        | _ => None
        end
      else None
  end.

Lemma is_scalar_spec c : is_scalar c = true ↔ 0 ≤ c < 0xD800 ∨ 0xE000 ≤ c < 0x110000.
Proof. unfold is_scalar. rewrite orb_true_iff, !andb_true_iff, !Z.leb_le, !Z.ltb_lt. done. Qed.

Lemma is_cont_mod n : is_cont (0x80 + n mod 64) = true.
Proof. unfold is_cont. pose proof (Z.mod_pos_bound n 64). lia. Qed.

(** Recombining the six-bit groups. *)
Lemma groups2 c : c / 64 * 64 + c mod 64 = c.
Proof. Z.to_euclidean_division_equations; lia. Qed.
Lemma groups3 c : c / 4096 * 4096 + (c / 64) mod 64 * 64 + c mod 64 = c.
Proof. Z.to_euclidean_division_equations; lia. Qed.
Lemma groups4 c : c / 262144 * 262144 + (c / 4096) mod 64 * 4096 + (c / 64) mod 64 * 64 + c mod 64 = c.
Proof. Z.to_euclidean_division_equations; lia. Qed.

Lemma from_utf8_char c r :
  is_scalar c = true → from_utf8 (utf8_char c ++ r) = s ← from_utf8 r; Some (c :: s).
Proof.
  intros Hc. pose proof Hc as Hs. apply is_scalar_spec in Hs. unfold utf8_char.
  destruct (Z.ltb_spec c 0x80).
  { simpl. by rewrite (proj2 (Z.ltb_lt c 128)). }
  destruct (Z.ltb_spec c 0x800).
  { assert (2 ≤ c / 64 < 32) by (Z.to_euclidean_division_equations; lia). cbn [app from_utf8].
    rewrite (proj2 (Z.ltb_ge _ _)), (proj2 (Z.ltb_ge _ _)), (proj2 (Z.ltb_lt _ _)), is_cont_mod by lia.
    by rewrite !Z.add_simpl_l, groups2. }
  destruct (Z.ltb_spec c 0x10000).
  { assert (0 ≤ c / 4096 < 16) by (Z.to_euclidean_division_equations; lia). cbn [app from_utf8].
    rewrite (proj2 (Z.ltb_ge _ _)), (proj2 (Z.ltb_ge _ _)), (proj2 (Z.ltb_ge _ _)), (proj2 (Z.ltb_lt _ _)) by lia.
    rewrite !is_cont_mod, !Z.add_simpl_l, groups3, Hc, (proj2 (Z.leb_le _ _)) by lia. done. }
  assert (0 ≤ c / 262144 < 5) by (Z.to_euclidean_division_equations; lia). cbn [app from_utf8].
  rewrite (proj2 (Z.ltb_ge _ _)), (proj2 (Z.ltb_ge _ _)), (proj2 (Z.ltb_ge _ _)), (proj2 (Z.ltb_ge _ _)),
    (proj2 (Z.ltb_lt _ _)) by lia.
  rewrite !is_cont_mod, !Z.add_simpl_l, groups4, Hc, (proj2 (Z.leb_le _ _)) by lia. done.
Qed.

Lemma as_bytes_cons c s : as_bytes (c :: s) = utf8_char c ++ as_bytes s.
Proof. done. Qed.

(** Decoding undoes encoding. *)
Lemma from_utf8_as_bytes s : forallb is_scalar s = true → from_utf8 (as_bytes s) = Some s.
Proof.
  induction s as [|c s IH]; intros H; [done|]. simpl in H. apply andb_prop in H as [Hc Hs].
  rewrite as_bytes_cons, from_utf8_char by done. by rewrite IH.
Qed.

Lemma utf8_char_bytes c : is_scalar c = true → Forall is_u8 (utf8_char c).
Proof.
  intros Hc%is_scalar_spec. unfold utf8_char, is_u8.
  repeat case_match; repeat constructor; Z.to_euclidean_division_equations; lia.
Qed.

Lemma as_bytes_bytes s : forallb is_scalar s = true → Forall is_u8 (as_bytes s).
Proof.
  induction s as [|c s IH]; intros H; [constructor|]. simpl in H. apply andb_prop in H as [Hc Hs].
  rewrite as_bytes_cons. apply Forall_app. split; [by apply utf8_char_bytes|by apply IH].
Qed.

Lemma as_bytes_app s t : as_bytes (s ++ t) = as_bytes s ++ as_bytes t.
Proof. apply flat_map_app. Qed.

(** Text in ASCII is its own encoding. *)
Definition is_ascii (c : char) : bool := (0 <=? c) && (c <? 0x80).
Lemma as_bytes_ascii s : forallb is_ascii s = true → as_bytes s = s.
Proof.
  induction s as [|c s IH]; intros H; [done|]. simpl in H. apply andb_prop in H as [Hc Hs].
  rewrite as_bytes_cons, IH by done. unfold utf8_char, is_ascii in *.
  by destruct (c <? 128); [|lia].
Qed.

(** ** Lossy decoding

    [String::from_utf8_lossy]: each maximal piece that begins no character, or that
    breaks one off, becomes U+FFFD.  Not every continuation byte may follow every
    leading byte. *)
Definition REPLACEMENT : char := 0xFFFD.
Definition second_ok (b0 b1 : Z) : bool :=
  if b0 =? 0xE0 then (0xA0 <=? b1) && (b1 <=? 0xBF)
  else if b0 =? 0xED then (0x80 <=? b1) && (b1 <=? 0x9F)
  else if b0 =? 0xF0 then (0x90 <=? b1) && (b1 <=? 0xBF)
  else if b0 =? 0xF4 then (0x80 <=? b1) && (b1 <=? 0x8F)
  else is_cont b1.

Fixpoint from_utf8_lossy (bs : list Z) : str :=
  match bs with
  | [] => []
  | b0 :: r =>
      if b0 <? 0x80 then b0 :: from_utf8_lossy r
      else if (b0 <? 0xC2) || (0xF5 <=? b0) then REPLACEMENT :: from_utf8_lossy r
      else
        match r with
        | [] => [REPLACEMENT]
        | b1 :: r1 =>
            if b0 <? 0xE0 then
              if is_cont b1 then (b0 - 0xC0) * 64 + (b1 - 0x80) :: from_utf8_lossy r1
              else REPLACEMENT :: from_utf8_lossy r
            else if negb (second_ok b0 b1) then REPLACEMENT :: from_utf8_lossy r
            else
              match r1 with
              | [] => [REPLACEMENT]
              | b2 :: r2 =>
                  if negb (is_cont b2) then REPLACEMENT :: from_utf8_lossy r1
                  else if b0 <? 0xF0 then
                    (b0 - 0xE0) * 4096 + (b1 - 0x80) * 64 + (b2 - 0x80) :: from_utf8_lossy r2
                  else
                    match r2 with
                    | [] => [REPLACEMENT]
                    | b3 :: r3 =>
                        if is_cont b3 then
                          (b0 - 0xF0) * 262144 + (b1 - 0x80) * 4096 + (b2 - 0x80) * 64 + (b3 - 0x80)
                          :: from_utf8_lossy r3
                        else REPLACEMENT :: from_utf8_lossy r2
                    end
              end
        end
  end.

Lemma second_ok_cont b0 b1 :
  is_cont b1 = true → (b0 = 0xE0 → 0xA0 ≤ b1) → (b0 = 0xED → b1 ≤ 0x9F) → (b0 = 0xF0 → 0x90 ≤ b1) →
  (b0 = 0xF4 → b1 ≤ 0x8F) → second_ok b0 b1 = true.
Proof.
  unfold second_ok, is_cont. intros Hc H1 H2 H3 H4.
  destruct (Z.eqb_spec b0 0xE0); [lia|]. destruct (Z.eqb_spec b0 0xED); [lia|].
  destruct (Z.eqb_spec b0 0xF0); [lia|]. destruct (Z.eqb_spec b0 0xF4); lia.
Qed.

Lemma is_cont_bounds b : is_cont b = true → 0x80 ≤ b < 0xC0.
Proof. unfold is_cont. lia. Qed.

Lemma second_ok_bounds b0 b1 : second_ok b0 b1 = true →
  0x80 ≤ b1 < 0xC0 ∧ (b0 = 0xE0 → 0xA0 ≤ b1) ∧ (b0 = 0xED → b1 ≤ 0x9F) ∧ (b0 = 0xF0 → 0x90 ≤ b1) ∧
  (b0 = 0xF4 → b1 ≤ 0x8F).
Proof.
  unfold second_ok, is_cont. destruct (Z.eqb_spec b0 0xE0); [lia|]. destruct (Z.eqb_spec b0 0xED); [lia|].
  destruct (Z.eqb_spec b0 0xF0); [lia|]. destruct (Z.eqb_spec b0 0xF4); lia.
Qed.

(** The leading byte of a character decides how it is read. *)
Ltac decide_byte :=
  repeat (first [rewrite (proj2 (Z.ltb_lt _ _)) by lia | rewrite (proj2 (Z.ltb_ge _ _)) by lia
                |rewrite (proj2 (Z.leb_gt _ _)) by lia]; cbn [orb]).

Lemma from_utf8_lossy_char c r :
  is_scalar c = true → from_utf8_lossy (utf8_char c ++ r) = c :: from_utf8_lossy r.
Proof.
  intros Hc%is_scalar_spec. unfold utf8_char.
  destruct (Z.ltb_spec c 0x80); [cbn [app from_utf8_lossy]; by decide_byte|].
  destruct (Z.ltb_spec c 0x800).
  { assert (2 ≤ c / 64 < 32) by (Z.to_euclidean_division_equations; lia). cbn [app from_utf8_lossy].
    decide_byte. rewrite is_cont_mod, !Z.add_simpl_l. by rewrite groups2. }
  destruct (Z.ltb_spec c 0x10000).
  { assert (0 ≤ c / 4096 < 16) by (Z.to_euclidean_division_equations; lia). cbn [app from_utf8_lossy].
    decide_byte. rewrite second_ok_cont; [|apply is_cont_mod|Z.to_euclidean_division_equations; lia..].
    rewrite is_cont_mod. cbn [negb]. decide_byte. by rewrite !Z.add_simpl_l, groups3. }
  assert (0 ≤ c / 262144 < 5) by (Z.to_euclidean_division_equations; lia). cbn [app from_utf8_lossy].
  decide_byte. rewrite second_ok_cont; [|apply is_cont_mod|Z.to_euclidean_division_equations; lia..].
  rewrite !is_cont_mod. cbn [negb]. decide_byte. by rewrite !Z.add_simpl_l, groups4.
Qed.

Lemma from_utf8_lossy_as_bytes s : forallb is_scalar s = true → from_utf8_lossy (as_bytes s) = s.
Proof.
  induction s as [|c s IH]; intros H; [done|]. simpl in H. apply andb_prop in H as [Hc Hs].
  rewrite as_bytes_cons, from_utf8_lossy_char by done. by rewrite IH.
Qed.

(** Only scalar values come out. *)
Lemma from_utf8_lossy_scalar bs : Forall is_u8 bs → forallb is_scalar (from_utf8_lossy bs) = true.
Proof.
  remember (length bs) as n eqn:En. revert bs En. induction n as [n IH] using lt_wf_ind. intros bs -> Hbs.
  assert (Ht : ∀ c r, is_scalar c = true → (length r < length bs)%nat → Forall is_u8 r →
    forallb is_scalar (c :: from_utf8_lossy r) = true).
  { intros c r Hc Hr Hf. simpl. rewrite Hc. by apply (IH (length r)). }
  destruct Hbs as [|b0 r H0 Hr]; [done|]. cbn [from_utf8_lossy].
  destruct (Z.ltb_spec b0 0x80); [apply Ht; [apply is_scalar_spec; unfold_int; lia|simpl; lia|done]|].
  destruct (Z.ltb_spec b0 0xC2), (Z.leb_spec 0xF5 b0); cbn [orb]; try (apply Ht; [done|simpl; lia|done]).
  destruct Hr as [|b1 r1 Hb1 Hr1]; [done|].
  destruct (Z.ltb_spec b0 0xE0).
  { destruct (is_cont b1) eqn:E1; apply Ht; try done; try (simpl; lia); [|by constructor].
    apply is_scalar_spec. unfold is_cont in E1. lia. }
  destruct (second_ok b0 b1) eqn:Es; cbn [negb]; [|apply Ht; [done|simpl; lia|by constructor]].
  apply second_ok_bounds in Es as (B1 & B2 & B3 & B4 & B5).
  destruct Hr1 as [|b2 r2 Hb2 Hr2]; [done|].
  destruct (is_cont b2) eqn:E2; cbn [negb]; [|apply Ht; [done|simpl; lia|by constructor]].
  apply is_cont_bounds in E2. destruct (Z.ltb_spec b0 0xF0).
  { apply Ht; [apply is_scalar_spec; lia|simpl; lia|done]. }
  destruct Hr2 as [|b3 r3 Hb3 Hr3]; [done|].
  destruct (is_cont b3) eqn:E3; apply Ht; try done; try (simpl; lia); [|by constructor].
  apply is_cont_bounds in E3. apply is_scalar_spec. lia.
Qed.

(** ** Readers

    A reader is the list of bytes still to come; its end is the end of the
    stream.  A computation on a reader panics ([None]), fails with an
    [io::Error], or returns a value and the rest of the stream; [let!] is the
    sequencing with [?]. *)
Inductive io_error : Set := UnexpectedEof | InvalidData.

Definition reading (E A : Type) : Type := list Z → option (result (A * list Z) E).
Definition rret {E A} (a : A) : reading E A := λ r, Some (Ok (a, r)).
Definition rfail {E A} (e : E) : reading E A := λ _, Some (Err e).
Definition rbind {E A B} (m : reading E A) (k : A → reading E B) : reading E B := λ r,
  match m r with
  | None => None
  | Some (Err e) => Some (Err e)
  | Some (Ok (a, r')) => k a r'
  end.
Notation "'let!' x := m 'in' k" := (rbind m (λ x, k))
  (at level 10, x name, m at level 100, k at level 200).

(** A computation that can only panic. *)
Definition or_panic {E A} (o : option A) : reading E A := λ r,
  match o with Some a => Some (Ok (a, r)) | None => None end.

(** The conversion of errors that [?] makes. *)
Definition map_err {E F A} (f : E → F) (m : reading E A) : reading F A := λ r,
  match m r with
  | None => None
  | Some (Err e) => Some (Err (f e))
  | Some (Ok x) => Some (Ok x)
  end.

(** [r.read_exact(&mut buf)?] fails when there are too few bytes. *)
Definition read_exact (n : Z) : reading io_error (list Z) := λ r,
  if n <=? Z.of_nat (length r) then Some (Ok (take (Z.to_nat n) r, drop (Z.to_nat n) r))
  else Some (Err UnexpectedEof).

(** [vec![0u8; len]] panics on more than [isize::MAX] bytes ("capacity
    overflow"); that a smaller allocation can fail is not modelled. *)
Definition ISIZE_MAX : Z := 9223372036854775807.
Definition alloc (len : Z) : option unit := if len <=? ISIZE_MAX then Some tt else None.

(** The bytes up to and including the first line feed, and the rest. *)
Fixpoint split_line (r : list Z) : list Z * list Z :=
  match r with
  | [] => ([], [])
  | b :: r' => if b =? LF then ([b], r') else let '(l, q) := split_line r' in (b :: l, q)
  end.

(** [reader.read_line(&mut line)?], which is the line, empty at the end of the
    stream; bytes that are not UTF-8 are an error. *)
Definition read_line : reading io_error str := λ r,
  let '(l, q) := split_line r in
  match from_utf8 l with Some s => Some (Ok (s, q)) | None => Some (Err InvalidData) end.

Definition crlf : str := [CR; LF].

Lemma rbind_eq {E A B} (m : reading E A) (k : A → reading E B) r a r' :
  m r = Some (Ok (a, r')) → rbind m k r = k a r'.
Proof. intros H. unfold rbind. by rewrite H. Qed.

Lemma rbind_inv {E A B} (m : reading E A) (k : A → reading E B) r b r' :
  rbind m k r = Some (Ok (b, r')) → ∃ a r1, m r = Some (Ok (a, r1)) ∧ k a r1 = Some (Ok (b, r')).
Proof. unfold rbind. destruct (m r) as [[[a r1]|e]|]; [eauto|done|done]. Qed.

Lemma map_err_ok {E F A} (f : E → F) (m : reading E A) r x : m r = Some (Ok x) → map_err f m r = Some (Ok x).
Proof. intros H. unfold map_err. by rewrite H. Qed.

Lemma read_exact_inv n r a r' : read_exact n r = Some (Ok (a, r')) → 0 ≤ n → r = a ++ r' ∧ Z.of_nat (length a) = n.
Proof.
  unfold read_exact. destruct (Z.leb_spec n (Z.of_nat (length r))); [|done]. intros [= <- <-] Hn.
  rewrite take_drop, length_take. split; [done|lia].
Qed.

Lemma read_exact_app n p r : Z.of_nat (length p) = n → read_exact n (p ++ r) = Some (Ok (p, r)).
Proof.
  intros <-. unfold read_exact. rewrite length_app, (proj2 (Z.leb_le _ _)) by lia.
  by rewrite Nat2Z.id, take_app_length, drop_app_length.
Qed.

(** A computation is stable if more bytes on the stream do not change its outcome,
    except that it may no longer run out of them. *)
Definition stable {A} (m : reading io_error A) : Prop := ∀ r q,
  match m r with
  | None => m (r ++ q) = None
  | Some (Ok (a, r')) => m (r ++ q) = Some (Ok (a, r' ++ q))
  | Some (Err e) => e = UnexpectedEof
  end.

Lemma stable_bind {A B} (m : reading io_error A) (k : A → reading io_error B) :
  stable m → (∀ a, stable (k a)) → stable (rbind m k).
Proof.
  intros Hm Hk r q. unfold rbind. specialize (Hm r q). destruct (m r) as [[[a r']|e]|]; [|done|by rewrite Hm].
  rewrite Hm. apply Hk.
Qed.

Lemma stable_ret {A} (a : A) : stable (rret (E := io_error) a).
Proof. by intros r q. Qed.

Lemma stable_panic {A} (o : option A) : stable (or_panic (E := io_error) o).
Proof. by destruct o; intros r q. Qed.

Lemma stable_read_exact n : stable (read_exact n).
Proof.
  intros r q. unfold read_exact. destruct (Z.leb_spec n (Z.of_nat (length r))) as [H|]; [|done].
  rewrite length_app, (proj2 (Z.leb_le _ _)) by lia. by rewrite take_app_le, drop_app_le by lia.
Qed.

Ltac solve_stable :=
  repeat lazymatch goal with
  | |- stable (rbind _ _) => apply stable_bind; [|intros]
  | |- stable (rret _) => apply stable_ret
  | |- stable (or_panic _) => apply stable_panic
  | |- stable (read_exact _) => apply stable_read_exact
  | |- stable (if ?b then _ else _) => destruct b
  | |- stable (match ?o with Some _ => _ | None => _ end) => destruct o
  end.

(** ** Reading lines *)
Lemma utf8_char_no_lf c : is_scalar c = true → c ≠ LF → LF ∉ utf8_char c.
Proof.
  intros Hc%is_scalar_spec Hne. unfold LF in *. unfold utf8_char.
  repeat case_match; intros Hin;
    repeat (apply elem_of_cons in Hin as [Hin|Hin]; [exfalso; Z.to_euclidean_division_equations; lia|]);
    by apply elem_of_nil in Hin.
Qed.

Lemma as_bytes_no_lf s : forallb is_scalar s = true → LF ∉ s → LF ∉ as_bytes s.
Proof.
  induction s as [|c s IH]; intros Hs Hlf; [apply not_elem_of_nil|].
  simpl in Hs. apply andb_prop in Hs as [Hc Hs]. apply not_elem_of_cons in Hlf as [Hne Hlf].
  rewrite as_bytes_cons, not_elem_of_app. split; [by apply utf8_char_no_lf; [|congruence]|by apply IH].
Qed.

Lemma split_line_app l q : LF ∉ l → split_line (l ++ LF :: q) = (l ++ [LF], q).
Proof.
  induction l as [|b l IH]; intros H; cbn [app split_line]; [done|].
  apply not_elem_of_cons in H as [Hne H]. rewrite (proj2 (Z.eqb_neq _ _)) by congruence. by rewrite IH.
Qed.

Lemma read_line_spec l q :
  forallb is_scalar l = true → LF ∉ l → read_line (as_bytes l ++ LF :: q) = Some (Ok (l ++ [LF], q)).
Proof.
  intros Hl Hlf. unfold read_line. rewrite split_line_app by by apply as_bytes_no_lf.
  change [LF] with (as_bytes [LF]) at 1. rewrite <-as_bytes_app, from_utf8_as_bytes; [done|].
  by rewrite forallb_app, Hl.
Qed.

Lemma read_line_cases r :
  (∃ e, read_line r = Some (Err e)) ∨
  ∃ s r', read_line r = Some (Ok (s, r')) ∧ (s = [] ∨ (length r' < length r)%nat).
Proof.
  unfold read_line.
  assert (H : ∀ r, let '(l, q) := split_line r in r = l ++ q).
  { clear r. induction r as [|b r IH]; simpl; [done|]. destruct (b =? LF); [done|].
    destruct (split_line r) as [l q]. simpl. by rewrite IH. }
  specialize (H r). destruct (split_line r) as [l q]. destruct (from_utf8 l) as [s|] eqn:E; [|left; eauto].
  right. exists s, q. split; [done|]. subst r. rewrite length_app. destruct l as [|b l]; [|right; simpl; lia].
  left. by injection E as <-.
Qed.

(** Big-endian bytes. *)
Fixpoint to_be_bytes (n : nat) (z : Z) : list Z :=
  match n with O => [] | S n => to_be_bytes n (z / 256) ++ [z mod 256] end.
Definition from_be_bytes (bs : list Z) : Z := foldl (λ acc b, acc * 256 + b) 0 bs.

Lemma to_be_bytes_length n z : length (to_be_bytes n z) = n.
Proof. revert z. induction n as [|n IH]; intros z; simpl; [done|]. rewrite length_app, IH. simpl. lia. Qed.

Lemma to_be_bytes_u8 n z : Forall is_u8 (to_be_bytes n z).
Proof.
  revert z. induction n as [|n IH]; intros z; simpl; [constructor|].
  apply Forall_app. split; [done|]. repeat constructor; int_lia.
Qed.

Lemma from_to_be_bytes n z : 0 ≤ z < 256 ^ Z.of_nat n → from_be_bytes (to_be_bytes n z) = z.
Proof.
  unfold from_be_bytes. revert z. induction n as [|n IH]; intros z Hz; simpl; [simpl in Hz; lia|].
  rewrite Nat2Z.inj_succ, Z.pow_succ_r in Hz by lia. rewrite foldl_app, IH; simpl;
    Z.to_euclidean_division_equations; lia.
Qed.
