(* ===== verification/UnitTest.v ===== *)
(** * Running the repository's unit tests

    The [#[test]] functions of the sources, translated like any other function: a test
    is a value of [option unit], [None] being a failed assertion or a panic of what it
    calls.  The files [..Tests] hold the tests of one project each and run them; they
    check the definitions of the development against what the authors of the programs
    expected of theirs.  No definition here models a file of the repository. *)
From S2P Require Import Prelude RustStr.

#[local] Open Scope rust_scope.

Definition test : Type := option unit.
Definition assert (b : bool) : test := if b then Some tt else None.
Notation "'assert!' b ; k" := (_ ← assert b; k) (at level 20, b at level 80, k at level 200, right associativity) : rust_scope.
Notation "'assert!' b" := (assert b) (at level 20, b at level 80) : rust_scope.
Notation "x '==' y" := (bool_decide (x = y)) (at level 70) : rust_scope.

Definition passes (t : test) : bool := t == Some tt.
Definition all_pass (l : list test) : bool := forallb passes l.

(** [s.contains(needle)], [s.ends_with(t)]. *)
Fixpoint contains (needle s : str) : bool :=
  starts_with needle s || match s with [] => false | _ :: s => contains needle s end.
Definition ends_with (t s : str) : bool := starts_with (rev t) (rev s).
(** [v.contains(x)] for a [Vec]. *)
Definition vec_contains {A} `{EqDecision A} (x : A) (l : list A) : bool := existsb (λ y, bool_decide (y = x)) l.
