(* ===== verification/Bits.v ===== *)
(** * Bit strings

    Numbers and byte strings as lists of bits, the most significant one first: the
    form in which the standards for SHA-1 and base64 are written.  No definition here
    models a file of the repository. *)
From S2P Require Import Prelude RustUtf8.

(** The [n] low bits of a number, and the number that bits stand for. *)
Fixpoint bits (n : nat) (z : Z) : list bool :=
  match n with O => [] | S n => bits n (z / 2) ++ [Z.odd z] end.
Definition value (l : list bool) : Z := foldl (λ v b, 2 * v + Z.b2z b) 0 l.
(** A byte string as bits. *)
Definition bytes_bits (bs : list Z) : list bool := flat_map (bits 8) bs.

Lemma bits_length n z : length (bits n z) = n.
Proof. revert z. induction n as [|n IH]; intros z; [done|]. cbn [bits]. rewrite length_app, IH. simpl. lia. Qed.

Lemma value_snoc l b : value (l ++ [b]) = 2 * value l + Z.b2z b.
Proof. unfold value. by rewrite foldl_app. Qed.
Lemma value_app l l' : value (l ++ l') = value l * 2 ^ Z.of_nat (length l') + value l'.
Proof.
  induction l' as [|b l' IH] using rev_ind; [rewrite app_nil_r; simpl; change (value []) with 0; lia|].
  rewrite app_assoc, !value_snoc, IH, length_app. simpl (length [b]). rewrite Nat2Z.inj_add, Z.pow_add_r by lia. lia.
Qed.
Lemma value_bits n z : value (bits n z) = z mod 2 ^ Z.of_nat n.
Proof.
  revert z. induction n as [|n IH]; intros z; [by rewrite Z.mod_1_r|]. cbn [bits]. rewrite value_snoc, IH.
  rewrite Nat2Z.inj_succ, Z.pow_succ_r by lia. rewrite Z.rem_mul_r by lia.
  rewrite (Zmod_odd z). destruct (Z.odd z); simpl Z.b2z; lia.
Qed.
Lemma value_bits_id n z : 0 ≤ z < 2 ^ Z.of_nat n → value (bits n z) = z.
Proof. intros Hz. rewrite value_bits. by apply Z.mod_small. Qed.

Lemma bits_app n m z : bits (n + m) z = bits n (z / 2 ^ Z.of_nat m) ++ bits m z.
Proof.
  revert z. induction m as [|m IH]; intros z.
  - rewrite Nat.add_0_r, Z.div_1_r, app_nil_r. done.
  - rewrite Nat.add_succ_r. cbn [bits]. rewrite IH, app_assoc. do 3 f_equal.
    rewrite Nat2Z.inj_succ, Z.pow_succ_r by lia. rewrite Z.div_div by lia. done.
Qed.
Lemma bits_mod n m z : (n ≤ m)%nat → bits n (z mod 2 ^ Z.of_nat m) = bits n z.
Proof.
  revert m z. induction n as [|n IH]; intros m z Hm; [done|]. destruct m as [|m]; [lia|]. cbn [bits].
  rewrite Nat2Z.inj_succ, Z.pow_succ_r by lia. rewrite Z.rem_mul_r by lia.
  assert (Hp : 0 < 2 ^ Z.of_nat m) by lia. f_equal.
  - rewrite <-(IH m (z / 2)) by lia. f_equal.
    rewrite (Z.mul_comm 2), Z.div_add by lia. rewrite (Z.div_small (z mod 2)) by (apply Z.mod_pos_bound; lia). lia.
  - rewrite Z.odd_add_mul_2, Zmod_odd. by destruct (Z.odd z).
Qed.
Lemma bits_0 n : bits n 0 = replicate n false.
Proof.
  induction n as [|n IH]; [done|]. cbn [bits]. change (0 / 2) with 0. rewrite IH. change (Z.odd 0) with false.
  change [false] with (replicate 1 false). by rewrite <-replicate_add, Nat.add_comm.
Qed.

(** Bytes, grouped or not. *)
Lemma bytes_bits_app bs cs : bytes_bits (bs ++ cs) = bytes_bits bs ++ bytes_bits cs.
Proof. unfold bytes_bits. by rewrite flat_map_app. Qed.
Lemma bytes_bits_length bs : length (bytes_bits bs) = (8 * length bs)%nat.
Proof. induction bs as [|b bs IH]; [done|]. unfold bytes_bits in *. cbn [flat_map length]. rewrite length_app, IH, bits_length. lia. Qed.
Lemma bytes_bits_zeros n : bytes_bits (replicate n 0) = replicate (8 * n) false.
Proof.
  induction n as [|n IH]; [done|]. cbn [replicate]. change (0 :: replicate n 0) with ([0] ++ replicate n 0). rewrite bytes_bits_app, IH.
  replace (8 * S n)%nat with (8 + 8 * n)%nat by lia. by rewrite replicate_add.
Qed.
Lemma to_be_bytes_bits n z : bytes_bits (to_be_bytes n z) = bits (8 * n) z.
Proof.
  revert z. induction n as [|n IH]; intros z; [done|]. cbn [to_be_bytes]. rewrite bytes_bits_app, IH.
  replace (8 * S n)%nat with (8 * n + 8)%nat by lia. rewrite bits_app. f_equal.
  unfold bytes_bits. cbn [flat_map]. rewrite app_nil_r. by apply (bits_mod 8 8).
Qed.
Lemma value_bytes_bits bs : Forall is_u8 bs → value (bytes_bits bs) = from_be_bytes bs.
Proof.
  induction bs as [|b bs IH] using rev_ind; [done|]. intros [Hs Hb]%Forall_app. apply Forall_inv in Hb.
  rewrite bytes_bits_app, value_app, IH by done. unfold from_be_bytes. rewrite foldl_app. cbn [foldl].
  unfold bytes_bits. cbn [flat_map]. rewrite app_nil_r, bits_length, value_bits_id by (unfold_int; simpl; lia). done.
Qed.

(** Pieces of the bits are the bits of pieces. *)
Lemma bytes_bits_take k bs : take (8 * k) (bytes_bits bs) = bytes_bits (take k bs).
Proof.
  revert k. induction bs as [|b bs IH]; intros [|k]; [done..|]. cbn [take]. unfold bytes_bits. cbn [flat_map].
  replace (8 * S k)%nat with (length (bits 8 b) + 8 * k)%nat by (rewrite bits_length; lia). rewrite take_app_add. f_equal. apply IH.
Qed.
Lemma bytes_bits_drop k bs : drop (8 * k) (bytes_bits bs) = bytes_bits (drop k bs).
Proof.
  revert k. induction bs as [|b bs IH]; intros [|k]; [done..|]. cbn [drop]. unfold bytes_bits. cbn [flat_map].
  replace (8 * S k)%nat with (length (bits 8 b) + 8 * k)%nat by (rewrite bits_length; lia). rewrite drop_app_add. apply IH.
Qed.
Lemma bytes_bits_chunks k bs : (0 < k)%nat → chunks (8 * k) (bytes_bits bs) = List.map bytes_bits (chunks k bs).
Proof.
  intros Hk. remember (length bs) as n eqn:En. revert bs En. induction n as [n IH] using lt_wf_ind. intros bs ->.
  destruct bs as [|b bs]; [done|]. rewrite (chunks_step k) by done. rewrite (chunks_step (8 * k)); [|lia|done]. cbn [List.map].
  rewrite bytes_bits_take, bytes_bits_drop. f_equal. eapply IH; [|done]. rewrite length_drop. simpl. lia.
Qed.

(** The elements of whole pieces. *)
Lemma chunks_lookup {A} k (l : list A) n i : (0 < k)%nat → length l = (k * n)%nat → (i < n)%nat →
  chunks k l !! i = Some (take k (drop (k * i) l)).
Proof.
  intros Hk. revert l i. induction n as [|n IH]; intros l i Hl Hi; [lia|].
  rewrite chunks_step; [|done|intros ->; simpl in Hl; lia]. destruct i as [|i]; [by rewrite Nat.mul_0_r|]. cbn [lookup list_lookup].
  rewrite IH; [|rewrite length_drop; lia|lia]. rewrite drop_drop. do 3 f_equal. lia.
Qed.
