(* ===== verification/HttpText.v ===== *)
(** * The text of HTTP messages

    What the two HTTP servers share: how a client prints a header, a request line,
    a number, and how the readers of lines of Rust's standard library give them
    back.  No definition here models a file of the repository. *)
From S2P Require Import Prelude RustStr RustUtf8.

(** ** Lines *)
Lemma drop_while_app p w s : forallb p w = true → drop_while p (w ++ s) = drop_while p s.
Proof.
  induction w as [|c w IH]; intros Hw; [done|]. simpl in Hw |- *. apply andb_prop in Hw as [-> Hw]. by apply IH.
Qed.

Lemma drop_while_id p s : (∀ c, head s = Some c → p c = false) → drop_while p s = s.
Proof. destruct s as [|c s]; intros Hc; [done|]. simpl. by rewrite (Hc c). Qed.

Lemma trim_end_ws s w : forallb is_whitespace w = true → trim_end (s ++ w) = trim_end s.
Proof.
  intros Hw. unfold trim_end. rewrite rev_app_distr, drop_while_app; [done|].
  rewrite forallb_forall in *. intros c Hc. apply Hw. by apply in_rev.
Qed.

Lemma head_rev (s : str) : head (rev s) = last s.
Proof.
  destruct s as [|c s] using rev_ind; [done|]. by rewrite rev_app_distr, last_snoc.
Qed.

Lemma trim_end_id s : (∀ c, last s = Some c → is_whitespace c = false) → trim_end s = s.
Proof.
  intros Hc. unfold trim_end. rewrite drop_while_id; [apply rev_involutive|].
  intros c. rewrite head_rev. apply Hc.
Qed.

Lemma trim_id s : s = [] ∨ trimmed s → trim s = s.
Proof.
  intros [->|[(c & Hc & Ec) (d & Hd & Ed)]]; [done|]. unfold trim, trim_start.
  rewrite (drop_while_id _ s) by (intros x Hx; congruence). apply trim_end_id. intros x Hx. congruence.
Qed.

Lemma trim_space s : s = [] ∨ trimmed s → trim (SPACE :: s) = s.
Proof. intros Hs. by apply (trim_id s) in Hs. Qed.

(** ** Header blocks *)
Definition text_ok (s : str) : Prop := forallb is_scalar s = true ∧ (LF ∉ s).
Record header_ok (h : str * str) : Prop := {
  h_name : trimmed h.1; h_colon : (58 ∉ h.1); h_text : text_ok h.1;
  h_value : h.2 = [] ∨ trimmed h.2; h_vtext : text_ok h.2
}.

Definition print_header (h : str * str) : str := h.1 ++ lit ": " ++ h.2 ++ crlf.
Definition lower (h : str * str) : str * str := (to_ascii_lowercase h.1, h.2).

Lemma text_ok_app s t : text_ok (s ++ t) ↔ text_ok s ∧ text_ok t.
Proof. unfold text_ok. rewrite forallb_app, andb_true_iff, not_elem_of_app. tauto. Qed.

Lemma read_text l q : text_ok l → read_line (as_bytes (l ++ [LF]) ++ q) = Some (Ok (l ++ [LF], q)).
Proof. intros [Hs Hlf]. rewrite as_bytes_app, <-app_assoc. by apply read_line_spec. Qed.

Lemma last_app_cons {A} (s t : list A) x : last (s ++ x :: t) = last (x :: t).
Proof. rewrite last_app. destruct (last (x :: t)) eqn:E; [done|]. by apply last_None in E. Qed.

Lemma header_line h : header_ok h → ∃ v,
  trim_end (print_header h) = h.1 ++ 58 :: v ∧ trim v = h.2.
Proof.
  intros [_ _ _ Hv _]. unfold print_header.
  replace (h.1 ++ lit ": " ++ h.2 ++ crlf) with ((h.1 ++ lit ": " ++ h.2) ++ crlf) by by rewrite <-!app_assoc.
  rewrite trim_end_ws by done. destruct Hv as [Ev|Hv].
  - exists []. rewrite Ev. split; [|done]. change (lit ": " ++ []) with ([58] ++ [SPACE]).
    rewrite app_assoc, trim_end_ws by done. apply trim_end_id. intros c. rewrite last_snoc. by intros [= <-].
  - exists (SPACE :: h.2). split; [|by apply trim_space; right].
    apply trim_end_id. intros c. change (lit ": " ++ h.2) with (58 :: SPACE :: h.2).
    destruct Hv as [_ (d & Hd & Ed)]. rewrite last_app_cons, last_cons, last_cons, Hd. by intros [= <-].
Qed.

(** Reading a printed header takes the line and no more. *)
Lemma read_header h q : header_ok h → read_line (as_bytes (print_header h) ++ q) = Some (Ok (print_header h, q)).
Proof.
  intros [_ _ Hn _ Hv]. unfold print_header, crlf. change [CR; LF] with ([CR] ++ [LF]). rewrite !app_assoc.
  apply read_text. rewrite !text_ok_app. split_and!; [done|by split; [|closed]|done|by split; [|closed]].
Qed.

Lemma read_blank q : read_line (as_bytes crlf ++ q) = Some (Ok (crlf, q)).
Proof. change crlf with ([CR] ++ [LF]). apply read_text. by split; [|closed]. Qed.

Lemma as_bytes_length s : (length s ≤ length (as_bytes s))%nat.
Proof.
  induction s as [|c s IH]; [done|]. rewrite as_bytes_cons, length_app. simpl.
  assert (1 ≤ length (utf8_char c))%nat by (unfold utf8_char; repeat case_match; simpl; lia). lia.
Qed.

Lemma print_headers_length hs : (length hs ≤ length (flat_map print_header hs))%nat.
Proof.
  induction hs as [|h hs IH]; [done|]. cbn [flat_map length]. rewrite length_app. unfold print_header at 1.
  rewrite length_app. simpl. lia.
Qed.

Lemma digits_text s : forallb is_ascii_digit s = true → text_ok s.
Proof.
  intros Hs. rewrite forallb_forall in Hs. split.
  - apply forallb_forall. intros c Hc%Hs. apply is_scalar_spec. unfold is_ascii_digit in Hc. lia.
  - intros Hin%list_elem_of_In. by specialize (Hs _ Hin).
Qed.

Lemma digits_trimmed s : s ≠ [] → forallb is_ascii_digit s = true → trimmed s.
Proof.
  intros Hne Hs. rewrite forallb_forall in Hs.
  assert (Hw : ∀ c, c ∈ s → is_whitespace c = false).
  { intros c Hc%list_elem_of_In%Hs. unfold is_ascii_digit in Hc. unfold is_whitespace. lia. }
  split.
  - destruct s as [|c s]; [done|]. exists c. split; [done|]. apply Hw. by left.
  - destruct (last s) as [c|] eqn:E; [|by apply last_None in E]. exists c. split; [done|]. apply Hw.
    apply last_Some in E as [k ->]. apply elem_of_app. right. by left.
Qed.

Lemma show_ne n : show n ≠ [].
Proof. by destruct (show_nonempty n) as (c & s & ->). Qed.

(** Closed texts. *)
#[export] Instance text_ok_dec s : Decision (text_ok s).
Proof. unfold text_ok. apply _. Defined.
Definition trimmed_b (s : str) : bool :=
  match head s, last s with Some c, Some d => negb (is_whitespace c) && negb (is_whitespace d) | _, _ => false end.
Lemma trimmed_b_spec s : trimmed_b s = true → trimmed s.
Proof.
  unfold trimmed_b, trimmed. destruct (head s), (last s); try done.
  rewrite andb_true_iff, !negb_true_iff. naive_solver.
Qed.
Ltac closed_header := constructor; [by apply trimmed_b_spec|closed|closed| |]; simpl.

Lemma number_header_ok name n :
  0 ≤ n → trimmed_b name = true → (58 ∉ name) → text_ok name → header_ok (name, show n).
Proof.
  intros Hn Ht Hc Hx. pose proof (show_digits n Hn). constructor; [by apply trimmed_b_spec|done|done|..].
  - right. by apply digits_trimmed; [apply show_ne|].
  - by apply digits_text.
Qed.

Ltac closed_value := solve [left; reflexivity | right; by apply trimmed_b_spec | closed].
