(* ===== verification/HtmlText.v ===== *)
(** * Text inside HTML

    The characters that delimit tags and attribute values, and the escaping of text
    that cannot contain them, as one pass over the text: the chains of replacements
    of the sources are shown equal to it.  No definition here models a file of the
    repository. *)
From S2P Require Import Prelude RustStr.

Definition is_markup (c : char) : bool := (c =? 60) || (c =? 62) || (c =? 34).
(** The characters of a page that delimit tags and attribute values. *)
Definition markup (s : str) : str := List.filter is_markup s.

Lemma markup_app s t : markup (s ++ t) = markup s ++ markup t.
Proof. apply List.filter_app. Qed.

Definition html_entity (c : char) : str :=
  if c =? 38 then lit "&amp;" else if c =? 60 then lit "&lt;"
  else if c =? 62 then lit "&gt;" else if c =? 34 then lit "&quot;" else [c].
Definition html_escaped (s : str) : str := flat_map html_entity s.

Lemma html_escaped_cons c s : html_escaped (c :: s) = html_entity c ++ html_escaped s.
Proof. done. Qed.

(** The four replacements one after the other. *)
Lemma replace_chain s :
  replace_char 34 (lit "&quot;") (replace_char 62 (lit "&gt;")
    (replace_char 60 (lit "&lt;") (replace_char 38 (lit "&amp;") s))) = html_escaped s.
Proof.
  induction s as [|c s IH]; [done|].
  rewrite html_escaped_cons, <-IH, replace_char_cons, !replace_char_app. f_equal. unfold html_entity.
  destruct (Z.eqb_spec c 38) as [->|]; [done|]. simpl.
  destruct (Z.eqb_spec c 60) as [->|]; [done|]. simpl.
  destruct (Z.eqb_spec c 62) as [->|]; [done|]. simpl. by destruct (Z.eqb_spec c 34).
Qed.

Lemma html_escaped_markup s : markup (html_escaped s) = [].
Proof.
  induction s as [|c s IH]; [done|]. rewrite html_escaped_cons, markup_app, IH, app_nil_r.
  unfold html_entity. destruct (Z.eqb_spec c 38); [done|]. destruct (Z.eqb_spec c 60); [done|].
  destruct (Z.eqb_spec c 62); [done|]. destruct (Z.eqb_spec c 34); [done|].
  unfold markup, is_markup. simpl. by rewrite !(proj2 (Z.eqb_neq _ _)).
Qed.

Lemma html_escaped_inj s t : html_escaped s = html_escaped t → s = t.
Proof.
  assert (Hnil : ∀ c s, html_escaped (c :: s) ≠ []).
  { intros c u. rewrite html_escaped_cons. unfold html_entity. by repeat case_match. }
  revert t. induction s as [|c s IH]; intros [|d t] E; [done|by destruct (Hnil d t)|by destruct (Hnil c s)|].
  rewrite !html_escaped_cons in E. unfold html_entity in E.
  destruct (Z.eqb_spec c 38), (Z.eqb_spec c 60), (Z.eqb_spec c 62), (Z.eqb_spec c 34); try lia;
  destruct (Z.eqb_spec d 38), (Z.eqb_spec d 60), (Z.eqb_spec d 62), (Z.eqb_spec d 34); try lia;
  simpl in E; simplify_eq; f_equal; by apply IH.
Qed.
