(* ===== verification/RustSort.v ===== *)
(** * Stable sorting

    [slice::sort_by_key] is documented as a stable sort.  Insertion sort is one;
    [stable_sort_lex] says that it sorts by the key first and by the old position
    second, [stable_sort_unique] that this leaves no choice.  No definition here
    models a file of the repository. *)
From S2P Require Import Prelude.

Section stable_sort.
Context {A : Type} (le : A → A → bool).

Fixpoint insert_sorted (x : A) (l : list A) : list A :=
  match l with
  | [] => [x]
  | y :: l' => if le x y then x :: l else y :: insert_sorted x l'
  end.
Definition stable_sort (l : list A) : list A := foldr insert_sorted [] l.

Lemma insert_sorted_perm x l : insert_sorted x l ≡ₚ x :: l.
Proof.
  induction l as [|y l IH]; [done|]. cbn [insert_sorted]. destruct (le x y); [done|]. rewrite IH. constructor.
Qed.
Lemma stable_sort_perm l : stable_sort l ≡ₚ l.
Proof. induction l as [|x l IH]; [done|]. cbn [stable_sort foldr]. rewrite insert_sorted_perm. by constructor. Qed.

Lemma stable_sort_nil l : stable_sort l = [] → l = [].
Proof. intros H. apply Permutation_nil_r. by rewrite <-H, stable_sort_perm. Qed.

(** Those with one key keep their order. *)
Lemma stable_sort_filter (P : A → bool) l :
  (∀ x y, P x = true → P y = true → le x y = true) → List.filter P (stable_sort l) = List.filter P l.
Proof.
  intros HP. induction l as [|x l IH]; [done|]. cbn [stable_sort foldr List.filter]. rewrite <-IH. fold (stable_sort l). clear IH.
  induction (stable_sort l) as [|y k IH]; [by cbn|]. cbn [insert_sorted]. destruct (le x y) eqn:E; [done|]. cbn [List.filter]. rewrite IH.
  destruct (P x) eqn:Ex, (P y) eqn:Ey; try done. by rewrite HP in E.
Qed.

Section laws.
Context (le_total : ∀ x y, le x y = true ∨ le y x = true)
  (le_trans : ∀ x y z, le x y = true → le y z = true → le x z = true).

(** By the key, and by [R] where the keys agree. *)
Definition lex (R : A → A → Prop) (x y : A) : Prop := le x y = true ∧ (le y x = true → R x y).

Lemma insert_sorted_lex R x l :
  StronglySorted (lex R) l → Forall (R x) l → StronglySorted (lex R) (insert_sorted x l).
Proof using le_total le_trans.
  induction l as [|y l IH]; intros Hl HR; [by repeat constructor|]. cbn [insert_sorted].
  inversion_clear Hl as [|? ? Hl' Hy]. inversion_clear HR as [|? ? HR1 HR2]. destruct (le x y) eqn:E.
  - constructor; [by constructor|]. constructor; [done|].
    eapply Forall_impl; [apply Forall_and; split; [apply Hy|apply HR2]|].
    intros z [[Hz _] Hxz]. split; [by eapply le_trans|done].
  - constructor; [by apply IH|]. rewrite insert_sorted_perm. constructor; [|done].
    destruct (le_total x y); [congruence|]. split; [done|congruence].
Qed.

Lemma stable_sort_lex R l : StronglySorted R l → StronglySorted (lex R) (stable_sort l).
Proof using le_total le_trans.
  induction 1 as [|x l Hl IH Hx]; [constructor|]. cbn [stable_sort foldr]. apply insert_sorted_lex; [done|].
  by rewrite stable_sort_perm.
Qed.

Lemma stable_sort_sorted l : StronglySorted (λ x y, le x y = true) (stable_sort l).
Proof using le_total le_trans.
  assert (H : StronglySorted (λ _ _, True) l) by (induction l; constructor; [done|by apply Forall_true]).
  apply stable_sort_lex in H. induction H as [|x k Hk IH Hx]; constructor; [done|].
  eapply Forall_impl; [done|]. by intros y [? _].
Qed.
End laws.

(** There is one way to sort a list whose old order is [R]. *)
Lemma sorted_unique (R : A → A → Prop) (l l' : list A) :
  (∀ x y, R x y → R y x → False) → StronglySorted R l → StronglySorted R l' → l ≡ₚ l' → l = l'.
Proof.
  intros Has H. revert l'. induction H as [|x l Hl IH Hx]; intros l' Hl' Hp; [by apply Permutation_nil_l in Hp|].
  destruct l' as [|y l']; [by apply Permutation_nil_r in Hp|]. inversion_clear Hl' as [|? ? Hl2 Hy].
  enough (x = y) as <- by (f_equal; apply IH; [done|by eapply Permutation_cons_inv]).
  assert (H1 : x ∈ y :: l') by (rewrite <-Hp; by left). assert (H2 : y ∈ x :: l) by (rewrite Hp; by left).
  apply elem_of_cons in H1 as [|H1]; [done|]. apply elem_of_cons in H2 as [|H2]; [done|].
  rewrite Forall_forall in Hx, Hy. destruct (Has x y); auto.
Qed.

Lemma stable_sort_unique (R : A → A → Prop) (l l' : list A) :
  (∀ x y, le x y = true ∨ le y x = true) → (∀ x y z, le x y = true → le y z = true → le x z = true) →
  (∀ x y, R x y → R y x → False) →
  StronglySorted R l → l' ≡ₚ l → StronglySorted (lex R) l' → l' = stable_sort l.
Proof.
  intros Ht Htr Has Hl Hp Hl'. apply (sorted_unique (lex R)); [|done|by apply stable_sort_lex|by rewrite stable_sort_perm].
  intros x y [H1 H2] [H3 H4]. apply (Has x y); auto.
Qed.

Lemma stable_sort_id l : StronglySorted (λ x y, le x y = true) l → stable_sort l = l.
Proof.
  induction 1 as [|x l Hl IH Hx]; [done|]. cbn [stable_sort foldr]. fold (stable_sort l). rewrite IH.
  destruct l as [|y l]; [done|]. inversion_clear Hx as [|? ? H _]. cbn [insert_sorted]. by rewrite H.
Qed.
End stable_sort.

(** Sorting commutes with a function that keeps the order. *)
Lemma stable_sort_map {A B} (leA : A → A → bool) (leB : B → B → bool) (f : A → B) l :
  (∀ x y, leB (f x) (f y) = leA x y) → stable_sort leB (map f l) = map f (stable_sort leA l).
Proof.
  intros H. induction l as [|x l IH]; [done|]. cbn [stable_sort foldr map]. fold (stable_sort leB (map f l)).
  fold (stable_sort leA l). rewrite IH. clear IH. induction (stable_sort leA l) as [|y k IH]; [done|].
  cbn [insert_sorted map]. rewrite H. destruct (leA x y); [done|]. cbn [map]. by rewrite IH.
Qed.
