(* ===== verification/F32.v ===== *)
(** * Rust's [f32]

    IEEE 754 single precision with rounding to nearest, ties to even.  A finite number
    is its sign and its magnitude in units of [2^-149], the distance of the
    subnormals, so that sums are exact integers before they are rounded.  No
    definition here models a file of the repository. *)
From S2P Require Import Prelude RustStr.
From Stdlib Require SpecFloat.

Inductive f32 : Type := NaN | Inf (neg : bool) | Fin (neg : bool) (mag : Z).

#[export] Instance f32_eq_dec : EqDecision f32.
Proof. solve_decision. Defined.

(** ** Rounding *)

(** The bits of [m] below the 24 that are kept. *)
Definition excess (m : Z) : Z := Z.max 0 (Z.log2 m - 23).
Definition representable (m : Z) : bool := (0 <=? m) && (m <? 2 ^ 277) && (m mod 2 ^ excess m =? 0).

(** [n / d] to 24 bits. *)
Definition round (n d : Z) : Z :=
  let e := excess (n / d) in
  let u := d * 2 ^ e in
  let q := n / u in
  let r := n mod u in
  2 ^ e * (if (2 * r <? u) || ((2 * r =? u) && Z.even q) then q else q + 1).

Definition make (neg : bool) (n d : Z) : f32 := let m := round n d in if m <? 2 ^ 277 then Fin neg m else Inf neg.

(** ** Operations *)
Definition one_mag : Z := 2 ^ 149.
Definition zero : f32 := Fin false 0.
Definition signed (neg : bool) (m : Z) : Z := if neg then - m else m.

Definition of_Z (z : Z) : f32 := make (z <? 0) (Z.abs z * one_mag) 1.

Definition opp (x : f32) : f32 :=
  match x with NaN => NaN | Inf s => Inf (negb s) | Fin s m => Fin (negb s) m end.

Definition add (x y : f32) : f32 :=
  match x, y with
  | NaN, _ | _, NaN => NaN
  | Inf s, Inf t => if eqb s t then x else NaN
  | Inf _, Fin _ _ => x
  | Fin _ _, Inf _ => y
  | Fin s m, Fin t n =>
      let z := signed s m + signed t n in
      if z =? 0 then Fin (s && t) 0 else make (z <? 0) (Z.abs z) 1
  end.
Definition sub (x y : f32) : f32 := add x (opp y).

Definition mul (x y : f32) : f32 :=
  match x, y with
  | NaN, _ | _, NaN => NaN
  | Inf s, Inf t => Inf (xorb s t)
  | Inf s, Fin t m | Fin t m, Inf s => if m =? 0 then NaN else Inf (xorb s t)
  | Fin s m, Fin t n => make (xorb s t) (m * n) one_mag
  end.

Definition div (x y : f32) : f32 :=
  match x, y with
  | NaN, _ | _, NaN => NaN
  | Inf _, Inf _ => NaN
  | Inf s, Fin t _ => Inf (xorb s t)
  | Fin s _, Inf t => Fin (xorb s t) 0
  | Fin s m, Fin t n =>
      if n =? 0 then (if m =? 0 then NaN else Inf (xorb s t)) else make (xorb s t) (m * one_mag) n
  end.

(** What comparisons compare; nothing compares with a NaN. *)
Definition order (x : f32) : option Z :=
  match x with NaN => None | Inf s => Some (signed s (2 ^ 277)) | Fin s m => Some (signed s m) end.
Definition compare_with (f : Z → Z → bool) (x y : f32) : bool :=
  match order x, order y with Some a, Some b => f a b | _, _ => false end.
Definition ltb : f32 → f32 → bool := compare_with Z.ltb.
Definition leb : f32 → f32 → bool := compare_with Z.leb.
Definition eqf : f32 → f32 → bool := compare_with Z.eqb.

(** [x.max(y)]: of two zeros of different sign, either. *)
Definition fmax (x y : f32) : f32 :=
  match x, y with NaN, _ => y | _, NaN => x | _, _ => if ltb x y then y else x end.

(** [x.clamp(lo, hi)] panics on empty ranges. *)
Definition clamp (x lo hi : f32) : option f32 :=
  if leb lo hi then Some (if ltb x lo then lo else if ltb hi x then hi else x) else None.

Definition usize_max : Z := 2 ^ 64 - 1.
(** [x as usize] saturates. *)
Definition to_usize (x : f32) : Z :=
  match x with
  | NaN => 0
  | Inf s => if s then 0 else usize_max
  | Fin s m => if s then 0 else Z.min (m / one_mag) usize_max
  end.

(** [s.parse::<f32>()] of a string of digits and points: [m / 10^e]. *)
Definition of_decimal (m e : Z) : f32 := make false (m * one_mag) (10 ^ e).
Definition parse_decimal (s : str) : option f32 :=
  let '(ints, fracs) := match split_once 46 s with Some p => p | None => (s, []) end in
  match ints ++ fracs with
  | [] => None
  | ds => if forallb is_ascii_digit ds then Some (of_decimal (digits_value ds) (Z.of_nat (length fracs))) else None
  end.

(** ** Agreement with the standard library's executable floats *)
Definition to_spec (x : f32) : SpecFloat.spec_float :=
  match x with
  | NaN => SpecFloat.S754_nan
  | Inf s => SpecFloat.S754_infinity s
  | Fin s m =>
      match m / 2 ^ excess m with
      | Zpos p => SpecFloat.S754_finite s p (excess m - 149)
      | _ => SpecFloat.S754_zero s
      end
  end.

Definition samples : list f32 :=
  [zero; opp zero; NaN; Inf true; Fin true 3; of_decimal 1 1; of_decimal 2 1; of_decimal 16777217 0;
   opp (of_decimal 314159265 8); Fin false ((2 ^ 24 - 1) * 2 ^ 253); of_decimal 1 40].
Definition agrees (f : f32 → f32 → f32) (g : SpecFloat.spec_float → SpecFloat.spec_float → SpecFloat.spec_float) : bool :=
  forallb (λ x, forallb (λ y,
    match SpecFloat.SFcompare (to_spec (f x y)) (g (to_spec x) (to_spec y)), to_spec (f x y), g (to_spec x) (to_spec y) with
    | Some Eq, SpecFloat.S754_zero s, SpecFloat.S754_zero t => eqb s t
    | Some Eq, _, _ => true
    | _, SpecFloat.S754_nan, SpecFloat.S754_nan => true
    | _, _, _ => false
    end) samples) samples.
Example samples_agree :
  agrees add (SpecFloat.SFadd 24 128) = true ∧ agrees sub (SpecFloat.SFsub 24 128) = true ∧
  agrees mul (SpecFloat.SFmul 24 128) = true ∧ agrees div (SpecFloat.SFdiv 24 128) = true.
Proof. vm_compute. done. Qed.

(** ** Rounding: facts *)
Lemma excess_nonneg m : 0 ≤ excess m.
Proof. unfold excess. lia. Qed.

(** At most 24 bits at any position below the largest. *)
Lemma representable_shift c e : 0 ≤ c ≤ 2 ^ 24 → 0 ≤ e → c * 2 ^ e < 2 ^ 277 → representable (c * 2 ^ e) = true.
Proof.
  intros Hc He Hb. unfold representable.
  assert (0 ≤ c * 2 ^ e) by (apply Z.mul_nonneg_nonneg; lia).
  rewrite (proj2 (Z.leb_le _ _)), (proj2 (Z.ltb_lt _ _)) by done. cbn [andb]. apply Z.eqb_eq.
  destruct (Z.eq_dec c 0) as [->|Hc0]; [by rewrite Z.mul_0_l, Z.mod_0_l by (apply Z.pow_nonzero; unfold excess; lia)|].
  unfold excess. rewrite Z.log2_mul_pow2 by lia.
  apply Z.mod_divide; [apply Z.pow_nonzero; lia|].
  destruct (Z.eq_dec c (2 ^ 24)) as [->|Hc1].
  - exists (2 ^ (24 + e - Z.max 0 (e + Z.log2 (2 ^ 24) - 23))). rewrite Z.log2_pow2 by lia.
    rewrite <-!Z.pow_add_r by lia. f_equal. lia.
  - assert (Z.log2 c < 24) by (apply Z.log2_lt_pow2; lia).
    apply Z.divide_mul_r. exists (2 ^ (e - Z.max 0 (e + Z.log2 c - 23))). rewrite <-Z.pow_add_r by lia. f_equal. lia.
Qed.

Lemma representable_split m :
  representable m = true → ∃ c e, m = c * 2 ^ e ∧ 0 ≤ c < 2 ^ 24 ∧ 0 ≤ e.
Proof.
  unfold representable. intros [[H0%Z.leb_le Hb]%andb_prop Hm%Z.eqb_eq]%andb_prop.
  pose proof (excess_nonneg m) as He. assert (0 < 2 ^ excess m) by (apply Z.pow_pos_nonneg; lia).
  exists (m / 2 ^ excess m), (excess m). split_and!; [|by apply Z.div_pos| |done].
  - pose proof (Z.div_mod m (2 ^ excess m)). lia.
  - apply Z.div_lt_upper_bound; [done|]. rewrite <-Z.pow_add_r by lia.
    destruct (Z.eq_dec m 0) as [->|]; [by apply Z.pow_pos_nonneg; lia|].
    apply Z.log2_lt_pow2; [lia|]. unfold excess. lia.
Qed.

Lemma representable_range m : representable m = true → 0 ≤ m < 2 ^ 277.
Proof. unfold representable. intros [[H0%Z.leb_le Hb%Z.ltb_lt]%andb_prop _]%andb_prop. done. Qed.

Lemma round_exact k d : 0 < d → representable k = true → round (k * d) d = k.
Proof.
  intros Hd Hk. pose proof (representable_range k Hk) as Hr. unfold round. rewrite Z.div_mul by lia.
  unfold representable in Hk. apply andb_prop in Hk as [_ Hm%Z.eqb_eq].
  assert (Hp : 0 < 2 ^ excess k) by (apply Z.pow_pos_nonneg; [lia|apply excess_nonneg]).
  apply Z.mod_divide in Hm as [c Hc]; [|lia]. set (p := 2 ^ excess k) in *. clearbody p.
  replace (k * d) with (c * (d * p)) by (rewrite Hc; ring).
  rewrite Z.div_mul, Z.mod_mul by nia. rewrite (proj2 (Z.ltb_lt _ _)) by nia. cbn [orb]. lia.
Qed.

Lemma round_split n d : 0 ≤ n → 0 < d →
  ∃ c, round n d = c * 2 ^ excess (n / d) ∧ 0 ≤ c ≤ 2 ^ 24 ∧
    2 * Z.abs (c * 2 ^ excess (n / d) * d - n) ≤ d * 2 ^ excess (n / d).
Proof.
  intros Hn Hd. unfold round. set (e := excess (n / d)).
  assert (Hp : 0 < 2 ^ e) by (apply Z.pow_pos_nonneg; [lia|apply excess_nonneg]).
  assert (Hq : 0 ≤ n / (d * 2 ^ e) < 2 ^ 24).
  { rewrite <-Z.div_div by lia. assert (0 ≤ n / d) by by apply Z.div_pos. split; [by apply Z.div_pos|].
    apply Z.div_lt_upper_bound; [done|]. rewrite <-Z.pow_add_r by (unfold e, excess; lia).
    destruct (Z.eq_dec (n / d) 0) as [->|]; [by apply Z.pow_pos_nonneg; unfold e, excess; lia|].
    apply Z.log2_lt_pow2; [lia|]. unfold e, excess. lia. }
  pose proof (Z.div_mod n (d * 2 ^ e) ltac:(nia)) as Hdm. pose proof (Z.mod_pos_bound n (d * 2 ^ e) ltac:(nia)) as Hm.
  eexists. split; [apply Z.mul_comm|].
  destruct (2 * (n mod (d * 2 ^ e)) <? d * 2 ^ e) eqn:E1; cbn [orb].
  - apply Z.ltb_lt in E1. split; [lia|]. nia.
  - apply Z.ltb_ge in E1. destruct (_ && _) eqn:E2; [|split; [lia|nia]].
    apply andb_prop in E2 as [E2%Z.eqb_eq _]. split; [lia|nia].
Qed.

(** ** Values of the format *)
Definition valid (x : f32) : bool := match x with Fin _ m => representable m | _ => true end.

Lemma make_valid neg n d : 0 ≤ n → 0 < d → valid (make neg n d) = true.
Proof.
  intros Hn Hd. unfold make. destruct (round_split n d Hn Hd) as (c & -> & Hc & _).
  destruct (_ <? _) eqn:E; [|done]. apply Z.ltb_lt in E. apply representable_shift; [done|apply excess_nonneg|done].
Qed.

Lemma make_exact neg k d : 0 < d → representable k = true → make neg (k * d) d = Fin neg k.
Proof.
  intros Hd Hk. unfold make. rewrite round_exact by done. apply representable_range in Hk.
  by rewrite (proj2 (Z.ltb_lt _ _)) by lia.
Qed.

Lemma of_Z_valid z : valid (of_Z z) = true.
Proof. apply make_valid; [apply Z.mul_nonneg_nonneg; [lia|done]|done]. Qed.
Lemma opp_valid x : valid x = true → valid (opp x) = true.
Proof. by destruct x. Qed.
Lemma add_valid x y : valid x = true → valid y = true → valid (add x y) = true.
Proof.
  destruct x as [|s|s m], y as [|t|t n]; try done; intros Hx Hy; cbn [add]; [by destruct (eqb s t)|].
  destruct (_ =? 0); [done|]. apply make_valid; [lia|done].
Qed.
Lemma sub_valid x y : valid x = true → valid y = true → valid (sub x y) = true.
Proof. intros Hx Hy. by apply add_valid, opp_valid. Qed.
Lemma mul_valid x y : valid x = true → valid y = true → valid (mul x y) = true.
Proof.
  destruct x as [|s|s m], y as [|t|t n]; try done; cbn [mul]; [by destruct (n =? 0)|by destruct (m =? 0)|].
  intros Hx%representable_range Hy%representable_range. apply make_valid; [nia|done].
Qed.
Lemma div_valid x y : valid x = true → valid y = true → valid (div x y) = true.
Proof.
  destruct x as [|s|s m], y as [|t|t n]; try done; cbn [div].
  intros Hx%representable_range Hy%representable_range. destruct (n =? 0) eqn:E; [by destruct (m =? 0)|].
  apply Z.eqb_neq in E. apply make_valid; [apply Z.mul_nonneg_nonneg; [lia|done]|lia].
Qed.
Lemma fmax_valid x y : valid x = true → valid y = true → valid (fmax x y) = true.
Proof. intros Hx Hy. destruct x, y; cbn [fmax]; try done; by destruct (ltb _ _). Qed.
Lemma clamp_valid x lo hi y : valid x = true → valid lo = true → valid hi = true → clamp x lo hi = Some y → valid y = true.
Proof. unfold clamp. intros Hx Hl Hh. destruct (leb lo hi); [|done]. intros [= <-]. by repeat case_match. Qed.

Lemma forallb_value_nonneg s : forallb is_ascii_digit s = true → 0 ≤ digits_value s.
Proof.
  induction s as [|c s IH] using rev_ind; [done|]. rewrite forallb_app, digits_value_snoc. cbn [forallb].
  rewrite andb_true_r. intros [Hs Hc]%andb_prop. apply IH in Hs. unfold is_ascii_digit in Hc. lia.
Qed.

Lemma of_decimal_valid m e : 0 ≤ m → 0 ≤ e → valid (of_decimal m e) = true.
Proof. intros Hm He. apply make_valid; [by apply Z.mul_nonneg_nonneg|by apply Z.pow_pos_nonneg]. Qed.

(** A decimal is not negative, and not a NaN. *)
Definition nonneg (x : f32) : bool := match x with NaN => false | Inf s | Fin s _ => negb s end.
Lemma parse_decimal_valid s x : parse_decimal s = Some x → valid x = true ∧ nonneg x = true.
Proof.
  unfold parse_decimal. destruct (match split_once 46 s with Some p => p | None => (s, []) end) as [i f].
  destruct (i ++ f) as [|c ds]; [done|]. destruct (forallb _ _) eqn:E; [|done]. intros [= <-]. split.
  - apply of_decimal_valid; [by apply forallb_value_nonneg|lia].
  - unfold of_decimal, make. by destruct (_ <? _).
Qed.

Create HintDb f32 discriminated.
#[export] Hint Resolve of_Z_valid opp_valid add_valid sub_valid mul_valid div_valid fmax_valid : f32.

(** ** Exact arithmetic

    Multiples of [2^(k - 149)] of at most 24 bits add and subtract without rounding. *)
Definition fx (k z : Z) : f32 := Fin (z <? 0) (Z.abs z * 2 ^ k).
Definition small (z : Z) : Prop := - 2 ^ 24 ≤ z ≤ 2 ^ 24.

Section fx.
Context (k : Z) (Hk : 0 ≤ k ≤ 200).

Lemma fx_bound z : small z → Z.abs z * 2 ^ k < 2 ^ 277.
Proof using All.
  intros Hz. assert (2 ^ k ≤ 2 ^ 200) by (apply Z.pow_le_mono_r; lia). assert (0 < 2 ^ k) by (apply Z.pow_pos_nonneg; lia).
  change (2 ^ 277) with (2 ^ 77 * 2 ^ 200). assert (Z.abs z < 2 ^ 77) by (unfold small in Hz; lia). nia.
Qed.
Lemma fx_valid z : small z → valid (fx k z) = true.
Proof using All. intros Hz. apply representable_shift; [unfold small in Hz; lia|lia|by apply fx_bound]. Qed.

Lemma signed_fx z : signed (z <? 0) (Z.abs z * 2 ^ k) = z * 2 ^ k.
Proof using All. unfold signed. destruct (Z.ltb_spec z 0); lia. Qed.

Lemma pow_k : 0 < 2 ^ k.
Proof using All. apply Z.pow_pos_nonneg; lia. Qed.

Lemma add_fx a b : small (a + b) → add (fx k a) (fx k b) = fx k (a + b).
Proof using All.
  intros Hs. pose proof pow_k. unfold fx at 1 2. cbn [add]. rewrite !signed_fx, <-Z.mul_add_distr_r.
  destruct (Z.eq_dec (a + b) 0) as [E|Hne].
  - rewrite E, Z.mul_0_l. cbn [Z.eqb]. unfold fx. f_equal. cbn. lia.
  - rewrite (proj2 (Z.eqb_neq _ _)) by nia. unfold fx. rewrite <-(Z.mul_1_r (Z.abs ((a + b) * 2 ^ k))).
    rewrite make_exact; [|done|].
    + rewrite Z.abs_mul, (Z.abs_eq (2 ^ k)) by lia. f_equal. apply Bool.eq_iff_eq_true. rewrite !Z.ltb_lt. nia.
    + rewrite Z.abs_mul, (Z.abs_eq (2 ^ k)) by lia. by apply fx_valid.
Qed.

Lemma sub_fx a b : small (a - b) → sub (fx k a) (fx k b) = fx k (a - b).
Proof using All.
  intros Hs. pose proof pow_k. unfold sub. destruct (Z.eq_dec b 0) as [->|Hb].
  - unfold fx. cbn [opp add]. rewrite signed_fx. change (signed (negb (0 <? 0)) (Z.abs 0 * 2 ^ k)) with 0.
    rewrite Z.add_0_r, Z.sub_0_r. destruct (Z.eq_dec a 0) as [->|Ha]; [done|].
    rewrite (proj2 (Z.eqb_neq _ _)) by nia. rewrite Z.sub_0_r in Hs. rewrite <-(Z.mul_1_r (Z.abs (a * 2 ^ k))).
    rewrite Z.abs_mul, (Z.abs_eq (2 ^ k)) by lia. rewrite make_exact by (done || by apply fx_valid).
    f_equal. apply Bool.eq_iff_eq_true. rewrite !Z.ltb_lt. nia.
  - replace (opp (fx k b)) with (fx k (- b)); [by rewrite <-Z.add_opp_r in Hs |- *; apply add_fx|].
    unfold fx. cbn [opp]. f_equal; lia.
Qed.

Lemma order_fx a : order (fx k a) = Some (a * 2 ^ k).
Proof using All. unfold fx. cbn [order]. by rewrite signed_fx. Qed.
Lemma ltb_fx a b : ltb (fx k a) (fx k b) = (a <? b).
Proof using All.
  pose proof pow_k. unfold ltb, compare_with. rewrite !order_fx. apply Bool.eq_iff_eq_true. rewrite !Z.ltb_lt. nia.
Qed.
Lemma leb_fx a b : leb (fx k a) (fx k b) = (a <=? b).
Proof using All.
  pose proof pow_k. unfold leb, compare_with. rewrite !order_fx. apply Bool.eq_iff_eq_true. rewrite !Z.leb_le. nia.
Qed.
End fx.

Lemma of_Z_fx z : small z → of_Z z = fx 149 z.
Proof.
  intros Hz. unfold of_Z, fx, one_mag. rewrite <-(Z.mul_1_r (Z.abs z * 2 ^ 149)) at 1. apply make_exact; [done|].
  by apply (fx_valid 149).
Qed.

(** Halves: of [2 * z] half pixels. *)
Lemma fx_half z : fx 149 z = fx 148 (2 * z).
Proof. unfold fx. change (2 ^ 149) with (2 * 2 ^ 148). f_equal; lia. Qed.
Lemma div_two_fx z : small z → div (fx 148 (2 * z)) (of_Z 2) = fx 148 z.
Proof.
  intros Hz. rewrite of_Z_fx by (unfold small; lia). unfold fx at 1 2. cbn [div].
  change (Z.abs 2 * 2 ^ 149 =? 0) with false. cbv iota. unfold fx.
  replace (Z.abs (2 * z) * 2 ^ 148 * one_mag) with (Z.abs z * 2 ^ 148 * (Z.abs 2 * 2 ^ 149)) by (unfold one_mag; lia).
  rewrite make_exact; [|done|by apply (fx_valid 148)]. f_equal. change (2 <? 0) with false. rewrite xorb_false_r.
  apply Bool.eq_iff_eq_true. rewrite !Z.ltb_lt. lia.
Qed.

(** ** Casts *)

(** The whole part of a value is a value. *)
Lemma whole_representable m : representable m = true → representable (m / one_mag * one_mag) = true.
Proof.
  intros Hm. destruct (representable_split m Hm) as (c & e & E & Hc & He). apply representable_range in Hm.
  assert (Hle : m / one_mag * one_mag ≤ m) by (unfold one_mag; Z.to_euclidean_division_equations; lia).
  destruct (Z.le_gt_cases 149 e) as [H|H].
  - enough (m / one_mag * one_mag = m) as -> by (rewrite E; apply representable_shift; lia).
    rewrite E. unfold one_mag. replace (2 ^ e) with (2 ^ (e - 149) * 2 ^ 149) by (rewrite <-Z.pow_add_r by lia; f_equal; lia).
    by rewrite Z.mul_assoc, Z.div_mul.
  - apply (representable_shift _ 149); [|lia|fold one_mag; lia]. rewrite E. unfold one_mag.
    replace (2 ^ 149) with (2 ^ (149 - e) * 2 ^ e) by (rewrite <-Z.pow_add_r by lia; f_equal; lia).
    assert (0 < 2 ^ e) by (apply Z.pow_pos_nonneg; lia). assert (0 < 2 ^ (149 - e)) by (apply Z.pow_pos_nonneg; lia).
    rewrite Z.div_mul_cancel_r by lia. split; [by apply Z.div_pos; lia|].
    apply Z.div_le_upper_bound; [lia|]. nia.
Qed.

Lemma to_usize_range v : valid v = true → 0 ≤ to_usize v ≤ usize_max.
Proof.
  destruct v as [|[]|[] m]; cbn [to_usize]; unfold usize_max; try lia. intros Hm%representable_range.
  assert (0 ≤ m / one_mag) by (apply Z.div_pos; [lia|done]). lia.
Qed.

(** [(v as usize) as f32] is exact, unless the first cast saturates. *)
Lemma of_Z_to_usize v : valid v = true → to_usize v < usize_max → of_Z (to_usize v) = Fin false (to_usize v * one_mag).
Proof.
  intros Hv Hs. pose proof (to_usize_range v Hv) as Hr. unfold of_Z. rewrite (proj2 (Z.ltb_ge _ _)), Z.abs_eq by lia.
  rewrite <-(Z.mul_1_r (to_usize v * one_mag)) at 1. apply make_exact; [done|].
  destruct v as [|[]|[] m]; cbn [to_usize] in *; try done; try lia.
  rewrite Z.min_l in * by lia. by apply whole_representable.
Qed.

Lemma of_Z_nonneg z : 0 ≤ z → ∃ m, 0 ≤ m ∧ (of_Z z = Fin false m ∨ of_Z z = Inf false).
Proof.
  intros Hz. unfold of_Z, make. rewrite (proj2 (Z.ltb_ge z 0)) by lia.
  destruct (round_split (Z.abs z * one_mag) 1) as (c & E & Hc & _); [unfold one_mag; lia|lia|]. rewrite E.
  set (m := c * 2 ^ excess _). exists m. split; [|by destruct (_ <? _); auto].
  apply Z.mul_nonneg_nonneg; [lia|]. apply Z.pow_nonneg. lia.
Qed.

Lemma clamp_total v z : 0 ≤ z → ∃ c, clamp v zero (of_Z z) = Some c.
Proof.
  intros Hz. destruct (of_Z_nonneg z Hz) as (m & Hm & [->| ->]); unfold clamp; [|by eexists].
  unfold leb, compare_with. cbn [order zero signed]. rewrite (proj2 (Z.leb_le _ _)) by lia. eauto.
Qed.

(** Clamping to [0 .. n] before the cast is clamping after it. *)
Lemma clamp_to_usize v n c : 0 ≤ n ≤ usize_max → of_Z n = Fin false (n * one_mag) → clamp v zero (of_Z n) = Some c →
  valid v = true → to_usize c = Z.min (to_usize v) n.
Proof.
  intros Hn E. rewrite E. unfold clamp. destruct (leb _ _); [|done]. intros [= <-] Hv.
  assert (Hcast : to_usize (Fin false (n * one_mag)) = n).
  { cbn [to_usize]. rewrite Z.div_mul by done. lia. }
  assert (Hz : to_usize (Fin false 0) = 0) by done. unfold ltb, compare_with.
  destruct v as [|[]|s m]; unfold zero; cbn [order signed].
  - cbn [to_usize]. lia.
  - change (- 2 ^ 277 <? 0) with true. cbv iota. rewrite Hz. cbn [to_usize]. lia.
  - change (2 ^ 277 <? 0) with false. cbv iota.
    destruct (n * one_mag <? 2 ^ 277) eqn:El; [rewrite Hcast; cbn [to_usize]; lia|]. apply Z.ltb_ge in El.
    exfalso. unfold usize_max, one_mag in *. lia.
  - apply representable_range in Hv. destruct (signed s m <? 0) eqn:E0.
    { apply Z.ltb_lt in E0. rewrite Hz. unfold signed in E0. destruct s; [cbn [to_usize]; lia|lia]. }
    apply Z.ltb_ge in E0. destruct (n * one_mag <? signed s m) eqn:E1.
    + apply Z.ltb_lt in E1. rewrite Hcast. destruct s; unfold signed in *; [unfold one_mag in *; lia|].
      cbn [to_usize]. assert (n ≤ m / one_mag) by (apply Z.div_le_lower_bound; unfold one_mag in *; lia). lia.
    + apply Z.ltb_ge in E1. destruct s; unfold signed in *; cbn [to_usize]; [lia|].
      assert (m / one_mag ≤ n) by (apply Z.div_le_upper_bound; unfold one_mag in *; lia). lia.
Qed.

Lemma zero_valid : valid zero = true.
Proof. done. Qed.
#[export] Hint Resolve zero_valid : f32.
#[global] Arguments add : simpl never.
#[global] Arguments sub : simpl never.
#[global] Arguments mul : simpl never.
#[global] Arguments div : simpl never.
