(* ===== verification/F32Math.v ===== *)
(** * More of Rust's [f32]: what the simulation of neuroevolution uses

    Square roots are correctly rounded, remainders are exact; [sin], [cos] and [atan2]
    have an unspecified precision in Rust, and are a class.  No definition here models
    a file of the repository. *)
From S2P Require Import Prelude RustStr F32.
From Stdlib Require SpecFloat.

(** ** Operations *)
Definition one : f32 := of_Z 1.
Definition fmin (x y : f32) : f32 :=
  match x, y with NaN, _ => y | _, NaN => x | _, _ => if ltb y x then y else x end.

Definition fsqrt (x : f32) : f32 :=
  match x with
  | Fin s m =>
      if m =? 0 then x
      else if s then NaN
      else
        let n := m * one_mag in
        let u := 2 ^ excess (Z.sqrt n) in
        let q := Z.sqrt n / u in
        let mid := q * u + u / 2 in
        Fin false (if (n <? mid * mid) || ((n =? mid * mid) && Z.even q) then q * u else (q + 1) * u)
  | Inf false => x
  | _ => NaN
  end.

(** [x % y] *)
Definition frem (x y : f32) : f32 :=
  match x, y with
  | Fin s m, Fin _ n => if n =? 0 then NaN else Fin s (m mod n)
  | Fin _ _, Inf _ => x
  | _, _ => NaN
  end.
Definition fabs (x : f32) : f32 := match x with NaN => NaN | Inf _ => Inf false | Fin _ m => Fin false m end.
(** [let r = x % y; if r < 0.0 { r + y.abs() } else { r }] *)
Definition rem_euclid (x y : f32) : f32 :=
  let r := frem x y in if ltb r zero then add r (fabs y) else r.

(** [x.round() as i64]: half away from zero, saturating. *)
Definition round_to_i64 (x : f32) : Z :=
  match x with
  | NaN => 0
  | Inf s => if s then - 2 ^ 63 else 2 ^ 63 - 1
  | Fin s m => let z := (2 * m + one_mag) / (2 * one_mag) in if s then Z.max (- z) (- 2 ^ 63) else Z.min z (2 ^ 63 - 1)
  end.

Definition PI : f32 := of_decimal 314159265358979323846264338327950288 35.
Definition FRAC_PI_2 : f32 := of_decimal 157079632679489661923132169163975144 35.
Definition FRAC_PI_4 : f32 := of_decimal 785398163397448309615660845819875721 36.

Example sqrt_agrees :
  forallb (λ x, match SpecFloat.SFcompare (to_spec (fsqrt x)) (SpecFloat.SFsqrt 24 128 (to_spec x)) with
    | Some Eq => true | _ => negb (match x with Fin s m => negb s || (m =? 0) | _ => false end) end) samples = true.
Proof. vm_compute. reflexivity. Qed.

(** ** Trigonometry *)
Class Trig : Type := { cos : f32 → f32; sin : f32 → f32; atan2 : f32 → f32 → f32 }.

Definition finite (x : f32) : Prop := match x with Fin _ _ => True | _ => False end.
Definition within (lo x hi : f32) : Prop := leb lo x = true ∧ leb x hi = true.

(** A value of the format in a range. *)
Definition ranges (lo x hi : f32) : Prop := valid x = true ∧ within lo x hi.

(** A cosine and a sine are between -1 and 1. *)
Class TrigLaws `{Trig} : Prop := {
  cos_range x : finite x → ranges (opp one) (cos x) one;
  sin_range x : finite x → ranges (opp one) (sin x) one }.

(** ** Bounds *)
Lemma round_le n d k : 0 ≤ n → 0 < d → representable k = true → n ≤ k * d → round n d ≤ k.
Proof.
  intros Hn Hd Hk Hnk. pose proof (representable_range k Hk) as Hr. unfold round. set (e := excess (n / d)).
  assert (Hp : 0 < 2 ^ e) by (apply Z.pow_pos_nonneg; [lia|apply excess_nonneg]).
  assert (Hq : n / d ≤ k) by (apply Z.div_le_upper_bound; lia).
  assert (He : ∃ c, k = c * 2 ^ e).
  { unfold representable in Hk. apply andb_prop in Hk as [_ Hm%Z.eqb_eq].
    apply Z.mod_divide in Hm as [c Hc]; [|apply Z.pow_nonzero; [lia|apply excess_nonneg]].
    exists (c * 2 ^ (excess k - e)). rewrite Hc at 1. rewrite <-Z.mul_assoc, <-Z.pow_add_r.
    - f_equal. f_equal. lia.
    - unfold e, excess. pose proof (Z.log2_le_mono _ _ Hq). lia.
    - apply excess_nonneg. }
  destruct He as [c Hc]. clearbody e. set (u := d * 2 ^ e).
  assert (Hu : 0 < u) by (unfold u; nia).
  pose proof (Z.div_mod n u ltac:(lia)) as Hdm. pose proof (Z.mod_pos_bound n u Hu) as Hm.
  assert (Hnc : n ≤ c * u) by (unfold u; nia).
  assert (Hqc : n / u ≤ c) by (apply Z.div_le_upper_bound; lia).
  rewrite Hc, (Z.mul_comm c). apply Z.mul_le_mono_nonneg_l; [lia|].
  destruct (Z.eq_dec (n / u) c) as [E|]; [|destruct (_ || _); lia].
  assert (n mod u = 0) as -> by nia. rewrite (proj2 (Z.ltb_lt _ _)) by lia. cbn [orb]. lia.
Qed.

(** The order of values by their signed magnitudes. *)
Definition sval (x : f32) : Z := match x with Fin s m => signed s m | _ => 0 end.
Lemma leb_fin s m t n : leb (Fin s m) (Fin t n) = true ↔ signed s m ≤ signed t n.
Proof. unfold leb, compare_with. cbn [order]. apply Z.leb_le. Qed.
Lemma ltb_fin s m t n : ltb (Fin s m) (Fin t n) = true ↔ signed s m < signed t n.
Proof. unfold ltb, compare_with. cbn [order]. apply Z.ltb_lt. Qed.

Lemma within_fin lo_s lo hi_s hi x : lo < 2 ^ 277 → hi < 2 ^ 277 → 0 ≤ lo → 0 ≤ hi →
  within (Fin lo_s lo) x (Fin hi_s hi) ↔ ∃ s m, x = Fin s m ∧ signed lo_s lo ≤ signed s m ≤ signed hi_s hi.
Proof.
  intros Hl Hh Hl0 Hh0. unfold within. destruct x as [|s|s m].
  - split; [by intros [? _]|]. by intros (? & ? & ? & _).
  - split; [|by intros (? & ? & ? & _)]. unfold leb, compare_with. cbn [order]. rewrite !Z.leb_le. unfold signed.
    destruct s, lo_s, hi_s; lia.
  - rewrite !leb_fin. split; [intros [? ?]; by exists s, m|]. by intros (? & ? & [= <- <-] & ? & ?).
Qed.

(** A positive sum stays positive, up to infinity. *)
Lemma round_pos n : 0 < n → 0 < round n 1.
Proof.
  intros Hn. unfold round. rewrite Z.div_1_r, Z.mul_1_l. set (e := excess n).
  assert (Hp : 0 < 2 ^ e) by (apply Z.pow_pos_nonneg; [lia|apply excess_nonneg]).
  assert (Hq : 0 < n / 2 ^ e).
  { apply Z.div_str_pos. split; [done|]. pose proof (proj1 (Z.log2_spec n Hn)) as Hl.
    etrans; [|apply Hl]. apply Z.pow_le_mono_r; [lia|]. unfold e, excess. pose proof (Z.log2_nonneg n). lia. }
  apply Z.mul_pos_pos; [done|]. destruct (_ || _); lia.
Qed.

Lemma add_positive a w : leb zero a = true → ltb zero w = true → ltb zero (add a w) = true.
Proof.
  destruct a as [|[]|s m], w as [|[]|t n]; try done. unfold zero. rewrite leb_fin, ltb_fin. intros Ha Hw. unfold add.
  set (z := signed s m + signed t n). change (signed false 0) with 0 in *. assert (Hz : 0 < z) by (unfold z; lia).
  rewrite (proj2 (Z.eqb_neq z 0)), (proj2 (Z.ltb_ge z 0)) by lia. unfold make. rewrite Z.abs_eq by lia.
  pose proof (round_pos z Hz). destruct (_ <? _); [|done]. apply ltb_fin. unfold signed. lia.
Qed.
Lemma ltb_leb a b : ltb a b = true → leb a b = true.
Proof. unfold ltb, leb, compare_with. destruct (order a), (order b); [|done..]. lia. Qed.
Lemma leb_trans a b c : leb a b = true → leb b c = true → leb a c = true.
Proof. unfold leb, compare_with. destruct (order a), (order b), (order c); try done. lia. Qed.
Lemma leb_ltb_trans a b c : leb a b = true → ltb b c = true → ltb a c = true.
Proof. unfold leb, ltb, compare_with. destruct (order a), (order b), (order c); try done. lia. Qed.
Lemma ltb_leb_trans a b c : ltb a b = true → leb b c = true → ltb a c = true.
Proof. unfold leb, ltb, compare_with. destruct (order a), (order b), (order c); try done. lia. Qed.

Lemma sum_positive ws a : leb zero a = true → ws ≠ [] → Forall (λ w, ltb zero w = true) ws → ltb zero (foldl add a ws) = true.
Proof.
  intros Ha Hne Hws. revert a Ha Hne. induction Hws as [|w ws Hw Hws IH]; intros a Ha Hne; [done|]. cbn [foldl].
  pose proof (add_positive a w Ha Hw) as Hp. destruct ws as [|w' ws]; [done|]. apply IH; [by apply ltb_leb|done].
Qed.

(** Rounded results between representable bounds. *)
Lemma make_bound neg n d k : 0 ≤ n → 0 < d → representable k = true → n ≤ k * d →
  ∃ m, make neg n d = Fin neg m ∧ 0 ≤ m ≤ k.
Proof.
  intros Hn Hd Hk Hnk. pose proof (representable_range k Hk). pose proof (round_le n d k Hn Hd Hk Hnk).
  unfold make. rewrite (proj2 (Z.ltb_lt _ _)) by lia. eexists. split; [done|]. split; [|done].
  destruct (round_split n d Hn Hd) as (c & -> & Hc & _). apply Z.mul_nonneg_nonneg; [lia|]. by apply Z.pow_nonneg.
Qed.

Lemma add_bound s m t n lo hi : representable lo = true → representable hi = true →
  - lo ≤ signed s m + signed t n ≤ hi → ∃ u k, add (Fin s m) (Fin t n) = Fin u k ∧ 0 ≤ k ∧ - lo ≤ signed u k ≤ hi.
Proof.
  intros Hlo Hhi Hz. pose proof (representable_range lo Hlo). pose proof (representable_range hi Hhi). unfold add.
  set (z := signed s m + signed t n) in *. clearbody z. destruct (Z.eqb_spec z 0) as [->|Hne].
  - exists (s && t), 0. split; [done|]. split; [done|]. destruct (s && t); unfold signed; lia.
  - destruct (Z.ltb_spec z 0).
    + destruct (make_bound true (Z.abs z) 1 lo) as (k & -> & Hk); [lia..|done|lia|]. exists true, k. unfold signed. split; [done|]. lia.
    + destruct (make_bound false (Z.abs z) 1 hi) as (k & -> & Hk); [lia..|done|lia|]. exists false, k. unfold signed. split; [done|]. lia.
Qed.

Lemma mul_bound s m t n k : 0 ≤ m → 0 ≤ n → representable k = true → m * n ≤ k * one_mag →
  ∃ u j, mul (Fin s m) (Fin t n) = Fin u j ∧ 0 ≤ j ≤ k.
Proof.
  intros Hm Hn Hk Hb. unfold mul. destruct (make_bound (xorb s t) (m * n) one_mag k) as (j & -> & Hj); [nia|done..|]. eauto.
Qed.

Lemma clamp_within v lo hi : leb lo hi = true → v ≠ NaN → ∃ c, clamp v lo hi = Some c ∧ within lo c hi.
Proof.
  intros Hl Hv. unfold clamp. rewrite Hl. eexists. split; [done|]. unfold within, leb, ltb, compare_with in *.
  destruct (order lo) as [a|] eqn:Ea; [|done]. destruct (order hi) as [b|] eqn:Eb; [|done].
  destruct (order v) as [z|] eqn:Ev; [|by destruct v].
  destruct (Z.ltb_spec z a); [rewrite ?Ea, ?Eb; split; lia|]. destruct (Z.ltb_spec b z); [rewrite ?Ea, ?Eb; split; lia|].
  rewrite ?Ea, ?Eb, ?Ev. split; lia.
Qed.

Lemma rem_euclid_bound s m n : 0 ≤ m → 0 < n → representable n = true →
  ∃ t k, rem_euclid (Fin s m) (Fin false n) = Fin t k ∧ 0 ≤ k ∧ 0 ≤ signed t k ≤ n.
Proof.
  intros Hm Hn Hr. unfold rem_euclid. cbn [frem fabs]. rewrite (proj2 (Z.eqb_neq n 0)) by lia.
  pose proof (Z.mod_pos_bound m n Hn) as Hb. destruct (ltb (Fin s (m mod n)) zero) eqn:E.
  - apply ltb_fin in E. destruct (add_bound s (m mod n) false n 0 n) as (u & k & -> & Hk & Hs); [done|done| |exists u, k; split; [done|lia]].
    change (signed false n) with n. destruct s; unfold signed in *; lia.
  - exists s, (m mod n). split; [done|]. split; [lia|].
    assert (0 ≤ signed s (m mod n)).
    { apply Z.nlt_ge. intros Hlt. apply not_true_iff_false in E. by apply E, ltb_fin. }
    destruct s; unfold signed in *; lia.
Qed.

(** The same for values of the format. *)
Lemma ranges_fin a m b n x : representable m = true → representable n = true →
  ranges (Fin a m) x (Fin b n) ↔ ∃ s k, x = Fin s k ∧ representable k = true ∧ signed a m ≤ signed s k ≤ signed b n.
Proof.
  intros Hm%representable_range Hn%representable_range. unfold ranges. rewrite within_fin by lia. split.
  - intros (Hv & s & k & -> & H). exists s, k. auto.
  - intros (s & k & -> & Hv & H). split; [exact Hv|]. exists s, k. auto.
Qed.

Lemma clamp_ranges v lo hi : leb lo hi = true → v ≠ NaN → valid v = true → valid lo = true → valid hi = true →
  ∃ c, clamp v lo hi = Some c ∧ ranges lo c hi.
Proof.
  intros Hl Hn Hv H1 H2. destruct (clamp_within v lo hi Hl Hn) as (c & E & Hc). exists c. split; [done|]. split; [|done].
  by apply (clamp_valid v lo hi).
Qed.

Lemma add_fin_valid s m t n : valid (add (Fin s m) (Fin t n)) = true.
Proof. unfold add. destruct (_ =? 0); [done|]. apply make_valid; lia. Qed.
Lemma add_ranges s m t n lo hi : representable lo = true → representable hi = true →
  - lo ≤ signed s m + signed t n ≤ hi → ranges (Fin true lo) (add (Fin s m) (Fin t n)) (Fin false hi).
Proof.
  intros Hlo Hhi Hz. destruct (add_bound s m t n lo hi Hlo Hhi Hz) as (u & k & E & Hk & Hs).
  apply ranges_fin; [done..|]. rewrite E. exists u, k. split; [done|]. split; [|done].
  pose proof (add_fin_valid s m t n) as Hv. by rewrite E in Hv.
Qed.

Lemma mul_ranges s m t n k : representable m = true → representable n = true → representable k = true → m * n ≤ k * one_mag →
  ranges (Fin true k) (mul (Fin s m) (Fin t n)) (Fin false k).
Proof.
  intros Hm Hn Hk Hb. pose proof (representable_range m Hm). pose proof (representable_range n Hn).
  destruct (mul_bound s m t n k) as (u & j & E & Hj); [lia|lia|done..|]. apply ranges_fin; [done..|]. rewrite E. exists u, j.
  assert (Hv : valid (mul (Fin s m) (Fin t n)) = true) by by apply mul_valid. rewrite E in Hv. split; [done|]. split; [done|].
  destruct u; unfold signed; lia.
Qed.

Lemma add_fin_not_nan s m t n : add (Fin s m) (Fin t n) ≠ NaN.
Proof. unfold add. destruct (_ =? 0); [done|]. unfold make. by destruct (_ <? _). Qed.

(** Remainders are exact. *)
Lemma representable_mod m n : representable m = true → representable n = true → 0 < n → representable (m mod n) = true.
Proof.
  intros Hm Hn Hn0. destruct (representable_split m Hm) as (c & e & Em & Hc & He). destruct (representable_split n Hn) as (c' & e' & En & Hc' & He').
  apply representable_range in Hm, Hn. pose proof (Z.mod_pos_bound m n Hn0) as Hb.
  destruct (Z.le_gt_cases e' e) as [H|H].
  - assert (Hd : m mod n = ((c * 2 ^ (e - e')) mod c') * 2 ^ e').
    { rewrite Em, En. replace (c * 2 ^ e) with (c * 2 ^ (e - e') * 2 ^ e') by (rewrite <-Z.mul_assoc, <-Z.pow_add_r by lia; do 2 f_equal; lia).
      apply Z.mul_mod_distr_r. all: pose proof (Z.pow_pos_nonneg 2 e' ltac:(lia) He'); nia. }
    assert (0 < c') by (pose proof (Z.pow_pos_nonneg 2 e' ltac:(lia) He'); nia).
    pose proof (Z.mod_pos_bound (c * 2 ^ (e - e')) c' ltac:(lia)).
    rewrite Hd. apply representable_shift; [lia|done|]. rewrite <-Hd. lia.
  - assert (Hd : m mod n = (c mod (c' * 2 ^ (e' - e))) * 2 ^ e).
    { rewrite Em, En. replace (c' * 2 ^ e') with (c' * 2 ^ (e' - e) * 2 ^ e) by (rewrite <-Z.mul_assoc, <-Z.pow_add_r by lia; do 2 f_equal; lia).
      apply Z.mul_mod_distr_r. all: pose proof (Z.pow_pos_nonneg 2 e ltac:(lia) He); pose proof (Z.pow_pos_nonneg 2 e' ltac:(lia) He');
        pose proof (Z.pow_pos_nonneg 2 (e' - e) ltac:(lia) ltac:(lia)); nia. }
    assert (0 < c' * 2 ^ (e' - e)).
    { pose proof (Z.pow_pos_nonneg 2 e' ltac:(lia) He'). pose proof (Z.pow_pos_nonneg 2 (e' - e) ltac:(lia) ltac:(lia)). nia. }
    pose proof (Z.mod_pos_bound c (c' * 2 ^ (e' - e)) ltac:(lia)). pose proof (Z.mod_le c (c' * 2 ^ (e' - e)) ltac:(lia) ltac:(lia)).
    rewrite Hd. apply representable_shift; [lia|done|]. rewrite <-Hd. lia.
Qed.

Lemma rem_euclid_ranges s m n : representable m = true → representable n = true → 0 < n →
  ranges zero (rem_euclid (Fin s m) (Fin false n)) (Fin false n).
Proof.
  intros Hm Hn H0. pose proof (representable_range m Hm). destruct (rem_euclid_bound s m n) as (t & k & E & Hk & Hs); [lia|done..|].
  apply ranges_fin; [done..|]. rewrite E. exists t, k. split; [done|]. split; [|done].
  enough (Hv : valid (rem_euclid (Fin s m) (Fin false n)) = true) by by rewrite E in Hv.
  unfold rem_euclid. cbn [frem fabs]. rewrite (proj2 (Z.eqb_neq n 0)) by lia.
  pose proof (representable_mod m n Hm Hn H0). destruct (ltb _ _); [|done]. by apply add_valid.
Qed.
