(* ===== verification/F32Text.v ===== *)
(** * The text of an [f32]

    [str::parse::<f32>] with the whole grammar of its documentation, [Display] of an
    [f32] with and without a precision, and padding.  [{}] prints the shortest decimal
    that is read back as the number, without an exponent; [{:.p}] rounds the exact value
    to [p] places, ties to even.  No definition here models a file of the repository. *)
From S2P Require Import Prelude RustStr F32.

(** ** Reading *)

(** [m * 10^e] *)
Definition scaled (neg : bool) (m e : Z) : f32 := make neg (m * 10 ^ Z.max 0 e * one_mag) (10 ^ Z.max 0 (- e)).

Definition strip_sign (s : str) : bool * str :=
  match s with c :: r => if c =? 45 then (true, r) else if c =? 43 then (false, r) else (false, s) | [] => (false, s) end.
Definition all_digits (s : str) : option Z :=
  match s with [] => None | _ => if forallb is_ascii_digit s then Some (digits_value s) else None end.

Definition is_exp_char (c : char) : bool := (c =? 101) || (c =? 69).
(** Nothing, or [e] and a whole number. *)
Definition parse_exponent (s : str) : option Z :=
  match s with
  | [] => Some 0
  | _ :: s => let '(neg, s) := strip_sign s in n ← all_digits s; Some (if neg : bool then - n else n)
  end.

(** The digits before and behind the point. *)
Definition split_point (s : str) : str * str := match split_once 46 s with Some p => p | None => (s, []) end.
Definition parse_number (neg : bool) (s : str) : option f32 :=
  let mantissa := take_while (λ c, negb (is_exp_char c)) s in
  let '(ints, fracs) := split_point mantissa in
  m ← all_digits (ints ++ fracs);
  e ← parse_exponent (drop_while (λ c, negb (is_exp_char c)) s);
  Some (scaled neg m (e - Z.of_nat (length fracs))).

Definition parse_f32 (s : str) : option f32 :=
  let '(neg, s) := strip_sign s in
  let l := to_ascii_lowercase s in
  if bool_decide (l = lit "inf") || bool_decide (l = lit "infinity") then Some (Inf neg)
  else if bool_decide (l = lit "nan") then Some NaN
  else parse_number neg s.

Example parse_f32_examples :
  parse_f32 (lit "800") = Some (of_Z 800) ∧ parse_f32 (lit "-2.50e1") = Some (of_Z (-25)) ∧
  parse_f32 (lit "+.5") = Some (of_decimal 5 1) ∧ parse_f32 (lit "12E-1") = Some (of_decimal 12 1) ∧
  parse_f32 (lit "-Infinity") = Some (Inf true) ∧ parse_f32 (lit "NaN") = Some NaN ∧
  parse_f32 (lit "-0") = Some (Fin true 0) ∧ parse_f32 (lit "1e39") = Some (Inf false) ∧
  parse_f32 [] = None ∧ parse_f32 (lit ".") = None ∧ parse_f32 (lit "e5") = None ∧ parse_f32 (lit "1e") = None ∧
  parse_f32 (lit " 1") = None ∧ parse_f32 (lit "1.2.3") = None ∧ parse_f32 (lit "+-1") = None.
Proof. by vm_compute. Qed.

(** ** Writing *)

(** The last [n] digits of [z]. *)
Fixpoint low_digits (n : nat) (z : Z) : str :=
  match n with O => [] | S n => low_digits n (z / 10) ++ [48 + z mod 10] end.
(** [c / 10^p] for a natural [c], with [p] places where [p] is positive. *)
Definition with_point (c p : Z) : str :=
  if p <=? 0 then show (c * 10 ^ (- p)) else show (c / 10 ^ p) ++ 46 :: low_digits (Z.to_nat p) (c mod 10 ^ p).

(** The finite number of magnitude [m] in units of [10^-p]: the whole number below,
    and what is left of it, in units of the result's denominator. *)
Definition in_units (m p : Z) : Z * Z * Z :=
  let n := m * 10 ^ Z.max 0 p in
  let d := one_mag * 10 ^ Z.max 0 (- p) in
  (n / d, n mod d, d).

(** With [p] places the decimals next to the number are [c] and [c + 1]; the nearer of
    those that are read back as the number, the upper one of two at the same distance. *)
Definition try_places (m p : Z) : option Z :=
  let '(c, r, d) := in_units m p in
  let down := bool_decide (scaled false c (- p) = Fin false m) in
  let up := bool_decide (scaled false (c + 1) (- p) = Fin false m) in
  if up && (negb down || (d <=? 2 * r)) then Some (c + 1) else if down then Some c else None.
(** The fewest places, from those of [10^39], more than every [f32], to 149, where every
    [f32] is a whole number of units. *)
Fixpoint shortest (fuel : nat) (m p : Z) : Z * Z :=
  match try_places m p, fuel with
  | Some c, _ => (c, p)
  | None, S fuel => shortest fuel m (p + 1)
  | None, O => (m * 10 ^ p / one_mag, p)
  end.
Definition least_places : Z := -39.
Definition places_fuel : nat := 188.

Definition sign_text (neg : bool) : str := if neg then lit "-" else [].
(** [format!("{}", x)] *)
Definition show_f32 (x : f32) : str :=
  match x with
  | NaN => lit "NaN"
  | Inf s => sign_text s ++ lit "inf"
  | Fin s m => sign_text s ++ if m =? 0 then lit "0" else let '(c, p) := shortest places_fuel m least_places in with_point c p
  end.

(** [format!("{:.p}", x)] *)
Definition round_places (m : Z) (p : nat) : Z :=
  let '(c, r, d) := in_units m (Z.of_nat p) in
  if (2 * r <? d) || ((2 * r =? d) && Z.even c) then c else c + 1.
Definition show_fixed (p : nat) (x : f32) : str :=
  match x with
  | NaN => lit "NaN"
  | Inf s => sign_text s ++ lit "inf"
  | Fin s m => sign_text s ++ with_point (round_places m p) (Z.of_nat p)
  end.

(** [format!("{:>w}", ..)] *)
Definition pad_left (w : nat) (s : str) : str := replicate (w - length s) SPACE ++ s.

Example show_f32_examples :
  show_f32 (of_Z 800) = lit "800" ∧ show_f32 (of_decimal 1 1) = lit "0.1" ∧ show_f32 (opp (of_decimal 25 1)) = lit "-2.5" ∧
  show_f32 (of_decimal 16777217 0) = lit "16777216" ∧ show_f32 (Fin false 1) = lit "0." ++ replicate 44 48 ++ lit "1" ∧
  show_f32 (Fin false ((2 ^ 24 - 1) * 2 ^ 253)) = lit "340282350000000000000000000000000000000" ∧
  show_f32 (Fin true 0) = lit "-0" ∧ show_f32 (Inf true) = lit "-inf" ∧
  show_f32 (div (of_Z 1) (of_Z 3)) = lit "0.33333334" ∧
  show_fixed 2 (of_decimal 125 3) = lit "0.12" ∧ show_fixed 2 (of_decimal 375 3) = lit "0.38" ∧
  show_fixed 2 (div (of_Z 2) (of_Z 3)) = lit "0.67" ∧ show_fixed 0 (of_decimal 25 1) = lit "2" ∧
  pad_left 6 (show_fixed 2 (of_Z 3)) = lit "  3.00".
Proof. by vm_compute. Qed.

(** ** What is written is read back *)
Lemma digits_value_from s z : foldl (λ acc c, acc * 10 + (c - 48)) z s = z * 10 ^ Z.of_nat (length s) + digits_value s.
Proof.
  unfold digits_value. revert z. induction s as [|c s IH]; intros z; [cbn; lia|].
  cbn [foldl length]. rewrite IH, (IH (0 * 10 + (c - 48))), Nat2Z.inj_succ, Z.pow_succ_r by lia. ring.
Qed.
Lemma digits_value_app s t : digits_value (s ++ t) = digits_value s * 10 ^ Z.of_nat (length t) + digits_value t.
Proof. unfold digits_value at 1. by rewrite foldl_app, digits_value_from. Qed.

Lemma low_digits_spec n z : 0 ≤ z →
  length (low_digits n z) = n ∧ forallb is_ascii_digit (low_digits n z) = true ∧ digits_value (low_digits n z) = z mod 10 ^ Z.of_nat n.
Proof.
  revert z. induction n as [|n IH]; intros z Hz; [by rewrite Z.mod_1_r|]. cbn [low_digits].
  destruct (IH (z / 10)) as (Hl & Hd & Hv); [int_lia|]. rewrite length_app, forallb_app, Hl, Hd, digits_value_snoc, Hv. split_and!.
  - cbn. lia.
  - cbn. unfold is_ascii_digit. pose proof (Z.mod_pos_bound z 10). lia.
  - rewrite Nat2Z.inj_succ, Z.pow_succ_r, Z.rem_mul_r by lia. lia.
Qed.

Lemma forallb_is_digit_not_in s c : forallb is_ascii_digit s = true → is_ascii_digit c = false → c ∉ s.
Proof. intros Hs Hc Hin. rewrite forallb_forall in Hs. rewrite (Hs c) in Hc; [done|]. by apply list_elem_of_In. Qed.

Lemma take_while_all p s : forallb p s = true → take_while p s = s ∧ drop_while p s = [].
Proof. induction s as [|c s IH]; [done|]. cbn. intros [-> Hs]%andb_prop. destruct (IH Hs) as [-> ->]. done. Qed.

(** Digits with a point in them. *)
Lemma parse_plain neg ints fracs s : forallb is_ascii_digit (ints ++ fracs) = true → (ints ++ fracs) ≠ [] →
  s = ints ++ 46 :: fracs ∨ (s = ints ∧ fracs = []) →
  parse_number neg s = Some (scaled neg (digits_value (ints ++ fracs)) (- Z.of_nat (length fracs))).
Proof.
  intros Hd Hne Hs. pose proof Hd as Hd'. rewrite forallb_app in Hd'. apply andb_prop in Hd' as [Hi Hf].
  assert (Hchars : ∀ l, forallb is_ascii_digit l = true → forallb (λ c, negb (is_exp_char c)) l = true).
  { intros l Hl. rewrite forallb_forall in Hl |- *. intros c Hc. specialize (Hl c Hc). unfold is_ascii_digit, is_exp_char in *. lia. }
  assert (Hall : forallb (λ c, negb (is_exp_char c)) s = true ∧ split_point s = (ints, fracs)).
  { unfold split_point. destruct Hs as [->|[-> ->]].
    - rewrite forallb_app. cbn [forallb]. rewrite !Hchars by done. rewrite split_once_app; [done|by apply forallb_is_digit_not_in].
    - split; [by apply Hchars|]. destruct (split_once 46 ints) as [[a b]|] eqn:E; [|done]. exfalso.
      apply (forallb_is_digit_not_in ints 46 Hi eq_refl). clear -E. revert a b E. induction ints as [|c l IH]; intros a b E; [done|].
      cbn in E. destruct (Z.eqb_spec c 46) as [->|]; [by left|]. destruct (split_once 46 l) as [[? ?]|] eqn:E2; [|done]. right. by eapply IH. }
  destruct Hall as [H1 H2]. unfold parse_number. destruct (take_while_all _ s H1) as [-> ->]. rewrite H2. unfold all_digits. rewrite Hd.
  destruct (ints ++ fracs); [done|]. by cbn.
Qed.

Lemma parse_with_point neg c p : 0 ≤ c → parse_number neg (with_point c p) = Some (scaled neg c (- p)).
Proof.
  intros Hc. unfold with_point. destruct (Z.leb_spec p 0) as [Hp|Hp].
  - assert (0 ≤ c * 10 ^ (- p)) by nia. destruct (show_nonempty (c * 10 ^ (- p))) as (d & r & E).
    rewrite (parse_plain neg (show (c * 10 ^ (- p))) []); rewrite ?app_nil_r; [|by apply show_digits|by rewrite E|by right].
    f_equal. rewrite show_value by done. unfold scaled. cbn [length]. replace (Z.max 0 (- Z.of_nat 0)) with 0 by lia.
    replace (Z.max 0 (- - Z.of_nat 0)) with 0 by lia. replace (Z.max 0 (- p)) with (- p) by lia. replace (Z.max 0 (- - p)) with 0 by lia.
    by rewrite Z.mul_1_r.
  - assert (Hm : 0 < 10 ^ p) by (by apply Z.pow_pos_nonneg; lia). pose proof (Z.mod_pos_bound c _ Hm).
    destruct (low_digits_spec (Z.to_nat p) (c mod 10 ^ p)) as (Hl & Hd & Hv); [lia|].
    assert (0 ≤ c / 10 ^ p) by (by apply Z.div_pos). destruct (show_nonempty (c / 10 ^ p)) as (d & r & E).
    rewrite (parse_plain neg (show (c / 10 ^ p)) (low_digits (Z.to_nat p) (c mod 10 ^ p))); [|by rewrite forallb_app, show_digits|by rewrite E|by left].
    rewrite digits_value_app, Hl, Hv, show_value by done. rewrite !Z2Nat.id by lia.
    rewrite Z.mod_mod by lia. rewrite Z.mul_comm, <-Z.div_mod by lia. done.
Qed.

Lemma scaled_sign neg c e m : scaled false c e = Fin false m → scaled neg c e = Fin neg m.
Proof. unfold scaled, make. destruct (_ <? _); [|done]. by intros [= ->]. Qed.

Lemma try_places_sound m p c : 0 ≤ m → try_places m p = Some c → 0 ≤ c ∧ scaled false c (- p) = Fin false m.
Proof.
  intros Hm. unfold try_places. destruct (in_units m p) as [[c0 r] d] eqn:E.
  assert (Hc : 0 ≤ c0).
  { unfold in_units in E. injection E as <- _ _. apply Z.div_pos; [|unfold one_mag]; nia. }
  destruct (bool_decide_reflect (scaled false (c0 + 1) (- p) = Fin false m)), (bool_decide_reflect (scaled false c0 (- p) = Fin false m)); cbn.
  all: try destruct (d <=? 2 * r); intros [= <-]; split; first [done|lia].
Qed.
(** With 149 places every number is exact. *)
Lemma try_places_exact m : representable m = true → try_places m 149 ≠ None.
Proof.
  intros Hm. unfold try_places, in_units. replace (Z.max 0 149) with 149 by lia. replace (Z.max 0 (- 149)) with 0 by lia.
  assert (E : m * 10 ^ 149 = m * 5 ^ 149 * one_mag) by (unfold one_mag; rewrite <-Z.mul_assoc, <-Z.pow_mul_l; done).
  rewrite E, Z.mul_1_r, Z.div_mul by done.
  assert (Ed : scaled false (m * 5 ^ 149) (- 149) = Fin false m).
  { unfold scaled. replace (Z.max 0 (- 149)) with 0 by lia. replace (Z.max 0 (- - 149)) with 149 by lia.
    rewrite Z.mul_1_r, <-E. by apply make_exact. }
  rewrite (bool_decide_eq_true_2 _ Ed). destruct (_ && _); done.
Qed.
Lemma shortest_sound fuel m p c q : representable m = true → p + Z.of_nat fuel = 149 → shortest fuel m p = (c, q) →
  0 ≤ c ∧ scaled false c (- q) = Fin false m.
Proof.
  intros Hm. pose proof (representable_range m Hm). revert p. induction fuel as [|fuel IH]; intros p Hp; cbn [shortest];
    destruct (try_places m p) as [c'|] eqn:E.
  1,3: intros [= <- <-]; apply try_places_sound; [lia|done].
  - replace p with 149 in E by lia. by apply try_places_exact in E.
  - apply IH. lia.
Qed.

Lemma word_not_number s c r : s = c :: r → is_ascii_digit c = true → (∀ t d u, t = lit d → t = 105 :: u ∨ t = 110 :: u → to_ascii_lowercase s ≠ t).
Proof.
  intros -> Hc t d u _ Ht E. cbn [to_ascii_lowercase List.map] in E. unfold ascii_lower, is_ascii_upper, is_ascii_digit in *.
  rewrite (proj2 (andb_false_iff _ _)) in E by lia. destruct Ht as [->| ->]; injection E as -> _; done.
Qed.
Lemma parse_signed neg s c r : s = c :: r → is_ascii_digit c = true → parse_f32 (sign_text neg ++ s) = parse_number neg s.
Proof.
  intros Es Hc. assert (E : strip_sign (sign_text neg ++ s) = (neg, s)).
  { subst. destruct neg; [done|]. cbn. unfold is_ascii_digit in Hc. by destruct (Z.eqb_spec c 45), (Z.eqb_spec c 43); try lia. }
  unfold parse_f32. rewrite E. pose proof (word_not_number s c r Es Hc) as Hw.
  rewrite !bool_decide_eq_false_2 by (eapply Hw; [reflexivity|first [left; reflexivity|right; reflexivity]]). done.
Qed.

Lemma with_point_head c p : 0 ≤ c → ∃ d r, with_point c p = d :: r ∧ is_ascii_digit d = true.
Proof.
  intros Hc. unfold with_point. assert (Hshow : ∀ n, 0 ≤ n → ∃ d r, show n = d :: r ∧ is_ascii_digit d = true).
  { intros n Hn. destruct (show_nonempty n) as (d & r & E). exists d, r. split; [done|]. pose proof (show_digits n Hn) as H.
    rewrite E in H. by apply andb_prop in H as [? _]. }
  destruct (Z.leb_spec p 0).
  - apply Hshow. nia.
  - destruct (Hshow (c / 10 ^ p)) as (d & r & -> & ?); [apply Z.div_pos; lia|]. by eexists _, _.
Qed.

(** The text of a number is read back as the number, NaN and the zeros included. *)
Lemma parse_show_f32 x : valid x = true → parse_f32 (show_f32 x) = Some x.
Proof.
  intros Hx. destruct x as [|s|s m]; [by vm_compute|by destruct s; vm_compute|]. cbn [show_f32].
  destruct (Z.eqb_spec m 0) as [->|_]; [by destruct s; vm_compute|].
  destruct (shortest places_fuel m least_places) as [c p] eqn:E.
  destruct (shortest_sound places_fuel m least_places c p Hx eq_refl E) as [Hc Hs]. destruct (with_point_head c p Hc) as (d & r & Ed & Hd).
  rewrite (parse_signed s _ d r), parse_with_point by done. f_equal. by apply scaled_sign.
Qed.

(** A fixed number of places is off by at most half of the last place. *)
Lemma round_places_near m p : 0 ≤ m → 0 ≤ round_places m p ∧ 2 * Z.abs (round_places m p * one_mag - m * 10 ^ Z.of_nat p) ≤ one_mag.
Proof.
  intros Hm. unfold round_places, in_units. rewrite Z.max_r, Z.max_l by lia. rewrite Z.mul_1_r.
  assert (Ho : 0 < one_mag) by done. set (n := m * 10 ^ Z.of_nat p). assert (0 ≤ n) by (unfold n; nia).
  pose proof (Z.div_mod n one_mag). pose proof (Z.mod_pos_bound n one_mag Ho). pose proof (Z.div_pos n one_mag ltac:(done) Ho).
  set (q := n / one_mag) in *. set (r := n mod one_mag) in *. destruct ((2 * r <? one_mag) || ((2 * r =? one_mag) && Z.even q)) eqn:E; [|nia].
  split; [done|]. assert (2 * r ≤ one_mag) by lia. nia.
Qed.

(** Of digits and points only the decimals of [F32.parse_decimal] are numbers. *)
Definition is_number_char (c : char) : bool := is_ascii_digit c || (c =? 46).
Lemma parse_f32_decimal s : forallb is_number_char s = true → parse_f32 s = parse_decimal s.
Proof.
  intros Hs. assert (Hc : ∀ c, c ∈ s → is_number_char c = true) by (intros c Hin; rewrite forallb_forall in Hs; by apply Hs, list_elem_of_In).
  assert (E : strip_sign s = (false, s)).
  { destruct s as [|c r]; [done|]. specialize (Hc c ltac:(by left)). unfold is_number_char, is_ascii_digit in Hc. cbn.
    by destruct (Z.eqb_spec c 45), (Z.eqb_spec c 43); try lia. }
  assert (Hw : ∀ t d u, t = d :: u → is_ascii_lower d = true → to_ascii_lowercase s ≠ t).
  { intros t d u -> Hd Ht. destruct s as [|c r]; [done|]. specialize (Hc c ltac:(by left)). cbn in Ht. injection Ht as Ht _.
    unfold is_number_char, is_ascii_digit, is_ascii_lower, ascii_lower, is_ascii_upper in *. destruct ((65 <=? c) && (c <=? 90)) eqn:?; lia. }
  assert (He : forallb (λ c, negb (is_exp_char c)) s = true).
  { rewrite forallb_forall in Hs |- *. intros c Hin. specialize (Hs c Hin). unfold is_number_char, is_ascii_digit, is_exp_char in *. lia. }
  unfold parse_f32. rewrite E. rewrite !bool_decide_eq_false_2 by (eapply Hw; reflexivity). cbn [orb].
  unfold parse_number. destruct (take_while_all _ s He) as [-> ->]. unfold parse_decimal, split_point.
  destruct (match split_once 46 s with Some p => p | None => (s, []) end) as [ints fracs]. unfold all_digits.
  destruct (ints ++ fracs) as [|c l]; [done|]. destruct (forallb is_ascii_digit (c :: l)); [|done]. cbn [mbind option_bind parse_exponent]. f_equal.
  unfold scaled, of_decimal. replace (Z.max 0 (0 - Z.of_nat (length fracs))) with 0 by lia.
  replace (Z.max 0 (- (0 - Z.of_nat (length fracs)))) with (Z.of_nat (length fracs)) by lia.
  change (10 ^ 0) with 1. by rewrite Z.mul_1_r.
Qed.

(** The text of a finite number that is not negative is one of those. *)
Lemma with_point_chars c p : 0 ≤ c → forallb is_number_char (with_point c p) = true.
Proof.
  intros Hc. assert (Hd : ∀ l, forallb is_ascii_digit l = true → forallb is_number_char l = true).
  { intros l Hl. rewrite forallb_forall in Hl |- *. intros d Hin. unfold is_number_char. by rewrite (Hl d Hin). }
  unfold with_point. destruct (Z.leb_spec p 0); [apply Hd, show_digits; nia|]. rewrite forallb_app. cbn [forallb].
  assert (0 < 10 ^ p) by (apply Z.pow_pos_nonneg; lia). pose proof (Z.mod_pos_bound c (10 ^ p)).
  rewrite !Hd; [done|apply low_digits_spec; lia|apply show_digits, Z.div_pos; lia].
Qed.
Lemma show_f32_decimal m : representable m = true →
  let t := show_f32 (Fin false m) in
  forallb is_number_char t = true ∧ parse_decimal t = Some (Fin false m) ∧ ∃ d r, t = d :: r ∧ is_ascii_digit d = true.
Proof.
  intros Hm. cbv zeta. assert (H : forallb is_number_char (show_f32 (Fin false m)) = true ∧ ∃ d r, show_f32 (Fin false m) = d :: r ∧ is_ascii_digit d = true).
  { cbn [show_f32 sign_text app]. destruct (m =? 0); [split; [done|by eexists _, _]|].
    destruct (shortest places_fuel m least_places) as [c p] eqn:E. destruct (shortest_sound places_fuel m least_places c p Hm eq_refl E) as [Hc _].
    split; [by apply with_point_chars|by apply with_point_head]. }
  destruct H as [Hc Hh]. split; [done|]. split; [|done]. rewrite <-parse_f32_decimal by done. by apply parse_show_f32.
Qed.

(** What is read is a value of the format. *)
Lemma parse_f32_valid s x : parse_f32 s = Some x → valid x = true.
Proof.
  unfold parse_f32. destruct (strip_sign s) as [neg r]. destruct (_ || _); [by intros [= <-]|]. destruct (bool_decide _); [by intros [= <-]|].
  unfold parse_number. destruct (split_point _) as [ints fracs]. destruct (all_digits _) as [m|] eqn:Em; [|done]. cbn [mbind option_bind].
  destruct (parse_exponent _) as [e|]; [|done]. intros [= <-]. assert (0 ≤ m).
  { unfold all_digits in Em. destruct (ints ++ fracs) as [|c l]; [done|]. destruct (forallb is_ascii_digit (c :: l)) eqn:E; [|done].
    injection Em as <-. by apply forallb_value_nonneg. }
  apply make_valid; [|by apply Z.pow_pos_nonneg; lia]. unfold one_mag. apply Z.mul_nonneg_nonneg; [|done].
  apply Z.mul_nonneg_nonneg; [done|]. apply Z.pow_nonneg. lia.
Qed.
