(* ===== verification/Scanner.v ===== *)
(** * The cursor of the browser engine's parsers
    ([2026-08-26-rust-browser-engine/src/html_parser.rs], and the same code again in
    [css.rs])

    Both parsers keep a [String] and a byte position in it, and read the rest of the
    string from there.  A cursor is that rest.  [consume_char] advances by the
    position of the next character, and by one byte when there is none: behind a last
    character of more than one byte the position is then inside of it, where every
    reading of the rest panics and [eof] says no ([Inside]).

    A scanner panics, runs out of the fuel that stands for looping forever, or
    returns a value and the cursor. *)
From S2P Require Import Prelude RustStr.

(** ** Outcomes *)
Inductive outcome (A : Type) : Type := Ret (a : A) | Panic | Timeout.
Arguments Ret {A} a.
Arguments Panic {A}.
Arguments Timeout {A}.

Definition obind {A B} (o : outcome A) (k : A → outcome B) : outcome B :=
  match o with Ret a => k a | Panic => Panic | Timeout => Timeout end.

(** More fuel can only replace a [Timeout]. *)
Definition refines {A} (o o' : outcome A) : Prop := o = Timeout ∨ o = o'.
#[export] Instance refines_preorder {A} : PreOrder (@refines A).
Proof. split; [by right|]. intros a b c [->| ->] [->| ->]; unfold refines; auto. Qed.

Lemma obind_refines {A B} (o o' : outcome A) (k k' : A → outcome B) :
  refines o o' → (∀ a, refines (k a) (k' a)) → refines (obind o k) (obind o' k').
Proof. intros [->| ->] Hk; [by left|]. destruct o'; [apply Hk|by right..]. Qed.

(** ** Cursors *)
Inductive Cursor : Type := At (rest : str) | Inside.

Definition size (c : Cursor) : nat := match c with At r => length r | Inside => 0 end.

Definition scan (A : Type) : Type := Cursor → outcome (A * Cursor).
Definition sret {A} (a : A) : scan A := λ c, Ret (a, c).
Definition sbind {A B} (m : scan A) (k : A → scan B) : scan B := λ c, obind (m c) (λ r, k r.1 r.2).
Definition timeout {A} : scan A := λ _, Timeout.
Definition panic {A} : scan A := λ _, Panic.
(** A panic of a pure computation. *)
Definition or_panics {A} (o : option A) : scan A :=
  match o with Some a => sret a | None => panic end.
Notation "'let*' x := m 'in' k" := (sbind m (λ x, k))
  (at level 10, x name, m at level 100, k at level 200).

Definition one_byte (c : char) : bool := c <? 0x80.

Definition eof : scan bool := λ c, Ret (match c with At [] => true | _ => false end, c).

Definition next_char : scan char := λ c, match c with At (x :: _) => Ret (x, c) | _ => Panic end.

Definition looking_at (p : str) : scan bool := λ c,
  match c with At r => Ret (starts_with p r, c) | Inside => Panic end.

(** Behind the character [x], when [r] is what follows it. *)
Definition behind (x : char) (r : str) : Cursor :=
  match r with [] => if one_byte x then At [] else Inside | _ => At r end.

Definition consume_char : scan char := λ c,
  match c with At (x :: r) => Ret (x, behind x r) | _ => Panic end.

(** [assert_eq!(self.consume_char(), x)] *)
Definition expect_char (x : char) : scan unit :=
  let* y := consume_char in if y =? x then sret tt else panic.

(** The loop of [consume_while], on the rest of the input. *)
Fixpoint while_from (test : char → bool) (r : str) : outcome (str * Cursor) :=
  match r with
  | [] => Ret ([], At [])
  | x :: r' =>
      if test x then
        match r' with
        | [] => if one_byte x then Ret ([x], At []) else Panic
        | _ => obind (while_from test r') (λ p, Ret (x :: p.1, p.2))
        end
      else Ret ([], At r)
  end.
Definition consume_while (test : char → bool) : scan str := λ c,
  match c with At r => while_from test r | Inside => Panic end.

(** It is the loop of the source: [while !eof && test(next_char) { push(consume_char) }]. *)
Lemma consume_while_loop test c :
  consume_while test c =
  (let* e := eof in
   if e then sret []
   else
     let* x := next_char in
     if test x then let* y := consume_char in let* s := consume_while test in sret (y :: s)
     else sret []) c.
Proof.
  destruct c as [[|x r]|]; [done| |done]. unfold sbind, eof, next_char, consume_char. cbn [obind fst snd].
  cbn [consume_while while_from]. destruct (test x); [|done]. cbn [obind fst snd].
  destruct r as [|y r]; [unfold behind; by destruct (one_byte x)|]. done.
Qed.

Definition consume_whitespace : scan str := consume_while is_whitespace.

(** ** What the operations do *)
Lemma sbind_ret {A B} (m : scan A) (k : A → scan B) c a c' : m c = Ret (a, c') → sbind m k c = k a c'.
Proof. intros H. unfold sbind. by rewrite H. Qed.

Lemma sbind_refines {A B} (m m' : scan A) (k k' : A → scan B) c :
  refines (m c) (m' c) → (∀ a c', refines (k a c') (k' a c')) → refines (sbind m k c) (sbind m' k' c).
Proof. intros Hm Hk. apply obind_refines; [done|]. intros [a c']. apply Hk. Qed.

(** ... where the second one starts from what the first one left. *)
Lemma sbind_refines_at {A B} (m m' : scan A) (k k' : A → scan B) c :
  refines (m c) (m' c) → (∀ a c', m' c = Ret (a, c') → refines (k a c') (k' a c')) →
  refines (sbind m k c) (sbind m' k' c).
Proof.
  unfold sbind. intros [->| ->] Hk; [by left|].
  destruct (m' c) as [[a c']| |]; [by apply Hk|by right..].
Qed.

Lemma behind_one x r : one_byte x = true → behind x r = At r.
Proof. intros Hx. unfold behind. destruct r; [by rewrite Hx|done]. Qed.

Lemma behind_ne x r : r ≠ [] → behind x r = At r.
Proof. by destruct r. Qed.

Lemma behind_size x r : size (behind x r) = length r.
Proof. unfold behind. destruct r; [by destruct (one_byte x)|done]. Qed.

Lemma consume_char_at x r : one_byte x = true ∨ r ≠ [] → consume_char (At (x :: r)) = Ret (x, At r).
Proof. intros [Hx|Hr]; cbn [consume_char]; [by rewrite behind_one|by rewrite behind_ne]. Qed.

Lemma expect_char_at x r : one_byte x = true → expect_char x (At (x :: r)) = Ret (tt, At r).
Proof.
  intros Hx. unfold expect_char. erewrite sbind_ret by (by apply consume_char_at; left). by rewrite Z.eqb_refl.
Qed.

(** A run of characters that pass, up to one that does not. *)
Lemma while_from_stop test s x r :
  forallb test s = true → test x = false → while_from test (s ++ x :: r) = Ret (s, At (x :: r)).
Proof.
  induction s as [|y s IH]; intros Hs Hx; cbn [app while_from]; [by rewrite Hx|].
  simpl in Hs. apply andb_prop in Hs as [-> Hs]. rewrite IH by done. by destruct (s ++ x :: r) eqn:E; [destruct s|].
Qed.

Lemma consume_while_stop test s x r :
  forallb test s = true → test x = false → consume_while test (At (s ++ x :: r)) = Ret (s, At (x :: r)).
Proof. apply while_from_stop. Qed.

Lemma consume_while_none test x r : test x = false → consume_while test (At (x :: r)) = Ret ([], At (x :: r)).
Proof. intros Hx. by apply (consume_while_stop test []). Qed.

(** A run up to the end, which is left by a single byte. *)
Lemma consume_while_all test s :
  forallb test s = true → forallb one_byte s = true → consume_while test (At s) = Ret (s, At []).
Proof.
  cbn [consume_while]. induction s as [|x s IH]; [done|]. cbn [while_from forallb]. intros [Hx Hs]%andb_prop [H1 H2]%andb_prop.
  rewrite Hx. destruct s as [|y s]; [by rewrite H1|]. by rewrite (IH Hs H2).
Qed.

(** Every run is cut off the front. *)
Lemma while_from_split test r s c :
  while_from test r = Ret (s, c) → ∃ r', c = At r' ∧ r = s ++ r' ∧ forallb test s = true ∧
    match r' with [] => True | x :: _ => test x = false end.
Proof.
  revert s c. induction r as [|x r IH]; intros s c; cbn [while_from]; [intros [= <- <-]; by exists []|].
  destruct (test x) eqn:Ex; [|intros [= <- <-]; by exists (x :: r)].
  destruct r as [|y r].
  - destruct (one_byte x); [|done]. intros [= <- <-]. exists []. simpl. by rewrite Ex.
  - destruct (while_from test (y :: r)) as [[s' c']| |]; [|done..]. cbn [obind fst snd]. intros [= <- <-].
    destruct (IH s' c' eq_refl) as (r' & -> & Er & Hs & Hr'). exists r'. simpl. by rewrite Er, Ex.
Qed.

Lemma consume_while_split test c s c' :
  consume_while test c = Ret (s, c') → ∃ r r', c = At r ∧ c' = At r' ∧ r = s ++ r' ∧ forallb test s = true ∧
    match r' with [] => True | x :: _ => test x = false end.
Proof.
  destruct c as [r|]; [|done]. intros (r' & -> & H)%while_from_split. by exists r, r'.
Qed.

Lemma while_from_total test r : while_from test r ≠ Timeout.
Proof.
  induction r as [|x r IH]; cbn [while_from]; [done|]. destruct (test x); [|done].
  destruct r; [by destruct (one_byte x)|]. by destruct (while_from test (z :: r)).
Qed.

Lemma consume_while_total test c : consume_while test c ≠ Timeout.
Proof. destruct c; [apply while_from_total|done]. Qed.

Lemma consume_char_size c x c' : consume_char c = Ret (x, c') → size c = S (size c').
Proof. destruct c as [[|y r]|]; try done. intros [= -> <-]. by rewrite behind_size. Qed.

Lemma starts_with_app p r : starts_with p (p ++ r) = true.
Proof. induction p as [|c p IH]; [done|]. simpl. by rewrite Z.eqb_refl. Qed.

Lemma starts_with_ne c p d r : c ≠ d → starts_with (c :: p) (d :: r) = false.
Proof. intros Hc. simpl. by rewrite (proj2 (Z.eqb_neq c d)). Qed.

Lemma looking_at_app p r : looking_at p (At (p ++ r)) = Ret (true, At (p ++ r)).
Proof. cbn [looking_at]. by rewrite starts_with_app. Qed.

(** ** Scanners that consume *)

(** [m] never grows the rest; [m] needs no fuel. *)
Definition shrinks {A} (m : scan A) : Prop := ∀ c a c', m c = Ret (a, c') → (size c' ≤ size c)%nat.
Definition settles {A} (m : scan A) : Prop := ∀ c, m c ≠ Timeout.

Lemma shrinks_bind {A B} (m : scan A) (k : A → scan B) : shrinks m → (∀ a, shrinks (k a)) → shrinks (sbind m k).
Proof.
  intros Hm Hk c b c'. unfold sbind. destruct (m c) as [[a c1]| |] eqn:E; [|done..]. cbn [obind fst snd].
  intros H. apply Hk in H. apply Hm in E. lia.
Qed.
Lemma settles_bind {A B} (m : scan A) (k : A → scan B) : settles m → (∀ a, settles (k a)) → settles (sbind m k).
Proof.
  intros Hm Hk c. unfold sbind. specialize (Hm c). destruct (m c) as [[a c1]| |]; [apply Hk|done..].
Qed.

Lemma shrinks_ret {A} (a : A) : shrinks (sret a).
Proof. by intros c b c' [= _ <-]. Qed.
Lemma settles_ret {A} (a : A) : settles (sret a).
Proof. done. Qed.
Lemma shrinks_panic {A} : shrinks (@panic A).
Proof. done. Qed.
Lemma settles_panic {A} : settles (@panic A).
Proof. done. Qed.
Lemma shrinks_eof : shrinks eof.
Proof. by intros c b c' [= _ <-]. Qed.
Lemma settles_eof : settles eof.
Proof. done. Qed.
Lemma shrinks_next : shrinks next_char.
Proof. intros [[|x r]|] b c'; try done. by intros [= _ <-]. Qed.
Lemma settles_next : settles next_char.
Proof. by intros [[|x r]|]. Qed.
Lemma shrinks_looking p : shrinks (looking_at p).
Proof. intros [r|] b c'; [|done]. by intros [= _ <-]. Qed.
Lemma settles_looking p : settles (looking_at p).
Proof. by intros [r|]. Qed.
Lemma shrinks_char : shrinks consume_char.
Proof. intros c x c' H%consume_char_size. lia. Qed.
Lemma settles_char : settles consume_char.
Proof. by intros [[|x r]|]. Qed.
Lemma shrinks_while test : shrinks (consume_while test).
Proof. intros c s c' (r & r' & -> & -> & -> & _)%consume_while_split. cbn [size]. rewrite length_app. lia. Qed.
Lemma settles_while test : settles (consume_while test).
Proof. intros c. apply consume_while_total. Qed.

Create HintDb scan discriminated.
#[export] Hint Resolve shrinks_ret settles_ret shrinks_panic settles_panic shrinks_eof settles_eof shrinks_next
  settles_next shrinks_looking settles_looking shrinks_char settles_char shrinks_while settles_while : scan.

(** Syntax-directed: through the binds and the branches. *)
Ltac solve_scan :=
  repeat lazymatch goal with
  | |- shrinks (sbind _ _) => apply shrinks_bind; [|intros]
  | |- settles (sbind _ _) => apply settles_bind; [|intros]
  | |- _ (if ?b then _ else _) => destruct b
  | |- _ (match ?o with Some _ => _ | None => _ end) => destruct o
  | |- _ (let '(_, _) := ?p in _) => destruct p
  | |- _ => first [progress auto with scan | fail 1]
  end.

Lemma shrinks_ws : shrinks consume_whitespace.
Proof. apply shrinks_while. Qed.
Lemma settles_ws : settles consume_whitespace.
Proof. apply settles_while. Qed.
Lemma shrinks_expect x : shrinks (expect_char x).
Proof. unfold expect_char. solve_scan. Qed.
Lemma settles_expect x : settles (expect_char x).
Proof. unfold expect_char. solve_scan. Qed.
#[export] Hint Resolve shrinks_ws settles_ws shrinks_expect settles_expect : scan.

Lemma expect_size x c a c' : expect_char x c = Ret (a, c') → size c = S (size c').
Proof.
  unfold expect_char, sbind. destruct (consume_char c) as [[y c1]| |] eqn:E; [|done..]. apply consume_char_size in E.
  cbn [obind fst snd]. destruct (y =? x); [|done]. by intros [= _ <-].
Qed.
