(* ===== verification/HtmlParser.v ===== *)
(** * The browser engine: the DOM and the HTML parser
    ([2026-08-26-rust-browser-engine/src/{dom,html_parser}.rs])

    A method of [Parser] is a scanner.  The loops of [parse_nodes] and
    [parse_attributes] and the recursion of [parse_element] take fuel, which
    [HtmlParserProps] shows to be enough: when [parse] runs out of it, the source
    loops forever.  Exhausting the stack of the machine is not modelled. *)
From S2P Require Import Prelude RustStr Scanner.

(** ** [dom.rs] *)
Abbreviation AttrMap := (gmap str str) (only parsing).

Record ElementData : Type := mkElement { tag_name : str; attributes : AttrMap }.
Inductive NodeType : Type := Text (s : str) | Element (e : ElementData).
Inductive Node : Type := mkNode (children : list Node) (node_type : NodeType).

Definition children (n : Node) : list Node := let 'mkNode cs _ := n in cs.
Definition node_type (n : Node) : NodeType := let 'mkNode _ t := n in t.

Definition text (data : str) : Node := mkNode [] (Text data).
Definition elem (name : str) (attrs : AttrMap) (cs : list Node) : Node := mkNode cs (Element (mkElement name attrs)).

Definition id (e : ElementData) : option str := attributes e !! lit "id".
Definition is_nonempty (s : str) : bool := match s with [] => false | _ => true end.
Definition classes (e : ElementData) : gset str :=
  match attributes e !! lit "class" with
  | Some classlist => list_to_set (List.filter is_nonempty (split_on SPACE classlist))
  | None => ∅
  end.

Definition is_void_element (tag : str) : bool :=
  bool_decide (tag ∈ [lit "area"; lit "base"; lit "br"; lit "col"; lit "embed"; lit "hr"; lit "img"; lit "input";
    lit "link"; lit "meta"; lit "param"; lit "source"; lit "track"; lit "wbr"]).

(** [Display] *)
Fixpoint pretty_print (indent : nat) (n : Node) : str :=
  let pad := concat (replicate indent (lit "  ")) in
  let 'mkNode cs t := n in
  match t with
  | Text t => pad ++ lit "`" ++ trim t ++ lit "`" ++ [LF]
  | Element e => pad ++ lit "<" ++ tag_name e ++ lit ">" ++ [LF] ++ flat_map (pretty_print (S indent)) cs
  end.

(** ** [html_parser.rs] *)
Definition LT : char := 60.
Definition GT : char := 62.

Definition parse_tag_name : scan str := consume_while is_ascii_alphanumeric.

(** The loop of [consume_comment], up to its end. *)
Fixpoint comment_end (r : str) : outcome Cursor :=
  match r with
  | [] => Ret (At [])
  | x :: r' =>
      if starts_with (lit "-->") r then Ret (At r)
      else match r' with
           | [] => if one_byte x then Ret (At []) else Panic
           | _ => comment_end r'
           end
  end.
Definition consume_until_end : scan unit := λ c,
  match c with At r => obind (comment_end r) (λ c, Ret (tt, c)) | Inside => Panic end.

Fixpoint consume_chars (n : nat) : scan unit :=
  match n with O => sret tt | S n => let* _c := consume_char in consume_chars n end.

Definition consume_comment : scan unit :=
  let* _open := consume_chars 4 in
  let* _loop := consume_until_end in
  let* close := looking_at (lit "-->") in
  if close then consume_chars 3 else sret tt.

Definition parse_text : scan Node :=
  let* s := consume_while (λ c, negb (c =? LT)) in sret (text s).

Definition parse_attribute_value : scan str :=
  let* dq := looking_at (lit "`") in
  let* sq := looking_at (lit "'") in
  if dq || sq then
    let* open_quote := consume_char in
    let* value := consume_while (λ c, negb (c =? open_quote)) in
    let* e := eof in
    if negb e then let* _close := consume_char in sret value else sret value
  else consume_while (λ c, negb (is_whitespace c) && negb (c =? GT)).

Definition is_name_char (c : char) : bool :=
  negb (c =? 61) && negb (c =? GT) && negb (c =? 47) && negb (is_whitespace c).

Definition parse_attribute : scan (str * str) :=
  let* name := consume_while is_name_char in
  let* _ws := consume_whitespace in
  let* eq := looking_at (lit "=") in
  if eq then
    let* _eq := consume_char in
    let* _ws := consume_whitespace in
    let* value := parse_attribute_value in
    sret (name, value)
  else sret (name, []).

Fixpoint parse_attributes (fuel : nat) (attrs : AttrMap) : scan AttrMap :=
  match fuel with
  | O => timeout
  | S fuel =>
      let* _ws := consume_whitespace in
      let* gt := looking_at (lit ">") in
      let* self_closing := looking_at (lit "/>") in
      let* e := eof in
      if gt || self_closing || e then sret attrs
      else
        let* p := parse_attribute in
        parse_attributes fuel (if is_nonempty p.1 then <[p.1 := p.2]> attrs else attrs)
  end.

(** [Parser { pos: save, .. }]: back to a saved position, or on. *)
Definition save : scan Cursor := λ c, Ret (c, c).
Definition restore (c : Cursor) : scan unit := λ _, Ret (tt, c).

(** The closing tag, if it is that of [name]. *)
Definition close_tag (name : str) : scan unit :=
  let* closing := looking_at (lit "</") in
  if closing then
    let* saved := save in
    let* _skip := consume_chars 2 in
    let* close_name := parse_tag_name in
    let* _ws := consume_whitespace in
    if bool_decide (close_name = name) then
      let* gt := looking_at (lit ">") in
      if gt then consume_chars 1 else sret tt
    else restore saved
  else sret tt.

(** [parse_nodes] is the scanner of the children, [fuel] that of the attributes. *)
Definition parse_element (parse_nodes : scan (list Node)) (fuel : nat) : scan Node :=
  let* _lt := expect_char LT in
  let* name := parse_tag_name in
  let* attrs := parse_attributes fuel ∅ in
  let* _ws := consume_whitespace in
  let* self_closing := looking_at (lit "/>") in
  if self_closing then let* _skip := consume_chars 2 in sret (elem name attrs [])
  else
    let* _gt := expect_char GT in
    if is_void_element name then sret (elem name attrs [])
    else
      let* cs := parse_nodes in
      let* _close := close_tag name in
      sret (elem name attrs cs).

Definition parse_node (parse_nodes : scan (list Node)) (fuel : nat) : scan Node :=
  let* lt := looking_at (lit "<") in
  if lt then parse_element parse_nodes fuel else parse_text.

Fixpoint parse_nodes (fuel : nat) (nodes : list Node) : scan (list Node) :=
  match fuel with
  | O => timeout
  | S fuel =>
      let* _ws := consume_whitespace in
      let* e := eof in
      let* closing := if e then sret true else looking_at (lit "</") in
      if closing then sret nodes
      else
        let* comment := looking_at (lit "<!--") in
        if comment then let* _c := consume_comment in parse_nodes fuel nodes
        else
          let* n := parse_node (parse_nodes fuel []) fuel in
          parse_nodes fuel (nodes ++ [n])
  end.

Definition root_of (nodes : list Node) : Node :=
  match nodes with [n] => n | _ => elem (lit "html") ∅ nodes end.

Definition parse_fuel (fuel : nat) (source : str) : outcome Node :=
  obind (parse_nodes fuel [] (At source)) (λ p, Ret (root_of p.1)).

(** One turn of a loop per character, and one to see the end. *)
Definition parse (source : str) : outcome Node := parse_fuel (S (length source)) source.

(** The tests of the source. *)
Example attributes_example :
  parse (lit "<div id=`main` class='a b' data-x=1>x</div>") =
  Ret (elem (lit "div") {[lit "id" := lit "main"; lit "class" := lit "a b"; lit "data-x" := lit "1"]} [text (lit "x")]).
Proof. vm_compute. reflexivity. Qed.
Example void_example :
  parse (lit "<div>before<br>after<img src=`x.png`>tail<hr/><!-- c --></div>") =
  Ret (elem (lit "div") ∅ [text (lit "before"); elem (lit "br") ∅ []; text (lit "after");
    elem (lit "img") {[lit "src" := lit "x.png"]} []; text (lit "tail"); elem (lit "hr") ∅ []]).
Proof. vm_compute. reflexivity. Qed.
Example roots_example :
  parse (lit "<p>one</p><p>two</p>") =
    Ret (elem (lit "html") ∅ [elem (lit "p") ∅ [text (lit "one")]; elem (lit "p") ∅ [text (lit "two")]]) ∧
  parse (lit "   ") = Ret (elem (lit "html") ∅ []).
Proof. vm_compute. done. Qed.
