(* ===== verification/HtmlParserProps.v ===== *)
(** * The browser engine: properties of the HTML parser

    Fuel: [parse] decides whether the source returns, panics or loops forever.
    Printed documents are read back.  Where the parser loops, panics and drops
    input. *)
From S2P Require Import Prelude RustStr Scanner HtmlParser.

(** ** Fuel *)
Lemma shrinks_chars n : shrinks (consume_chars n).
Proof. induction n; cbn [consume_chars]; solve_scan. Qed.
Lemma settles_chars n : settles (consume_chars n).
Proof. induction n; cbn [consume_chars]; solve_scan. Qed.

Lemma comment_end_shrinks r c : comment_end r = Ret c → (size c ≤ length r)%nat.
Proof.
  revert c. induction r as [|x r IH]; intros c; cbn [comment_end]; [by intros [= <-]|].
  destruct (starts_with _ _); [by intros [= <-]|]. destruct r as [|y r].
  - destruct (one_byte x); [|done]. intros [= <-]. simpl. lia.
  - intros E%IH. simpl in *. lia.
Qed.
Lemma comment_end_settles r : comment_end r ≠ Timeout.
Proof.
  induction r as [|x r IH]; cbn [comment_end]; [done|]. destruct (starts_with _ _); [done|].
  destruct r; [by destruct (one_byte x)|done].
Qed.
Lemma shrinks_until_end : shrinks consume_until_end.
Proof.
  intros [r|] a c'; [|done]. cbn [consume_until_end]. destruct (comment_end r) as [c| |] eqn:E; [|done..].
  intros [= _ <-]. by apply comment_end_shrinks.
Qed.
Lemma settles_until_end : settles consume_until_end.
Proof.
  intros [r|]; [|done]. cbn [consume_until_end]. pose proof (comment_end_settles r).
  by destruct (comment_end r).
Qed.
#[export] Hint Resolve shrinks_chars settles_chars shrinks_until_end settles_until_end : scan.

Lemma shrinks_tag_name : shrinks parse_tag_name.
Proof. apply shrinks_while. Qed.
Lemma settles_tag_name : settles parse_tag_name.
Proof. apply settles_while. Qed.
#[export] Hint Resolve shrinks_tag_name settles_tag_name : scan.

Lemma shrinks_value : shrinks parse_attribute_value.
Proof. unfold parse_attribute_value. solve_scan. Qed.
Lemma settles_value : settles parse_attribute_value.
Proof. unfold parse_attribute_value. solve_scan. Qed.
#[export] Hint Resolve shrinks_value settles_value : scan.
Lemma shrinks_attribute : shrinks parse_attribute.
Proof. unfold parse_attribute. solve_scan. Qed.
Lemma settles_attribute : settles parse_attribute.
Proof. unfold parse_attribute. solve_scan. Qed.
Lemma shrinks_comment : shrinks consume_comment.
Proof. unfold consume_comment. solve_scan. Qed.
Lemma settles_comment : settles consume_comment.
Proof. unfold consume_comment. solve_scan. Qed.
Lemma shrinks_text : shrinks parse_text.
Proof. unfold parse_text. solve_scan. Qed.
Lemma settles_text : settles parse_text.
Proof. unfold parse_text. solve_scan. Qed.
#[export] Hint Resolve shrinks_attribute settles_attribute shrinks_comment settles_comment shrinks_text settles_text : scan.

Lemma settles_close name : settles (close_tag name).
Proof. unfold close_tag. solve_scan; intros c; done. Qed.
Lemma shrinks_close name : shrinks (close_tag name).
Proof.
  unfold close_tag. apply shrinks_bind; [solve_scan|]. intros [|]; [|solve_scan].
  intros c a c'. unfold sbind at 1, save. cbn [obind fst snd].
  enough (H : ∀ c0 a c', (let* _skip := consume_chars 2 in let* close_name := parse_tag_name in
      let* _ws := consume_whitespace in
      if bool_decide (close_name = name) then let* gt := looking_at (lit ">") in if gt then consume_chars 1 else sret tt
      else restore c) c0 = Ret (a, c') → (size c0 ≤ size c)%nat → (size c' ≤ size c)%nat) by (intros H1; by eapply H).
  clear a c'. intros c0 a c'. unfold sbind at 1.
  destruct (consume_chars 2 c0) as [[? c1]| |] eqn:E1; [|done..]. apply shrinks_chars in E1. cbn [obind fst snd].
  unfold sbind at 1. destruct (parse_tag_name c1) as [[n c2]| |] eqn:E2; [|done..].
  apply shrinks_tag_name in E2. cbn [obind fst snd]. unfold sbind at 1.
  destruct (consume_whitespace c2) as [[w c3]| |] eqn:E3; [|done..]. apply shrinks_ws in E3. cbn [obind fst snd].
  case_bool_decide; [|by intros [= _ <-]]. intros E Hc0. revert E.
  assert (Hs : shrinks (let* gt := looking_at (lit ">") in if gt then consume_chars 1 else sret tt)) by solve_scan.
  intros E%Hs. lia.
Qed.
#[export] Hint Resolve shrinks_close settles_close : scan.

(** One turn of the loops. *)
Definition tag_ends (r : str) : bool := starts_with (lit ">") r || starts_with (lit "/>") r || negb (is_nonempty r).

Lemma attributes_turn fuel attrs c :
  parse_attributes (S fuel) attrs c =
  obind (consume_whitespace c) (λ w,
    match w.2 with
    | At r =>
        if tag_ends r then Ret (attrs, At r)
        else obind (parse_attribute (At r)) (λ q,
          parse_attributes fuel (if is_nonempty q.1.1 then <[q.1.1 := q.1.2]> attrs else attrs) q.2)
    | Inside => Panic
    end).
Proof.
  cbn [parse_attributes]. unfold sbind at 1. destruct (consume_whitespace c) as [[w c1]| |]; [|done..].
  cbn [obind fst snd]. destruct c1 as [r|]; [|done]. unfold sbind at 1 2 3, eof. cbn [looking_at obind fst snd].
  unfold tag_ends. replace (match r with [] => true | _ => false end) with (negb (is_nonempty r)) by by destruct r.
  destruct (_ || _); [done|]. unfold sbind. by destruct (parse_attribute (At r)) as [[[n v] c2]| |].
Qed.

Definition nodes_end (r : str) : bool := negb (is_nonempty r) || starts_with (lit "</") r.

Lemma nodes_turn fuel nodes c :
  parse_nodes (S fuel) nodes c =
  obind (consume_whitespace c) (λ w,
    match w.2 with
    | At r =>
        if nodes_end r then Ret (nodes, At r)
        else if starts_with (lit "<!--") r then obind (consume_comment (At r)) (λ q, parse_nodes fuel nodes q.2)
        else obind (parse_node (parse_nodes fuel []) fuel (At r)) (λ q, parse_nodes fuel (nodes ++ [q.1]) q.2)
    | Inside => Panic
    end).
Proof.
  cbn [parse_nodes]. unfold sbind at 1. destruct (consume_whitespace c) as [[w c1]| |]; [|done..].
  cbn [obind fst snd]. destruct c1 as [r|]; [|done]. unfold sbind at 1 2, eof. cbn [obind fst snd].
  unfold nodes_end. destruct r as [|x r]; [done|]. cbn [is_nonempty negb orb].
  change (looking_at (lit "</") (At (x :: r))) with (Ret (starts_with (lit "</") (x :: r), At (x :: r))).
  cbn [obind fst snd]. destruct (starts_with (lit "</") (x :: r)); [done|].
  unfold sbind at 1. cbn [looking_at obind fst snd]. by destruct (starts_with _ _).
Qed.

Lemma ws_again w r c : consume_whitespace c = Ret (w, At r) → consume_whitespace (At r) = Ret ([], At r).
Proof.
  intros (r0 & r1 & _ & [= <-] & _ & _ & Hr)%consume_while_split.
  destruct r as [|x r]; [done|]. by apply consume_while_none.
Qed.

(** An attribute that consumes nothing has no name. *)
Lemma attribute_no_progress r p c :
  parse_attribute (At r) = Ret (p, c) → (length r ≤ size c)%nat → c = At r ∧ p.1 = [].
Proof.
  unfold parse_attribute, sbind at 1. destruct (consume_while is_name_char (At r)) as [[n c1]| |] eqn:E1; [|done..].
  apply consume_while_split in E1 as (r0 & r1 & [= <-] & -> & -> & _ & _). cbn [obind fst snd].
  unfold sbind at 1. destruct (consume_whitespace (At r1)) as [[w c2]| |] eqn:E2; [|done..].
  apply consume_while_split in E2 as (r0 & r2 & [= <-] & -> & -> & _ & _). cbn [obind fst snd].
  unfold sbind at 1. cbn [looking_at obind fst snd]. rewrite !length_app. destruct (starts_with (lit "=") r2) eqn:E.
  - assert (Hs : shrinks (let* _ws := consume_whitespace in let* value := parse_attribute_value in sret (n, value)))
      by solve_scan.
    unfold sbind at 1. destruct (consume_char (At r2)) as [[y c3]| |] eqn:E3; [|done..].
    apply consume_char_size in E3. cbn [obind fst snd]. intros H%Hs. simpl in E3. lia.
  - intros [= <- <-]. cbn [size fst]. intros Hl.
    assert (n = []) as -> by (destruct n; [done|simpl in Hl; lia]).
    by assert (w = []) as -> by (destruct w; [done|simpl in Hl; lia]).
Qed.

(** A loop of attributes that makes no progress makes none ever. *)
Lemma attributes_stuck r p :
  consume_whitespace (At r) = Ret ([], At r) → tag_ends r = false → parse_attribute (At r) = Ret (p, At r) → p.1 = [] →
  ∀ fuel attrs, parse_attributes fuel attrs (At r) = Timeout.
Proof.
  intros Hw He Hp Hn fuel. induction fuel as [|fuel IH]; intros attrs; [done|].
  rewrite attributes_turn, Hw. cbn [obind snd]. rewrite He, Hp. cbn [obind fst snd]. by rewrite Hn.
Qed.

Lemma attributes_decided fuel attrs c fuel' :
  (size c < fuel)%nat → refines (parse_attributes fuel' attrs c) (parse_attributes fuel attrs c).
Proof.
  revert attrs c fuel'. induction fuel as [|fuel IH]; intros attrs c fuel' Hf; [lia|].
  destruct fuel' as [|fuel']; [by left|]. rewrite !attributes_turn.
  destruct (consume_whitespace c) as [[w c1]| |] eqn:Ew; [|by right..]. cbn [obind snd].
  destruct c1 as [r|]; [|by right]. destruct (tag_ends r) eqn:He; [by right|].
  destruct (parse_attribute (At r)) as [[p c2]| |] eqn:Ep; [|by right..]. cbn [obind fst snd].
  pose proof (shrinks_attribute _ _ _ Ep) as Hs. pose proof (shrinks_ws _ _ _ Ew). cbn [size] in *.
  destruct (Nat.eq_dec (size c2) (length r)) as [Heq|]; [|apply IH; lia].
  destruct (attribute_no_progress r p c2 Ep) as [-> Hn]; [lia|].
  pose proof (attributes_stuck r p (ws_again _ _ _ Ew) He Ep Hn) as Hst. rewrite !Hst. by right.
Qed.

Lemma shrinks_attributes fuel attrs : shrinks (parse_attributes fuel attrs).
Proof. revert attrs. induction fuel as [|fuel IH]; intros attrs; [done|]. cbn [parse_attributes]. solve_scan. Qed.
#[export] Hint Resolve shrinks_attributes : scan.

Lemma shrinks_element pn fuel : shrinks pn → shrinks (parse_element pn fuel).
Proof. intros Hpn. unfold parse_element. solve_scan. Qed.
Lemma shrinks_node pn fuel : shrinks pn → shrinks (parse_node pn fuel).
Proof. intros Hpn. unfold parse_node. solve_scan. by apply shrinks_element. Qed.

Lemma shrinks_nodes fuel nodes : shrinks (parse_nodes fuel nodes).
Proof.
  revert nodes. induction fuel as [|fuel IH]; intros nodes; [done|]. cbn [parse_nodes]. solve_scan.
  by apply shrinks_node.
Qed.
#[export] Hint Resolve shrinks_nodes : scan.

Lemma element_strict pn fuel c n c' : shrinks pn → parse_element pn fuel c = Ret (n, c') → (size c' < size c)%nat.
Proof.
  intros Hpn. unfold parse_element, sbind at 1. destruct (expect_char LT c) as [[a c1]| |] eqn:E; [|done..].
  apply expect_size in E. cbn [obind fst snd].
  match goal with |- ?m c1 = _ → _ => assert (Hs : shrinks m) by solve_scan end. intros H%Hs. lia.
Qed.

Lemma node_strict pn fuel r n c' :
  shrinks pn → nodes_end r = false → parse_node pn fuel (At r) = Ret (n, c') → (size c' < length r)%nat.
Proof.
  intros Hpn He. unfold parse_node, sbind at 1. cbn [looking_at obind fst snd].
  destruct (starts_with (lit "<") r) eqn:Elt; [by apply element_strict|].
  unfold parse_text, sbind. destruct (consume_while _ (At r)) as [[s c1]| |] eqn:E; [|done..].
  cbn [obind fst snd]. intros [= _ <-]. apply consume_while_split in E as (r0 & r1 & [= <-] & -> & -> & _ & Hr).
  destruct s as [|x s]; cbn [app length size]; [|rewrite length_app; lia]. destruct r1 as [|x r1]; [done|].
  apply negb_false_iff, Z.eqb_eq in Hr as ->. done.
Qed.

Lemma comment_strict c a c' : consume_comment c = Ret (a, c') → (size c' < size c)%nat.
Proof.
  unfold consume_comment, sbind at 1. destruct (consume_chars 4 c) as [[? c1]| |] eqn:E; [|done..]. cbn [obind fst snd].
  change (consume_chars 4) with (let* _c := consume_char in consume_chars 3) in E. unfold sbind at 1 in E.
  destruct (consume_char c) as [[? c0]| |] eqn:E0; [|done..]. apply consume_char_size in E0. cbn [obind fst snd] in E.
  apply shrinks_chars in E.
  match goal with |- ?m c1 = _ → _ => assert (Hs : shrinks m) by solve_scan end. intros H%Hs. lia.
Qed.

Lemma element_decided pn pn' fuel fuel' c :
  (size c ≤ fuel)%nat → (∀ c', (size c' < size c)%nat → refines (pn' c') (pn c')) →
  refines (parse_element pn' fuel' c) (parse_element pn fuel c).
Proof.
  intros Hf Hpn. unfold parse_element. apply sbind_refines_at; [done|]. intros _ c1 E1%expect_size.
  apply sbind_refines_at; [done|]. intros name c2 E2%shrinks_tag_name.
  apply sbind_refines_at; [apply attributes_decided; lia|]. intros attrs c3 E3%shrinks_attributes.
  apply sbind_refines_at; [done|]. intros _ c4 E4%shrinks_ws.
  apply sbind_refines_at; [done|]. intros [|] c5 E5%shrinks_looking; [done|].
  apply sbind_refines_at; [done|]. intros _ c6 E6%expect_size.
  destruct (is_void_element name); [done|].
  apply sbind_refines_at; [apply Hpn; lia|]. done.
Qed.

Lemma nodes_decided fuel nodes c fuel' :
  (size c < fuel)%nat → refines (parse_nodes fuel' nodes c) (parse_nodes fuel nodes c).
Proof.
  revert nodes c fuel'. induction fuel as [|fuel IH]; intros nodes c fuel' Hf; [lia|].
  destruct fuel' as [|fuel']; [by left|]. rewrite !nodes_turn.
  destruct (consume_whitespace c) as [[w c1]| |] eqn:Ew; [|by right..]. cbn [obind snd].
  pose proof (shrinks_ws _ _ _ Ew) as Hw. destruct c1 as [r|]; [|by right]. cbn [size] in Hw.
  destruct (nodes_end r) eqn:He; [by right|]. destruct (starts_with (lit "<!--") r) eqn:Ec.
  - destruct (consume_comment (At r)) as [[a c2]| |] eqn:E; [|by right..]. cbn [obind snd]. apply IH.
    apply comment_strict in E. simpl in E. lia.
  - assert (Hn : refines (parse_node (parse_nodes fuel' []) fuel' (At r)) (parse_node (parse_nodes fuel []) fuel (At r))).
    { unfold parse_node. apply sbind_refines_at; [done|]. intros [|] c2 E; [|done].
      apply shrinks_looking in E. simpl in E. apply element_decided; [lia|]. intros c3 Hc3. apply IH. lia. }
    destruct Hn as [->| ->]; [by left|].
    destruct (parse_node (parse_nodes fuel []) fuel (At r)) as [[n c2]| |] eqn:E; [|by right..]. cbn [obind fst snd].
    apply IH. apply node_strict in E; [lia|apply shrinks_nodes|done].
Qed.

(** [parse] decides the source: with any fuel the parser either runs out of it or
    does what [parse] says.  So where [parse] runs out of its fuel, one turn per
    character, the source loops forever, and otherwise it returns or panics as
    [parse] does. *)
Theorem html_parse_decided source :
  (∀ fuel, refines (parse_fuel fuel source) (parse source)) ∧
  (parse source = Timeout ↔ ∀ fuel, parse_fuel fuel source = Timeout).
Proof.
  assert (H : ∀ fuel, refines (parse_fuel fuel source) (parse source)).
  { intros fuel. apply obind_refines; [|done]. apply nodes_decided. simpl. lia. }
  split; [done|]. split; [|intros Ht; apply Ht].
  intros Ht fuel. destruct (H fuel) as [?|E]; [done|]. by rewrite E.
Qed.

(** ** Printing *)
Definition quote_for (v : str) : char := if bool_decide (34 ∈ v) then 39 else 34.
Definition print_attr (p : str * str) : str := SPACE :: p.1 ++ 61 :: quote_for p.2 :: p.2 ++ [quote_for p.2].
Definition print_attrs (l : list (str * str)) : str := flat_map print_attr l.
Definition closing (name : str) : str := lit "</" ++ name ++ [GT].
Fixpoint print (n : Node) : str :=
  let 'mkNode cs t := n in
  match t with
  | Text s => s
  | Element e =>
      LT :: tag_name e ++ print_attrs (map_to_list (attributes e)) ++ GT ::
      if is_void_element (tag_name e) then [] else flat_map print cs ++ closing (tag_name e)
  end.
Definition print_nodes (ns : list Node) : str := flat_map print ns.

(** The trees that a document can denote: texts begin with a character that is not white
    space, hold no [<] and do not touch; names have the characters of names; a value
    does not hold both quotes; void elements have no children. *)
Definition is_text (n : Node) : bool := match node_type n with Text _ => true | _ => false end.
Fixpoint apart (ns : list Node) : bool :=
  match ns with
  | a :: ((b :: _) as r) => negb (is_text a && is_text b) && apart r
  | _ => true
  end.
Definition text_ok (s : str) : bool :=
  match s with x :: _ => negb (is_whitespace x) && forallb (λ c, negb (c =? LT)) s | [] => false end.
Definition attr_ok (p : str * str) : bool :=
  is_nonempty p.1 && forallb is_name_char p.1 && negb (bool_decide (34 ∈ p.2) && bool_decide (39 ∈ p.2)).
Definition element_ok (e : ElementData) : bool :=
  forallb is_ascii_alphanumeric (tag_name e) && forallb attr_ok (map_to_list (attributes e)).
Fixpoint node_ok (n : Node) : bool :=
  let 'mkNode cs t := n in
  match t with
  | Text s => text_ok s && match cs with [] => true | _ => false end
  | Element e =>
      element_ok e &&
      if is_void_element (tag_name e) then match cs with [] => true | _ => false end
      else apart cs && forallb node_ok cs
  end.

(** Induction on trees. *)
Lemma Node_tree_ind (P : Node → Prop) : (∀ cs t, Forall P cs → P (mkNode cs t)) → ∀ n, P n.
Proof.
  intros H. fix IH 1. intros [cs t]. apply H. induction cs as [|c cs IHcs]; constructor; [apply IH|apply IHcs].
Qed.

Lemma quote_not_in p : attr_ok p = true → (quote_for p.2 ∉ p.2).
Proof.
  unfold attr_ok, quote_for. intros [_ Hq%negb_true_iff]%andb_prop. case_bool_decide; [|done].
  simpl in Hq. by apply bool_decide_eq_false in Hq.
Qed.

Lemma not_in_forallb (c : char) s : (c ∉ s) → forallb (λ d, negb (d =? c)) s = true.
Proof.
  intros Hc. apply forallb_forall. intros d Hd%list_elem_of_In. apply negb_true_iff, Z.eqb_neq. by intros ->.
Qed.

Lemma name_char_facts c : is_name_char c = true → is_whitespace c = false ∧ c ≠ GT ∧ c ≠ 47 ∧ c ≠ 61.
Proof. unfold is_name_char, GT. rewrite !andb_true_iff, !negb_true_iff, !Z.eqb_neq. tauto. Qed.

Lemma quote_one v : one_byte (quote_for v) = true.
Proof. unfold quote_for. by case_bool_decide. Qed.

Lemma parse_value_print p q :
  attr_ok p = true → parse_attribute_value (At (quote_for p.2 :: p.2 ++ quote_for p.2 :: q)) = Ret (p.2, At q).
Proof.
  intros Hp. pose proof (quote_not_in p Hp) as Hn. pose proof (quote_one p.2) as H1. unfold parse_attribute_value.
  unfold sbind at 1 2. cbn [looking_at obind fst snd].
  assert (Eq : ∀ r, starts_with (lit "`") (quote_for p.2 :: r) || starts_with (lit "'") (quote_for p.2 :: r) = true)
    by (intros r; unfold quote_for; by case_bool_decide).
  rewrite Eq. erewrite sbind_ret by (by apply consume_char_at; left).
  erewrite sbind_ret.
  2: { apply consume_while_stop; [by apply not_in_forallb|]. by rewrite Z.eqb_refl. }
  unfold sbind at 1, eof. cbn [obind fst snd negb].
  by erewrite sbind_ret by (by apply consume_char_at; left).
Qed.

Lemma parse_attribute_print p q :
  attr_ok p = true →
  parse_attribute (At (p.1 ++ 61 :: quote_for p.2 :: p.2 ++ quote_for p.2 :: q)) = Ret (p, At q).
Proof.
  intros Hp. pose proof Hp as [[_ Hn]%andb_prop _]%andb_prop. unfold parse_attribute.
  erewrite sbind_ret by by apply consume_while_stop.
  erewrite sbind_ret by by apply consume_while_none.
  unfold sbind at 1. cbn [looking_at obind fst snd]. change (starts_with (lit "=") (61 :: ?r)) with true. cbv iota.
  erewrite sbind_ret by (by apply consume_char_at; left).
  erewrite sbind_ret by (apply consume_while_none; unfold quote_for; by case_bool_decide).
  erewrite sbind_ret by by apply parse_value_print. by destruct p.
Qed.

Lemma parse_attributes_prefix l fuel m q :
  forallb attr_ok l = true →
  parse_attributes (length l + fuel) m (At (print_attrs l ++ q)) = parse_attributes fuel (foldl (λ m p, <[p.1 := p.2]> m) m l) (At q).
Proof.
  revert m. induction l as [|p l IH]; intros m Hl; [done|]. cbn [length Nat.add]. rewrite attributes_turn.
  simpl in Hl. apply andb_prop in Hl as [Hp Hl]. cbn [print_attrs flat_map].
  pose proof Hp as [[Hne Hn]%andb_prop _]%andb_prop.
  assert (E : (print_attr p ++ flat_map print_attr l) ++ q =
    [SPACE] ++ (p.1 ++ 61 :: quote_for p.2 :: p.2 ++ quote_for p.2 :: (print_attrs l ++ q))).
  { unfold print_attr. cbn [app]. f_equal. rewrite <-!app_assoc. f_equal. cbn [app]. by rewrite <-!app_assoc. }
  rewrite E. destruct p as [[|k ks] v]; [done|]. cbn [fst] in Hn. simpl in Hn. apply andb_prop in Hn as [Hk Hks].
  destruct (name_char_facts k Hk) as (Hw & Hgt & Hsl & _). cbn [fst app] in E |- *.
  unfold consume_whitespace. change (SPACE :: ?r) with ([SPACE] ++ r). rewrite consume_while_stop by done.
  cbn [obind snd].
  assert (Et : ∀ r, tag_ends (k :: r) = false).
  { intros r. unfold tag_ends. change (lit ">") with [GT]. change (lit "/>") with [47; GT].
    by rewrite !starts_with_ne by congruence. }
  rewrite Et. pose proof (parse_attribute_print (k :: ks, v) (print_attrs l ++ q) Hp) as Ea.
  cbn [fst snd app] in Ea. rewrite Ea. cbn [obind fst snd is_nonempty foldl]. by apply IH.
Qed.

Lemma parse_attributes_print l fuel m q :
  forallb attr_ok l = true → (length l < fuel)%nat →
  parse_attributes fuel m (At (print_attrs l ++ GT :: q)) = Ret (foldl (λ m p, <[p.1 := p.2]> m) m l, At (GT :: q)).
Proof.
  intros Hl Hf. replace fuel with (length l + S (fuel - length l - 1))%nat by lia. rewrite parse_attributes_prefix by done.
  rewrite attributes_turn. unfold consume_whitespace. by rewrite consume_while_none.
Qed.

(** Inserting the pairs of a map one after the other gives the map. *)
Lemma foldl_insert_map (m : gmap str str) :
  foldl (λ m p, <[p.1 := p.2]> m) ∅ (map_to_list m) = m.
Proof.
  assert (H : ∀ l (m0 : gmap str str), NoDup l.*1 → (∀ k, k ∈ l.*1 → m0 !! k = None) →
    foldl (λ m p, <[p.1 := p.2]> m) m0 l = list_to_map l ∪ m0).
  { induction l as [|[k v] l IH]; intros m0 Hnd Hm0; [by rewrite list_to_map_nil, (left_id_L ∅ (∪))|]. cbn [foldl fst snd fmap list_fmap] in *.
    apply NoDup_cons in Hnd as [Hk Hnd]. rewrite IH; [|done|].
    - simpl. rewrite <-insert_union_l, insert_union_r; [done|]. by apply not_elem_of_list_to_map.
    - intros j Hj. rewrite lookup_insert_ne; [|by intros ->]. apply Hm0. by right. }
  rewrite H; [|apply NoDup_fst_map_to_list|done]. by rewrite (right_id_L ∅ (∪)), list_to_map_to_list.
Qed.

(** ** Reading back what is printed *)
Lemma apart_cons n ns : apart (n :: ns) = true → apart ns = true ∧
  (is_text n = true → match ns with [] => True | m :: _ => is_text m = false end).
Proof.
  destruct ns as [|m ns]; [done|]. cbn [apart]. intros [H%negb_true_iff ?]%andb_prop. split; [done|].
  intros Hn. by rewrite Hn in H.
Qed.

(** How a printed node begins. *)
Lemma print_head n : node_ok n = true → ∃ x r, print n = x :: r ∧ is_whitespace x = false ∧
  if is_text n then x ≠ LT else x = LT ∧ ∃ y r', r = y :: r' ∧ y ≠ 47 ∧ y ≠ 33.
Proof.
  destruct n as [cs [s|e]]; cbn [node_ok print is_text node_type].
  - intros [Ht _]%andb_prop. destruct s as [|x s]; [done|]. apply andb_prop in Ht as [Hw%negb_true_iff Hl].
    simpl in Hl. apply andb_prop in Hl as [Hl%negb_true_iff _]. exists x, s. split_and!; [done..|]. by apply Z.eqb_neq.
  - intros [[Hn _]%andb_prop _]%andb_prop. eexists _, _. split_and!; [done..|].
    destruct (tag_name e) as [|c name]; cbn [app].
    + destruct (map_to_list (attributes e)) as [|p l]; cbn [print_attrs flat_map app]; by eexists _, _.
    + simpl in Hn. apply andb_prop in Hn as [Hc _]. eexists _, _. split; [done|].
      unfold is_ascii_alphanumeric, is_ascii_digit, is_ascii_upper, is_ascii_lower in Hc. lia.
Qed.

Lemma nodes_end_false x r : x ≠ LT → nodes_end (x :: r) = false.
Proof. intros Hx. unfold nodes_end. change (lit "</") with [LT; 47]. by rewrite starts_with_ne by congruence. Qed.

Lemma print_not_end n q : node_ok n = true →
  consume_whitespace (At (print n ++ q)) = Ret ([], At (print n ++ q)) ∧
  nodes_end (print n ++ q) = false ∧ starts_with (lit "<!--") (print n ++ q) = false ∧
  starts_with (lit "<") (print n ++ q) = negb (is_text n).
Proof.
  intros Hn. destruct (print_head n Hn) as (x & r & E & Hw & Hx). rewrite E. cbn [app].
  split; [by apply consume_while_none|]. change (lit "<!--") with [LT; 33; 45; 45]. change (lit "<") with [LT].
  destruct (is_text n).
  - split_and!; [by apply nodes_end_false|by apply starts_with_ne; congruence..].
  - destruct Hx as (-> & y & r' & -> & H1 & H2). split_and!; [| |done].
    + unfold nodes_end. change (lit "</") with [LT; 47]. cbn [app is_nonempty negb orb starts_with].
      by rewrite Z.eqb_refl, (proj2 (Z.eqb_neq 47 y)) by congruence.
    + cbn [app starts_with]. by rewrite Z.eqb_refl, (proj2 (Z.eqb_neq 33 y)) by congruence.
Qed.

Definition reads_back (n : Node) : Prop := node_ok n = true → ∀ fuel q,
  (length (print n) ≤ fuel)%nat → (is_text n = true → ∃ r, q = LT :: r) →
  parse_node (parse_nodes fuel []) fuel (At (print n ++ q)) = Ret (n, At q).

Lemma print_length n : node_ok n = true → (0 < length (print n))%nat.
Proof. intros Hn. destruct (print_head n Hn) as (x & r & -> & _). simpl. lia. Qed.

(** The rest behind siblings: the end, or a closing tag. *)
Definition closes (q : str) : Prop := q = [] ∨ ∃ r, q = LT :: 47 :: r.

(** A text is not followed by more of it. *)
Definition cut (ns : list Node) (q : str) : Prop :=
  match last ns with Some n => is_text n = true → ∃ r, q = LT :: r | None => True end.

Lemma nodes_prefix ns :
  Forall reads_back ns → forallb node_ok ns = true → apart ns = true → ∀ fuel acc q,
  (length (print_nodes ns) < fuel)%nat → cut ns q →
  ∃ fuel', (fuel ≤ fuel' + length (print_nodes ns))%nat ∧
    parse_nodes fuel acc (At (print_nodes ns ++ q)) = parse_nodes fuel' (acc ++ ns) (At q).
Proof.
  induction 1 as [|n ns Hn Hns IH]; intros Hok Hap [|fuel] acc q Hf Hcut; try lia.
  - exists (S fuel). rewrite app_nil_r. split; [simpl; lia|done].
  - rewrite nodes_turn. simpl in Hok. apply andb_prop in Hok as [Hnok Hok]. apply apart_cons in Hap as [Hap Hnext].
    cbn [print_nodes flat_map] in Hf |- *. rewrite <-app_assoc. fold (print_nodes ns) in Hf |- *.
    destruct (print_not_end n (print_nodes ns ++ q) Hnok) as (-> & He & Hc & _). cbn [obind snd]. rewrite He, Hc.
    rewrite length_app in Hf |- *. pose proof (print_length n Hnok).
    rewrite Hn; [|done|lia|].
    + cbn [obind fst snd]. destruct (IH Hok Hap fuel (acc ++ [n]) q) as (fuel' & Hf' & E); [lia|by destruct ns|].
      exists fuel'. split; [lia|]. by rewrite E, <-app_assoc.
    + intros Ht. specialize (Hnext Ht). destruct ns as [|m ns]; [by apply Hcut|].
      simpl in Hok. apply andb_prop in Hok as [Hm _]. destruct (print_head m Hm) as (x & r & E & _ & Hx).
      rewrite Hnext in Hx. destruct Hx as [-> _]. cbn [print_nodes flat_map]. rewrite E. by eexists.
Qed.

Lemma nodes_read_back ns :
  Forall reads_back ns → forallb node_ok ns = true → apart ns = true → ∀ fuel acc q,
  (length (print_nodes ns) < fuel)%nat → closes q →
  (q = [] → match last ns with Some n => is_text n = false | None => True end) →
  parse_nodes fuel acc (At (print_nodes ns ++ q)) = Ret (acc ++ ns, At q).
Proof.
  intros Hns Hok Hap fuel acc q Hf Hq Hlast. destruct (nodes_prefix ns Hns Hok Hap fuel acc q Hf) as (fuel' & Hf' & ->).
  - unfold cut. destruct (last ns) as [n|]; [|done]. intros Ht. destruct Hq as [->|[r ->]]; [|by eexists].
    rewrite Hlast in Ht; done.
  - destruct fuel' as [|fuel']; [lia|]. rewrite nodes_turn. by destruct Hq as [->|(r & ->)].
Qed.

Lemma close_tag_print name q :
  forallb is_ascii_alphanumeric name = true → close_tag name (At (closing name ++ q)) = Ret (tt, At q).
Proof.
  intros Hn. unfold close_tag, closing. rewrite <-!app_assoc. unfold sbind at 1. rewrite looking_at_app. cbn [obind fst snd].
  unfold sbind at 1, save. cbn [obind fst snd]. change (lit "</" ++ ?r) with (LT :: 47 :: r).
  erewrite sbind_ret; [|cbn [consume_chars]; erewrite sbind_ret by (by apply consume_char_at; left);
    erewrite sbind_ret by (by apply consume_char_at; left); done].
  unfold parse_tag_name. change ([GT] ++ q) with (GT :: q).
  erewrite sbind_ret by by apply consume_while_stop.
  erewrite sbind_ret by by apply consume_while_none. rewrite bool_decide_true by done.
  unfold sbind at 1. change (GT :: q) with (lit ">" ++ q). rewrite looking_at_app. cbn [obind fst snd consume_chars].
  by erewrite sbind_ret by (by apply consume_char_at; left).
Qed.

Definition attributes_list (e : ElementData) : list (str * str) := map_to_list (attributes e).

Lemma attrs_head l q : ∃ x r, print_attrs l ++ GT :: q = x :: r ∧ is_ascii_alphanumeric x = false.
Proof. destruct l as [|p l]; cbn [print_attrs flat_map app print_attr]; by eexists _, _. Qed.

Lemma print_attrs_length l : (length l ≤ length (print_attrs l))%nat.
Proof.
  induction l as [|p l IH]; [done|]. cbn [print_attrs flat_map length]. rewrite length_app. cbn [print_attr length].
  unfold print_attrs in IH. lia.
Qed.

(** The opening tag, up to [>]. *)
Lemma parse_open_tag e pn fuel q :
  element_ok e = true → (length (attributes_list e) < fuel)%nat →
  parse_element pn fuel (At (LT :: tag_name e ++ print_attrs (attributes_list e) ++ GT :: q)) =
  (if is_void_element (tag_name e) then sret (mkNode [] (Element e))
   else let* cs := pn in let* _close := close_tag (tag_name e) in sret (mkNode cs (Element e))) (At q).
Proof.
  unfold attributes_list. intros [Hn Ha]%andb_prop Hf. unfold parse_element.
  erewrite sbind_ret by by apply expect_char_at.
  destruct (attrs_head (map_to_list (attributes e)) q) as (x & r & Er & Hx).
  erewrite sbind_ret by (rewrite Er; by apply consume_while_stop). rewrite <-Er.
  erewrite sbind_ret by by apply parse_attributes_print. rewrite foldl_insert_map.
  erewrite sbind_ret by by apply consume_while_none.
  unfold sbind at 1. cbn [looking_at obind fst snd]. change (lit "/>") with [47; GT]. rewrite starts_with_ne by done.
  erewrite sbind_ret by by apply expect_char_at. unfold elem. by destruct e.
Qed.

Lemma node_reads_back n : reads_back n.
Proof.
  induction n as [cs t IH] using Node_tree_ind. intros Hok fuel q Hf Hq.
  destruct (print_not_end (mkNode cs t) q Hok) as (_ & _ & _ & Hlt).
  unfold parse_node, sbind at 1. cbn [looking_at obind fst snd]. rewrite Hlt. clear Hlt.
  destruct t as [s|e]; cbn [is_text node_type negb] in *.
  - destruct Hq as [r ->]; [done|]. cbn [node_ok] in Hok. apply andb_prop in Hok as [Hs Hcs]. destruct cs; [|done].
    unfold parse_text. cbn [print]. erewrite sbind_ret; [done|]. apply consume_while_stop; [|done].
    destruct s; [done|]. by apply andb_prop in Hs as [_ ?].
  - cbn [node_ok] in Hok. apply andb_prop in Hok as [He Hcs]. cbn [print] in Hf |- *. cbn [app]. rewrite <-!app_assoc. cbn [app].
    rewrite length_cons, !length_app in Hf. pose proof (print_attrs_length (attributes_list e)) as Hl.
    unfold attributes_list in Hl. fold (attributes_list e). rewrite parse_open_tag; [|done|unfold attributes_list; simpl in Hf; lia].
    destruct (is_void_element (tag_name e)); [by destruct cs|].
    apply andb_prop in Hcs as [Hap Hcs]. rewrite <-app_assoc. fold (print_nodes cs) in Hf |- *.
    unfold sbind at 1. rewrite length_cons, length_app in Hf.
    rewrite nodes_read_back; [|done..|lia| |done].
    + cbn [obind fst snd app]. unfold sbind at 1. rewrite close_tag_print by by apply andb_prop in He as [? _]. done.
    + right. by eexists.
Qed.

(** C29. Printing a tree and parsing it gives the tree back: elements with any nesting,
    attributes and void tags, and texts between them.  The trees are those a document can
    say: tag names of ASCII letters and digits; void elements without children; attribute
    names of name characters and no attribute value with both kinds of quotes; texts that are not empty, do not begin with white space
    (which the parser skips) and have no [<]; no two texts next to each other.  The document
    is one element, or siblings of which the last is an element (a last text can panic),
    which [parse] wraps in [html]. *)
Theorem html_roundtrip ns :
  forallb node_ok ns = true → apart ns = true →
  match last ns with Some n => is_text n = false | None => True end →
  parse (print_nodes ns) = Ret (root_of ns).
Proof.
  intros Hok Hap Hlast. unfold parse, parse_fuel. rewrite <-(app_nil_r (print_nodes ns)) at 2.
  rewrite nodes_read_back; [done| |done..|lia|by left|done].
  apply Forall_forall. intros n _. apply node_reads_back.
Qed.

Lemma html_roundtrip_witness :
  let n := elem (lit "div") {[lit "id" := lit "x"; lit "title" := lit "say `hi`"]}
    [text (lit "caf" ++ [233] ++ lit " "); elem (lit "br") ∅ []; elem (lit "p") ∅ [text (lit "a > b")]] in
  parse (print n) = Ret n.
Proof.
  intros n. rewrite <-(app_nil_r (print n)). change (print n ++ []) with (print_nodes [n]).
  apply (html_roundtrip [n]); vm_compute; reflexivity.
Defined.

(** ** Where the parser fails *)
Lemma while_from_last test s x :
  forallb test s = true → test x = true → one_byte x = false → while_from test (s ++ [x]) = Panic.
Proof.
  intros Hs Hx H1. induction s as [|y s IH]; cbn [app while_from]; [by rewrite Hx, H1|].
  simpl in Hs. apply andb_prop in Hs as [-> Hs]. rewrite IH by done. by destruct s.
Qed.

Lemma slash_stuck w x q fuel attrs :
  forallb is_whitespace w = true → x ≠ GT → parse_attributes fuel attrs (At (w ++ 47 :: x :: q)) = Timeout.
Proof.
  intros Hw Hx. destruct fuel as [|fuel]; [done|]. rewrite attributes_turn. unfold consume_whitespace.
  rewrite consume_while_stop by done. cbn [obind snd].
  assert (He : tag_ends (47 :: x :: q) = false).
  { unfold tag_ends. change (lit ">") with [GT]. change (lit "/>") with [47; GT]. rewrite starts_with_ne by done.
    cbn [starts_with is_nonempty negb]. by rewrite Z.eqb_refl, (proj2 (Z.eqb_neq GT x)) by congruence. }
  assert (Hp : parse_attribute (At (47 :: x :: q)) = Ret ([], [], At (47 :: x :: q))).
  { unfold parse_attribute. erewrite sbind_ret by by apply consume_while_none.
    erewrite sbind_ret by by apply consume_while_none. unfold sbind. cbn [looking_at obind fst snd].
    change (lit "=") with [61]. by rewrite starts_with_ne. }
  rewrite He, Hp. cbn [obind fst snd].
  apply (attributes_stuck _ ([], [])); [by apply consume_while_none|done..].
Qed.

(** A tag is none of a closing tag and a comment. *)
Lemma tag_start name r : is_nonempty name = true → forallb is_ascii_alphanumeric name = true →
  consume_whitespace (At (LT :: name ++ r)) = Ret ([], At (LT :: name ++ r)) ∧
  nodes_end (LT :: name ++ r) = false ∧ starts_with (lit "<!--") (LT :: name ++ r) = false.
Proof.
  destruct name as [|y s]; [done|]. intros _ Hn. simpl in Hn. apply andb_prop in Hn as [Hy _].
  assert (y ≠ 47 ∧ y ≠ 33) as [H1 H2] by (unfold is_ascii_alphanumeric, is_ascii_digit, is_ascii_upper, is_ascii_lower in Hy; lia).
  split; [by apply consume_while_none|]. unfold nodes_end. change (lit "</") with [LT; 47]. change (lit "<!--") with [LT; 33; 45; 45].
  cbn [app starts_with is_nonempty negb orb].
  by rewrite Z.eqb_refl, (proj2 (Z.eqb_neq 47 y)), (proj2 (Z.eqb_neq 33 y)) by congruence.
Qed.

(** Documents in which the parser gets to [r]: behind printed siblings, and inside open
    elements that are not void. *)
Definition open_tag (e : ElementData) : str := LT :: tag_name e ++ print_attrs (attributes_list e) ++ [GT].
Inductive leads_to (r : str) : str → Prop :=
| leads_here : leads_to r r
| leads_siblings ns d : forallb node_ok ns = true → apart ns = true → cut ns d → leads_to r d → leads_to r (print_nodes ns ++ d)
| leads_inside e d : is_nonempty (tag_name e) = true → element_ok e = true → is_void_element (tag_name e) = false →
    leads_to r d → leads_to r (open_tag e ++ d).

(** Parsing does not get past [r]; [b] says how. *)
Definition stops {A} (b : bool) : outcome A := if b then Panic else Timeout.
Definition sticks (b : bool) (r : str) : Prop :=
  ∀ fuel acc, (length r < fuel)%nat → parse_nodes fuel acc (At r) = stops b.

Lemma sticks_leads b r d : leads_to r d → sticks b r → sticks b d.
Proof.
  intros H Hr. induction H as [|ns d Hok Hap Hcut _ IH|e d Hne He Hv _ IH]; [done|..]; intros fuel acc Hf; rewrite length_app in Hf.
  - destruct (nodes_prefix ns) with (fuel := fuel) (acc := acc) (q := d) as (fuel' & Hf' & ->); [|done..|lia|done|].
    + apply Forall_forall. intros n _. apply node_reads_back.
    + apply IH. lia.
  - destruct fuel as [|fuel]; [lia|]. rewrite nodes_turn. pose proof He as [Hn _]%andb_prop.
    pose proof (print_attrs_length (attributes_list e)) as Hl. unfold open_tag in *. cbn [length] in Hf. rewrite !length_app in Hf.
    cbn [app] in *. rewrite <-!app_assoc.
    destruct (tag_start (tag_name e) (print_attrs (attributes_list e) ++ [GT] ++ d) Hne Hn) as (-> & H2 & H3).
    cbn [obind snd]. rewrite H2, H3. unfold parse_node, sbind at 1. cbn [looking_at obind fst snd].
    change (lit "<") with [LT]. cbn [starts_with]. rewrite Z.eqb_refl. cbn [andb app].
    rewrite parse_open_tag, Hv by (done || lia). unfold sbind at 1. rewrite IH by lia. by destruct b.
Qed.

Lemma slash_sticks name l w x q :
  is_nonempty name = true → forallb is_ascii_alphanumeric name = true → forallb attr_ok l = true →
  forallb is_whitespace w = true → x ≠ GT → sticks false (LT :: name ++ print_attrs l ++ w ++ 47 :: x :: q).
Proof.
  intros Hne Hn Hl Hw Hx [|fuel] acc Hf; [done|]. rewrite nodes_turn. destruct (tag_start name (print_attrs l ++ w ++ 47 :: x :: q) Hne Hn) as (-> & H2 & H3).
  cbn [obind snd]. rewrite H2, H3. unfold parse_node, sbind at 1. cbn [looking_at obind fst snd].
  change (lit "<") with [LT]. cbn [starts_with]. rewrite Z.eqb_refl. cbn [andb]. unfold parse_element.
  erewrite sbind_ret by by apply expect_char_at.
  assert (∃ y r, print_attrs l ++ w ++ 47 :: x :: q = y :: r ∧ is_ascii_alphanumeric y = false) as (y & r & Er & Hy).
  { destruct l as [|p l]; [|cbn [print_attrs flat_map app print_attr]; by eexists _, _].
    destruct w as [|y w]; [by eexists _, _|]. simpl in Hw. apply andb_prop in Hw as [Hw _]. eexists _, _. split; [done|].
    unfold is_whitespace in Hw. unfold is_ascii_alphanumeric, is_ascii_digit, is_ascii_upper, is_ascii_lower. lia. }
  erewrite sbind_ret by (rewrite Er; by apply consume_while_stop). rewrite <-Er. unfold sbind at 1.
  cbn [length] in Hf. rewrite !length_app in Hf. pose proof (print_attrs_length l) as Hll.
  replace fuel with (length l + (fuel - length l))%nat at 1 by lia. rewrite parse_attributes_prefix by done.
  by rewrite slash_stuck.
Qed.

Lemma text_sticks y s x : is_whitespace y = false → (LT ∉ y :: s) → x ≠ LT → one_byte x = false → sticks true (y :: s ++ [x]).
Proof.
  intros Hy Hs Hx H1 [|fuel] acc Hf; [simpl in Hf; lia|]. apply not_elem_of_cons in Hs as [Hy' Hs].
  rewrite nodes_turn. unfold consume_whitespace. rewrite consume_while_none by done. cbn [obind snd].
  rewrite nodes_end_false by congruence. change (lit "<!--") with [LT; 33; 45; 45]. rewrite starts_with_ne by done.
  unfold parse_node, sbind at 1. change (lit "<") with [LT]. cbn [looking_at obind fst snd].
  rewrite starts_with_ne by done. unfold parse_text, sbind, consume_while.
  change (y :: s ++ [x]) with ((y :: s) ++ [x]). rewrite (while_from_last _ (y :: s)); [done| |by apply negb_true_iff, Z.eqb_neq|done].
  simpl. apply andb_true_iff. split; [by apply negb_true_iff, Z.eqb_neq; congruence|by apply not_in_forallb].
Qed.

Lemma sticks_parse b d : sticks b d → parse d = stops b.
Proof. intros H. unfold parse, parse_fuel. rewrite H by lia. by destruct b. Qed.

(** C39. Three ways in which the parser does not do what its description says, in documents
    that are well formed before the place: printed siblings and open elements, nested in any
    way ([leads_to]).  A tag in which, behind its name and any attributes, there is a slash that
    is not before [>] makes it loop forever.  A document that ends there in text whose last
    character is not ASCII (the text holds no [<] and does not begin with white space) makes it
    panic.  At the top level, a closing tag behind any siblings, with no element to close, is not
    ignored: it and everything behind it is dropped. *)
Theorem html_parser_limits :
  (∀ d name l w x q, leads_to (LT :: name ++ print_attrs l ++ w ++ 47 :: x :: q) d →
     is_nonempty name = true → forallb is_ascii_alphanumeric name = true → forallb attr_ok l = true →
     forallb is_whitespace w = true → x ≠ GT → ∀ fuel, parse_fuel fuel d = Timeout) ∧
  (∀ d y s x, leads_to (y :: s ++ [x]) d → is_whitespace y = false → (LT ∉ y :: s) → x ≠ LT → one_byte x = false →
     parse d = Panic) ∧
  (∀ ns name q, forallb node_ok ns = true → apart ns = true → parse (print_nodes ns ++ closing name ++ q) = Ret (root_of ns)).
Proof.
  split_and!.
  - intros d name l w x q Hd Hne Hn Hl Hw Hx. apply html_parse_decided. apply (sticks_parse false).
    eapply sticks_leads; [exact Hd|]. by apply slash_sticks.
  - intros d y s x Hd Hy Hs Hx H1. apply (sticks_parse true). eapply sticks_leads; [exact Hd|]. by apply text_sticks.
  - intros ns name q Hok Hap. unfold parse, parse_fuel. rewrite nodes_read_back; [done| |done..| | |].
    + apply Forall_forall. intros n _. apply node_reads_back.
    + rewrite length_app. lia.
    + right. by eexists.
    + done.
Qed.

Lemma html_parser_limits_witness :
  (∀ fuel, parse_fuel fuel (lit "<p>x<b /d") = Timeout) ∧ parse (lit "<p>caf" ++ [233]) = Panic ∧
  parse (lit "<i></i></b>z") = Ret (elem (lit "i") ∅ []).
Proof.
  assert (Hp : ∀ d r, leads_to r d → leads_to r (open_tag (mkElement (lit "p") ∅) ++ d)) by (intros d r; by apply leads_inside).
  split; [|split].
  - intros fuel. refine (proj1 html_parser_limits (lit "<p>x<b /d") (lit "b") [] [SPACE] 100 [] _ eq_refl eq_refl eq_refl eq_refl _ fuel); [|discriminate].
    apply (Hp (lit "x<b /d")). apply (leads_siblings _ [text (lit "x")] (lit "<b /d")); [done|done| |apply leads_here].
    intros _. by exists (lit "b /d").
  - refine (proj1 (proj2 html_parser_limits) (lit "<p>caf" ++ [233]) 99 (lit "af") 233 _ eq_refl _ _ eq_refl); [|closed|discriminate].
    apply (Hp (lit "caf" ++ [233])), leads_here.
  - exact (proj2 (proj2 html_parser_limits) [elem (lit "i") ∅ []] (lit "b") (lit "z") eq_refl eq_refl).
Defined.

(** Where the bounds are: a slash in an attribute value is none, and where everything is
    dropped nothing panics. *)
Example limits_examples :
  parse (lit "<p a=/b>x</p>") = Ret (elem (lit "p") {[lit "a" := lit "/b"]} [text (lit "x")]) ∧
  parse (lit "<p class=`a`>x<b id='c' /d") = Timeout ∧ parse (lit "</p>" ++ [233]) = Ret (elem (lit "html") ∅ []).
Proof. vm_compute. done. Qed.
