(* ===== verification/Css.v ===== *)
(** * The browser engine: the CSS parser
    ([2026-08-26-rust-browser-engine/src/css.rs])

    The cursor is that of the HTML parser ([Scanner]).  The loops take fuel;
    [CssProps] shows that the fuel of [parse] is always enough. *)
From S2P Require Import Prelude RustStr RustSort F32 F32Text Scanner.

(** ** Data *)
Inductive Unit : Type := Px.
Record Color : Type := mkColor { c_r : Z; c_g : Z; c_b : Z; c_a : Z }.
Definition rgb (r g b : Z) : Color := mkColor r g b 255.

Inductive Value : Type := Keyword (s : str) | Length (f : f32) (u : Unit) | ColorValue (c : Color).
Record Declaration : Type := mkDeclaration { name : str; value : Value }.
Record SimpleSelector : Type := mkSelector { tag_name : option str; id : option str; class : list str }.
Inductive Selector : Type := Simple (s : SimpleSelector).
Record Rule : Type := mkRule { selectors : list Selector; declarations : list Declaration }.
Record Stylesheet : Type := mkSheet { rules : list Rule }.

#[export] Instance Color_eq_dec : EqDecision Color.
Proof. solve_decision. Defined.

Definition Specificity : Type := nat * nat * nat.
Definition count {A} (o : option A) : nat := match o with Some _ => 1 | None => 0 end.
Definition specificity (s : Selector) : Specificity :=
  let 'Simple s := s in (count (id s), length (class s), count (tag_name s)).

(** The order of tuples. *)
Definition spec_leb (s t : Specificity) : bool :=
  let '(a, b, c) := s in
  let '(a', b', c') := t in
  (a <? a')%nat || ((a =? a')%nat && ((b <? b')%nat || ((b =? b')%nat && (c <=? c')%nat))).

Definition to_px (v : Value) : f32 := match v with Length f Px => f | _ => zero end.

(** [Display for Value]: [{:02x}] of each channel but the last. *)
Definition lower_hex_digit (n : Z) : char := if n <? 10 then 48 + n else 87 + n.
Definition lower_hex (v : Z) : str := [lower_hex_digit (v / 16); lower_hex_digit (v mod 16)].
Definition show_css_value (v : Value) : str :=
  match v with
  | Keyword k => k
  | Length len Px => show_f32 len ++ lit "px"
  | ColorValue c => lit "#" ++ lower_hex (c_r c) ++ lower_hex (c_g c) ++ lower_hex (c_b c)
  end.

(** ** The parser *)
Definition valid_identifier_char (c : char) : bool :=
  is_ascii_lower c || is_ascii_upper c || is_ascii_digit c || (c =? 45) || (c =? 95).
Definition parse_identifier : scan str := consume_while valid_identifier_char.

Definition HASH : char := 35.
Definition DOT : char := 46.

Fixpoint parse_simple_selector (fuel : nat) (s : SimpleSelector) : scan SimpleSelector :=
  match fuel with
  | O => timeout
  | S fuel =>
      let* e := eof in
      if e then sret s
      else
        let* c := next_char in
        if c =? HASH then
          let* _c := consume_char in
          let* i := parse_identifier in
          parse_simple_selector fuel (mkSelector (tag_name s) (Some i) (class s))
        else if c =? DOT then
          let* _c := consume_char in
          let* i := parse_identifier in
          parse_simple_selector fuel (mkSelector (tag_name s) (id s) (class s ++ [i]))
        else if c =? 42 then let* _c := consume_char in parse_simple_selector fuel s
        else if valid_identifier_char c then
          let* i := parse_identifier in
          parse_simple_selector fuel (mkSelector (Some i) (id s) (class s))
        else sret s
  end.

(** [sort_by_key(|b| Reverse(b.specificity()))] *)
Definition by_specificity (s t : Selector) : bool := spec_leb (specificity t) (specificity s).

Fixpoint selector_list (fuel : nat) (l : list Selector) : scan (list Selector) :=
  match fuel with
  | O => timeout
  | S fuel' =>
      let* s := parse_simple_selector fuel (mkSelector None None []) in
      let* _ws := consume_whitespace in
      let* c := next_char in
      if c =? 44 then
        let* _c := consume_char in
        let* _ws := consume_whitespace in
        selector_list fuel' (l ++ [Simple s])
      else if c =? 123 then sret (l ++ [Simple s])
      else panic
  end.
Definition parse_selectors (fuel : nat) : scan (list Selector) :=
  let* l := selector_list fuel [] in sret (stable_sort by_specificity l).

(** [str::parse::<f32>] of what is between. *)
Definition parse_float : scan f32 :=
  let* s := consume_while (λ c, is_ascii_digit c || (c =? DOT)) in or_panics (parse_decimal s).

Definition parse_length : scan Value :=
  let* num := parse_float in
  let* u := parse_identifier in
  let u := match u with [] => lit "px" | _ => u end in
  if bool_decide (to_ascii_lowercase u = lit "px") then sret (Length num Px) else panic.

Definition hex_digit (c : char) : Z :=
  if is_ascii_digit c then c - 48 else if 97 <=? c then c - 87 else c - 55.
Definition hex_pair (c d : char) : Z := hex_digit c * 16 + hex_digit d.
Definition hex_nibble (c : char) : Z := hex_digit c * 16 + hex_digit c.

Definition hex_color (hex : str) : option Color :=
  match hex with
  | [a; b; c; d; e; f] => Some (mkColor (hex_pair a b) (hex_pair c d) (hex_pair e f) 255)
  | [a; b; c; d; e; f; g; h] => Some (mkColor (hex_pair a b) (hex_pair c d) (hex_pair e f) (hex_pair g h))
  | [a; b; c] => Some (mkColor (hex_nibble a) (hex_nibble b) (hex_nibble c) 255)
  | _ => None
  end.
Definition parse_color : scan Value :=
  let* _hash := expect_char HASH in
  let* hex := consume_while is_ascii_hexdigit in
  let* c := or_panics (hex_color hex) in
  sret (ColorValue c).

Definition parse_value : scan Value :=
  let* c := next_char in
  if is_ascii_digit c || (c =? DOT) then parse_length
  else if c =? HASH then parse_color
  else let* k := parse_identifier in sret (Keyword k).

Definition parse_declaration : scan Declaration :=
  let* property_name := parse_identifier in
  let* _ws := consume_whitespace in
  let* _colon := expect_char 58 in
  let* _ws := consume_whitespace in
  let* v := parse_value in
  let* _ws := consume_whitespace in
  let* e := eof in
  if e then sret (mkDeclaration property_name v)
  else
    let* c := next_char in
    if c =? 59 then let* _semi := consume_char in sret (mkDeclaration property_name v)
    else sret (mkDeclaration property_name v).

Fixpoint declaration_list (fuel : nat) (l : list Declaration) : scan (list Declaration) :=
  match fuel with
  | O => timeout
  | S fuel =>
      let* _ws := consume_whitespace in
      let* c := next_char in
      if c =? 125 then let* _c := consume_char in sret l
      else let* d := parse_declaration in declaration_list fuel (l ++ [d])
  end.
Definition parse_declarations (fuel : nat) : scan (list Declaration) :=
  let* _brace := expect_char 123 in declaration_list fuel [].

Definition parse_rule (fuel : nat) : scan Rule :=
  let* ss := parse_selectors fuel in
  let* ds := parse_declarations fuel in
  sret (mkRule ss ds).

Fixpoint parse_rules (fuel : nat) (l : list Rule) : scan (list Rule) :=
  match fuel with
  | O => timeout
  | S fuel' =>
      let* _ws := consume_whitespace in
      let* e := eof in
      if e then sret l else let* rl := parse_rule fuel in parse_rules fuel' (l ++ [rl])
  end.

Definition parse_fuel (fuel : nat) (source : str) : outcome Stylesheet :=
  obind (parse_rules fuel [] (At source)) (λ p, Ret (mkSheet p.1)).
(** No loop turns more often than there are characters left, and once more. *)
Definition parse (source : str) : outcome Stylesheet := parse_fuel (S (length source)) source.
