(* ===== verification/CssProps.v ===== *)
(** * The browser engine: properties of the CSS parser

    It ends on every input; what it returns is well-formed, with the selectors of a
    rule in the order of the cascade; written style sheets are read back. *)
From S2P Require Import Prelude RustStr RustSort F32 F32Text Scanner Css.

(** ** Fuel *)

(** [m] returns or panics at [c]. *)
Lemma bind_decided {A B} (m : scan A) (k : A → scan B) c :
  m c ≠ Timeout → (∀ a c', m c = Ret (a, c') → k a c' ≠ Timeout) → sbind m k c ≠ Timeout.
Proof. intros Hm Hk. unfold sbind. destruct (m c) as [[a c']| |]; [by apply Hk|done..]. Qed.

Lemma shrinks_ident : shrinks parse_identifier.
Proof. apply shrinks_while. Qed.
Lemma settles_ident : settles parse_identifier.
Proof. apply settles_while. Qed.
Lemma shrinks_or_panics {A} (o : option A) : shrinks (or_panics o).
Proof. destruct o; cbn [or_panics]; solve_scan. Qed.
Lemma settles_or_panics {A} (o : option A) : settles (or_panics o).
Proof. destruct o; cbn [or_panics]; solve_scan. Qed.
#[export] Hint Resolve shrinks_ident settles_ident
  shrinks_or_panics settles_or_panics : scan.

Lemma shrinks_css_value : shrinks parse_value.
Proof. unfold parse_value, parse_length, parse_float, parse_color. solve_scan. Qed.
Lemma settles_css_value : settles parse_value.
Proof. unfold parse_value, parse_length, parse_float, parse_color. solve_scan. Qed.
#[export] Hint Resolve shrinks_css_value settles_css_value : scan.
Lemma shrinks_declaration : shrinks parse_declaration.
Proof. unfold parse_declaration. solve_scan. Qed.
Lemma settles_declaration : settles parse_declaration.
Proof. unfold parse_declaration. solve_scan. Qed.
#[export] Hint Resolve shrinks_declaration settles_declaration : scan.
Lemma shrinks_simple fuel s : shrinks (parse_simple_selector fuel s).
Proof. revert s. induction fuel as [|fuel IH]; intros s; [done|]. cbn [parse_simple_selector]. solve_scan. Qed.
#[export] Hint Resolve shrinks_simple : scan.
Lemma shrinks_selectors fuel l : shrinks (selector_list fuel l).
Proof. revert l. induction fuel as [|fuel IH]; intros l; [done|]. cbn [selector_list]. solve_scan. Qed.
Lemma shrinks_declarations fuel l : shrinks (declaration_list fuel l).
Proof. revert l. induction fuel as [|fuel IH]; intros l; [done|]. cbn [declaration_list]. solve_scan. Qed.
#[export] Hint Resolve shrinks_selectors shrinks_declarations : scan.

Lemma next_stays c x c' : next_char c = Ret (x, c') → c' = c ∧ ∃ r, c = At (x :: r).
Proof. destruct c as [[|y r]|]; try done. intros [= -> <-]. eauto. Qed.
Lemma eof_stays c e c' : eof c = Ret (e, c') → c' = c.
Proof. by intros [= _ <-]. Qed.
Lemma ident_strict x r s c : valid_identifier_char x = true → parse_identifier (At (x :: r)) = Ret (s, c) → (size c < S (length r))%nat.
Proof.
  intros Hx (r0 & r1 & [= <-] & -> & E & _ & Hs)%consume_while_split. destruct s as [|y s].
  - simpl in E. subst r1. congruence.
  - injection E as _ ->. cbn [size]. rewrite length_app. lia.
Qed.

(** A declaration begins with a name and a colon. *)
Lemma declaration_strict c d c' : parse_declaration c = Ret (d, c') → (size c' < size c)%nat.
Proof.
  unfold parse_declaration, sbind at 1. destruct (parse_identifier c) as [[n c1]| |] eqn:E1; [|done..].
  apply shrinks_ident in E1. cbn [obind fst snd]. unfold sbind at 1.
  destruct (consume_whitespace c1) as [[w c2]| |] eqn:E2; [|done..]. apply shrinks_ws in E2. cbn [obind fst snd].
  unfold sbind at 1. destruct (expect_char 58 c2) as [[u c3]| |] eqn:E3; [|done..]. apply expect_size in E3.
  cbn [obind fst snd]. match goal with |- ?m c3 = _ → _ => assert (Hs : shrinks m) by solve_scan end. intros H%Hs. lia.
Qed.

(** One decided step of a loop, with what it says about the cursor. *)
Ltac decided_step :=
  lazymatch goal with
  | |- sbind ?m _ _ ≠ Timeout =>
      apply bind_decided;
      [lazymatch goal with |- ?m _ ≠ _ => let H := fresh in assert (H : settles m) by (solve_scan; done); apply H end|];
      let a := fresh "a" in let c := fresh "c" in let E := fresh "E" in intros a c E;
      first [apply consume_char_size in E | apply next_stays in E as [-> [? ->]] | apply eof_stays in E as ->
            |apply declaration_strict in E
            |lazymatch type of E with ?m _ = _ => let H := fresh in assert (H : shrinks m) by solve_scan; apply H in E; clear H end
            |idtac]; cbv beta
  | |- (if ?b then _ else _) _ ≠ Timeout => destruct b eqn:?
  | |- sret _ _ ≠ Timeout => done
  | |- panic _ ≠ Timeout => done
  end.

Lemma simple_decided fuel s c : (size c < fuel)%nat → parse_simple_selector fuel s c ≠ Timeout.
Proof.
  revert s c. induction fuel as [|fuel IH]; intros s c Hf; [lia|]. cbn [parse_simple_selector].
  decided_step. decided_step; [done|]. decided_step.
  do 3 (decided_step; [repeat decided_step; apply IH; simpl in *; lia|]).
  decided_step; [|done]. apply bind_decided; [apply settles_ident|]. intros i c' E.
  apply ident_strict in E; [|done]. apply IH. simpl in Hf. lia.
Qed.

Lemma selectors_decided fuel l c : (size c < fuel)%nat → selector_list fuel l c ≠ Timeout.
Proof.
  revert l c. induction fuel as [|fuel IH]; intros l c Hf; [lia|]. cbn [selector_list].
  apply bind_decided; [by apply simple_decided|]. intros s c1 E%shrinks_simple.
  do 2 decided_step. decided_step; [|by repeat decided_step].
  repeat decided_step. apply IH. simpl in *. lia.
Qed.

Lemma declarations_decided fuel l c : (size c < fuel)%nat → declaration_list fuel l c ≠ Timeout.
Proof.
  revert l c. induction fuel as [|fuel IH]; intros l c Hf; [lia|]. cbn [declaration_list].
  do 2 decided_step. decided_step; [by repeat decided_step|]. decided_step. apply IH. simpl in *. lia.
Qed.

Lemma rule_decided fuel c : (size c < fuel)%nat → parse_rule fuel c ≠ Timeout.
Proof.
  intros Hf. unfold parse_rule, parse_selectors. apply bind_decided.
  - apply bind_decided; [by apply selectors_decided|done].
  - intros ss c1 E. assert (H : shrinks (let* l := selector_list fuel [] in sret (stable_sort by_specificity l))) by solve_scan.
    apply H in E. apply bind_decided; [|done]. unfold parse_declarations. apply bind_decided; [apply settles_expect|].
    intros u c2 E2%expect_size. apply declarations_decided. lia.
Qed.

(** A rule begins with its selectors and a brace. *)
Lemma rule_strict fuel c r c' : parse_rule fuel c = Ret (r, c') → (size c' < size c)%nat.
Proof.
  unfold parse_rule, sbind at 1. destruct (parse_selectors fuel c) as [[ss c1]| |] eqn:E1; [|done..].
  assert (H : shrinks (parse_selectors fuel)) by (unfold parse_selectors; solve_scan). apply H in E1. clear H.
  cbn [obind fst snd]. unfold parse_declarations, sbind at 1. unfold sbind at 1.
  destruct (expect_char 123 c1) as [[u c2]| |] eqn:E2; [|done..]. apply expect_size in E2. cbn [obind fst snd].
  destruct (declaration_list fuel [] c2) as [[ds c3]| |] eqn:E3; [|done..]. apply shrinks_declarations in E3.
  intros [= _ <-]. lia.
Qed.

Lemma rules_decided fuel l c : (size c < fuel)%nat → parse_rules fuel l c ≠ Timeout.
Proof.
  revert l c. induction fuel as [|fuel IH]; intros l c Hf; [lia|]. cbn [parse_rules].
  do 2 decided_step. decided_step; [done|]. apply bind_decided; [apply rule_decided; simpl in *; lia|].
  intros r c1 E1%rule_strict. apply IH. simpl in *. lia.
Qed.

(** More fuel changes nothing. *)
Ltac more_fuel := repeat first [apply sbind_refines; [|intros] | progress auto with arith | reflexivity | case_match].
Lemma simple_more fuel fuel' s c : (fuel ≤ fuel')%nat → refines (parse_simple_selector fuel s c) (parse_simple_selector fuel' s c).
Proof.
  revert fuel' s c. induction fuel as [|fuel IH]; intros [|fuel'] s c Hf; [by right|by left|lia|]. cbn [parse_simple_selector].
  more_fuel.
Qed.
Lemma selectors_more fuel fuel' l c : (fuel ≤ fuel')%nat → refines (selector_list fuel l c) (selector_list fuel' l c).
Proof.
  revert fuel' l c. induction fuel as [|fuel IH]; intros [|fuel'] s c Hf; [by right|by left|lia|]. cbn [selector_list].
  apply sbind_refines; [by apply simple_more|intros]. more_fuel.
Qed.
Lemma declarations_more fuel fuel' l c : (fuel ≤ fuel')%nat → refines (declaration_list fuel l c) (declaration_list fuel' l c).
Proof.
  revert fuel' l c. induction fuel as [|fuel IH]; intros [|fuel'] s c Hf; [by right|by left|lia|]. cbn [declaration_list].
  more_fuel.
Qed.
Lemma rules_more fuel fuel' l c : (fuel ≤ fuel')%nat → refines (parse_rules fuel l c) (parse_rules fuel' l c).
Proof.
  revert fuel' l c. induction fuel as [|fuel IH]; intros [|fuel'] s c Hf; [by right|by left|lia|]. cbn [parse_rules].
  apply sbind_refines; [done|intros]. apply sbind_refines; [done|intros]. case_match; [done|].
  apply sbind_refines; [|intros; apply IH; lia]. unfold parse_rule, parse_selectors, parse_declarations.
  apply sbind_refines; [apply sbind_refines; [by apply selectors_more|done]|intros].
  apply sbind_refines; [|done]. apply sbind_refines; [done|intros]. by apply declarations_more.
Qed.

(** Every text is decided: with the fuel of [parse], or any more, the parser returns
    a style sheet or panics, and it does the same with both. *)
Theorem css_parse_total source :
  parse source ≠ Timeout ∧ ∀ fuel, (length source < fuel)%nat → parse_fuel fuel source = parse source.
Proof.
  assert (H : parse_rules (S (length source)) [] (At source) ≠ Timeout) by (apply rules_decided; simpl; lia).
  unfold parse, parse_fuel. split.
  - by destruct (parse_rules _ [] (At source)).
  - intros fuel Hf. destruct (rules_more (S (length source)) fuel [] (At source)) as [E|E]; [lia|done|]. by rewrite E.
Qed.

(** ** What a style sheet is made of *)
Definition ident (s : str) : Prop := forallb valid_identifier_char s = true.
Definition value_ok (v : Value) : Prop :=
  match v with
  | Keyword k => ident k
  | Length f Px => valid f = true ∧ nonneg f = true
  | ColorValue c => is_u8 (c_r c) ∧ is_u8 (c_g c) ∧ is_u8 (c_b c) ∧ is_u8 (c_a c)
  end.
Definition simple_ok (s : SimpleSelector) : Prop :=
  match tag_name s with Some t => ident t | None => True end ∧
  match id s with Some i => ident i | None => True end ∧ Forall ident (class s).
Definition selector_ok (s : Selector) : Prop := let 'Simple s := s in simple_ok s.
Definition declaration_ok (d : Declaration) : Prop := ident (name d) ∧ value_ok (value d).
(** From the most to the least specific. *)
Definition descending (l : list Selector) : Prop := StronglySorted (λ s t, by_specificity s t = true) l.
Definition rule_ok (r : Rule) : Prop :=
  selectors r ≠ [] ∧ descending (selectors r) ∧ Forall selector_ok (selectors r) ∧ Forall declaration_ok (declarations r).
Definition sheet_ok (s : Stylesheet) : Prop := Forall rule_ok (rules s).

Lemma spec_leb_iff a b c a' b' c' : spec_leb (a, b, c) (a', b', c') = true ↔
  (a < a' ∨ (a = a' ∧ (b < b' ∨ (b = b' ∧ c ≤ c'))))%nat.
Proof.
  unfold spec_leb. by rewrite orb_true_iff, andb_true_iff, orb_true_iff, andb_true_iff, !Nat.ltb_lt, !Nat.eqb_eq, Nat.leb_le.
Qed.
Lemma spec_total s t : spec_leb s t = true ∨ spec_leb t s = true.
Proof. destruct s as [[a b] c], t as [[a' b'] c']. rewrite !spec_leb_iff. lia. Qed.
Lemma spec_trans s t u : spec_leb s t = true → spec_leb t u = true → spec_leb s u = true.
Proof. destruct s as [[a b] c], t as [[a' b'] c'], u as [[x y] z]. rewrite !spec_leb_iff. lia. Qed.
Lemma spec_antisym s t : spec_leb s t = true → spec_leb t s = true → s = t.
Proof.
  destruct s as [[a b] c], t as [[a' b'] c']. rewrite !spec_leb_iff. intros H1 H2.
  assert (a = a' ∧ b = b' ∧ c = c') as (-> & -> & ->) by lia. done.
Qed.
Lemma by_specificity_total s t : by_specificity s t = true ∨ by_specificity t s = true.
Proof. apply spec_total. Qed.
Lemma by_specificity_trans s t u : by_specificity s t = true → by_specificity t u = true → by_specificity s u = true.
Proof. intros H1 H2. by eapply spec_trans. Qed.

(** What [m] returns satisfies [P]. *)
Definition returns {A} (P : A → Prop) (m : scan A) : Prop := ∀ c a c', m c = Ret (a, c') → P a.
Lemma returns_bind {A B} (P : A → Prop) (Q : B → Prop) (m : scan A) (k : A → scan B) :
  returns P m → (∀ a, P a → returns Q (k a)) → returns Q (sbind m k).
Proof.
  intros Hm Hk c b c'. unfold sbind. destruct (m c) as [[a c1]| |] eqn:E; [|done..]. apply Hk. by eapply Hm.
Qed.
Lemma returns_skip {A B} (Q : B → Prop) (m : scan A) (k : A → scan B) : (∀ a, returns Q (k a)) → returns Q (sbind m k).
Proof. intros Hk. apply (returns_bind (λ _, True)); [done|auto]. Qed.
Lemma returns_ret {A} (P : A → Prop) a : P a → returns P (sret a).
Proof. by intros Ha c b c' [= <- _]. Qed.
Lemma returns_panic {A} (P : A → Prop) : returns P panic.
Proof. done. Qed.
Lemma returns_while test : returns (λ s, forallb test s = true) (consume_while test).
Proof. intros c s c' (r & r' & _ & _ & _ & H & _)%consume_while_split. done. Qed.
Lemma returns_ident : returns ident parse_identifier.
Proof. apply returns_while. Qed.
Lemma returns_or_panics {A} (P : A → Prop) o : (∀ a, o = Some a → P a) → returns P (or_panics o).
Proof. intros Ho. destruct o; [apply returns_ret; auto|done]. Qed.

Lemma hex_digit_range c : is_ascii_hexdigit c = true → 0 ≤ hex_digit c < 16.
Proof. unfold is_ascii_hexdigit, hex_digit, is_ascii_digit. intros H. repeat case_match; lia. Qed.

Lemma hex_color_ok hex c : forallb is_ascii_hexdigit hex = true → hex_color hex = Some c → value_ok (ColorValue c).
Proof.
  intros H Hc. assert (Hd : ∀ d, d ∈ hex → 0 ≤ hex_digit d < 16).
  { intros d Hd. apply hex_digit_range. rewrite forallb_forall in H. by apply H, list_elem_of_In. }
  clear H. unfold hex_color in Hc.
  repeat match type of Hc with match ?l with _ => _ end = _ => destruct l; try done end.
  all: injection Hc as <-; cbn; unfold hex_pair, hex_nibble, is_u8;
    repeat match goal with |- context [hex_digit ?d] => 
      let H := fresh in assert (H : 0 ≤ hex_digit d < 16) by (apply Hd; set_solver); 
      generalize dependent (hex_digit d); intros end; lia.
Qed.

Lemma returns_value : returns value_ok parse_value.
Proof.
  unfold parse_value. apply returns_skip. intros c. destruct (_ || _); [|destruct (c =? HASH)].
  - unfold parse_length. apply (returns_bind (λ f, valid f = true ∧ nonneg f = true)).
    + unfold parse_float. apply returns_skip. intros s. apply returns_or_panics, parse_decimal_valid.
    + intros f Hf. apply returns_skip. intros u. case_bool_decide; [by apply returns_ret|done].
  - unfold parse_color. apply returns_skip. intros _. eapply returns_bind; [apply returns_while|]. intros hex Hhex.
    apply (returns_bind (λ c, value_ok (ColorValue c))); [|intros; by apply returns_ret].
    apply returns_or_panics. intros c'. by apply hex_color_ok.
  - eapply returns_bind; [apply returns_ident|]. intros k Hk. by apply returns_ret.
Qed.

Lemma returns_declaration : returns declaration_ok parse_declaration.
Proof.
  unfold parse_declaration. eapply returns_bind; [apply returns_ident|]. intros n Hn.
  do 3 (apply returns_skip; intros _). eapply returns_bind; [apply returns_value|]. intros v Hv.
  apply returns_skip; intros _. apply returns_skip; intros [|]; [by apply returns_ret|].
  apply returns_skip; intros c. destruct (c =? 59); [apply returns_skip; intros _|]; by apply returns_ret.
Qed.

Lemma returns_declarations fuel l : Forall declaration_ok l → returns (Forall declaration_ok) (declaration_list fuel l).
Proof.
  revert l. induction fuel as [|fuel IH]; intros l Hl; [done|]. cbn [declaration_list].
  apply returns_skip; intros _. apply returns_skip; intros c. destruct (c =? 125).
  - apply returns_skip; intros _. by apply returns_ret.
  - eapply returns_bind; [apply returns_declaration|]. intros d Hd. apply IH, Forall_app. by split; [|constructor].
Qed.

Lemma returns_simple fuel s : simple_ok s → returns simple_ok (parse_simple_selector fuel s).
Proof.
  revert s. induction fuel as [|fuel IH]; intros s Hs; [done|]. cbn [parse_simple_selector].
  apply returns_skip; intros [|]; [by apply returns_ret|]. apply returns_skip; intros c. destruct Hs as (H1 & H2 & H3).
  destruct (c =? HASH); [|destruct (c =? DOT); [|destruct (c =? 42); [|destruct (valid_identifier_char c)]]].
  - apply returns_skip; intros _. eapply returns_bind; [apply returns_ident|]. intros i Hi. by apply IH.
  - apply returns_skip; intros _. eapply returns_bind; [apply returns_ident|]. intros i Hi. apply IH.
    split; [done|split; [done|]]. apply Forall_app. by split; [|constructor].
  - apply returns_skip; intros _. by apply IH.
  - eapply returns_bind; [apply returns_ident|]. intros i Hi. by apply IH.
  - by apply returns_ret.
Qed.

Lemma returns_selectors fuel l : Forall selector_ok l → returns (λ l', l' ≠ [] ∧ Forall selector_ok l') (selector_list fuel l).
Proof.
  revert l. induction fuel as [|fuel IH]; intros l Hl; [done|]. cbn [selector_list].
  eapply returns_bind; [by apply returns_simple|]. intros s Hs. apply returns_skip; intros _. apply returns_skip; intros c.
  assert (Forall selector_ok (l ++ [Simple s])) by (apply Forall_app; by split; [|constructor]).
  destruct (c =? 44); [do 2 (apply returns_skip; intros _); by apply IH|].
  destruct (c =? 123); [|done]. apply returns_ret. split; [by destruct l|done].
Qed.

Lemma returns_rule fuel : returns rule_ok (parse_rule fuel).
Proof.
  unfold parse_rule. apply (returns_bind (λ l, l ≠ [] ∧ descending l ∧ Forall selector_ok l)).
  - unfold parse_selectors. eapply returns_bind; [by apply returns_selectors|]. intros l [Hl Hok]. apply returns_ret.
    split; [by intros ?%stable_sort_nil|]. split; [|by rewrite stable_sort_perm].
    apply stable_sort_sorted; [apply by_specificity_total|apply by_specificity_trans].
  - intros ss (H1 & H2 & H3). apply (returns_bind (Forall declaration_ok)).
    + unfold parse_declarations. apply returns_skip; intros _. by apply returns_declarations.
    + intros ds Hds. by apply returns_ret.
Qed.

Lemma returns_rules fuel l : Forall rule_ok l → returns (Forall rule_ok) (parse_rules fuel l).
Proof.
  revert l. induction fuel as [|fuel IH]; intros l Hl; [done|]. cbn [parse_rules].
  do 1 (apply returns_skip; intros _). apply returns_skip; intros [|]; [by apply returns_ret|].
  eapply returns_bind; [apply returns_rule|]. intros r Hr. apply IH, Forall_app. by split; [|constructor].
Qed.

Lemma parse_ok source s : parse source = Ret s → sheet_ok s.
Proof.
  unfold parse, parse_fuel. destruct (parse_rules _ [] _) as [[l c]| |] eqn:E; [|done..]. intros [= <-].
  eapply returns_rules; [|done]. constructor.
Qed.

(** ** Written style sheets

    The text of a style sheet in the grammar of CSS that the parser is for, with any white
    space where CSS allows it, and what it means.  The meaning does not use the parser's own
    digits and order: digits are looked up in a table, and the order is a specification. *)
Inductive value_syntax : Type := VKeyword (k : str) | VLength (num unit : str) | VColor (hex : str).
Definition print_value (v : value_syntax) : str :=
  match v with VKeyword k => k | VLength n u => n ++ u | VColor h => HASH :: h end.

(** The value of a digit is its place in the table. *)
Definition place (c : char) (table : str) : option Z := '(i, _) ← list_find (eq c) table; Some (Z.of_nat i).
Definition hex_value (c : char) : option Z :=
  match place c (lit "0123456789abcdef") with Some n => Some n | None => place c (lit "0123456789ABCDEF") end.
(** #rgb is #rrggbb; the fourth channel is 255 unless it is written. *)
Definition color_meaning (h : str) : option Color :=
  ds ← mapM hex_value h;
  match ds with
  | [r; g; b] => Some (mkColor (17 * r) (17 * g) (17 * b) 255)
  | [r1; r2; g1; g2; b1; b2] => Some (mkColor (16 * r1 + r2) (16 * g1 + g2) (16 * b1 + b2) 255)
  | [r1; r2; g1; g2; b1; b2; a1; a2] => Some (mkColor (16 * r1 + r2) (16 * g1 + g2) (16 * b1 + b2) (16 * a1 + a2))
  | _ => None
  end.

Definition head_ok (p : char → bool) (s : str) : bool := match s with c :: _ => p c | [] => true end.
Definition value_meaning (v : value_syntax) : option Value :=
  match v with
  | VKeyword k => if forallb valid_identifier_char k && head_ok (λ c, negb (is_ascii_digit c)) k then Some (Keyword k) else None
  | VLength n u =>
      if forallb is_number_char n && bool_decide (u ∈ [[]; lit "px"; lit "Px"; lit "pX"; lit "PX"])
      then f ← parse_decimal n; Some (Length f Px) else None
  | VColor h => c ← color_meaning h; Some (ColorValue c)
  end.

Definition white (w : str) : Prop := forallb is_whitespace w = true.

(** A name, white space, a colon, white space, a value, white space; then a semicolon and
    white space, or nothing. *)
Record declaration_syntax : Type := Decl {
  d_name : str; d_colon : str; d_before : str; d_value : value_syntax; d_after : str; d_semicolon : option str }.
Definition print_declaration (d : declaration_syntax) : str :=
  d_name d ++ d_colon d ++ 58 :: d_before d ++ print_value (d_value d) ++ d_after d ++
  match d_semicolon d with Some w => 59 :: w | None => [] end.
Definition declaration_meaning (d : declaration_syntax) : option Declaration :=
  v ← value_meaning (d_value d); Some (mkDeclaration (d_name d) v).
Definition declaration_written (d : declaration_syntax) : Prop :=
  d_name d ≠ [] ∧ ident (d_name d) ∧ print_value (d_value d) ≠ [] ∧ is_Some (value_meaning (d_value d)) ∧
  white (d_colon d) ∧ white (d_before d) ∧ white (d_after d) ∧ match d_semicolon d with Some w => white w | None => True end.
(** Only the last declaration can lack its semicolon. *)
Fixpoint semicolons (ds : list declaration_syntax) : Prop :=
  match ds with
  | d :: (_ :: _) as ds' => d_semicolon d ≠ None ∧ semicolons ds'
  | _ => True
  end.

(** A selector: a tag name, a star or neither; then ids and classes in any order. *)
Inductive tag_or_star : Type := Tag (t : str) | Star | Bare.
Inductive selector_part : Type := PId (i : str) | PClass (c : str).
Record selector_syntax : Type := Sel { s_head : tag_or_star; s_parts : list selector_part }.
Definition print_head (h : tag_or_star) : str := match h with Tag t => t | Star => [42] | Bare => [] end.
Definition print_part (p : selector_part) : str := match p with PId i => HASH :: i | PClass c => DOT :: c end.
Definition print_selector (s : selector_syntax) : str := print_head (s_head s) ++ flat_map print_part (s_parts s).
Definition part_ids (ps : list selector_part) : list str := omap (λ p, match p with PId i => Some i | PClass _ => None end) ps.
Definition part_classes (ps : list selector_part) : list str := omap (λ p, match p with PClass c => Some c | PId _ => None end) ps.
(** The last id counts. *)
Definition selector_meaning (s : selector_syntax) : SimpleSelector :=
  mkSelector (match s_head s with Tag t => Some t | _ => None end) (last (part_ids (s_parts s))) (part_classes (s_parts s)).
Definition part_ok (p : selector_part) : Prop := match p with PId s | PClass s => ident s end.
Definition selector_written (s : selector_syntax) : Prop :=
  match s_head s with Tag t => t ≠ [] ∧ ident t | Star => True | Bare => s_parts s ≠ [] end ∧ Forall part_ok (s_parts s).

(** A selector in its list, with the white space around it. *)
Record selector_item : Type := Item { i_before : str; i_selector : selector_syntax; i_after : str }.
Definition print_item (i : selector_item) : str := i_before i ++ print_selector (i_selector i) ++ i_after i.
Definition item_written (i : selector_item) : Prop := white (i_before i) ∧ selector_written (i_selector i) ∧ white (i_after i).

(** The other selectors, each behind a comma. *)
Definition print_others (l : list selector_item) : str := flat_map (λ i, 44 :: print_item i) l.

Record rule_syntax : Type := RuleText { r_first : selector_item; r_others : list selector_item; r_open : str; r_declarations : list declaration_syntax }.
Definition print_rule (r : rule_syntax) : str :=
  print_item (r_first r) ++ print_others (r_others r) ++
  123 :: r_open r ++ flat_map print_declaration (r_declarations r) ++ [125].
Definition rule_written (r : rule_syntax) : Prop :=
  item_written (r_first r) ∧ Forall item_written (r_others r) ∧ white (r_open r) ∧
  Forall declaration_written (r_declarations r) ∧ semicolons (r_declarations r).

(** Specificity, as CSS has it: ids before classes before tag names. *)
Definition specificity_key (s : SimpleSelector) : nat * nat * nat :=
  (match id s with Some _ => 1 | None => 0 end, length (class s), match tag_name s with Some _ => 1 | None => 0 end)%nat.
Definition at_least (j k : nat * nat * nat) : Prop :=
  let '(i, c, t) := j in let '(i', c', t') := k in (i' < i ∨ i = i' ∧ (c' < c ∨ c = c' ∧ t' ≤ t))%nat.
(** From the most specific on, and those that are as specific in the order they are written. *)
Definition most_specific_first (written l : list SimpleSelector) : Prop :=
  StronglySorted (λ s t, at_least (specificity_key s) (specificity_key t)) l ∧
  ∀ k, List.filter (λ s, bool_decide (specificity_key s = k)) l = List.filter (λ s, bool_decide (specificity_key s = k)) written.

Definition written_selectors (r : rule_syntax) : list SimpleSelector :=
  map (λ i, selector_meaning (i_selector i)) (r_first r :: r_others r).
Definition rule_means (r : rule_syntax) (rl : Rule) : Prop :=
  (∃ l, selectors rl = map Simple l ∧ most_specific_first (written_selectors r) l) ∧
  mapM declaration_meaning (r_declarations r) = Some (declarations rl).

Definition print_sheet (l : list rule_syntax) (w : str) : str := flat_map print_rule l ++ w.

(** *** Digits *)
Lemma place_lookup c table n : place c table = Some n → ∃ i, table !! i = Some c ∧ n = Z.of_nat i.
Proof.
  unfold place. destruct (list_find _ table) as [[i x]|] eqn:E; [|done]. intros [= <-]. apply list_find_Some in E as (E & -> & _).
  by exists i.
Qed.
Lemma hex_value_digit c n : hex_value c = Some n → is_ascii_hexdigit c = true ∧ hex_digit c = n.
Proof.
  intros H. assert (∃ t i, t ∈ [lit "0123456789abcdef"; lit "0123456789ABCDEF"] ∧ t !! i = Some c ∧ n = Z.of_nat i) as (t & i & Ht & Hi & ->).
  { unfold hex_value in H. destruct (place c (lit "0123456789abcdef")) as [k|] eqn:E.
    - injection H as <-. apply place_lookup in E as (i & Hi & ->). exists (lit "0123456789abcdef"), i. set_solver.
    - apply place_lookup in H as (i & Hi & ->). exists (lit "0123456789ABCDEF"), i. set_solver. }
  repeat (apply elem_of_cons in Ht as [->|Ht]); [..|by apply elem_of_nil in Ht];
    do 16 (destruct i as [|i]; [by injection Hi as <-|]); done.
Qed.
Lemma hex_digit_value c : is_ascii_hexdigit c = true → hex_value c = Some (hex_digit c).
Proof.
  unfold is_ascii_hexdigit, is_ascii_digit. intros H.
  assert (c ∈ map (λ n, 48 + Z.of_nat n) (seq 0 10) ++ map (λ n, 65 + Z.of_nat n) (seq 0 6) ++ map (λ n, 97 + Z.of_nat n) (seq 0 6)) as Hc.
  { cbn. rewrite !elem_of_cons. lia. }
  cbn in Hc. repeat (apply elem_of_cons in Hc as [->|Hc]; [done|]). by apply elem_of_nil in Hc.
Qed.
Lemma hex_values h ds : mapM hex_value h = Some ds → forallb is_ascii_hexdigit h = true ∧ ds = map hex_digit h.
Proof.
  intros H%mapM_Some. induction H as [|c n h ds Hc _ [IH1 ->]]; [done|]. apply hex_value_digit in Hc as [Hc <-].
  cbn. by rewrite Hc, IH1.
Qed.
Lemma hex_values_of h : forallb is_ascii_hexdigit h = true → mapM hex_value h = Some (map hex_digit h).
Proof.
  intros H. apply mapM_Some. induction h as [|c h IH]; [constructor|]. apply andb_prop in H as [Hc Hh].
  constructor; [by apply hex_digit_value|by apply IH].
Qed.
Lemma color_digits h :
  match map hex_digit h with
  | [r; g; b] => Some (mkColor (17 * r) (17 * g) (17 * b) 255)
  | [r1; r2; g1; g2; b1; b2] => Some (mkColor (16 * r1 + r2) (16 * g1 + g2) (16 * b1 + b2) 255)
  | [r1; r2; g1; g2; b1; b2; a1; a2] => Some (mkColor (16 * r1 + r2) (16 * g1 + g2) (16 * b1 + b2) (16 * a1 + a2))
  | _ => None
  end = hex_color h.
Proof.
  do 9 (destruct h as [|? h]; [cbn [map hex_color]; unfold hex_pair, hex_nibble; try done; f_equal; f_equal; lia|]). done.
Qed.
Lemma color_meaning_hex h : forallb is_ascii_hexdigit h = true → color_meaning h = hex_color h.
Proof. intros H. unfold color_meaning. rewrite hex_values_of by done. cbn [mbind option_bind]. apply color_digits. Qed.
Lemma color_meaning_inv h c : color_meaning h = Some c → forallb is_ascii_hexdigit h = true ∧ hex_color h = Some c.
Proof.
  intros E. assert (forallb is_ascii_hexdigit h = true) as H.
  { unfold color_meaning in E. destruct (mapM hex_value h) as [ds|] eqn:Em; [|done]. by apply hex_values in Em as [? _]. }
  split; [done|]. by rewrite <-color_meaning_hex.
Qed.

(** *** The order *)
Lemma key_specificity s : specificity_key s = specificity (Simple s).
Proof. destruct s as [[t|] [i|] c]; done. Qed.
Lemma at_least_spec j k : at_least j k ↔ spec_leb k j = true.
Proof. destruct j as [[a b] c], k as [[a' b'] c']. rewrite spec_leb_iff. unfold at_least. lia. Qed.
Lemma sorted_most_specific l : ∃ l', stable_sort by_specificity (map Simple l) = map Simple l' ∧ most_specific_first l l'.
Proof.
  exists (stable_sort (λ s t, by_specificity (Simple s) (Simple t)) l).
  split; [by apply stable_sort_map|]. split.
  - pose proof (stable_sort_sorted (λ s t, by_specificity (Simple s) (Simple t)) (λ s t, by_specificity_total _ _)
      (λ s t u, by_specificity_trans _ _ _) l) as H.
    induction H as [|s k _ IH Hs]; constructor; [done|]. eapply Forall_impl; [exact Hs|]. intros t Ht.
    rewrite !key_specificity. by apply at_least_spec.
  - intros k. apply stable_sort_filter. intros s t Hs%bool_decide_eq_true Ht%bool_decide_eq_true. unfold by_specificity.
    rewrite <-!key_specificity, Hs, Ht. destruct k as [[a b] c]. apply spec_leb_iff. lia.
Qed.

(** *** Reading it back *)
Lemma ident_at i x q : ident i → valid_identifier_char x = false → parse_identifier (At (i ++ x :: q)) = Ret (i, At (x :: q)).
Proof. apply consume_while_stop. Qed.
Lemma white_at w x q : white w → is_whitespace x = false → consume_whitespace (At (w ++ x :: q)) = Ret (w, At (x :: q)).
Proof. apply consume_while_stop. Qed.
Lemma white_app v w : white v → white w → white (v ++ w).
Proof. unfold white. intros Hv Hw. by rewrite forallb_app, Hv, Hw. Qed.

Lemma ident_char_facts c : valid_identifier_char c = true →
  is_whitespace c = false ∧ c ≠ HASH ∧ c ≠ DOT ∧ c ≠ 42 ∧ c ≠ 44 ∧ c ≠ 58 ∧ c ≠ 59 ∧ c ≠ 123 ∧ c ≠ 125 ∧ one_byte c = true.
Proof.
  unfold valid_identifier_char, is_ascii_lower, is_ascii_upper, is_ascii_digit, is_whitespace, one_byte, HASH, DOT. lia.
Qed.

(** What can follow a selector, and a name or value. *)
Definition ends_selector (x : char) : Prop := x = 44 ∨ x = 123 ∨ is_whitespace x = true.
Definition ends_value (x : char) : Prop := x = 58 ∨ x = 59 ∨ x = 125 ∨ is_whitespace x = true.

Lemma ends_selector_facts x : ends_selector x →
  x ≠ HASH ∧ x ≠ DOT ∧ x ≠ 42 ∧ valid_identifier_char x = false.
Proof.
  unfold ends_selector, valid_identifier_char, is_ascii_lower, is_ascii_upper, is_ascii_digit, is_whitespace, HASH, DOT. lia.
Qed.
Lemma ends_value_facts x : ends_value x →
  valid_identifier_char x = false ∧ is_number_char x = false ∧ is_ascii_hexdigit x = false.
Proof.
  unfold ends_value, valid_identifier_char, is_number_char, is_ascii_hexdigit, is_ascii_lower, is_ascii_upper, is_ascii_digit, is_whitespace. lia.
Qed.
(** White space, or else what is behind it. *)
Lemma white_cons (P : char → Prop) w x q : white w → (∀ c, is_whitespace c = true → P c) → P x → ∃ y r, w ++ x :: q = y :: r ∧ P y.
Proof.
  intros Hw HP Hx. destruct w as [|y w]; [by eexists _, _|]. apply andb_prop in Hw as [Hy _]. eexists _, _. split; [done|]. by apply HP.
Qed.

Lemma at_char {A} (m : scan A) (k : char → scan A) c r :
  (let* e := eof in if e then m else let* x := next_char in k x) (At (c :: r)) = k c (At (c :: r)).
Proof. done. Qed.
Lemma simple_end fuel s x q : ends_selector x → parse_simple_selector (S fuel) s (At (x :: q)) = Ret (s, At (x :: q)).
Proof.
  intros (H1%Z.eqb_neq & H2%Z.eqb_neq & H3%Z.eqb_neq & H4)%ends_selector_facts. cbn [parse_simple_selector].
  rewrite at_char, H1, H2, H3, H4. done.
Qed.

Lemma simple_part fuel s p y r : part_ok p → valid_identifier_char y = false →
  parse_simple_selector (S fuel) s (At (print_part p ++ y :: r)) =
  parse_simple_selector fuel (match p with
    | PId i => mkSelector (tag_name s) (Some i) (class s)
    | PClass c => mkSelector (tag_name s) (id s) (class s ++ [c])
    end) (At (y :: r)).
Proof.
  intros Hp Hy. destruct p as [i|c]; cbn [print_part app parse_simple_selector]; rewrite at_char.
  - rewrite Z.eqb_refl. erewrite sbind_ret by (apply consume_char_at; by left). by erewrite sbind_ret by by apply ident_at.
  - change (DOT =? HASH) with false. cbv iota. rewrite Z.eqb_refl.
    erewrite sbind_ret by (apply consume_char_at; by left). by erewrite sbind_ret by by apply ident_at.
Qed.
Lemma simple_tag fuel s c i y r : ident (c :: i) → valid_identifier_char y = false →
  parse_simple_selector (S fuel) s (At ((c :: i) ++ y :: r)) =
  parse_simple_selector fuel (mkSelector (Some (c :: i)) (id s) (class s)) (At (y :: r)).
Proof.
  intros Hi Hy. cbn [app parse_simple_selector]. rewrite at_char.
  assert (Hc : valid_identifier_char c = true) by (by apply andb_prop in Hi as [? _]).
  destruct (ident_char_facts c Hc) as (_ & H1%Z.eqb_neq & H2%Z.eqb_neq & H3%Z.eqb_neq & _). rewrite H1, H2, H3, Hc.
  change (c :: i ++ y :: r) with ((c :: i) ++ y :: r). by erewrite sbind_ret by by apply ident_at.
Qed.
Lemma simple_star fuel s y r : parse_simple_selector (S fuel) s (At (42 :: y :: r)) = parse_simple_selector fuel s (At (y :: r)).
Proof. done. Qed.

Lemma parts_separate ps x q : ends_selector x → ∃ y r, flat_map print_part ps ++ x :: q = y :: r ∧ valid_identifier_char y = false.
Proof.
  intros (_ & _ & _ & Hx)%ends_selector_facts. destruct ps as [|[i|c] ps]; cbn [flat_map print_part app]; by eexists _, _.
Qed.
Lemma parts_read ps fuel s x q : Forall part_ok ps → ends_selector x → (length ps < fuel)%nat →
  parse_simple_selector fuel s (At (flat_map print_part ps ++ x :: q)) =
  Ret (mkSelector (tag_name s) (match last (part_ids ps) with Some i => Some i | None => id s end) (class s ++ part_classes ps), At (x :: q)).
Proof.
  intros Hps Hx. revert fuel s. induction Hps as [|p ps Hp Hps IH]; intros fuel s Hf; (destruct fuel as [|fuel]; [simpl in Hf; lia|]).
  - cbn [flat_map app part_ids part_classes omap list_omap last]. rewrite simple_end, app_nil_r by done. by destruct s.
  - cbn [flat_map]. rewrite <-app_assoc. destruct (parts_separate ps x q Hx) as (y & r & E & Hy).
    rewrite E, simple_part, <-E, IH by (done || (simpl in Hf; lia)). destruct p as [i|c]; cbn [tag_name id class].
    + unfold part_ids, part_classes. cbn [omap list_omap]. rewrite last_cons. by destruct (last _).
    + unfold part_ids, part_classes. cbn [omap list_omap]. by rewrite <-app_assoc.
Qed.
Lemma parts_length ps : (length ps ≤ length (flat_map print_part ps))%nat.
Proof. induction ps as [|[i|c] ps IH]; [done|..]; cbn [flat_map print_part app length]; rewrite length_app; lia. Qed.

Lemma selector_read s fuel x q : selector_written s → ends_selector x → (S (length (print_selector s)) < fuel)%nat →
  parse_simple_selector fuel (mkSelector None None []) (At (print_selector s ++ x :: q)) = Ret (selector_meaning s, At (x :: q)).
Proof.
  destruct s as [h ps]. unfold selector_written, print_selector, selector_meaning. cbn [s_head s_parts]. intros [Hh Hps] Hx.
  rewrite length_app. pose proof (parts_length ps) as Hl. intros Hf. rewrite <-app_assoc.
  destruct (parts_separate ps x q Hx) as (y & r & E & Hy). destruct fuel as [|fuel]; [lia|].
  assert (Hid : match last (part_ids ps) with Some i => Some i | None => None end = last (part_ids ps)) by by destruct (last _).
  destruct h as [[|c t]| |]; cbn [print_head app].
  - by destruct Hh.
  - destruct Hh as [_ Ht]. change (c :: t ++ ?l) with ((c :: t) ++ l). rewrite E, simple_tag, <-E by done.
    rewrite parts_read by (done || (simpl in Hf; lia)). by cbn [tag_name id class]; rewrite Hid.
  - rewrite E, simple_star, <-E, parts_read by (done || (simpl in Hf; lia)). by cbn [tag_name id class]; rewrite Hid.
  - rewrite parts_read by (done || (simpl in Hf; lia)). by cbn [tag_name id class]; rewrite Hid.
Qed.

Lemma selector_head s : selector_written s → ∃ c r, print_selector s = c :: r ∧ is_whitespace c = false.
Proof.
  destruct s as [h ps]. unfold selector_written, print_selector. cbn [s_head s_parts]. intros [Hh _].
  destruct h as [[|c t]| |]; cbn [print_head app]; [by destruct Hh| |by eexists _, _|].
  - destruct Hh as [_ [Hc _]%andb_prop]. eexists _, _. split; [done|]. by apply ident_char_facts in Hc as [? _].
  - destruct ps as [|[i|i] ps]; [done|..]; cbn [flat_map print_part app]; by eexists _, _.
Qed.

(** The list from a selector on, without the white space before it. *)
Lemma selectors_read s w others fuel acc q : selector_written s → white w → Forall item_written others →
  (S (length (print_selector s ++ w ++ print_others others)) < fuel)%nat →
  selector_list fuel acc (At (print_selector s ++ w ++ print_others others ++ 123 :: q)) =
  Ret (acc ++ map Simple (selector_meaning s :: map (λ i, selector_meaning (i_selector i)) others), At (123 :: q)).
Proof.
  intros Hs Hw Ho. revert s w fuel acc Hs Hw. induction Ho as [|[b s' a] others (Hb & Hs' & Ha) _ IH]; intros s w fuel acc Hs Hw Hf;
    (destruct fuel as [|fuel]; [lia|]); rewrite !length_app in Hf; cbn [selector_list].
  - cbn [print_others flat_map app]. destruct (white_cons ends_selector w 123 q Hw) as (y & r & E & Hy); [unfold ends_selector; auto..|].
    erewrite sbind_ret by (rewrite E; apply selector_read; [done..|lia]). rewrite <-E.
    by erewrite sbind_ret by by apply white_at.
  - cbn [print_others flat_map] in Hf |- *. fold (print_others others) in Hf |- *. cbn [length] in Hf. unfold print_item at 1 in Hf. unfold print_item at 1. cbn [i_before i_selector i_after] in *.
    cbn [app length] in Hf. rewrite !length_app in Hf. rewrite <-!app_assoc. cbn [app].
    set (tail := print_others others ++ 123 :: q) in *. rewrite <-!app_assoc.
    destruct (white_cons ends_selector w 44 (b ++ print_selector s' ++ a ++ tail) Hw) as (y & r & E & Hy); [unfold ends_selector; auto..|].
    erewrite sbind_ret by (rewrite E; apply selector_read; [done..|lia]). rewrite <-E.
    erewrite sbind_ret by by apply white_at. erewrite sbind_ret by done. cbv iota. rewrite Z.eqb_refl.
    erewrite sbind_ret by (apply consume_char_at; by left).
    destruct (selector_head s' Hs') as (c & t & Et & Hc).
    rewrite (sbind_ret _ _ _ b (At (print_selector s' ++ a ++ tail))) by (rewrite Et; by apply white_at).
    rewrite IH by (done || (rewrite !length_app; lia)). by rewrite <-app_assoc.
Qed.

Lemma value_head v w : value_meaning v = Some w → print_value v ≠ [] → ∃ c r, print_value v = c :: r ∧ is_whitespace c = false.
Proof.
  destruct v as [k|n u|h]; cbn [value_meaning print_value].
  - destruct (forallb _ _ && _) eqn:E; [|done]. intros _ Hne. destruct k as [|c k]; [done|]. exists c. eexists. split; [done|].
    apply andb_prop in E as [[Hc _]%andb_prop _]. by apply ident_char_facts in Hc as [? _].
  - destruct (forallb _ _ && _) eqn:E; [|done]. apply andb_prop in E as [E _]. destruct n as [|c n]; [done|]. intros _ _.
    exists c. eexists. split; [done|]. apply andb_prop in E as [Hc _].
    unfold is_number_char, is_ascii_digit, DOT in Hc. unfold is_whitespace. lia.
  - intros _ _. by eexists HASH, _.
Qed.

Lemma value_read v w x q : value_meaning v = Some w → ends_value x → parse_value (At (print_value v ++ x :: q)) = Ret (w, At (x :: q)).
Proof.
  intros Hv Hx. pose proof Hx as (Hi & Hn' & Hh')%ends_value_facts. revert Hv.
  destruct v as [k|n u|h]; cbn [value_meaning print_value]; unfold parse_value.
  - destruct (forallb _ _ && _) eqn:E; [|done]. apply andb_prop in E as [Hk Hh]. intros [= <-].
    destruct k as [|c k].
    { cbn [app]. erewrite sbind_ret by done. unfold is_number_char in Hn'. fold DOT in Hn'. rewrite Hn'.
      rewrite (proj2 (Z.eqb_neq x HASH)) by (intros ->; unfold ends_value, HASH in Hx; cbn in Hx; lia).
      erewrite sbind_ret; [done|]. by apply consume_while_none. }
    cbn [app]. erewrite sbind_ret by done. apply andb_prop in Hk as [Hc Hk]. cbn [head_ok] in Hh.
    apply negb_true_iff in Hh. rewrite Hh. destruct (ident_char_facts c Hc) as (_ & H1%Z.eqb_neq & H2%Z.eqb_neq & _).
    rewrite H1, H2. cbn [orb]. change (c :: k ++ x :: q) with ((c :: k) ++ x :: q).
    erewrite sbind_ret; [done|]. apply ident_at; [|done]. apply andb_true_iff; auto.
  - destruct (forallb _ _ && _) eqn:E; [|done]. apply andb_prop in E as [Hn Hu%bool_decide_eq_true].
    destruct (parse_decimal n) as [f|] eqn:Ef; [|done]. cbn [mbind option_bind]. intros [= <-].
    destruct n as [|c n]; [done|]. cbn [app]. erewrite sbind_ret by done. assert (Hc := Hn). apply andb_prop in Hc as [Hc _].
    unfold is_number_char in Hc. fold DOT in Hc. rewrite Hc. unfold parse_length, parse_float.
    assert (Hr : ∃ y r, (u ++ x :: q) = y :: r ∧ is_number_char y = false).
    { repeat (apply elem_of_cons in Hu as [->|Hu]; [by eexists _, _|]). by apply elem_of_nil in Hu. }
    destruct Hr as (y & r & Er & Hy). rewrite <-app_assoc, Er.
    change (c :: n ++ y :: r) with ((c :: n) ++ y :: r).
    assert (Hnum : (let* s := consume_while (λ c, is_ascii_digit c || (c =? DOT)) in or_panics (parse_decimal s)) (At ((c :: n) ++ y :: r)) =
      Ret (f, At (y :: r))).
    { erewrite sbind_ret by by apply consume_while_stop. by rewrite Ef. }
    erewrite sbind_ret by apply Hnum. rewrite <-Er.
    assert (Hu' : ident u) by (repeat (apply elem_of_cons in Hu as [->|Hu]; [done|]); by apply elem_of_nil in Hu).
    erewrite sbind_ret by by apply ident_at.
    repeat (apply elem_of_cons in Hu as [->|Hu]; [done|]). by apply elem_of_nil in Hu.
  - destruct (color_meaning h) as [c|] eqn:Ec; [|done]. cbn [mbind option_bind]. intros [= <-]. apply color_meaning_inv in Ec as [Hh Ec].
    cbn [app]. erewrite sbind_ret by done. change (is_ascii_digit HASH || (HASH =? DOT)) with false. cbv iota. rewrite Z.eqb_refl.
    unfold parse_color. erewrite sbind_ret by by apply expect_char_at. erewrite sbind_ret by by apply consume_while_stop.
    by rewrite Ec.
Qed.

(** A declaration, up to the white space behind its semicolon, or to the closing brace. *)
Lemma declaration_read d w y q : declaration_written d → declaration_meaning d = Some w →
  (d_semicolon d = None → y = 125) →
  parse_declaration (At (print_declaration d ++ y :: q)) =
    Ret (w, At (match d_semicolon d with Some w => w | None => [] end ++ y :: q)).
Proof.
  destruct d as [n cw bw v aw sw]. unfold declaration_written, declaration_meaning, print_declaration.
  cbn [d_name d_colon d_before d_value d_after d_semicolon].
  intros (_ & Hn & Hne & [x Hx] & Hcw & Hbw & Haw & Hsw). rewrite Hx. cbn [mbind option_bind]. intros [= <-] Hy.
  rewrite <-!app_assoc. cbn [app]. rewrite <-!app_assoc. unfold parse_declaration.
  assert (∃ z r, aw ++ match sw with Some w => 59 :: w | None => [] end ++ y :: q = z :: r ∧ ends_value z) as (z & r & Ez & Hz).
  { destruct sw as [sw|]; cbn [app]; apply white_cons; unfold ends_value; auto. }
  destruct (white_cons ends_value cw 58 (bw ++ print_value v ++ z :: r) Hcw) as (z1 & r1 & E1 & H1%ends_value_facts); [unfold ends_value; auto..|].
  rewrite Ez. rewrite (sbind_ret _ _ _ n (At (cw ++ 58 :: bw ++ print_value v ++ z :: r))) by (rewrite E1; apply ident_at; [done|apply H1]).
  erewrite sbind_ret by by apply white_at. erewrite sbind_ret by by apply expect_char_at.
  destruct (value_head v x Hx Hne) as (c & t & Et & Hc).
  rewrite (sbind_ret _ _ _ bw (At (print_value v ++ z :: r))) by (rewrite Et; by apply white_at).
  erewrite sbind_ret by by apply value_read. rewrite <-Ez.
  destruct sw as [sw|]; cbn [app].
  - erewrite sbind_ret by by apply white_at. erewrite sbind_ret by done. cbv iota. erewrite sbind_ret by done. cbv iota. rewrite Z.eqb_refl.
    by erewrite sbind_ret by (apply consume_char_at; by left).
  - rewrite Hy by done. erewrite sbind_ret by by apply white_at. done.
Qed.

Lemma declaration_head d : declaration_written d → ∃ c r, print_declaration d = c :: r ∧ is_whitespace c = false ∧ c ≠ 125.
Proof.
  intros (Hne & Hn & _). unfold print_declaration. destruct (d_name d) as [|c n]; [done|]. exists c. eexists. split; [done|].
  apply andb_prop in Hn as [Hc _]. by apply ident_char_facts in Hc as (? & _ & _ & _ & _ & _ & _ & _ & ? & _).
Qed.

Lemma declarations_read ds ws fuel acc w q : Forall declaration_written ds → semicolons ds → mapM declaration_meaning ds = Some ws →
  white w → (length ds < fuel)%nat →
  declaration_list fuel acc (At (w ++ flat_map print_declaration ds ++ 125 :: q)) = Ret (acc ++ ws, At q).
Proof.
  intros Hds Hsc Hm%mapM_Some. revert fuel acc w Hds Hsc.
  induction Hm as [|d x ds ws Hd _ IH]; intros fuel acc w Hds Hsc Hw Hf; (destruct fuel as [|fuel]; [simpl in Hf; lia|]); cbn [declaration_list flat_map].
  - cbn [app]. erewrite sbind_ret by by apply white_at. erewrite sbind_ret by done. cbv iota. rewrite Z.eqb_refl.
    erewrite sbind_ret by (apply consume_char_at; by left). by rewrite app_nil_r.
  - inversion_clear Hds as [|? ? Hd' Hds']. rewrite <-app_assoc. set (tail := flat_map print_declaration ds ++ 125 :: q).
    destruct (declaration_head d Hd') as (c & r & E & Hc & Hc').
    rewrite (sbind_ret _ _ _ w (At (print_declaration d ++ tail))) by (rewrite E; by apply white_at).
    rewrite (sbind_ret _ _ _ c (At (print_declaration d ++ tail))) by by rewrite E.
    rewrite (proj2 (Z.eqb_neq c 125)) by done.
    assert (∃ y t, tail = y :: t ∧ (d_semicolon d = None → y = 125)) as (y & t & Et & Hy).
    { unfold tail. destruct ds as [|d' ds]; [by eexists _, _|]. destruct Hsc as [Hsc _]. inversion_clear Hds' as [|? ? Hd2 _].
      destruct (declaration_head d' Hd2) as (c' & r' & E' & _). cbn [flat_map]. rewrite E'. eexists _, _. by split. }
    rewrite Et. erewrite sbind_ret by by apply declaration_read. rewrite <-Et. unfold tail.
    rewrite IH; [by rewrite <-app_assoc|done| | |simpl in Hf; lia].
    + destruct ds; [done|]. by destruct Hsc.
    + destruct Hd' as (_ & _ & _ & _ & _ & _ & _ & Hsw). by destruct (d_semicolon d).
Qed.

Lemma declarations_length ds : (length ds ≤ length (flat_map print_declaration ds))%nat.
Proof.
  induction ds as [|d ds IH]; [done|]. cbn [flat_map]. rewrite length_app.
  assert (0 < length (print_declaration d))%nat by (unfold print_declaration; rewrite !length_app; simpl; lia). simpl. lia.
Qed.
Lemma declarations_mean ds : Forall declaration_written ds → ∃ ws, mapM declaration_meaning ds = Some ws.
Proof.
  induction 1 as [|d ds (_ & _ & _ & [v Hv] & _) _ [ws IH]]; [by exists []|]. exists (mkDeclaration (d_name d) v :: ws).
  assert (E : declaration_meaning d = Some (mkDeclaration (d_name d) v)) by (unfold declaration_meaning; by rewrite Hv).
  apply mapM_Some. constructor; [done|]. by apply mapM_Some.
Qed.

(** A rule, without the white space before its first selector. *)
Definition rule_text (r : rule_syntax) : str :=
  print_selector (i_selector (r_first r)) ++ i_after (r_first r) ++ print_others (r_others r) ++
  123 :: r_open r ++ flat_map print_declaration (r_declarations r) ++ [125].
Lemma print_rule_text r : print_rule r = i_before (r_first r) ++ rule_text r.
Proof. unfold print_rule, rule_text, print_item at 1. by rewrite <-!app_assoc. Qed.

Lemma rule_read r fuel q : rule_written r → (length (rule_text r) < fuel)%nat →
  ∃ w, rule_means r w ∧ parse_rule fuel (At (rule_text r ++ q)) = Ret (w, At q).
Proof.
  destruct r as [[b s a] others w ds]. unfold rule_written, rule_text. cbn [r_first r_others r_open r_declarations i_before i_selector i_after].
  intros ((_ & Hs & Ha) & Ho & Hw & Hds & Hsc) Hf. cbn [i_selector i_after] in *.
  destruct (declarations_mean ds Hds) as [ws Hws]. destruct (sorted_most_specific (selector_meaning s :: map (λ i, selector_meaning (i_selector i)) others)) as (l & El & Hl).
  exists (mkRule (map Simple l) ws). split; [by split; [exists l|]|].
  rewrite !length_app in Hf. cbn [length] in Hf. rewrite !length_app in Hf. pose proof (declarations_length ds).
  rewrite <-!app_assoc. cbn [app]. rewrite <-!app_assoc. cbn [app]. unfold parse_rule, parse_selectors.
  erewrite sbind_ret; [|erewrite sbind_ret by (apply selectors_read; [done..|rewrite !length_app; simpl in Hf; lia]); cbn [app]; by rewrite El].
  erewrite sbind_ret; [done|]. unfold parse_declarations. erewrite sbind_ret by by apply expect_char_at.
  apply (declarations_read _ _ _ []); [done..|simpl in Hf; lia].
Qed.

Lemma rule_head r q : rule_written r → ∃ c s, rule_text r ++ q = c :: s ∧ is_whitespace c = false.
Proof.
  intros ((_ & Hs & _) & _). destruct (selector_head _ Hs) as (c & t & E & Hc). unfold rule_text. rewrite E. by eexists _, _.
Qed.

Lemma rules_read l w fuel acc : Forall rule_written l → white w → forallb one_byte w = true → (S (length (print_sheet l w)) < fuel)%nat →
  ∃ ws, Forall2 rule_means l ws ∧ parse_rules fuel acc (At (print_sheet l w)) = Ret (acc ++ ws, At []).
Proof.
  intros Hl Hw H1. revert fuel acc. induction Hl as [|r l Hr _ IH]; intros fuel acc Hf; (destruct fuel as [|fuel]; [lia|]); cbn [parse_rules].
  - exists []. split; [constructor|]. unfold print_sheet. cbn [flat_map app]. erewrite sbind_ret by by apply consume_while_all.
    erewrite sbind_ret by done. by rewrite app_nil_r.
  - assert (E : print_sheet (r :: l) w = i_before (r_first r) ++ rule_text r ++ print_sheet l w).
    { unfold print_sheet. cbn [flat_map]. by rewrite print_rule_text, <-!app_assoc. }
    rewrite E in Hf |- *. rewrite !length_app in Hf. destruct (rule_head r (print_sheet l w) Hr) as (c & t & Et & Hc).
    assert (0 < length (rule_text r))%nat by (unfold rule_text; rewrite !length_app; simpl; lia).
    destruct (rule_read r (S fuel) (print_sheet l w) Hr) as (x & Hx & Er); [lia|].
    destruct (IH fuel (acc ++ [x])) as (ws & Hws & Erest); [lia|]. exists (x :: ws). split; [by constructor|].
    pose proof Hr as ((Hb & _) & _). rewrite (sbind_ret _ _ _ (i_before (r_first r)) (At (rule_text r ++ print_sheet l w))) by (rewrite Et; by apply white_at).
    rewrite (sbind_ret _ _ _ false (At (rule_text r ++ print_sheet l w))) by by rewrite Et. erewrite sbind_ret by apply Er. by rewrite Erest, <-app_assoc.
Qed.

(** C25. A written style sheet is read back: on any rules in the grammar, with any white space
    where the grammar allows it and with or without the last semicolon of a rule, the parser
    returns rules that mean what is written: selectors with a tag name or star, ids and
    classes in any order, from the most specific to the least by the order of CSS and, where
    they are as specific, as written; keywords, lengths in pixels and colours of 3, 6 or 8
    hexadecimal digits.  White space at the end is of single bytes. *)
Theorem css_roundtrip l w : Forall rule_written l → white w → forallb one_byte w = true →
  ∃ s, parse (print_sheet l w) = Ret s ∧ Forall2 rule_means l (rules s).
Proof.
  intros Hl Hw H1. destruct (rules_read l w (S (S (length (print_sheet l w)))) [] Hl Hw H1) as (ws & Hws & H); [lia|].
  exists (mkSheet ws). split; [|done].
  assert (Hn : parse_rules (S (length (print_sheet l w))) [] (At (print_sheet l w)) ≠ Timeout) by (apply rules_decided; simpl; lia).
  unfold parse, parse_fuel.
  destruct (rules_more (S (length (print_sheet l w))) (S (S (length (print_sheet l w)))) [] (At (print_sheet l w))) as [E|E]; [lia|done|].
  by rewrite E, H.
Qed.

(** "p , .a#main.b-c,*{ margin:0.1Px;background : #36C }", and an empty rule. *)
Definition sheet_example : list rule_syntax :=
  [RuleText (Item [LF] (Sel (Tag (lit "p")) []) [SPACE])
     [Item [SPACE] (Sel Bare [PClass (lit "a"); PId (lit "main"); PClass (lit "b-c")]) []; Item [] (Sel Star []) []] [SPACE]
     [Decl (lit "margin") [] [] (VLength (lit "0.1") (lit "Px")) [] (Some []); Decl (lit "background") [SPACE] [SPACE] (VColor (lit "36C")) [TAB] None];
   RuleText (Item [SPACE; LF] (Sel (Tag (lit "div")) [PId (lit "x"); PId (lit "y")]) []) [] [] []].
(** What is written is in the grammar, by evaluation. *)
Ltac written := repeat match goal with
  | |- Forall _ (_ :: _) => apply List.Forall_cons
  | |- Forall _ [] => apply List.Forall_nil
  | |- _ ∧ _ => split
  | |- True => exact I
  | |- is_Some _ => eexists; vm_compute; reflexivity
  | |- _ = true => vm_compute; reflexivity
  | |- _ ≠ _ => discriminate
  | |- _ → False => discriminate
  | |- Forall ?P ?l => let k := eval hnf in l in progress change (Forall P k)
  | |- _ => progress hnf
  end.
Lemma sheet_example_written : Forall rule_written sheet_example.
Proof. unfold sheet_example. written. Qed.
Lemma css_roundtrip_witness : ∃ s, parse (print_sheet sheet_example [LF]) = Ret s ∧ Forall2 rule_means sheet_example (rules s).
Proof. apply css_roundtrip; [exact sheet_example_written|vm_compute; reflexivity..]. Defined.
Example sheet_example_read :
  print_sheet sheet_example [LF] = [LF] ++ lit "p , .a#main.b-c,*{ margin:0.1Px;background : #36C" ++ [TAB] ++ lit "} " ++ [LF] ++ lit "div#x#y{}" ++ [LF] ∧
  parse (print_sheet sheet_example [LF]) = Ret (mkSheet [mkRule
    [Simple (mkSelector None (Some (lit "main")) [lit "a"; lit "b-c"]); Simple (mkSelector (Some (lit "p")) None []); Simple (mkSelector None None [])]
    [mkDeclaration (lit "margin") (Length (of_decimal 1 1) Px); mkDeclaration (lit "background") (ColorValue (rgb 0x33 0x66 0xCC))];
    mkRule [Simple (mkSelector (Some (lit "div")) (Some (lit "y")) [])] []]).
Proof. vm_compute. done. Qed.

(** C38. Everything the parser returns is a style sheet: each rule has selectors, from the
    most to the least specific; names are identifiers; lengths are values of the
    format that are neither negative nor a NaN; colours are bytes. *)
Theorem css_sheet_ok source s : parse source = Ret s → sheet_ok s.
Proof. apply parse_ok. Qed.
Lemma css_sheet_ok_witness : sheet_ok (mkSheet [mkRule [Simple (mkSelector None (Some (lit "a")) [])] [mkDeclaration (lit "b") (ColorValue (rgb 1 2 255))]]).
Proof. apply (css_sheet_ok (lit "#a { b: #0102ff }")). vm_compute. reflexivity. Defined.

(** ** [Display] for values

    The text of a value is that of a value in the grammar above. *)
Definition opaque (v : Value) : Value := match v with ColorValue c => ColorValue (rgb (c_r c) (c_g c) (c_b c)) | _ => v end.
Definition syntax_of (v : Value) : value_syntax :=
  match v with
  | Keyword k => VKeyword k
  | Length f Px => VLength (show_f32 f) (lit "px")
  | ColorValue c => VColor (lower_hex (c_r c) ++ lower_hex (c_g c) ++ lower_hex (c_b c))
  end.
Lemma print_syntax_of v : print_value (syntax_of v) = show_css_value v.
Proof. by destruct v as [k|f []|c]. Qed.

Lemma lower_hex_digit_spec n : 0 ≤ n < 16 → is_ascii_hexdigit (lower_hex_digit n) = true ∧ hex_digit (lower_hex_digit n) = n.
Proof.
  intros Hn. unfold lower_hex_digit. destruct (Z.ltb_spec n 10); unfold is_ascii_hexdigit, hex_digit, is_ascii_digit.
  - split; [lia|]. replace ((48 <=? 48 + n) && (48 + n <=? 57)) with true by lia. lia.
  - split; [lia|]. replace ((48 <=? 87 + n) && (87 + n <=? 57)) with false by lia. replace (97 <=? 87 + n) with true by lia. lia.
Qed.
Lemma lower_hex_spec v : is_u8 v → forallb is_ascii_hexdigit (lower_hex v) = true ∧
  ∃ a b, lower_hex v = [a; b] ∧ hex_pair a b = v.
Proof.
  intros Hv. unfold is_u8 in Hv. destruct (lower_hex_digit_spec (v / 16)) as [H1 E1]; [int_lia|].
  destruct (lower_hex_digit_spec (v mod 16)) as [H2 E2]; [int_lia|]. split; [cbn; by rewrite H1, H2|].
  eexists _, _. split; [done|]. unfold hex_pair. rewrite E1, E2. int_lia.
Qed.

(** Values that can be written: keywords that begin like one, finite lengths. *)
Definition displayable (v : Value) : Prop :=
  match v with Keyword k => head_ok (λ c, negb (is_ascii_digit c)) k = true | Length (Inf _) _ => False | _ => True end.
Lemma syntax_of_meaning v : value_ok v → displayable v → value_meaning (syntax_of v) = Some (opaque v).
Proof.
  destruct v as [k|f []|c]; cbn [value_ok displayable syntax_of value_meaning opaque].
  - unfold ident. intros -> ->. done.
  - intros [Hv Hn] Hd. destruct f as [|?|s m]; [done..|]. destruct s; [done|]. cbn [valid] in Hv.
    destruct (show_f32_decimal m Hv) as (-> & -> & _). by rewrite bool_decide_eq_true_2 by set_solver.
  - intros ((Hr & a & b & Er & Vr)%lower_hex_spec & (Hg & c1 & d & Eg & Vg)%lower_hex_spec & (Hb & e & f & Eb & Vb)%lower_hex_spec & _) _.
    rewrite color_meaning_hex by by rewrite !forallb_app, Hr, Hg, Hb. rewrite Er, Eg, Eb. cbn [app hex_color mbind option_bind]. by rewrite Vr, Vg, Vb.
Qed.

(** The parser's keywords do not begin with a digit. *)
Lemma parsed_keyword c k c' : parse_value c = Ret (Keyword k, c') → head_ok (λ c, negb (is_ascii_digit c)) k = true.
Proof.
  unfold parse_value, sbind. destruct (next_char c) as [[x c1]| |] eqn:E; [|done..]. apply next_stays in E as [-> (r & ->)]. cbn [obind fst snd].
  destruct (is_ascii_digit x || (x =? DOT)) eqn:Ed.
  - unfold parse_length, sbind. destruct (parse_float _) as [[f c1]| |]; [|done..]. cbn [obind fst snd].
    destruct (parse_identifier c1) as [[u c2]| |]; [|done..]. cbn [obind fst snd]. by destruct (bool_decide _).
  - apply orb_false_iff in Ed as [Ed _]. destruct (x =? HASH).
    + unfold parse_color, sbind. destruct (expect_char HASH _) as [[? c1]| |]; [|done..]. cbn [obind fst snd].
      destruct (consume_while _ c1) as [[h c2]| |]; [|done..]. cbn [obind fst snd]. by destruct (hex_color h).
    + destruct (parse_identifier _) as [[i c1]| |] eqn:Ei; [|done..]. intros [= <- <-].
      apply consume_while_split in Ei as (r1 & r2 & [= <-] & _ & E & _). destruct i as [|y i]; [done|].
      injection E as <- _. cbn. by rewrite Ed.
Qed.

(** C26. Every value that the parser reads, whatever it is in and unless it is a length too
    large for an [f32], is displayed as a text that the parser reads as the same
    value: [Display] and the parser agree on keywords, on every length, whose shortest
    decimal is printed, and on colours, of which the alpha is lost. *)
Theorem display_value_roundtrip c v c' q : parse_value c = Ret (v, c') → (∀ s, v ≠ Length (Inf s) Px) →
  parse_value (At (show_css_value v ++ 59 :: q)) = Ret (opaque v, At (59 :: q)).
Proof.
  intros E Hf. rewrite <-print_syntax_of. apply value_read; [|unfold ends_value; auto]. apply syntax_of_meaning; [by eapply returns_value|].
  destruct v as [k|[|s|s m] []|col]; [by eapply parsed_keyword|done|by destruct (Hf s)|done..].
Qed.
Lemma display_value_roundtrip_witness :
  parse_value (At (lit "0.10pX; x")) = Ret (Length (of_decimal 1 1) Px, At (lit "; x")) ∧
  show_css_value (Length (of_decimal 1 1) Px) = lit "0.1px" ∧
  parse_value (At (lit "0.1px" ++ 59 :: [])) = Ret (Length (of_decimal 1 1) Px, At [59]).
Proof.
  split; [vm_compute; reflexivity|]. split; [vm_compute; reflexivity|].
  apply (display_value_roundtrip (At (lit "0.10pX; x")) (Length (of_decimal 1 1) Px) (At (lit "; x")) []);
    [vm_compute; reflexivity|]. intros s. vm_compute. discriminate.
Defined.

(** ** The tests of the source *)
Example selector_example :
  parse (lit "div#main.a.b { color: #ff0000; }") =
  Ret (mkSheet [mkRule [Simple (mkSelector (Some (lit "div")) (Some (lit "main")) [lit "a"; lit "b"])]
    [mkDeclaration (lit "color") (ColorValue (rgb 255 0 0))]]).
Proof. vm_compute. done. Qed.
Example sorted_example :
  obind (parse (lit "p, #id, .cls { display: block; }")) (λ s, Ret (map (λ r, map specificity (selectors r)) (rules s))) =
  Ret [[(1, 0, 0); (0, 1, 0); (0, 0, 1)]]%nat.
Proof. vm_compute. done. Qed.
Example lengths_example :
  parse (lit "div { width: 12px; margin: 4; background: #369 }") =
  Ret (mkSheet [mkRule [Simple (mkSelector (Some (lit "div")) None [])]
    [mkDeclaration (lit "width") (Length (of_Z 12) Px); mkDeclaration (lit "margin") (Length (of_Z 4) Px);
     mkDeclaration (lit "background") (ColorValue (rgb 0x33 0x66 0x99))]]).
Proof. vm_compute. done. Qed.
