(* ===== verification/Style.v ===== *)
(** * The browser engine: the style tree
    ([2026-08-26-rust-browser-engine/src/style.rs])

    Which declarations apply to a node.  [specified_values] finds, per property, the
    last declaration after a stable sort by specificity; [cascade] says which one that
    is, in the terms of the cascade: of all matching declarations the one of the
    greatest specificity, and of these the last in the sheet. *)
From S2P Require Import Prelude RustStr RustSort F32 Scanner HtmlParser Css CssProps.

Abbreviation PropertyMap := (gmap str Value) (only parsing).

Inductive StyledNode : Type :=
  mkStyled (node : Node) (specified_values : PropertyMap) (children : list StyledNode).
Definition node (s : StyledNode) : Node := let 'mkStyled n _ _ := s in n.
Definition specified (s : StyledNode) : PropertyMap := let 'mkStyled _ m _ := s in m.
Definition styled_children (s : StyledNode) : list StyledNode := let 'mkStyled _ _ cs := s in cs.

Inductive Display : Type := Inline | Block | None_.

(** [StyledNode::value], [lookup], [display]; the name of the parameter is that of the source. *)
Definition value (s : StyledNode) (name : str) : option Value := specified s !! name.
Definition lookup (s : StyledNode) (name fallback_name : str) (default : Value) : Value :=
  match value s name with
  | Some v => v
  | None => match value s fallback_name with Some v => v | None => default end
  end.
Definition display (s : StyledNode) : Display :=
  match value s (lit "display") with
  | Some (Keyword k) =>
      if bool_decide (k = lit "block") then Block else if bool_decide (k = lit "none") then None_ else Inline
  | _ => Inline
  end.

(** ** Matching *)
Definition any {A} (o : option A) (p : A → bool) : bool := match o with Some a => p a | None => false end.
Definition matches_simple_selector (elem : ElementData) (s : SimpleSelector) : bool :=
  if any (Css.tag_name s) (λ name, negb (bool_decide (HtmlParser.tag_name elem = name))) then false
  else if any (Css.id s) (λ i, negb (bool_decide (HtmlParser.id elem = Some i))) then false
  else
    let elem_classes := classes elem in
    if existsb (λ c, negb (bool_decide (c ∈ elem_classes))) (Css.class s) then false else true.
Definition matches (elem : ElementData) (s : Selector) : bool := let 'Simple s := s in matches_simple_selector elem s.

Definition MatchedRule : Type := Specificity * Rule.
Definition match_rule (elem : ElementData) (rule : Rule) : option MatchedRule :=
  s ← find (matches elem) (selectors rule); Some (specificity s, rule).

Fixpoint filter_map {A B} (f : A → option B) (l : list A) : list B :=
  match l with [] => [] | x :: l => match f x with Some y => y :: filter_map f l | None => filter_map f l end end.
Definition matching_rules (elem : ElementData) (sheet : Stylesheet) : list MatchedRule :=
  filter_map (match_rule elem) (rules sheet).

Definition rule_leb (p q : MatchedRule) : bool := spec_leb p.1 q.1.
Definition insert_declarations (values : PropertyMap) (rule : Rule) : PropertyMap :=
  foldl (λ values d, <[Css.name d := Css.value d]> values) values (declarations rule).
Definition specified_values (elem : ElementData) (sheet : Stylesheet) : PropertyMap :=
  foldl (λ values p, insert_declarations values p.2) ∅ (stable_sort rule_leb (matching_rules elem sheet)).

Fixpoint style_tree (sheet : Stylesheet) (root : Node) : StyledNode :=
  let 'mkNode children node_type := root in
  mkStyled root
    (match node_type with Element elem => specified_values elem sheet | Text _ => ∅ end)
    (map (style_tree sheet) children).
