(* ===== verification/StyleProps.v ===== *)
(** * The browser engine: the cascade

    Which declaration gives a property its value, and what a selector matches. *)
From S2P Require Import Prelude RustStr RustSort F32 Scanner HtmlParser Css CssProps Style.

(** ** Matching *)
Lemma matches_spec elem s : matches_simple_selector elem s = true ↔
  (∀ t, Css.tag_name s = Some t → HtmlParser.tag_name elem = t) ∧
  (∀ i, Css.id s = Some i → HtmlParser.id elem = Some i) ∧
  (∀ c, c ∈ Css.class s → c ∈ classes elem).
Proof.
  destruct s as [t i cs]. unfold matches_simple_selector, any. cbn [Css.tag_name Css.id class].
  assert (Hcs : (if existsb (λ c, negb (bool_decide (c ∈ classes elem))) cs then false else true) = true ↔
    ∀ c, c ∈ cs → c ∈ classes elem).
  { destruct (existsb _ cs) eqn:E.
    - apply existsb_exists in E as (c & Hc%list_elem_of_In & Hn%negb_true_iff%bool_decide_eq_false).
      split; [done|]. intros H. by destruct Hn; apply H.
    - split; [|done]. intros _ c Hc. apply not_true_iff_false in E. destruct (decide (c ∈ classes elem)) as [|Hn]; [done|].
      destruct E. apply existsb_exists. exists c. split; [by apply list_elem_of_In|]. by rewrite bool_decide_eq_false_2. }
  destruct t as [t|], i as [i|]; repeat case_bool_decide; cbn [negb]; rewrite ?Hcs; naive_solver.
Qed.

(** The first selector that matches is the most specific one. *)
Lemma find_first {A} (p : A → bool) (R : A → A → Prop) l x :
  StronglySorted R l → (∀ y, R y y) →
  find p l = Some x → x ∈ l ∧ p x = true ∧ ∀ y, y ∈ l → p y = true → R x y.
Proof.
  intros Hl Hr. induction Hl as [|z l Hl IH Hz]; [done|]. cbn [find]. destruct (p z) eqn:Ez.
  - intros [= ->]. split_and!; [by left|done|]. intros y [->|Hy]%elem_of_cons _; [done|].
    rewrite Forall_forall in Hz. by apply Hz.
  - intros (H1 & H2 & H3)%IH. split_and!; [by right|done|]. intros y [->|Hy]%elem_of_cons Hp; [congruence|auto].
Qed.

Definition best (elem : ElementData) (rule : Rule) (sp : Specificity) : Prop :=
  (∃ s, s ∈ selectors rule ∧ matches elem s = true ∧ specificity s = sp) ∧
  ∀ s, s ∈ selectors rule → matches elem s = true → spec_leb (specificity s) sp = true.

Lemma spec_refl s : spec_leb s s = true.
Proof. by destruct (spec_total s s). Qed.

Lemma match_rule_best elem rule m : descending (selectors rule) →
  match_rule elem rule = Some m ↔ m.2 = rule ∧ best elem rule m.1.
Proof.
  intros Hd. destruct m as [sp rl]. unfold match_rule. cbn [fst snd].
  destruct (find (matches elem) (selectors rule)) as [s|] eqn:E; cbn [mbind option_bind].
  - apply (find_first _ (λ s t, by_specificity s t = true)) in E as (H1 & H2 & H3); [|done|intros; apply spec_refl].
    split.
    + intros [= <- <-]. split; [done|]. split; [by exists s|done].
    + intros [-> [(t & Ht1 & Ht2 & <-) Hb]]. f_equal. f_equal. apply spec_antisym; auto. by apply H3.
  - split; [done|]. intros [_ [(s & Hs & Hm & _) _]].
    pose proof (find_none _ _ E s (proj1 (list_elem_of_In _ _) Hs)). congruence.
Qed.

(** ** Writing declarations in order *)
Lemma foldl_insert_spec {V} (l : list (str * V)) (m : gmap str V) p v :
  foldl (λ m d, <[d.1 := d.2]> m) m l !! p = Some v ↔
  (∃ l1 l2, l = l1 ++ (p, v) :: l2 ∧ (p ∉ l2.*1)) ∨ ((p ∉ l.*1) ∧ m !! p = Some v).
Proof.
  induction l as [|[q w] l IH] using rev_ind; cbn [foldl].
  - split; [by right; split; [apply not_elem_of_nil|]|]. intros [(l1 & l2 & E & _)|[_ H]]; [by destruct l1|done].
  - rewrite foldl_app, fmap_app. cbn [foldl fst snd fmap list_fmap]. destruct (decide (p = q)) as [->|Hne].
    + rewrite lookup_insert, decide_True by done. split.
      * intros [= ->]. left. exists l, []. split; [done|apply not_elem_of_nil].
      * intros [(l1 & l2 & E & Hn)|[Hn _]]; [|destruct Hn; apply elem_of_app; right; by left].
        destruct l2 as [|x l2 _] using rev_ind; [apply app_inj_tail in E as [_ E]; congruence|].
        rewrite app_comm_cons, app_assoc in E. apply app_inj_tail in E as [_ <-].
        destruct Hn. rewrite fmap_app. apply elem_of_app. right. by left.
    + rewrite lookup_insert_ne, IH by done. split.
      * intros [(l1 & l2 & -> & Hn)|[Hn Hm]].
        -- left. exists l1, (l2 ++ [(q, w)]). rewrite <-app_assoc. split; [done|]. rewrite fmap_app.
           intros [?|?%list_elem_of_singleton]%elem_of_app; done.
        -- right. split; [|done]. intros [?|?%list_elem_of_singleton]%elem_of_app; done.
      * intros [(l1 & l2 & E & Hn)|[Hn Hm]].
        -- left. destruct l2 as [|x l2 _] using rev_ind.
           ++ apply app_inj_tail in E as [_ E]. congruence.
           ++ rewrite app_comm_cons, app_assoc in E. apply app_inj_tail in E as [-> <-]. exists l1, l2. split; [done|].
              intros H. apply Hn. rewrite fmap_app. apply elem_of_app. by left.
        -- right. split; [|done]. intros H. apply Hn, elem_of_app. by left.
Qed.

(** Over a list in the order of its keys the greatest key wins. *)
Lemma sorted_last {K V} (lt : K → K → Prop) (L : list (K * (str * V))) p v :
  (∀ k, ¬ lt k k) → (∀ k k', lt k k' → ¬ lt k' k) → StronglySorted (λ x y, lt x.1 y.1) L →
  (∃ l1 l2, L.*2 = l1 ++ (p, v) :: l2 ∧ (p ∉ l2.*1)) ↔
  ∃ k, (k, (p, v)) ∈ L ∧ ∀ k' v', (k', (p, v')) ∈ L → k' = k ∨ lt k' k.
Proof.
  intros Hirr Has. induction 1 as [|[k0 [q w]] L HL IH Hk0].
  - split; [intros (l1 & l2 & E & _); by destruct l1|]. by intros (k & H%not_elem_of_nil & _).
  - rewrite Forall_forall in Hk0. cbn [fmap list_fmap fst snd]. split.
    + intros (l1 & l2 & E & Hn). destruct l1 as [|x l1].
      * injection E as -> -> <-. exists k0. split; [by left|].
        intros k' v' [[= -> _]|Hin]%elem_of_cons; [by left|]. destruct Hn. apply list_elem_of_fmap. exists (p, v').
        split; [done|]. apply list_elem_of_fmap. by exists (k', (p, v')).
      * injection E as -> E. destruct (proj1 IH) as (k & Hk & Hmax); [by exists l1, l2|].
        exists k. split; [by right|]. intros k' v' [[= -> _]|Hin]%elem_of_cons; [|by eapply Hmax].
        right. by apply (Hk0 (k, (p, v))).
    + intros (k & [[= -> <- <-]|Hk]%elem_of_cons & Hmax).
      * exists [], (L.*2). split; [done|]. intros ([p' v'] & Ep & Hin)%list_elem_of_fmap.
        cbn [fst] in Ep. subst p'. apply list_elem_of_fmap in Hin as ([k' [p' w']] & E & Hin). cbn [snd] in E. injection E as <- <-.
        pose proof (Hk0 _ Hin) as Hlt. cbn [fst] in Hlt.
        destruct (Hmax k' v') as [->|H]; [by right|by eapply Hirr|by eapply Has].
      * destruct (proj2 IH) as (l1 & l2 & E & Hn); [|exists ((q, w) :: l1), l2; by rewrite E].
        exists k. split; [done|]. intros k' v' Hin. apply (Hmax k' v'). by right.
Qed.

(** ** The matching declarations in the order of the cascade *)
Definition Key : Type := Specificity * nat * nat.
(** Specificity, then rule, then declaration. *)
Definition key_lt (k k' : Key) : Prop :=
  let '(sp, i, j) := k in
  let '(sp', i', j') := k' in
  (spec_leb sp sp' = true ∧ sp ≠ sp') ∨ (sp = sp' ∧ (i < i' ∨ (i = i' ∧ j < j')))%nat.

Lemma key_lt_irrefl k : ¬ key_lt k k.
Proof. destruct k as [[sp i] j]. cbn. intros [[_ H]|[_ H]]; [done|lia]. Qed.
Lemma key_lt_asym k k' : key_lt k k' → ¬ key_lt k' k.
Proof.
  destruct k as [[sp i] j], k' as [[sp' i'] j']. cbn.
  intros [[H1 H2]|[-> H]] [[H3 H4]|[E H']]; try done; [|lia]. destruct H2. by apply spec_antisym.
Qed.

(** A matching rule with its place in the sheet, and its declarations with theirs. *)
Definition tagged (elem : ElementData) (l : list (nat * Rule)) : list (nat * MatchedRule) :=
  filter_map (λ ir, m ← match_rule elem ir.2; Some (ir.1, m)) l.
Definition keyed (t : nat * MatchedRule) : list (Key * (str * Value)) :=
  imap (λ j d, (t.2.1, t.1, j, (Css.name d, Css.value d))) (declarations t.2.2).

Lemma tagged_snd elem l : map snd (tagged elem l) = filter_map (match_rule elem) l.*2.
Proof.
  induction l as [|[i rule] l IH]; [done|]. cbn [tagged filter_map fmap list_fmap fst snd]. fold (tagged elem l).
  destruct (match_rule elem rule) as [m|]; cbn [mbind option_bind]; [|done]. cbn [map snd]. f_equal. apply IH.
Qed.

Lemma elem_of_filter_map {A B} (f : A → option B) l y : y ∈ filter_map f l ↔ ∃ x, x ∈ l ∧ f x = Some y.
Proof.
  induction l as [|x l IH]; cbn [filter_map].
  - split; [by intros ?%not_elem_of_nil|]. by intros (x & ?%not_elem_of_nil & _).
  - destruct (f x) as [z|] eqn:E.
    + rewrite elem_of_cons, IH. split.
      * intros [->|(u & Hu & Eu)]; [exists x; by split; [left|]|exists u; by split; [right|]].
      * intros (u & [->|Hu]%elem_of_cons & Eu); [left; congruence|right; eauto].
    + rewrite IH. split.
      * intros (u & Hu & Eu). exists u. by split; [right|].
      * intros (u & [->|Hu]%elem_of_cons & Eu); [congruence|eauto].
Qed.

Lemma imap_pair_snd {A} (l : list A) : (imap pair l).*2 = l.
Proof. rewrite fmap_imap. apply list_eq. intros i. rewrite list_lookup_imap. by destruct (l !! i). Qed.

Lemma filter_map_sorted {A B} (f : A → option B) (R : A → A → Prop) (S : B → B → Prop) l :
  StronglySorted R l → (∀ x y x' y', R x y → f x = Some x' → f y = Some y' → S x' y') → StronglySorted S (filter_map f l).
Proof.
  intros Hl HS. induction Hl as [|x l Hl IH Hx]; [constructor|]. cbn [filter_map]. destruct (f x) as [x'|] eqn:E; [|done].
  constructor; [done|]. apply Forall_forall. intros y' (y & Hy & Ey)%elem_of_filter_map.
  rewrite Forall_forall in Hx. by eapply HS; [apply Hx| |].
Qed.

Lemma imap_sorted {A B} (f : nat → A → B) (R : B → B → Prop) l :
  (∀ i j x y, (i < j)%nat → R (f i x) (f j y)) → StronglySorted R (imap f l).
Proof.
  revert f. induction l as [|x l IH]; intros f Hf; cbn [imap]; constructor.
  - apply IH. intros i j a b Hij. apply Hf. lia.
  - apply Forall_forall. intros y (i & z & -> & _)%elem_of_lookup_imap. apply Hf. lia.
Qed.

Lemma flat_map_sorted {A B} (f : A → list B) (R : A → A → Prop) (S : B → B → Prop) l :
  StronglySorted R l → (∀ x, StronglySorted S (f x)) → (∀ x y a b, R x y → a ∈ f x → b ∈ f y → S a b) →
  StronglySorted S (flat_map f l).
Proof.
  intros Hl H1 H2. induction Hl as [|x l Hl IH Hx]; [constructor|]. cbn [flat_map].
  enough (H : ∀ k, (∀ a b, a ∈ k → b ∈ flat_map f l → S a b) → StronglySorted S k → StronglySorted S (k ++ flat_map f l)).
  { apply H; [|done]. intros a b Ha Hb. apply list_elem_of_In, in_flat_map in Hb as (y & Hy%list_elem_of_In & Hb%list_elem_of_In).
    rewrite Forall_forall in Hx. by eapply H2; [apply Hx| |]. }
  intros k Hk Hs. induction Hs as [|a k Hs IHk Ha]; [done|]. cbn [app]. constructor.
  - apply IHk. intros b c Hb. apply Hk. by right.
  - apply Forall_app. split; [done|]. apply Forall_forall. intros b. apply Hk. by left.
Qed.

Definition cascade_list (elem : ElementData) (sheet : Stylesheet) : list (Key * (str * Value)) :=
  flat_map keyed (stable_sort (λ t u, rule_leb t.2 u.2) (tagged elem (imap pair (rules sheet)))).

Lemma cascade_list_sorted elem sheet : StronglySorted (λ x y, key_lt x.1 y.1) (cascade_list elem sheet).
Proof.
  unfold cascade_list. eapply flat_map_sorted.
  - apply (stable_sort_lex _) with (R := λ t u, (t.1 < u.1)%nat); [intros; apply spec_total|intros ? ? ?; apply spec_trans|].
    unfold tagged. eapply filter_map_sorted; [apply (imap_sorted pair (λ x y, (x.1 < y.1)%nat)); by intros|].
    intros [i x] [j y] [i' x'] [j' y'] Hij. cbn [fst snd].
    destruct (match_rule elem x), (match_rule elem y); try done. cbn [mbind option_bind]. intros [= <- _] [= <- _]. done.
  - intros t. apply imap_sorted. intros i j x y Hij. cbn. right. split; [done|]. lia.
  - intros [i [sp x]] [i' [sp' y]] a b [Hle Hi] (j & d & -> & _)%elem_of_lookup_imap (j' & d' & -> & _)%elem_of_lookup_imap.
    cbn in *. unfold rule_leb in *. cbn in *. destruct (decide (sp = sp')) as [->|Hne]; [|by left].
    right. split; [done|]. left. by apply Hi.
Qed.

Lemma specified_values_list elem sheet :
  specified_values elem sheet = foldl (λ m d, <[d.1 := d.2]> m) ∅ (cascade_list elem sheet).*2.
Proof.
  unfold specified_values, cascade_list, matching_rules.
  replace (rules sheet) with ((imap pair (rules sheet)).*2) at 1 by apply imap_pair_snd.
  rewrite <-tagged_snd, (stable_sort_map (λ t u, rule_leb t.2 u.2)) by done. generalize (∅ : PropertyMap).
  induction (stable_sort _ (tagged _ _)) as [|[i [sp rl]] l IH]; intros m; [done|]. cbn [map foldl flat_map fst snd].
  rewrite fmap_app, foldl_app, IH. f_equal. unfold insert_declarations, keyed. cbn [fst snd]. rewrite fmap_imap. clear IH.
  generalize (declarations rl). generalize m. clear. intros m ds.
  replace (imap (λ j, snd ∘ (λ d, (sp, i, j, (Css.name d, Css.value d)))) ds) with (map (λ d, (Css.name d, Css.value d)) ds).
  - revert m. induction ds as [|d ds IH]; intros m; [done|]. apply IH.
  - symmetry. apply list_eq. intros j. rewrite list_lookup_imap, list_lookup_fmap. by destruct (ds !! j).
Qed.

(** Declaration [j] of rule [i] matches with specificity [sp] and says [p: v]. *)
Definition applies (elem : ElementData) (sheet : Stylesheet) (k : Key) (p : str) (v : Value) : Prop :=
  let '(sp, i, j) := k in
  ∃ rule, rules sheet !! i = Some rule ∧ best elem rule sp ∧ declarations rule !! j = Some (mkDeclaration p v).

Lemma elem_of_cascade_list elem sheet k p v : sheet_ok sheet →
  (k, (p, v)) ∈ cascade_list elem sheet ↔ applies elem sheet k p v.
Proof.
  intros Hok. destruct k as [[sp i] j]. unfold cascade_list, applies. rewrite list_elem_of_In, in_flat_map.
  assert (Hd : ∀ rule, rules sheet !! i = Some rule → descending (selectors rule)).
  { intros rule Hr. unfold sheet_ok in Hok. rewrite Forall_forall in Hok.
    by destruct (Hok rule) as (_ & ? & _); [by eapply list_elem_of_lookup_2|]. }
  split.
  - intros ([i' [sp' rl]] & Ht%list_elem_of_In & Hk%list_elem_of_In). rewrite stable_sort_perm in Ht.
    apply elem_of_lookup_imap in Hk as (j' & [p' v'] & [= -> -> -> -> ->] & Hj). cbn [fst snd] in *.
    apply elem_of_filter_map in Ht as ([i0 r0] & Hi & Hm). apply elem_of_lookup_imap in Hi as (i1 & r1 & [= -> ->] & Hi).
    cbn [fst snd] in Hm. destruct (match_rule elem r1) as [m|] eqn:Em; [|done]. cbn [mbind option_bind] in Hm.
    injection Hm as -> ->. apply match_rule_best in Em as [E Hb]; [|by apply Hd]. cbn [fst snd] in *. subst rl. eauto.
  - intros (rule & Hr & Hb & Hj). exists (i, (sp, rule)). rewrite <-!list_elem_of_In. split.
    + rewrite stable_sort_perm. apply elem_of_filter_map. exists (i, rule). split; [apply elem_of_lookup_imap; eauto|].
      cbn [fst snd]. by rewrite (proj2 (match_rule_best elem rule (sp, rule) (Hd _ Hr))).
    + apply elem_of_lookup_imap. exists j, (mkDeclaration p v). done.
Qed.

(** C23. The cascade: an element's value of a property is that of the matching declaration
    of the greatest specificity, the last one of those in the order of the sheet.  The
    specificity with which a rule matches is the greatest of its matching selectors. *)
Theorem cascade elem sheet p v : sheet_ok sheet →
  specified_values elem sheet !! p = Some v ↔
  ∃ k, applies elem sheet k p v ∧ ∀ k' v', applies elem sheet k' p v' → k' = k ∨ key_lt k' k.
Proof.
  intros Hok. rewrite specified_values_list, foldl_insert_spec, lookup_empty,
    (sorted_last key_lt) by first [apply key_lt_irrefl|apply key_lt_asym|apply cascade_list_sorted].
  setoid_rewrite (elem_of_cascade_list elem sheet _ _ _ Hok). naive_solver.
Qed.

Lemma cascade_witness :
  let sheet := mkSheet [mkRule [Simple (mkSelector None (Some (lit "x")) [])] [mkDeclaration (lit "c") (Keyword (lit "one"))];
                        mkRule [Simple (mkSelector (Some (lit "p")) None [])] [mkDeclaration (lit "c") (Keyword (lit "two"))]] in
  let elem := mkElement (lit "p") {[lit "id" := lit "x"]} in
  ∃ k, applies elem sheet k (lit "c") (Keyword (lit "one")) ∧
    ∀ k' v', applies elem sheet k' (lit "c") v' → k' = k ∨ key_lt k' k.
Proof.
  intros sheet elem. apply cascade; [|vm_compute; reflexivity].
  apply (parse_ok (lit "#x { c: one } p { c: two }")). vm_compute. reflexivity.
Defined.
