(* ===== verification/Layout.v ===== *)
(** * The browser engine: layout and painting
    ([2026-08-26-rust-browser-engine/src/{layout,painting,main}.rs])

    Boxes with their dimensions in [F32], the display list and the canvas.  A panic is
    [None]; [oc] says whether the build checks overflow. *)
From S2P Require Import Prelude RustStr F32 Scanner HtmlParser Css Style.

(** ** [layout.rs] *)
Record Rect : Type := mkRect { x : f32; y : f32; width : f32; height : f32 }.
Record EdgeSizes : Type := mkEdges { left : f32; right : f32; top : f32; bottom : f32 }.
Record Dimensions : Type := mkDimensions { content : Rect; padding : EdgeSizes; border : EdgeSizes; margin : EdgeSizes }.

Definition default_edges : EdgeSizes := mkEdges zero zero zero zero.
Definition default_dimensions : Dimensions :=
  mkDimensions (mkRect zero zero zero zero) default_edges default_edges default_edges.

Definition expanded_by (r : Rect) (e : EdgeSizes) : Rect :=
  mkRect (sub (x r) (left e)) (sub (y r) (top e))
    (add (add (width r) (left e)) (right e)) (add (add (height r) (top e)) (bottom e)).
Definition padding_box (d : Dimensions) : Rect := expanded_by (content d) (padding d).
Definition border_box (d : Dimensions) : Rect := expanded_by (padding_box d) (border d).
Definition margin_box (d : Dimensions) : Rect := expanded_by (border_box d) (margin d).

Inductive BoxType : Type := BlockNode (s : StyledNode) | InlineNode (s : StyledNode) | AnonymousBlock.
Inductive LayoutBox : Type := mkBox (dimensions : Dimensions) (box_type : BoxType) (children : list LayoutBox).
Definition dimensions (b : LayoutBox) : Dimensions := let 'mkBox d _ _ := b in d.
Definition box_type (b : LayoutBox) : BoxType := let 'mkBox _ t _ := b in t.
Definition box_children (b : LayoutBox) : list LayoutBox := let 'mkBox _ _ cs := b in cs.

Definition new_box (t : BoxType) : LayoutBox := mkBox default_dimensions t [].
Definition push_child (b c : LayoutBox) : LayoutBox := let 'mkBox d t cs := b in mkBox d t (cs ++ [c]).

Definition is_anonymous (b : LayoutBox) : bool := match box_type b with AnonymousBlock => true | _ => false end.
(** [get_inline_container().children.push(c)] *)
Definition push_inline (b c : LayoutBox) : LayoutBox :=
  match box_type b with
  | InlineNode _ | AnonymousBlock => push_child b c
  | BlockNode _ =>
      let 'mkBox d t cs := b in
      match last cs with
      | Some l => if is_anonymous l then mkBox d t (removelast cs ++ [push_child l c])
                  else mkBox d t (cs ++ [push_child (new_box AnonymousBlock) c])
      | None => mkBox d t (cs ++ [push_child (new_box AnonymousBlock) c])
      end
  end.

Fixpoint build_layout_tree (style_node : StyledNode) : option LayoutBox :=
  let 'mkStyled _ _ children := style_node in
  let build_children := fix build_children (cs : list StyledNode) (root : LayoutBox) : option LayoutBox :=
    match cs with
    | [] => Some root
    | child :: cs =>
        match display child with
        | Block => b ← build_layout_tree child; build_children cs (push_child root b)
        | Inline => b ← build_layout_tree child; build_children cs (push_inline root b)
        | None_ => build_children cs root
        end
    end in
  match display style_node with
  | Block => build_children children (new_box (BlockNode style_node))
  | Inline => build_children children (new_box (InlineNode style_node))
  | None_ => None
  end.

(** [get_style_node], where there is one. *)
Definition get_style_node (t : BoxType) : option StyledNode :=
  match t with BlockNode s | InlineNode s => Some s | AnonymousBlock => None end.

Definition auto : Value := Keyword (lit "auto").
Definition zero_px : Value := Length zero Px.
(** [v == auto] *)
Definition is_auto (v : Value) : bool := match v with Keyword k => bool_decide (k = lit "auto") | _ => false end.

(** [sum] of floats starts at [-0.0]. *)
Definition sum (l : list f32) : f32 := foldl add (opp zero) l.

Definition set_width (d : Dimensions) (w : f32) : Dimensions :=
  mkDimensions (mkRect (x (content d)) (y (content d)) w (height (content d))) (padding d) (border d) (margin d).
Definition set_sides (e : EdgeSizes) (l r : f32) : EdgeSizes := mkEdges l r (top e) (bottom e).

(** The widths and margins for the seven values and the width to fill. *)
Definition solve_widths (container : f32) (width margin_left margin_right border_left border_right padding_left padding_right : Value)
  : Value * Value * Value :=
  let total := sum (map to_px [margin_left; margin_right; border_left; border_right; padding_left; padding_right; width]) in
  let over := negb (is_auto width) && ltb container total in
  let margin_left := if over && is_auto margin_left then zero_px else margin_left in
  let margin_right := if over && is_auto margin_right then zero_px else margin_right in
  let underflow := sub container total in
  match is_auto width, is_auto margin_left, is_auto margin_right with
  | false, false, false => (width, margin_left, Length (add (to_px margin_right) underflow) Px)
  | false, false, true => (width, margin_left, Length underflow Px)
  | false, true, false => (width, Length underflow Px, margin_right)
  | true, _, _ =>
      let margin_left := if is_auto margin_left then zero_px else margin_left in
      let margin_right := if is_auto margin_right then zero_px else margin_right in
      if leb zero underflow then (Length underflow Px, margin_left, margin_right)
      else (zero_px, margin_left, Length (add (to_px margin_right) underflow) Px)
  | false, true, true =>
      (width, Length (div underflow (of_Z 2)) Px, Length (div underflow (of_Z 2)) Px)
  end.

Definition calculate_block_width (t : BoxType) (d containing_block : Dimensions) : Dimensions :=
  match get_style_node t with
  | None => set_width d (width (content containing_block))
  | Some style =>
      let w := match value style (lit "width") with Some v => v | None => auto end in
      let margin_left := lookup style (lit "margin-left") (lit "margin") zero_px in
      let margin_right := lookup style (lit "margin-right") (lit "margin") zero_px in
      let border_left := lookup style (lit "border-left-width") (lit "border-width") zero_px in
      let border_right := lookup style (lit "border-right-width") (lit "border-width") zero_px in
      let padding_left := lookup style (lit "padding-left") (lit "padding") zero_px in
      let padding_right := lookup style (lit "padding-right") (lit "padding") zero_px in
      let '(w, margin_left, margin_right) :=
        solve_widths (width (content containing_block)) w margin_left margin_right border_left border_right padding_left padding_right in
      let d := set_width d (to_px w) in
      mkDimensions (content d)
        (set_sides (padding d) (to_px padding_left) (to_px padding_right))
        (set_sides (border d) (to_px border_left) (to_px border_right))
        (set_sides (margin d) (to_px margin_left) (to_px margin_right))
  end.

Definition set_top_bottom (e : EdgeSizes) (t b : f32) : EdgeSizes := mkEdges (left e) (right e) t b.
Definition calculate_block_position (t : BoxType) (d containing_block : Dimensions) : Dimensions :=
  let d := match get_style_node t with
    | Some style =>
        mkDimensions (content d)
          (set_top_bottom (padding d) (to_px (lookup style (lit "padding-top") (lit "padding") zero_px))
             (to_px (lookup style (lit "padding-bottom") (lit "padding") zero_px)))
          (set_top_bottom (border d) (to_px (lookup style (lit "border-top-width") (lit "border-width") zero_px))
             (to_px (lookup style (lit "border-bottom-width") (lit "border-width") zero_px)))
          (set_top_bottom (margin d) (to_px (lookup style (lit "margin-top") (lit "margin") zero_px))
             (to_px (lookup style (lit "margin-bottom") (lit "margin") zero_px)))
    | None =>
        mkDimensions (content d) (set_top_bottom (padding d) zero (bottom (padding d)))
          (set_top_bottom (border d) zero (bottom (border d))) (set_top_bottom (margin d) zero (bottom (margin d)))
    end in
  let cb := content containing_block in
  mkDimensions
    (mkRect (add (add (add (x cb) (left (margin d))) (left (border d))) (left (padding d)))
       (add (add (add (add (height cb) (y cb)) (top (margin d))) (top (border d))) (top (padding d)))
       (width (content d)) (height (content d)))
    (padding d) (border d) (margin d).

Definition set_height (d : Dimensions) (h : f32) : Dimensions :=
  mkDimensions (mkRect (x (content d)) (y (content d)) (width (content d)) h) (padding d) (border d) (margin d).
(** [content.height += child.dimensions.margin_box().height] *)
Definition grow (d : Dimensions) (child : LayoutBox) : Dimensions :=
  set_height d (add (height (content d)) (height (margin_box (dimensions child)))).

Definition calculate_block_height (t : BoxType) (d : Dimensions) : Dimensions :=
  match get_style_node t with
  | None => d
  | Some style => match value style (lit "height") with Some (Length h Px) => set_height d h | _ => d end
  end.

(** [layout], [layout_block] and [layout_block_children] *)
Fixpoint layout (b : LayoutBox) (containing_block : Dimensions) : LayoutBox :=
  let 'mkBox d t cs := b in
  let layout_block_children := fix go (d : Dimensions) (cs : list LayoutBox) : Dimensions * list LayoutBox :=
    match cs with
    | [] => (d, [])
    | child :: cs =>
        let child := layout child d in
        let r := go (grow d child) cs in
        (r.1, child :: r.2)
    end in
  match t with
  | InlineNode _ => b
  | _ =>
      let d := calculate_block_width t d containing_block in
      let d := calculate_block_position t d containing_block in
      let r := layout_block_children d cs in
      mkBox (calculate_block_height t r.1) t r.2
  end.

Definition layout_tree (node : StyledNode) (containing_block : Dimensions) : option LayoutBox :=
  root_box ← build_layout_tree node;
  Some (layout root_box (set_height containing_block zero)).

(** ** [painting.rs] *)
Definition get_style_color (b : LayoutBox) (name : str) : option Color :=
  match get_style_node (box_type b) with
  | Some style => match value style name with Some (ColorValue c) => Some c | _ => None end
  | None => None
  end.
Definition background_color (b : LayoutBox) : option Color := get_style_color b (lit "background").

Inductive DisplayCommand : Type := SolidColor (c : Color) (r : Rect).

Definition render_background (b : LayoutBox) : list DisplayCommand :=
  match get_style_color b (lit "background") with
  | Some c => [SolidColor c (border_box (dimensions b))]
  | None => []
  end.
Definition render_borders (b : LayoutBox) : list DisplayCommand :=
  match get_style_color b (lit "border-color") with
  | None => []
  | Some c =>
      let d := dimensions b in
      let bb := border_box d in
      [SolidColor c (mkRect (x bb) (y bb) (left (border d)) (height bb));
       SolidColor c (mkRect (sub (add (x bb) (width bb)) (right (border d))) (y bb) (right (border d)) (height bb));
       SolidColor c (mkRect (x bb) (y bb) (width bb) (top (border d)));
       SolidColor c (mkRect (x bb) (sub (add (y bb) (height bb)) (bottom (border d))) (width bb) (bottom (border d)))]
  end.
Fixpoint render_layout_box (b : LayoutBox) : list DisplayCommand :=
  render_background b ++ render_borders b ++ let 'mkBox _ _ cs := b in flat_map render_layout_box cs.
Definition build_display_list (root : LayoutBox) : list DisplayCommand := render_layout_box root.

Record Canvas : Type := mkCanvas { pixels : list Color; canvas_width : Z; canvas_height : Z }.

Definition isize_max : Z := 2 ^ 63 - 1.
Definition white : Color := rgb 255 255 255.
(** [vec![white; width * height]] panics when the bytes of the vector, four per pixel,
    are more than [isize::MAX]. *)
Definition canvas_new (oc : bool) (w h : Z) : option Canvas :=
  n ← chk_u64 oc (w * h);
  if 4 * n <=? isize_max then Some (mkCanvas (replicate (Z.to_nat n) white) w h) else None.

(** [self.pixels[y * self.width + x] = color] *)
Definition put_pixel (oc : bool) (color : Color) (py px : Z) (c : Canvas) : option Canvas :=
  i ← chk_u64 oc (py * canvas_width c);
  i ← chk_u64 oc (i + px);
  if i <? Z.of_nat (length (pixels c))
  then Some (mkCanvas (<[Z.to_nat i := color]> (pixels c)) (canvas_width c) (canvas_height c)) else None.

Definition paint_item (oc : bool) (item : DisplayCommand) (c : Canvas) : option Canvas :=
  let 'SolidColor color rect := item in
  let w := of_Z (canvas_width c) in
  let h := of_Z (canvas_height c) in
  x0 ← clamp (x rect) zero w;
  y0 ← clamp (y rect) zero h;
  x1 ← clamp (add (x rect) (width rect)) zero w;
  y1 ← clamp (add (y rect) (height rect)) zero h;
  for_each (λ py, for_each (λ px, put_pixel oc color py px) (zrange (to_usize x0) (to_usize x1)))
    (zrange (to_usize y0) (to_usize y1)) c.

Definition paint (oc : bool) (layout_root : LayoutBox) (bounds : Rect) : option Canvas :=
  canvas ← canvas_new oc (to_usize (width bounds)) (to_usize (height bounds));
  for_each (paint_item oc) (build_display_list layout_root) canvas.

Definition to_ppm (c : Canvas) : list Z :=
  lit "P6" ++ [LF] ++ show (canvas_width c) ++ [SPACE] ++ show (canvas_height c) ++ [LF] ++ lit "255" ++ [LF] ++
  flat_map (λ p, [c_r p; c_g p; c_b p]) (pixels c).

(** ** [main.rs], from the texts of the files and the size of the viewport to the picture *)
Definition of_option {A} (o : option A) : outcome A := match o with Some a => Ret a | None => Panic end.

Definition viewport (w h : f32) : Dimensions :=
  mkDimensions (mkRect zero zero w h) default_edges default_edges default_edges.
Definition page_bounds (root : LayoutBox) (w h : f32) : Rect :=
  mkRect zero zero w (fmax (height (margin_box (dimensions root))) h).

(** The page's bounds and its picture. *)
Definition page (oc : bool) (html css_src : str) (w h : f32) : outcome (Rect * Canvas) :=
  obind (HtmlParser.parse html) (λ dom_root,
  obind (Css.parse css_src) (λ stylesheet,
  let style_root := style_tree stylesheet dom_root in
  obind (of_option (layout_tree style_root (viewport w h))) (λ layout_root,
  let bounds := page_bounds layout_root w h in
  obind (of_option (paint oc layout_root bounds)) (λ canvas,
  Ret (bounds, canvas))))).
