(* ===== verification/PaintProps.v ===== *)
(** * The browser engine: properties of painting

    No write leaves the canvas, and every pixel has the colour of the last item of the
    display list that covers it. *)
From S2P Require Import Prelude RustStr RustSort F32 Scanner HtmlParser HtmlParserProps Css CssProps Style StyleProps Layout.

(** ** One item *)
Definition lookup_pixel (c : Canvas) (px py : Z) : option Color := pixels c !! Z.to_nat (py * canvas_width c + px).

Definition canvas_ok (c : Canvas) : Prop :=
  0 ≤ canvas_width c ∧ 0 ≤ canvas_height c ∧ 4 * (canvas_width c * canvas_height c) ≤ isize_max ∧
  length (pixels c) = Z.to_nat (canvas_width c * canvas_height c).

(** [c'] is [c] with the pixels of [P] in [color]. *)
Definition repainted (color : Color) (P : Z → Z → bool) (c c' : Canvas) : Prop :=
  canvas_width c' = canvas_width c ∧ canvas_height c' = canvas_height c ∧ length (pixels c') = length (pixels c) ∧
  ∀ px py, 0 ≤ px < canvas_width c → 0 ≤ py < canvas_height c →
    lookup_pixel c' px py = if P px py then Some color else lookup_pixel c px py.

Lemma repainted_ok color P c c' : canvas_ok c → repainted color P c c' → canvas_ok c'.
Proof. unfold canvas_ok. intros (? & ? & ? & ?) (-> & -> & -> & _). done. Qed.

(** A loop whose turns paint paints what they paint. *)
Lemma for_each_repaints {K} color (P : K → Z → Z → bool) (f : K → Canvas → option Canvas) l c :
  canvas_ok c →
  (∀ k c1, k ∈ l → canvas_ok c1 → canvas_width c1 = canvas_width c → canvas_height c1 = canvas_height c →
     ∃ c', f k c1 = Some c' ∧ repainted color (P k) c1 c') →
  ∃ c', for_each f l c = Some c' ∧ repainted color (λ px py, existsb (λ k, P k px py) l) c c'.
Proof.
  revert c. induction l as [|k l IH]; intros c Hc Hf; [by exists c|]. cbn [for_each].
  destruct (Hf k c) as (c1 & E & H1); [by left|done..|]. rewrite E. cbn [mbind option_bind].
  pose proof (repainted_ok _ _ _ _ Hc H1) as Hc1. destruct H1 as (W1 & H1 & L1 & G1).
  destruct (IH c1 Hc1) as (c2 & E2 & W2 & H2 & L2 & G2).
  { intros k' c' Hk Hc' Hw Hh. apply Hf; [by right|congruence..]. }
  exists c2. split; [done|]. split_and!; [congruence..|]. intros px py Hx Hy. cbn [existsb].
  rewrite G2, G1 by congruence. by destruct (P k px py), (existsb _ l).
Qed.

Lemma index_inj w px py px' py' : 0 ≤ px < w → 0 ≤ px' < w → py * w + px = py' * w + px' → px = px' ∧ py = py'.
Proof. intros H H' E. assert (py = py') by nia. subst. lia. Qed.

Lemma put_pixel_ok oc color px py c : canvas_ok c → 0 ≤ px < canvas_width c → 0 ≤ py < canvas_height c →
  ∃ c', put_pixel oc color py px c = Some c' ∧ repainted color (λ x y, (x =? px) && (y =? py)) c c'.
Proof.
  intros (HW & HH & Hcap & Hlen) Hx Hy. set (w := canvas_width c) in *. set (h := canvas_height c) in *.
  assert (Hi : 0 ≤ py * w + px < w * h) by nia. unfold isize_max in Hcap.
  unfold put_pixel. fold w. rewrite chk_u64_ok by (unfold is_u64; nia). cbn [mbind option_bind].
  rewrite chk_u64_ok by (unfold is_u64; lia). cbn [mbind option_bind]. rewrite Hlen, (proj2 (Z.ltb_lt _ _)) by lia.
  eexists. split; [done|]. unfold repainted, lookup_pixel. cbn [pixels canvas_width canvas_height].
  split_and!; [done..|apply length_insert|]. intros x y Hx' Hy'. fold w. fold w in Hx'. fold h in Hy'.
  destruct ((x =? px) && (y =? py)) eqn:E.
  - apply andb_prop in E as [->%Z.eqb_eq ->%Z.eqb_eq]. apply list_lookup_insert_eq. lia.
  - apply list_lookup_insert_ne. intros Hn. apply Z2Nat.inj in Hn; [|lia|nia].
    destruct (index_inj w px py x y) as [-> ->]; [done..|]. by rewrite !Z.eqb_refl in E.
Qed.

Lemma existsb_zrange (P : Z → bool) lo hi k : (∀ j, P j = (k =? j)) → existsb P (zrange lo hi) = (lo <=? k) && (k <? hi).
Proof.
  intros HP. apply Bool.eq_iff_eq_true. rewrite existsb_exists, andb_true_iff, Z.leb_le, Z.ltb_lt. split.
  - intros (j & Hj%list_elem_of_In%elem_of_zrange & E). rewrite HP in E. lia.
  - intros H. exists k. rewrite <-list_elem_of_In, elem_of_zrange, HP. lia.
Qed.

Lemma existsb_never {A} (P : A → bool) l : (∀ a, P a = false) → existsb P l = false.
Proof. intros HP. induction l as [|a l IH]; [done|]. cbn [existsb]. by rewrite HP. Qed.

(** The pixels of a rectangle, whatever the canvas. *)
Definition covers (r : Rect) (px py : Z) : bool :=
  (to_usize (x r) <=? px) && (px <? to_usize (add (x r) (width r))) &&
  (to_usize (y r) <=? py) && (py <? to_usize (add (y r) (height r))).

(** The sizes of a canvas come from floats: their cast back is exact. *)
Definition size_ok (w : Z) : Prop := 0 ≤ w ≤ usize_max ∧ (w = usize_max ∨ of_Z w = Fin false (w * one_mag)).

Lemma fill_ok oc color c x0 x1 y0 y1 : canvas_ok c → 0 ≤ x0 → 0 ≤ y0 →
  x1 ≤ canvas_width c ∧ y1 ≤ canvas_height c ∨ x1 ≤ x0 ∨ y1 ≤ y0 →
  ∃ c', for_each (λ py, for_each (λ px, put_pixel oc color py px) (zrange x0 x1)) (zrange y0 y1) c = Some c' ∧
    repainted color (λ px py, (x0 <=? px) && (px <? x1) && (y0 <=? py) && (py <? y1)) c c'.
Proof.
  intros Hc H0 H1 Hin.
  destruct (for_each_repaints color (λ y px py, (x0 <=? px) && (px <? x1) && (py =? y))
    (λ py, for_each (λ px, put_pixel oc color py px) (zrange x0 x1)) (zrange y0 y1) c Hc) as (c' & E & W & H & L & G).
  - intros y c1 Hy%elem_of_zrange Hc1 HW HH.
    destruct (for_each_repaints color (λ x px py, (px =? x) && (py =? y)) (λ px, put_pixel oc color y px) (zrange x0 x1) c1 Hc1)
      as (c' & E & W & H & L & G).
    + intros x c2 Hx%elem_of_zrange Hc2 HW2 HH2. apply put_pixel_ok; [done|lia..].
    + exists c'. split; [done|]. split_and!; [done..|]. intros px py Hpx Hpy. rewrite G by done.
      destruct (py =? y); [rewrite andb_true_r|rewrite andb_false_r].
      * rewrite (existsb_zrange _ _ _ px); [done|]. intros. by rewrite andb_true_r.
      * rewrite existsb_never; [done|]. intros. by rewrite andb_false_r.
  - exists c'. split; [done|]. split_and!; [done..|]. intros px py Hpx Hpy. rewrite G by done.
    destruct ((x0 <=? px) && (px <? x1)); cbn [andb].
    + by rewrite (existsb_zrange _ _ _ py).
    + by rewrite existsb_never.
Qed.

Lemma clamp_size v w : size_ok w → valid v = true →
  ∃ c, clamp v zero (of_Z w) = Some c ∧ (w < usize_max → to_usize c = Z.min (to_usize v) w) ∧ 0 ≤ to_usize c.
Proof.
  intros [Hw Hs] Hv. destruct (clamp_total v w) as [c E]; [lia|]. exists c. split; [done|]. split.
  - intros Hlt. destruct Hs as [|Hs]; [lia|]. by apply clamp_to_usize.
  - apply to_usize_range. eapply clamp_valid; [apply Hv| | |done]; [done|apply of_Z_valid].
Qed.

Definition rect_valid (r : Rect) : bool := valid (x r) && valid (y r) && valid (width r) && valid (height r).
Definition command_rect (i : DisplayCommand) : Rect := let 'SolidColor _ r := i in r.
Definition command_color (i : DisplayCommand) : Color := let 'SolidColor c _ := i in c.

Lemma paint_item_ok oc item c : canvas_ok c → size_ok (canvas_width c) → size_ok (canvas_height c) →
  rect_valid (command_rect item) = true →
  ∃ c', paint_item oc item c = Some c' ∧ repainted (command_color item) (covers (command_rect item)) c c'.
Proof.
  destruct item as [color r]. cbn [command_rect command_color]. intros Hc Hw Hh [[[Vx Vy]%andb_prop Vw]%andb_prop Vh]%andb_prop.
  unfold paint_item.
  destruct (clamp_size (x r) _ Hw Vx) as (a & -> & Ha & Ha0).
  destruct (clamp_size (y r) _ Hh Vy) as (b & -> & Hb & Hb0).
  destruct (clamp_size (add (x r) (width r)) _ Hw) as (a' & -> & Ha' & Ha0'); [auto with f32|].
  destruct (clamp_size (add (y r) (height r)) _ Hh) as (b' & -> & Hb' & Hb0'); [auto with f32|].
  cbn [mbind option_bind].
  pose proof Hc as (HW & HH & Hcap & _). unfold isize_max, usize_max in *.
  assert (Hcase : canvas_width c = 0 ∨ canvas_height c = 0 ∨ (canvas_width c < 2 ^ 64 - 1 ∧ canvas_height c < 2 ^ 64 - 1)) by nia.
  destruct (fill_ok oc color c (to_usize a) (to_usize a') (to_usize b) (to_usize b') Hc Ha0 Hb0) as (c' & E & W & H & L & G).
  { destruct Hcase as [E|[E|[E1 E2]]]; [rewrite E in *; lia..|]. left. lia. }
  exists c'. split; [done|]. split_and!; [done..|]. intros px py Hx Hy. rewrite G by done.
  destruct Hcase as [E1|[E1|[E1 E2]]]; [lia..|]. unfold covers. rewrite Ha, Ha', Hb, Hb' by done.
  enough ((Z.min (to_usize (x r)) (canvas_width c) <=? px) && (px <? Z.min (to_usize (add (x r) (width r))) (canvas_width c)) &&
    (Z.min (to_usize (y r)) (canvas_height c) <=? py) && (py <? Z.min (to_usize (add (y r) (height r))) (canvas_height c)) =
    (to_usize (x r) <=? px) && (px <? to_usize (add (x r) (width r))) && (to_usize (y r) <=? py) && (py <? to_usize (add (y r) (height r))))
    as -> by done.
  apply Bool.eq_iff_eq_true. rewrite !andb_true_iff, !Z.leb_le, !Z.ltb_lt. lia.
Qed.

(** ** The display list *)

(** The painter's algorithm, one pixel at a time. *)
Definition painted (l : list DisplayCommand) (px py : Z) : Color :=
  foldl (λ c item, if covers (command_rect item) px py then command_color item else c) white l.

Definition paints (c0 : Canvas) (l : list DisplayCommand) (c : Canvas) : Prop :=
  canvas_width c = canvas_width c0 ∧ canvas_height c = canvas_height c0 ∧ canvas_ok c ∧
  ∀ px py, 0 ≤ px < canvas_width c → 0 ≤ py < canvas_height c → lookup_pixel c px py = Some (painted l px py).

Lemma items_ok oc l c0 : canvas_ok c0 → size_ok (canvas_width c0) → size_ok (canvas_height c0) →
  paints c0 [] c0 → forallb (λ i, rect_valid (command_rect i)) l = true →
  ∃ c, for_each (paint_item oc) l c0 = Some c ∧ paints c0 l c.
Proof.
  intros Hc Hw Hh H0. induction l as [|item l IH] using rev_ind; intros Hl; [by exists c0|].
  rewrite forallb_app in Hl. apply andb_prop in Hl as [Hl [Hi _]%andb_prop].
  destruct (IH Hl) as (c1 & E1 & W1 & H1 & Hok1 & G1).
  destruct (paint_item_ok oc item c1) as (c2 & E2 & R2); [done|congruence..|done|]. pose proof (repainted_ok _ _ _ _ Hok1 R2) as Hok2.
  destruct R2 as (W2 & H2 & _ & G2). exists c2. rewrite for_each_app, E1. cbn [mbind option_bind for_each]. rewrite E2. split; [done|].
  split_and!; [congruence..|done|]. intros px py Hx Hy. rewrite W2 in Hx. rewrite H2 in Hy.
  rewrite G2, G1 by done. unfold painted. rewrite foldl_app. cbn [foldl]. by destruct (covers _ px py).
Qed.

Lemma canvas_new_ok oc w h : 0 ≤ w → 0 ≤ h → 4 * (w * h) ≤ isize_max →
  ∃ c, canvas_new oc w h = Some c ∧ canvas_width c = w ∧ canvas_height c = h ∧ canvas_ok c ∧ paints c [] c.
Proof.
  intros Hw Hh Hcap. unfold canvas_new, isize_max in *. rewrite chk_u64_ok by (unfold is_u64; nia). cbn [mbind option_bind].
  rewrite (proj2 (Z.leb_le _ _)) by lia. eexists. split; [done|]. split; [done|]. split; [done|].
  match goal with |- canvas_ok ?c ∧ _ => assert (Hok : canvas_ok c) end.
  { split_and!; cbn; [done..|]. apply length_replicate. }
  split; [done|]. split_and!; [done..|]. cbn [canvas_width canvas_height]. intros px py Hx Hy. unfold lookup_pixel, painted. cbn [pixels canvas_width foldl].
  apply lookup_replicate. split; [done|]. nia.
Qed.

(** More bytes than an allocation can have. *)
Lemma canvas_new_panics w h : 0 ≤ w → 0 ≤ h → isize_max < 4 * (w * h) → canvas_new true w h = None.
Proof.
  intros Hw Hh Hcap. unfold canvas_new, chk_u64, isize_max in *. case_bool_decide; [|done]. cbn [mbind option_bind].
  by rewrite (proj2 (Z.leb_gt _ _)) by lia.
Qed.

Lemma size_ok_cast v : valid v = true → size_ok (to_usize v).
Proof.
  intros Hv. pose proof (to_usize_range v Hv). split; [done|].
  destruct (Z.eq_dec (to_usize v) usize_max); [by left|right]. apply of_Z_to_usize; [done|lia].
Qed.

(** ** Valid numbers everywhere *)
Definition edges_valid (e : EdgeSizes) : bool := valid (left e) && valid (right e) && valid (top e) && valid (bottom e).
Definition dimensions_valid (d : Dimensions) : bool :=
  rect_valid (content d) && edges_valid (padding d) && edges_valid (border d) && edges_valid (margin d).
Definition values_valid (m : gmap str Value) : Prop := map_Forall (λ _ v, valid (to_px v) = true) m.
Definition type_valid (t : BoxType) : Prop := match get_style_node t with Some s => values_valid (specified s) | None => True end.
Inductive styled_valid : StyledNode → Prop :=
| styled_valid_node n m cs : values_valid m → Forall styled_valid cs → styled_valid (mkStyled n m cs).
Inductive box_valid : LayoutBox → Prop :=
| box_valid_box d t cs : dimensions_valid d = true → type_valid t → Forall box_valid cs → box_valid (mkBox d t cs).

(** Splits the validity of a record into that of its numbers, and closes goals about
    numbers computed from them. *)
Ltac split_valid :=
  unfold dimensions_valid, edges_valid, rect_valid in *;
  repeat match goal with H : _ && _ = true |- _ => apply andb_prop in H as [? ?] end;
  cbn [content padding border margin left right top bottom x y width height] in *;
  repeat (apply andb_true_iff; split); auto with f32.

Lemma expanded_valid r e : rect_valid r = true → edges_valid e = true → rect_valid (expanded_by r e) = true.
Proof. intros Hr He. destruct r, e. unfold expanded_by. split_valid. Qed.
Lemma margin_box_valid d : dimensions_valid d = true → rect_valid (margin_box d) = true.
Proof.
  intros [[[Hc Hp]%andb_prop Hb]%andb_prop Hm]%andb_prop. unfold margin_box, border_box, padding_box. by repeat apply expanded_valid.
Qed.
Lemma border_box_valid d : dimensions_valid d = true → rect_valid (border_box d) = true.
Proof.
  intros [[[Hc Hp]%andb_prop Hb]%andb_prop Hm]%andb_prop. unfold border_box, padding_box. by repeat apply expanded_valid.
Qed.

Lemma lookup_valid s n1 n2 : values_valid (specified s) → valid (to_px (lookup s n1 n2 zero_px)) = true.
Proof.
  intros Hs. unfold lookup, value. destruct (specified s !! n1) as [v|] eqn:E1; [by eapply Hs|].
  destruct (specified s !! n2) as [v|] eqn:E2; [by eapply Hs|done].
Qed.
Lemma value_valid s n d : values_valid (specified s) → valid (to_px d) = true →
  valid (to_px match value s n with Some v => v | None => d end) = true.
Proof. intros Hs Hd. unfold value. destruct (specified s !! n) as [v|] eqn:E; [by eapply Hs|done]. Qed.

Lemma sum_valid l : forallb valid l = true → valid (sum l) = true.
Proof.
  unfold sum. assert (H : valid (opp zero) = true) by done. revert H. generalize (opp zero).
  induction l as [|v l IH]; intros a Ha Hl; [done|]. apply andb_prop in Hl as [Hv Hl]. apply IH; auto with f32.
Qed.

Lemma solve_widths_valid c w ml mr bl br pl pr w' ml' mr' :
  valid c = true → forallb (λ v, valid (to_px v)) [w; ml; mr; bl; br; pl; pr] = true →
  solve_widths c w ml mr bl br pl pr = (w', ml', mr') →
  valid (to_px w') = true ∧ valid (to_px ml') = true ∧ valid (to_px mr') = true.
Proof.
  intros Hc Hv. cbn [forallb] in Hv. repeat match goal with H : _ && _ = true |- _ => apply andb_prop in H as [? ?] end.
  assert (Hu : valid (sub c (sum (map to_px [ml; mr; bl; br; pl; pr; w]))) = true).
  { apply sub_valid; [done|]. apply sum_valid. cbn [map forallb]. repeat (apply andb_true_iff; split); done. }
  unfold solve_widths. set (u := sub c _) in *. clearbody u. cbv zeta.
  assert (Hif : ∀ b v, valid (to_px v) = true → valid (to_px (if b : bool then zero_px else v)) = true) by (by intros []).
  pose proof (Hif (negb (is_auto w) && ltb c (sum (map to_px [ml; mr; bl; br; pl; pr; w])) && is_auto ml) ml ltac:(done)) as Hml.
  pose proof (Hif (negb (is_auto w) && ltb c (sum (map to_px [ml; mr; bl; br; pl; pr; w])) && is_auto mr) mr ltac:(done)) as Hmr.
  set (ml1 := if _ && is_auto ml then _ else _) in *. set (mr1 := if _ && is_auto mr then _ else _) in *. clearbody ml1 mr1.
  assert (Hh : valid (div u (of_Z 2)) = true) by auto with f32.
  destruct (is_auto w), (is_auto ml1), (is_auto mr1); try destruct (leb zero u); intros [= <- <- <-];
    split_and!; cbn [to_px zero_px]; auto with f32.
Qed.

Lemma block_width_valid t d cb : type_valid t → dimensions_valid d = true → valid (width (content cb)) = true →
  dimensions_valid (calculate_block_width t d cb) = true.
Proof.
  unfold type_valid, calculate_block_width. intros Ht Hd Hc. destruct (get_style_node t) as [s|].
  - destruct (solve_widths _ _ _ _ _ _ _ _) as [[w ml] mr] eqn:E.
    apply solve_widths_valid in E as (Hw & Hl & Hr); [|done|].
    + unfold set_width, set_sides. split_valid; by apply lookup_valid.
    + cbn [forallb]. repeat (apply andb_true_iff; split); try done; first [by apply lookup_valid|by apply value_valid].
  - unfold set_width. split_valid.
Qed.
Lemma block_position_valid t d cb : type_valid t → dimensions_valid d = true → dimensions_valid cb = true →
  dimensions_valid (calculate_block_position t d cb) = true.
Proof.
  unfold type_valid, calculate_block_position. intros Ht Hd Hc. destruct (get_style_node t) as [s|]; cbv zeta.
  - pose proof (λ n1 n2, lookup_valid s n1 n2 Ht) as Hl. unfold set_top_bottom. split_valid; repeat apply add_valid; auto.
  - unfold set_top_bottom. split_valid; repeat apply add_valid; auto.
Qed.
Lemma block_height_valid t d : type_valid t → dimensions_valid d = true → dimensions_valid (calculate_block_height t d) = true.
Proof.
  unfold type_valid, calculate_block_height. intros Ht Hd. destruct (get_style_node t) as [s|]; [|done].
  unfold value. destruct (specified s !! lit "height") as [[k|h []|c]|] eqn:E; try done.
  apply Ht in E. cbn [to_px] in E. unfold set_height. split_valid.
Qed.
Lemma grow_valid d b : dimensions_valid d = true → dimensions_valid (dimensions b) = true → dimensions_valid (grow d b) = true.
Proof.
  intros Hd Hb%margin_box_valid. unfold grow, set_height. set (m := margin_box _) in *. clearbody m. split_valid.
Qed.

Lemma LayoutBox_tree_ind (P : LayoutBox → Prop) : (∀ d t cs, Forall P cs → P (mkBox d t cs)) → ∀ b, P b.
Proof. intros H. fix IH 1. intros [d t cs]. apply H. induction cs; constructor; auto. Qed.
Lemma StyledNode_tree_ind (P : StyledNode → Prop) : (∀ n m cs, Forall P cs → P (mkStyled n m cs)) → ∀ s, P s.
Proof. intros H. fix IH 1. intros [n m cs]. apply H. induction cs; constructor; auto. Qed.

(** The loop of [layout_block_children]. *)
Fixpoint layout_children (d : Dimensions) (cs : list LayoutBox) : Dimensions * list LayoutBox :=
  match cs with
  | [] => (d, [])
  | child :: cs => let child := layout child d in let r := layout_children (grow d child) cs in (r.1, child :: r.2)
  end.
Definition is_inline (t : BoxType) : bool := match t with InlineNode _ => true | _ => false end.
Lemma layout_eq d t cs cb : layout (mkBox d t cs) cb =
  if is_inline t then mkBox d t cs
  else
    let r := layout_children (calculate_block_position t (calculate_block_width t d cb) cb) cs in
    mkBox (calculate_block_height t r.1) t r.2.
Proof. by destruct t. Qed.

Lemma layout_valid b : box_valid b → ∀ cb, dimensions_valid cb = true → box_valid (layout b cb).
Proof.
  induction b as [d t cs IH] using LayoutBox_tree_ind. intros Hb cb Hcb. rewrite layout_eq. inversion Hb as [? ? ? Hd Ht Hcs]; subst.
  destruct (is_inline t); [done|]. cbv zeta.
  assert (Hd1 : dimensions_valid (calculate_block_position t (calculate_block_width t d cb) cb) = true).
  { apply block_position_valid; [done| |done]. apply block_width_valid; [done..|]. clear -Hcb. split_valid. }
  revert Hd1. generalize (calculate_block_position t (calculate_block_width t d cb) cb). clear Hb Hd.
  enough (H : ∀ d1, dimensions_valid d1 = true →
    dimensions_valid (layout_children d1 cs).1 = true ∧ Forall box_valid (layout_children d1 cs).2).
  { intros d1 Hd1. destruct (H d1 Hd1). constructor; [by apply block_height_valid|done..]. }
  induction cs as [|c cs IHc]; intros d1 Hd1; [done|]. cbn [layout_children fst snd].
  inversion_clear IH as [|? ? IH1 IH2]. inversion_clear Hcs as [|? ? Hc1 Hc2].
  pose proof (IH1 Hc1 d1 Hd1) as Hl. assert (Hg : dimensions_valid (grow d1 (layout c d1)) = true).
  { apply grow_valid; [done|]. by inversion Hl. }
  destruct (IHc IH2 Hc2 _ Hg). by split; [|constructor].
Qed.

(** The loop of [build_layout_tree]. *)
Fixpoint build_children (cs : list StyledNode) (root : LayoutBox) : option LayoutBox :=
  match cs with
  | [] => Some root
  | child :: cs =>
      match display child with
      | Block => b ← build_layout_tree child; build_children cs (push_child root b)
      | Inline => b ← build_layout_tree child; build_children cs (push_inline root b)
      | None_ => build_children cs root
      end
  end.
Lemma build_eq n m cs : build_layout_tree (mkStyled n m cs) =
  match display (mkStyled n m cs) with
  | Block => build_children cs (new_box (BlockNode (mkStyled n m cs)))
  | Inline => build_children cs (new_box (InlineNode (mkStyled n m cs)))
  | None_ => None
  end.
Proof. done. Qed.

Lemma push_child_valid b c : box_valid b → box_valid c → box_valid (push_child b c).
Proof. intros [d t cs Hd Ht Hcs] Hc. constructor; [done..|]. apply Forall_app. by split; [|constructor]. Qed.
Lemma new_box_valid t : type_valid t → box_valid (new_box t).
Proof. intros Ht. by constructor. Qed.
Lemma push_inline_valid b c : box_valid b → box_valid c → box_valid (push_inline b c).
Proof.
  intros Hb Hc. assert (Hn : box_valid (push_child (new_box AnonymousBlock) c)) by (apply push_child_valid; [by apply new_box_valid|done]).
  unfold push_inline. destruct b as [d t cs]. cbn [box_type]. destruct t; try by apply push_child_valid.
  inversion_clear Hb as [? ? ? Hd Ht Hcs]. destruct cs as [|l cs _] using rev_ind; [by constructor; [..|constructor]|].
  rewrite last_snoc. apply Forall_app in Hcs as [Hcs Hl]. inversion_clear Hl as [|? ? Hl' _]. destruct (is_anonymous l).
  - rewrite removelast_last. constructor; [done..|]. apply Forall_app. split; [done|]. constructor; [|done]. by apply push_child_valid.
  - constructor; [done..|]. rewrite !Forall_app. split_and!; [done|by constructor|by constructor].
Qed.

(** Only the root can be refused; what every push keeps, the tree has. *)
Lemma build_invariant (S : StyledNode → Prop) (P : LayoutBox → Prop) :
  (∀ s, S s → Forall S (styled_children s) ∧ P (new_box (BlockNode s)) ∧ P (new_box (InlineNode s))) →
  (∀ b c, P b → P c → P (push_child b c)) → (∀ b c, P b → P c → P (push_inline b c)) →
  ∀ s, S s → display s ≠ None_ → ∃ b, build_layout_tree s = Some b ∧ P b.
Proof.
  intros HS Hc Hi s. induction s as [n m cs IH] using StyledNode_tree_ind. intros Hs Hd. rewrite build_eq.
  destruct (HS _ Hs) as (Hcs & HB & HI). cbn [styled_children] in Hcs.
  enough (H : ∀ root, P root → ∃ b, build_children cs root = Some b ∧ P b) by (destruct (display _); [by apply H..|done]).
  clear Hs Hd HB HI. induction cs as [|c cs IHc]; intros root Hr; [by exists root|]. cbn [build_children].
  inversion_clear IH as [|? ? IH1 IH2]. inversion_clear Hcs as [|? ? Hc1 Hc2].
  destruct (display c) eqn:E; [| |by apply IHc]; (destruct (IH1 Hc1) as (b & -> & Hb); [done|]); cbn [mbind option_bind]; apply IHc; auto.
Qed.

Lemma build_valid s : styled_valid s → display s ≠ None_ → ∃ b, build_layout_tree s = Some b ∧ box_valid b.
Proof.
  apply build_invariant; [|apply push_child_valid|apply push_inline_valid].
  intros t [n m cs Hm Hcs]. split_and!; [done|by apply new_box_valid|by apply new_box_valid].
Qed.

Lemma display_list_valid b : box_valid b → forallb (λ i, rect_valid (command_rect i)) (build_display_list b) = true.
Proof.
  unfold build_display_list. induction b as [d t cs IH] using LayoutBox_tree_ind. intros Hb.
  inversion_clear Hb as [? ? ? Hd Ht Hcs]. cbn [render_layout_box]. rewrite !forallb_app. pose proof (border_box_valid d Hd) as Hbb.
  repeat (apply andb_true_iff; split).
  - unfold render_background. destruct (get_style_color _ _); [|done]. cbn. by rewrite Hbb.
  - unfold render_borders. destruct (get_style_color _ _); [|done]. cbn [dimensions]. set (bb := border_box d) in *. clearbody bb.
    cbn [forallb command_rect]. split_valid.
  - induction Hcs as [|c cs Hc Hcs IHc]; [done|]. inversion_clear IH as [|? ? IH1 IH2]. cbn [flat_map]. rewrite forallb_app, IH1 by done.
    by apply IHc.
Qed.

Lemma paint_ok oc root bounds : box_valid root → valid (width bounds) = true → valid (height bounds) = true →
  4 * (to_usize (width bounds) * to_usize (height bounds)) ≤ isize_max →
  ∃ c, paint oc root bounds = Some c ∧ canvas_width c = to_usize (width bounds) ∧ canvas_height c = to_usize (height bounds) ∧
    canvas_ok c ∧ ∀ px py, 0 ≤ px < canvas_width c → 0 ≤ py < canvas_height c →
      lookup_pixel c px py = Some (painted (build_display_list root) px py).
Proof.
  intros Hroot Hw Hh Hcap. pose proof (to_usize_range _ Hw) as Rw. pose proof (to_usize_range _ Hh) as Rh. unfold paint.
  destruct (canvas_new_ok oc (to_usize (width bounds)) (to_usize (height bounds))) as (c0 & -> & W0 & H0 & Hok0 & P0); [lia..|].
  cbn [mbind option_bind].
  destruct (items_ok oc (build_display_list root) c0) as (c & -> & W & H & Hok & G);
    [done|rewrite W0; by apply size_ok_cast|rewrite H0; by apply size_ok_cast|done|by apply display_list_valid|].
  exists c. split; [done|]. split; [congruence|]. split; [congruence|]. done.
Qed.

(** ** The page *)
Lemma values_ok_valid v : value_ok v → valid (to_px v) = true.
Proof. destruct v as [k|f []|c]; [done|by intros [? _]|done]. Qed.

Lemma specified_valid elem sheet : sheet_ok sheet → values_valid (specified_values elem sheet).
Proof.
  intros Hs. unfold specified_values.
  assert (Hr : Forall (λ p : MatchedRule, rule_ok p.2) (stable_sort rule_leb (matching_rules elem sheet))).
  { rewrite stable_sort_perm. apply Forall_forall. intros [sp rl] (rule & Hin & E)%elem_of_filter_map.
    unfold match_rule in E. destruct (find _ _); [|done]. cbn [mbind option_bind] in E. injection E as _ <-.
    unfold sheet_ok in Hs. rewrite Forall_forall in Hs. by apply Hs. }
  assert (H0 : values_valid ∅) by apply map_Forall_empty. revert H0. generalize (∅ : gmap str Value).
  induction Hr as [|[sp rl] l Hr Hl IH]; intros m Hm; [done|]. cbn [foldl snd]. apply IH. unfold insert_declarations.
  destruct Hr as (_ & _ & _ & Hds). cbn [snd] in Hds. clear -Hm Hds. revert m Hm.
  induction Hds as [|d ds [_ Hd] Hds IH]; intros m Hm; [done|]. cbn [foldl]. apply IH, map_Forall_insert_2; [|done].
  by apply values_ok_valid.
Qed.

Lemma style_tree_valid sheet n : sheet_ok sheet → styled_valid (style_tree sheet n).
Proof.
  intros Hs. induction n as [cs t IH] using Node_tree_ind. cbn [style_tree]. constructor.
  - destruct t; [apply map_Forall_empty|by apply specified_valid].
  - apply Forall_map. apply IH.
Qed.

(** The style and the boxes of a page, when there are any. *)
Definition page_boxes (dom : Node) (sheet : Stylesheet) (w h : f32) : option LayoutBox :=
  layout_tree (style_tree sheet dom) (viewport w h).

Lemma page_boxes_some dom sheet w h : sheet_ok sheet → valid w = true → valid h = true →
  display (style_tree sheet dom) ≠ None_ → ∃ b, page_boxes dom sheet w h = Some b ∧ box_valid b.
Proof.
  intros Hs Hw Hh Hd. unfold page_boxes, layout_tree.
  destruct (build_valid (style_tree sheet dom)) as (b & -> & Hb); [by apply style_tree_valid|done|]. cbn [mbind option_bind].
  eexists. split; [done|]. apply layout_valid; [done|]. unfold viewport, set_height. split_valid.
Qed.

(** Painting a page: every write is inside of the canvas, which has the size of the
    bounds, and every pixel ends up with the colour of the last item of the display
    list that covers it, white where there is none.  A canvas of more bytes than an
    allocation can have is the only panic. *)
Theorem paint_painters root bounds :
  box_valid root → valid (width bounds) = true → valid (height bounds) = true →
  let w := to_usize (width bounds) in
  let h := to_usize (height bounds) in
  if 4 * (w * h) <=? isize_max
  then ∀ oc, ∃ c, paint oc root bounds = Some c ∧ canvas_width c = w ∧ canvas_height c = h ∧
    Z.of_nat (length (pixels c)) = w * h ∧
    ∀ px py, 0 ≤ px < w → 0 ≤ py < h → pixels c !! Z.to_nat (py * w + px) = Some (painted (build_display_list root) px py)
  else paint true root bounds = None.
Proof.
  intros Hroot Hw Hh. cbv zeta. pose proof (to_usize_range _ Hw). pose proof (to_usize_range _ Hh).
  destruct (Z.leb_spec (4 * (to_usize (width bounds) * to_usize (height bounds))) isize_max) as [Hcap|Hcap].
  - intros oc. destruct (paint_ok oc root bounds Hroot Hw Hh Hcap) as (c & E & W & Hc & (_ & _ & _ & Hl) & G).
    exists c. rewrite <-W, <-Hc. split_and!; [done..| |done]. rewrite Hl, W, Hc. nia.
  - unfold paint. by rewrite canvas_new_panics by lia.
Qed.

(** A page from its texts to its picture: it has the width of the viewport and the height
    of the page or the viewport, the larger, and every pixel has the colour of the last
    item that covers it; a root with [display: none] panics. *)
Definition picture (b : LayoutBox) (pw ph : Z) (l : list Color) : Prop :=
  Z.of_nat (length l) = pw * ph ∧
  ∀ px py, 0 ≤ px < pw → 0 ≤ py < ph → l !! Z.to_nat (py * pw + px) = Some (painted (build_display_list b) px py).
Definition ppm (pw ph : Z) (l : list Color) : list Z :=
  lit "P6" ++ [LF] ++ show pw ++ [SPACE] ++ show ph ++ [LF] ++ lit "255" ++ [LF] ++ flat_map (λ p, [c_r p; c_g p; c_b p]) l.
Lemma page_renders oc html css_src dom sheet w h :
  HtmlParser.parse html = Ret dom → Css.parse css_src = Ret sheet → valid w = true → valid h = true →
  match display (style_tree sheet dom) with
  | None_ => page oc html css_src w h = Panic
  | _ => ∃ b, page_boxes dom sheet w h = Some b ∧
      let pw := to_usize w in
      let ph := to_usize (height (page_bounds b w h)) in
      4 * (pw * ph) ≤ isize_max → ∃ c,
        page oc html css_src w h = Ret (page_bounds b w h, c) ∧ to_ppm c = ppm pw ph (pixels c) ∧ picture b pw ph (pixels c)
  end.
Proof.
  intros Hdom Hsheet Hw Hh. pose proof (parse_ok _ _ Hsheet) as Hok.
  assert (Hmain : display (style_tree sheet dom) ≠ None_ → ∃ b, page_boxes dom sheet w h = Some b ∧
      let pw := to_usize w in
      let ph := to_usize (height (page_bounds b w h)) in
      4 * (pw * ph) ≤ isize_max → ∃ c,
        page oc html css_src w h = Ret (page_bounds b w h, c) ∧ to_ppm c = ppm pw ph (pixels c) ∧ picture b pw ph (pixels c)).
  { intros Hd. destruct (page_boxes_some dom sheet w h Hok Hw Hh Hd) as (b & E & Hb). exists b. split; [done|]. cbv zeta. intros Hcap.
    assert (Hp : valid (height (page_bounds b w h)) = true).
    { apply fmax_valid; [|done]. inversion_clear Hb as [d t cs Hdv _ _]. apply margin_box_valid in Hdv. by apply andb_prop in Hdv as [_ ?]. }
    destruct (paint_ok oc b (page_bounds b w h) Hb Hw Hp Hcap) as (c & Ec & Wc & Hc & (H1 & H2 & _ & Hl) & G). exists c. unfold picture. split_and!.
    - unfold page. rewrite Hdom, Hsheet. cbn [obind]. fold (page_boxes dom sheet w h). rewrite E. cbn [of_option obind]. by rewrite Ec.
    - unfold to_ppm, ppm. rewrite Wc, Hc. done.
    - rewrite Hl, Wc, Hc, Z2Nat.id; [done|]. rewrite <-Wc, <-Hc. by apply Z.mul_nonneg_nonneg.
    - intros px py Hx Hy. specialize (G px py). rewrite Wc, Hc in G. unfold lookup_pixel in G. rewrite Wc in G. by apply G. }
  destruct (display (style_tree sheet dom)) eqn:E; [by apply Hmain|by apply Hmain|].
  unfold page. rewrite Hdom, Hsheet. cbn [obind]. unfold layout_tree.
  destruct (style_tree sheet dom) as [n m cs] eqn:Es. rewrite build_eq, E. done.
Qed.

(** ** An example *)
Definition page_html : str := lit "<div><p>a</p><p>b</p></div>".
Definition page_css : str := lit "div { display: block; width: 2px; padding: 1px; background: #00ff00; } p { display: block; height: 1px; background: #ff0000; }".
Example page_example :
  obind (page true page_html page_css (of_Z 5) (of_Z 1)) (λ p, Ret (to_ppm p.2)) =
  Ret (lit "P6" ++ [LF] ++ lit "5 4" ++ [LF] ++ lit "255" ++ [LF] ++
    concat (map (flat_map (λ c : Z, match c with 1 => [0; 255; 0] | 2 => [255; 0; 0] | _ => [255; 255; 255] end))
      [[1; 1; 1; 1; 0]; [1; 2; 2; 1; 0]; [1; 2; 2; 1; 0]; [1; 1; 1; 1; 0]])).
Proof. vm_compute. reflexivity. Qed.

Definition page_dom : Node :=
  elem (lit "div") ∅ [elem (lit "p") ∅ [text (lit "a")]; elem (lit "p") ∅ [text (lit "b")]].
Definition page_sheet : Stylesheet :=
  mkSheet [mkRule [Simple (mkSelector (Some (lit "div")) None [])]
      [mkDeclaration (lit "display") (Keyword (lit "block")); mkDeclaration (lit "width") (Length (of_Z 2) Px);
       mkDeclaration (lit "padding") (Length (of_Z 1) Px); mkDeclaration (lit "background") (ColorValue (rgb 0 255 0))];
    mkRule [Simple (mkSelector (Some (lit "p")) None [])]
      [mkDeclaration (lit "display") (Keyword (lit "block")); mkDeclaration (lit "height") (Length (of_Z 1) Px);
       mkDeclaration (lit "background") (ColorValue (rgb 255 0 0))]].

Definition red_box : LayoutBox :=
  mkBox (mkDimensions (mkRect zero zero (of_Z 2) (of_Z 1)) default_edges default_edges default_edges)
    (BlockNode (mkStyled page_dom {[lit "background" := ColorValue (rgb 255 0 0)]} [])) [].
Lemma paint_painters_witness : ∃ c, paint true red_box (mkRect zero zero (of_Z 3) (of_Z 1)) = Some c ∧
  pixels c !! 1%nat = Some (painted (build_display_list red_box) 1 0) ∧ painted (build_display_list red_box) 1 0 = rgb 255 0 0.
Proof.
  pose proof (paint_painters red_box (mkRect zero zero (of_Z 3) (of_Z 1))) as H. cbv zeta in H.
  replace (4 * _ <=? isize_max) with true in H by (vm_compute; reflexivity).
  destruct H with (oc := true) as (c & E & _ & _ & _ & G).
  - unfold red_box. constructor; [vm_compute; reflexivity| |constructor].
    unfold type_valid, values_valid. cbn [get_style_node specified]. by apply map_Forall_singleton.
  - vm_compute. reflexivity.
  - vm_compute. reflexivity.
  - exists c. split; [exact E|]. split; [|vm_compute; reflexivity]. apply (G 1 0); vm_compute; split; congruence.
Defined.
