(* ===== verification/BrowserMain.v ===== *)
(** * The browser engine: the program
    ([2026-08-26-rust-browser-engine/src/main.rs])

    From the arguments and the files to the exit code, the messages and the picture
    that is written.  What reading and creating a file gives is the operating system's
    ([System]), with the text of its errors. *)
From S2P Require Import Prelude RustStr RustUtf8 RustSort F32 F32Text Scanner HtmlParser HtmlParserProps Css CssProps Style StyleProps Layout PaintProps.

(** What reading a path gives, and why it cannot be written to, if it cannot. *)
Record System : Type := mkSystem { read : str → result (list Z) str; write_error : str → option str }.

(** The end of the process: its code, its output, and the file that it wrote. *)
Record Exit : Type := mkExit { code : Z; stdout : str; stderr : str; written : option (str * list Z) }.
Definition exit_1 (message : str) : Exit := mkExit 1 [] (message ++ [LF]) None.

(** [fs::read_to_string] *)
Definition not_utf8 : str := lit "stream did not contain valid UTF-8".
Definition read_to_string (os : System) (path : str) : result str str :=
  match read os path with
  | Ok bytes => result_of_option not_utf8 (from_utf8 bytes)
  | Err e => Err e
  end.

Definition usage (program : str) : Exit :=
  exit_1 (lit "usage: " ++ program ++ lit " <page.html> <page.css> <out.ppm> [viewport_width] [viewport_height]").

(** [args.get(i).and_then(|s| s.parse().ok()).unwrap_or(d)] *)
Definition size_arg (args : list str) (i : nat) (d : f32) : f32 := default d (args !! i ≫= parse_f32).

Definition failed (what path e : str) : Exit := exit_1 (lit "failed to " ++ what ++ lit " " ++ path ++ lit ": " ++ e).

Definition main (oc : bool) (args : list str) (os : System) : outcome Exit :=
  if (length args <? 4)%nat then
    match args !! 0%nat with Some program => Ret (usage program) | None => Panic end
  else
    obind (of_option (args !! 1%nat)) (λ html_path,
    match read_to_string os html_path with
    | Err e => Ret (failed (lit "read") html_path e)
    | Ok html =>
    obind (of_option (args !! 2%nat)) (λ css_path,
    match read_to_string os css_path with
    | Err e => Ret (failed (lit "read") css_path e)
    | Ok css_src =>
    obind (of_option (args !! 3%nat)) (λ out_path,
    let width := size_arg args 4 (of_Z 800) in
    let height := size_arg args 5 (of_Z 600) in
    obind (page oc html css_src width height) (λ '(bounds, canvas),
    match write_error os out_path with
    | Some e => Ret (failed (lit "write") out_path e)
    | None =>
        Ret (mkExit 0
          (lit "wrote " ++ out_path ++ lit " (" ++ show_f32 width ++ lit "x" ++ show_f32 (Layout.height bounds) ++
           lit ") from " ++ html_path ++ lit " + " ++ css_path ++ [LF]) [] (Some (out_path, to_ppm canvas)))
    end))
    end)
    end).

(** ** Its cases *)
Lemma size_arg_valid args i d : valid d = true → valid (size_arg args i d) = true.
Proof.
  intros Hd. unfold size_arg. destruct (args !! i ≫= parse_f32) as [v|] eqn:E; [|done]. cbn.
  destruct (args !! i); [|done]. by eapply parse_f32_valid.
Qed.

Section program.
Context (oc : bool) (os : System) (program html_path css_path out_path : str) (rest : list str).
Let args : list str := program :: html_path :: css_path :: out_path :: rest.
Let w : f32 := size_arg args 4 (of_Z 800).
Let h : f32 := size_arg args 5 (of_Z 600).

Lemma main_read html css_src : read_to_string os html_path = Ok html → read_to_string os css_path = Ok css_src →
  main oc args os = obind (page oc html css_src w h) (λ '(bounds, canvas),
    match write_error os out_path with
    | Some e => Ret (failed (lit "write") out_path e)
    | None => Ret (mkExit 0
        (lit "wrote " ++ out_path ++ lit " (" ++ show_f32 w ++ lit "x" ++ show_f32 (Layout.height bounds) ++
         lit ") from " ++ html_path ++ lit " + " ++ css_path ++ [LF]) [] (Some (out_path, to_ppm canvas)))
    end).
Proof.
  intros Hh Hc. unfold main. change (length args <? 4)%nat with false. change (args !! 1%nat) with (Some html_path).
  change (args !! 2%nat) with (Some css_path). change (args !! 3%nat) with (Some out_path). cbn [of_option obind]. by rewrite Hh, Hc.
Qed.

(** C22. The browser from its command line to the file: when both files hold UTF-8 that is
    read as a page and a style sheet whose root is displayed, and the picture fits an
    allocation, the program exits with 0 and has written one file, the picture: of the
    width of the viewport (800 by default) and the height of the page or the viewport
    (600), the larger, each pixel the colour of the last box that covers it.  If the
    file cannot be written it exits with 1 and the error. *)
Theorem browser_renders html css_src dom sheet :
  read_to_string os html_path = Ok html → read_to_string os css_path = Ok css_src →
  HtmlParser.parse html = Ret dom → Css.parse css_src = Ret sheet → display (style_tree sheet dom) ≠ None_ →
  ∃ b, page_boxes dom sheet w h = Some b ∧
    let pw := to_usize w in
    let ph := to_usize (height (page_bounds b w h)) in
    4 * (pw * ph) ≤ isize_max → ∃ x, main oc args os = Ret x ∧
      match write_error os out_path with
      | Some e => x = failed (lit "write") out_path e
      | None => code x = 0 ∧ stderr x = [] ∧ stdout x ≠ [] ∧ ∃ l, written x = Some (out_path, ppm pw ph l) ∧ picture b pw ph l
      end.
Proof.
  intros Hh Hc Hdom Hsheet Hd.
  pose proof (page_renders oc html css_src dom sheet w h Hdom Hsheet ltac:(by apply size_arg_valid) ltac:(by apply size_arg_valid)) as H.
  rewrite (main_read html css_src Hh Hc).
  assert (H' : ∃ b, page_boxes dom sheet w h = Some b ∧ (4 * (to_usize w * to_usize (height (page_bounds b w h))) ≤ isize_max → ∃ c,
    page oc html css_src w h = Ret (page_bounds b w h, c) ∧ to_ppm c = ppm (to_usize w) (to_usize (height (page_bounds b w h))) (pixels c) ∧
    picture b (to_usize w) (to_usize (height (page_bounds b w h))) (pixels c))) by (by destruct (display (style_tree sheet dom))).
  clear H. destruct H' as (b & Eb & H). exists b. split; [done|]. cbv zeta. intros Hcap.
  destruct (H Hcap) as (c & -> & Ep & Hp). cbn [obind]. destruct (write_error os out_path); [by eexists|].
  eexists. split; [done|]. cbn [code stderr stdout written]. split_and!; [done..|]. exists (pixels c). by rewrite Ep.
Qed.
End program.

(** *** Panics and endless runs *)
(** The texts of a page for which the program panics (exit code 101). *)
Inductive page_panics (html css_src : str) (w h : f32) : Prop :=
| html_panics : HtmlParser.parse html = Panic → page_panics html css_src w h
| css_panics dom : HtmlParser.parse html = Ret dom → Css.parse css_src = Panic → page_panics html css_src w h
| root_hidden dom sheet : HtmlParser.parse html = Ret dom → Css.parse css_src = Ret sheet →
    display (style_tree sheet dom) = None_ → page_panics html css_src w h
| too_large dom sheet b : HtmlParser.parse html = Ret dom → Css.parse css_src = Ret sheet → page_boxes dom sheet w h = Some b →
    isize_max < 4 * (to_usize w * to_usize (height (page_bounds b w h))) → page_panics html css_src w h.

Lemma page_ends oc html css_src w h : valid w = true → valid h = true →
  (page oc html css_src w h = Timeout ↔ HtmlParser.parse html = Timeout) ∧
  (page oc html css_src w h = Panic → page_panics html css_src w h).
Proof.
  intros Hw Hh. destruct (HtmlParser.parse html) as [dom| |] eqn:Edom.
  2,3: unfold page; rewrite Edom; by (split; [split|by constructor]).
  destruct (css_parse_total css_src) as [Hct _]. destruct (Css.parse css_src) as [sheet| |] eqn:Esheet; [| |done].
  2: unfold page; rewrite Edom, Esheet; split; [split; done|]; intros _; by eapply css_panics.
  pose proof (page_renders oc html css_src dom sheet w h Edom Esheet Hw Hh) as H.
  assert (∀ b, page_boxes dom sheet w h = Some b → (4 * (to_usize w * to_usize (height (page_bounds b w h))) ≤ isize_max → ∃ p, page oc html css_src w h = Ret p) →
    (page oc html css_src w h = Timeout ↔ Ret dom = Timeout) ∧ (page oc html css_src w h = Panic → page_panics html css_src w h)) as Hb.
  { intros b Eb Hp. destruct (Z.le_gt_cases (4 * (to_usize w * to_usize (height (page_bounds b w h)))) isize_max) as [Hc|Hc].
    - by destruct (Hp Hc) as [p ->].
    - split; [|intros _; by eapply too_large]. split; [|done]. unfold page. rewrite Edom, Esheet. cbn [obind].
      unfold page_boxes in Eb. rewrite Eb. cbn [of_option obind]. by destruct (paint _ _ _). }
  destruct (display (style_tree sheet dom)) eqn:Ed.
  1,2: destruct H as (b & Eb & H); apply (Hb b Eb); intros Hc; destruct (H Hc) as (c & Ec & _); by eexists.
  rewrite H. split; [done|]. intros _. by eapply root_hidden.
Qed.

Lemma page_height_valid dom sheet w h b : sheet_ok sheet → valid w = true → valid h = true →
  page_boxes dom sheet w h = Some b → valid (height (page_bounds b w h)) = true.
Proof.
  intros Hok Hw Hh Eb. assert (Hd : display (style_tree sheet dom) ≠ None_).
  { intros Hd. unfold page_boxes, layout_tree in Eb. destruct (style_tree sheet dom) as [n m cs]. by rewrite build_eq, Hd in Eb. }
  destruct (page_boxes_some dom sheet w h Hok Hw Hh Hd) as (b' & E & Hb). replace b' with b in Hb by congruence.
  apply fmax_valid; [|done]. inversion_clear Hb as [d t cs Hdv _ _]. apply margin_box_valid in Hdv. by apply andb_prop in Hdv as [_ ?].
Qed.

Lemma page_panics_true html css_src w h : valid w = true → valid h = true →
  page_panics html css_src w h → page true html css_src w h = Panic.
Proof.
  intros Hw Hh [E|dom E Ec|dom sheet E Ec Ed|dom sheet b E Ec Eb Hc].
  - unfold page. by rewrite E.
  - unfold page. by rewrite E, Ec.
  - pose proof (page_renders true html css_src dom sheet w h E Ec Hw Hh) as H. by rewrite Ed in H.
  - unfold page. rewrite E, Ec. cbn [obind]. pose proof (to_usize_range w Hw) as Rw. pose proof (to_usize_range _ (page_height_valid dom sheet w h b (parse_ok _ _ Ec) Hw Hh Eb)) as Rh.
    unfold page_boxes in Eb. rewrite Eb. cbn [of_option obind]. unfold paint.
    change (width (page_bounds b w h)) with w. by rewrite canvas_new_panics by lia.
Qed.

(** Both files are read. *)
Definition both_read (args : list str) (os : System) (html css_src : str) : Prop :=
  (4 ≤ length args)%nat ∧ ∃ html_path css_path, args !! 1%nat = Some html_path ∧ read_to_string os html_path = Ok html ∧
    args !! 2%nat = Some css_path ∧ read_to_string os css_path = Ok css_src.

(** [main] by cases: without a program name, with an early exit, or with both files read. *)
Lemma main_cases oc args os :
  (args = [] ∧ main oc args os = Panic) ∨
  ((∃ x, main oc args os = Ret x) ∧ args ≠ [] ∧ ∀ html css_src, ¬ both_read args os html css_src) ∨
  (∃ html css_src, both_read args os html css_src ∧ (∀ html' css_src', both_read args os html' css_src' → html' = html ∧ css_src' = css_src) ∧
    ∃ k : Rect * Canvas → Exit, main oc args os = obind (page oc html css_src (size_arg args 4 (of_Z 800)) (size_arg args 5 (of_Z 600))) (λ r, Ret (k r))).
Proof.
  destruct args as [|program args]; [by left|right]. destruct args as [|hp [|cp [|out rest]]].
  1,2,3: left; split; [by eexists|split; [done|]]; intros html css_src [Hl _]; simpl in Hl; lia.
  set (args := program :: hp :: cp :: out :: rest).
  assert (E1 : args !! 1%nat = Some hp) by done. assert (E2 : args !! 2%nat = Some cp) by done. assert (E3 : args !! 3%nat = Some out) by done.
  unfold main, both_read. rewrite E1, E2, E3. change (length args <? 4)%nat with false. cbn [of_option obind].
  destruct (read_to_string os hp) as [html|e] eqn:Eh; [|left; split; [by eexists|split; [done|]]; intros h' c' (_ & hp' & cp' & H1 & H2 & H3 & H4); congruence].
  destruct (read_to_string os cp) as [css|e] eqn:Ec; [|left; split; [by eexists|split; [done|]]; intros h' c' (_ & hp' & cp' & H1 & H2 & H3 & H4); congruence].
  right. exists html, css. split; [|split; [intros h' c' (_ & hp' & cp' & H1 & H2 & H3 & H4); split; congruence|]].
  - split; [simpl; lia|]. exists hp, cp. by rewrite Ec.
  - exists (λ '(bounds, canvas), match write_error os out with
      | Some e => failed (lit "write") out e
      | None => mkExit 0 (lit "wrote " ++ out ++ lit " (" ++ show_f32 (size_arg args 4 (of_Z 800)) ++ lit "x" ++ show_f32 (Layout.height bounds) ++
           lit ") from " ++ hp ++ lit " + " ++ cp ++ [LF]) [] (Some (out, to_ppm canvas))
      end).
    destruct (page _ _ _ _ _) as [[bounds c]| |]; [|done..]. cbn [obind]. by destruct (write_error os out).
Qed.

(** C31. The other ends of the browser, for all arguments and files.  With fewer than three
    arguments it prints its usage; the first of the two files that cannot be read or is not
    UTF-8 is reported.  When it exits by itself, it exits with 0 exactly when it has written
    the picture to the path of the third argument, and otherwise with 1, a message, and no
    file written.  It never ends exactly when both files are read and the HTML parser loops.
    It panics only without a program name, or when both files are read and one of the parsers
    panics, the root is not displayed or the picture is too large for an allocation; in a
    build that checks overflow it does panic in all of these cases. *)
Theorem browser_errors oc args os :
  (∀ program, args !! 0%nat = Some program → (length args < 4)%nat → main oc args os = Ret (usage program)) ∧
  (∀ html_path e, (4 ≤ length args)%nat → args !! 1%nat = Some html_path → read_to_string os html_path = Err e →
     main oc args os = Ret (failed (lit "read") html_path e)) ∧
  (∀ html_path html css_path e, (4 ≤ length args)%nat → args !! 1%nat = Some html_path → read_to_string os html_path = Ok html →
     args !! 2%nat = Some css_path → read_to_string os css_path = Err e →
     main oc args os = Ret (failed (lit "read") css_path e)) ∧
  (∀ x, main oc args os = Ret x →
     (code x = 0 ∧ ∃ path data, args !! 3%nat = Some path ∧ write_error os path = None ∧ written x = Some (path, data)) ∨
     (code x = 1 ∧ stdout x = [] ∧ stderr x ≠ [] ∧ written x = None)) ∧
  (main oc args os = Timeout ↔ ∃ html css_src, both_read args os html css_src ∧ HtmlParser.parse html = Timeout) ∧
  (let panics := args = [] ∨ ∃ html css_src, both_read args os html css_src ∧
     page_panics html css_src (size_arg args 4 (of_Z 800)) (size_arg args 5 (of_Z 600)) in
   (main oc args os = Panic → panics) ∧ (panics → main true args os = Panic)).
Proof.
  assert (Hlt : ∀ n, (4 ≤ n)%nat → (n <? 4)%nat = false) by (intros n Hn; apply Nat.ltb_ge; lia).
  assert (Hexit : ∀ m, code (exit_1 m) = 1 ∧ stdout (exit_1 m) = [] ∧ stderr (exit_1 m) ≠ [] ∧ written (exit_1 m) = None).
  { intros m. cbn. split_and!; [done..| |done]. by destruct m. }
  assert (Hw : valid (size_arg args 4 (of_Z 800)) = true) by by apply size_arg_valid.
  assert (Hh : valid (size_arg args 5 (of_Z 600)) = true) by by apply size_arg_valid.
  split; [|split; [|split; [|split; [|split]]]].
  - intros program Hp Hl. unfold main. rewrite (proj2 (Nat.ltb_lt _ _) Hl), Hp. done.
  - intros p e Hl H1 E. unfold main. rewrite Hlt, H1 by done. cbn [of_option obind]. by rewrite E.
  - intros p t q e Hl H1 Et H2 E. unfold main. rewrite Hlt, H1 by done. cbn [of_option obind]. rewrite Et, H2. cbn [of_option obind]. by rewrite E.
  - intros x. unfold main. destruct (length args <? 4)%nat.
    { destruct (args !! 0%nat); [|done]. intros [= <-]. right. apply Hexit. }
    destruct (args !! 1%nat) as [p|]; [|done]. cbn [of_option obind]. destruct (read_to_string os p) as [t|e]; [|intros [= <-]; right; apply Hexit].
    destruct (args !! 2%nat) as [q|]; [|done]. cbn [of_option obind]. destruct (read_to_string os q) as [u|e]; [|intros [= <-]; right; apply Hexit].
    destruct (args !! 3%nat) as [o|]; [|done]. cbn [of_option obind]. destruct (page _ _ _ _ _) as [[bounds c]| |]; [|done..]. cbn [obind].
    destruct (write_error os o) eqn:Ew; intros [= <-]; [right; apply Hexit|]. left. cbn. by eauto 6.
  - destruct (main_cases oc args os) as [[-> ->]|[[[x ->] [_ Hno]]|(html & css & Hb & Hu & k & ->)]].
    + split; [done|]. intros (html & css & [Hl _] & _). simpl in Hl. lia.
    + naive_solver.
    + destruct (page_ends oc html css _ _ Hw Hh) as [Ht _].
      split; [intros E; exists html, css; split; [done|]; apply Ht; by destruct (page _ _ _ _ _)|].
      intros (html' & css' & Hb' & E). destruct (Hu _ _ Hb') as [-> ->]. by rewrite (proj2 Ht E).
  - split.
    + destruct (main_cases oc args os) as [[-> _]|[[[x ->] _]|(html & css & Hb & Hu & k & ->)]]; [by left|done|].
      intros E. right. exists html, css. split; [done|]. apply (page_ends oc html css _ _ Hw Hh). by destruct (page _ _ _ _ _).
    + intros [->|(html & css & Hb & Hp)]; [done|]. destruct (main_cases true args os) as [[_ ->]|[[_ [_ Hno]]|(html' & css' & _ & Hu & k & ->)]]; [done| |].
      * by destruct (Hno _ _ Hb).
      * destruct (Hu _ _ Hb) as [<- <-]. by rewrite (page_panics_true _ _ _ _ Hw Hh Hp).
Qed.

(** ** An example *)
Definition example_os : System := mkSystem
  (λ path, if bool_decide (path = lit "p.html") then Ok (as_bytes page_html)
           else if bool_decide (path = lit "p.css") then Ok (as_bytes page_css) else Err (lit "No such file or directory (os error 2)"))
  (λ _, None).
Definition example_args : list str := List.map lit ["robinson"; "p.html"; "p.css"; "o.ppm"; "5"; "1e0"]%string.

Lemma browser_renders_witness : ∃ x, main true example_args example_os = Ret x ∧ code x = 0 ∧
  ∃ l, written x = Some (lit "o.ppm", ppm 5 4 l).
Proof.
  set (w := size_arg example_args 4 (of_Z 800)). set (h := size_arg example_args 5 (of_Z 600)).
  destruct (browser_renders true example_os (lit "robinson") (lit "p.html") (lit "p.css") (lit "o.ppm") [lit "5"; lit "1e0"]
    page_html page_css page_dom page_sheet) as (b & Hb & H); [vm_compute; reflexivity..|vm_compute; discriminate|].
  change (page_boxes page_dom page_sheet w h = Some b) in Hb.
  assert (Eh : to_usize (height (page_bounds b w h)) = 4).
  { apply (inj Some). transitivity (option_map (λ b, to_usize (height (page_bounds b w h))) (page_boxes page_dom page_sheet w h)); [by rewrite Hb|].
    vm_compute. reflexivity. }
  assert (Ew : to_usize w = 5) by (vm_compute; reflexivity).
  change (4 * (to_usize w * to_usize (height (page_bounds b w h))) ≤ isize_max → ∃ x, main true example_args example_os = Ret x ∧
    code x = 0 ∧ stderr x = [] ∧ stdout x ≠ [] ∧ ∃ l, written x = Some (lit "o.ppm", ppm (to_usize w) (to_usize (height (page_bounds b w h))) l) ∧
      picture b (to_usize w) (to_usize (height (page_bounds b w h))) l) in H.
  rewrite Eh, Ew in H. destruct H as (x & E & Hc & _ & _ & l & Hl & _); [by vm_compute|]. exists x. by eauto.
Defined.
Example browser_prints :
  obind (main true example_args example_os) (λ x, Ret (stdout x)) = Ret (lit "wrote o.ppm (5x4) from p.html + p.css" ++ [LF]).
Proof. vm_compute. reflexivity. Qed.
(** A page that loops, and a style sheet that panics on its unit. *)
Definition bad_os : System := mkSystem
  (λ path, if bool_decide (path = lit "loop.html") then Ok (as_bytes (lit "<a /b>"))
           else if bool_decide (path = lit "unit.css") then Ok (as_bytes (lit "p { width: 1em; }")) else Ok (as_bytes page_html))
  (λ _, None).
Lemma browser_errors_witness : main true [lit "robinson"; lit "p.html"] example_os = Ret (usage (lit "robinson")) ∧
  main true [lit "robinson"; lit "p.htm"; []; []] example_os = Ret (failed (lit "read") (lit "p.htm") (lit "No such file or directory (os error 2)")) ∧
  main true [lit "robinson"; lit "loop.html"; lit "unit.css"; []] bad_os = Timeout ∧
  main true [lit "robinson"; lit "p.html"; lit "unit.css"; []] bad_os = Panic.
Proof.
  destruct (browser_errors true [lit "robinson"; lit "p.html"] example_os) as (H & _).
  destruct (browser_errors true [lit "robinson"; lit "p.htm"; []; []] example_os) as (_ & H' & _).
  destruct (browser_errors true [lit "robinson"; lit "loop.html"; lit "unit.css"; []] bad_os) as (_ & _ & _ & _ & Ht & _).
  destruct (browser_errors true [lit "robinson"; lit "p.html"; lit "unit.css"; []] bad_os) as (_ & _ & _ & _ & _ & _ & Hp).
  split; [|split; [|split]].
  - apply H; [reflexivity|cbn; lia].
  - apply H'; [cbn; lia|reflexivity|vm_compute; reflexivity].
  - apply Ht. exists (lit "<a /b>"), (lit "p { width: 1em; }"). split; [|vm_compute; reflexivity]. split; [cbn; lia|].
    exists (lit "loop.html"), (lit "unit.css"). split_and!; vm_compute; reflexivity.
  - apply Hp. right. exists page_html, (lit "p { width: 1em; }"). split; [split; [cbn; lia|]|].
    + exists (lit "p.html"), (lit "unit.css"). split_and!; vm_compute; reflexivity.
    + apply (css_panics _ _ _ _ page_dom); vm_compute; reflexivity.
Defined.
