(* ===== verification/LayoutProps.v ===== *)
(** * The browser engine: properties of the layout

    On pages whose lengths are whole pixels the arithmetic of the layout is exact:
    boxes fill the width of their container and stack without gaps or overlaps. *)
From S2P Require Import Prelude RustStr RustSort F32 Scanner HtmlParser Css CssProps Style Layout PaintProps.

(** ** Widths *)

(** A value of [n] pixels.  What is not a length has none. *)
Definition pixels_of (v : Value) (n : Z) : Prop := to_px v = of_Z n ∧ 0 ≤ n ≤ 2 ^ 18.
(** ... in half pixels *)
Definition halves (v : Value) (z : Z) : Prop := to_px v = fx 148 z ∧ - 2 ^ 22 ≤ z ≤ 2 ^ 22.

Lemma of_Z_halves n : small n → of_Z n = fx 148 (2 * n).
Proof. intros Hn. by rewrite of_Z_fx, fx_half. Qed.
Lemma pixels_halves v n : pixels_of v n → halves v (2 * n).
Proof. intros [E Hn]. split; [|lia]. by rewrite E, of_Z_halves by (unfold small; lia). Qed.
Lemma auto_zero v n : is_auto v = true → pixels_of v n → n = 0.
Proof.
  destruct v as [k| |]; try done. intros _ [E Hn]. cbn [to_px] in E. rewrite of_Z_halves in E by (unfold small; lia).
  unfold fx, zero in E. injection E as E1 E2. nia.
Qed.

Ltac fx_arith := repeat first [rewrite add_fx by (unfold small; lia) | rewrite sub_fx by (unfold small; lia)].

Lemma add_neg_zero z : small z → add (opp zero) (fx 148 z) = fx 148 z.
Proof.
  intros Hz. unfold fx at 1. change (opp zero) with (Fin true 0). unfold add. rewrite signed_fx by lia.
  change (signed true 0 + z * 2 ^ 148) with (0 + z * 2 ^ 148). rewrite Z.add_0_l. destruct (Z.eq_dec z 0) as [->|Hne]; [done|].
  rewrite (proj2 (Z.eqb_neq _ _)) by lia. unfold fx. rewrite <-(Z.mul_1_r (Z.abs (z * 2 ^ 148))), Z.abs_mul.
  rewrite make_exact; [|done|by apply (fx_valid 148)]. f_equal. apply Bool.eq_iff_eq_true. rewrite !Z.ltb_lt. lia.
Qed.

Lemma sum_halves v1 v2 v3 v4 v5 v6 v7 n1 n2 n3 n4 n5 n6 n7 :
  pixels_of v1 n1 → pixels_of v2 n2 → pixels_of v3 n3 → pixels_of v4 n4 → pixels_of v5 n5 → pixels_of v6 n6 → pixels_of v7 n7 →
  sum (map to_px [v1; v2; v3; v4; v5; v6; v7]) = fx 148 (2 * (n1 + n2 + n3 + n4 + n5 + n6 + n7)).
Proof.
  intros [E1 ?] [E2 ?] [E3 ?] [E4 ?] [E5 ?] [E6 ?] [E7 ?]. unfold sum. cbn [map foldl].
  rewrite E1, E2, E3, E4, E5, E6, E7, !of_Z_halves, add_neg_zero by (unfold small; lia). fx_arith. f_equal. lia.
Qed.

Section widths.
Context (c nw nml nmr nbl nbr npl npr : Z) (w ml mr bl br pl pr w' ml' mr' : Value).
Context (Hc : 0 ≤ c ≤ 2 ^ 18) (Hw : pixels_of w nw) (Hml : pixels_of ml nml) (Hmr : pixels_of mr nmr)
  (Hbl : pixels_of bl nbl) (Hbr : pixels_of br nbr) (Hpl : pixels_of pl npl) (Hpr : pixels_of pr npr).

Lemma solve_widths_exact : solve_widths (of_Z c) w ml mr bl br pl pr = (w', ml', mr') →
  ∃ a b e, halves w' a ∧ halves ml' b ∧ halves mr' e ∧ 0 ≤ a ∧ a + b + e + 2 * (nbl + nbr + npl + npr) = 2 * c ∧
    (is_auto w = false → a = 2 * nw) ∧ (is_auto w = false → is_auto ml = true → is_auto mr = true → b = e ∨ b = 0).
Proof using All.
  assert (Bw := proj2 Hw). assert (Bml := proj2 Hml). assert (Bmr := proj2 Hmr). assert (Bbl := proj2 Hbl).
  assert (Bbr := proj2 Hbr). assert (Bpl := proj2 Hpl). assert (Bpr := proj2 Hpr).
  unfold solve_widths. rewrite (sum_halves _ _ _ _ _ _ _ _ _ _ _ _ _ _ Hml Hmr Hbl Hbr Hpl Hpr Hw).
  set (t := nml + nmr + nbl + nbr + npl + npr + nw). rewrite of_Z_halves by (unfold small; lia). rewrite ltb_fx by lia.
  rewrite (sub_fx 148) by (unfold small; lia). replace (2 * c - 2 * t) with (2 * (c - t)) by lia. cbv zeta.
  assert (Hz : pixels_of zero_px 0) by (split; [done|lia]).
  pose proof (pixels_halves _ _ Hw) as [Ew _]. pose proof (pixels_halves _ _ Hml) as [Eml _].
  pose proof (pixels_halves _ _ Hmr) as [Emr _].
  assert (Hnml : is_auto ml = true → nml = 0) by (intros; by eapply auto_zero).
  assert (Hnmr : is_auto mr = true → nmr = 0) by (intros; by eapply auto_zero).
  assert (Hnw : is_auto w = true → nw = 0) by (intros; by eapply auto_zero).
  destruct (is_auto w) eqn:Aw; cbn [negb andb].
  - rewrite Hnw in * by done. clear Ew.
    assert (Hif : ∀ v n, to_px v = fx 148 (2 * n) → (is_auto v = true → n = 0) → to_px (if is_auto v then zero_px else v) = fx 148 (2 * n)).
    { intros v n Ev Hn. destruct (is_auto v); [by rewrite Hn|done]. }
    pose proof (Hif ml nml Eml Hnml) as E1. pose proof (Hif mr nmr Emr Hnmr) as E2.
    assert (Hz0 : leb zero (fx 148 (2 * (c - t))) = (0 <=? 2 * (c - t))) by (change zero with (fx 148 0); by rewrite leb_fx by lia).
    rewrite Hz0. destruct (Z.leb_spec 0 (2 * (c - t))).
    + intros [= <- <- <-]. exists (2 * (c - t)), (2 * nml), (2 * nmr). unfold halves. cbn [to_px]. subst t.
      split_and!; first [done|lia|by intros].
    + rewrite E2, add_fx by (unfold small; lia). intros [= <- <- <-]. exists 0, (2 * nml), (2 * nmr + 2 * (c - t)).
      unfold halves. cbn [to_px]. subst t. split_and!; first [done|lia|by intros].
  - destruct (Z.ltb_spec (2 * c) (2 * t)) as [Hover|Hfit]; cbn [andb].
    + assert (Hif : ∀ v n, to_px v = fx 148 (2 * n) → (is_auto v = true → n = 0) →
        to_px (if is_auto v then zero_px else v) = fx 148 (2 * n) ∧ is_auto (if is_auto v then zero_px else v) = false).
      { intros v n Ev Hn. destruct (is_auto v) eqn:E; [by rewrite Hn|done]. }
      destruct (Hif ml nml Eml Hnml) as [E1 A1]. destruct (Hif mr nmr Emr Hnmr) as [E2 A2]. rewrite A1, A2.
      rewrite E2, add_fx by (unfold small; lia). intros [= <- <- <-].
      exists (2 * nw), (2 * nml), (2 * nmr + 2 * (c - t)). unfold halves. cbn [to_px]. subst t.
      split_and!; first [done|lia|intros _ ?%Hnml _; right; lia].
    + destruct (is_auto ml) eqn:Aml, (is_auto mr) eqn:Amr.
      * rewrite div_two_fx by (unfold small; lia). intros [= <- <- <-]. exists (2 * nw), (c - t), (c - t). unfold halves. cbn [to_px].
        rewrite Hnml, Hnmr in * by done. subst t. split_and!; first [done|lia|intros; by left].
      * intros [= <- <- <-]. exists (2 * nw), (2 * (c - t)), (2 * nmr). unfold halves. cbn [to_px].
        rewrite Hnml in * by done. subst t. split_and!; first [done|lia|done].
      * intros [= <- <- <-]. exists (2 * nw), (2 * nml), (2 * (c - t)). unfold halves. cbn [to_px].
        rewrite Hnmr in * by done. subst t. split_and!; first [done|lia|done].
      * rewrite Emr, add_fx by (unfold small; lia). intros [= <- <- <-].
        exists (2 * nw), (2 * nml), (2 * nmr + 2 * (c - t)). unfold halves. cbn [to_px]. subst t. split_and!; first [done|lia|done].
Qed.
End widths.

(** Every length of a node is whole. *)
Definition whole (s : StyledNode) : Prop := map_Forall (λ _ v, ∃ n, pixels_of v n) (specified s).

Lemma zero_pixels : pixels_of zero_px 0.
Proof. split; [done|lia]. Qed.
Lemma auto_pixels : pixels_of auto 0.
Proof. split; [done|lia]. Qed.
Lemma lookup_whole s n1 n2 : whole s → ∃ n, pixels_of (lookup s n1 n2 zero_px) n.
Proof.
  intros Hs. unfold lookup, value. destruct (specified s !! n1) as [v|] eqn:E1; [by eapply Hs|].
  destruct (specified s !! n2) as [v|] eqn:E2; [by eapply Hs|]. exists 0. apply zero_pixels.
Qed.
Lemma value_whole s n : whole s → ∃ k, pixels_of match value s n with Some v => v | None => auto end k.
Proof. intros Hs. unfold value. destruct (specified s !! n) as [v|] eqn:E; [by eapply Hs|]. exists 0. apply auto_pixels. Qed.

(** C33. The width equation of CSS: with whole pixels the margins, borders, paddings and the
    content of a block add up to exactly the width of its container; the content is
    never of negative width, an explicit width is kept, and two [auto] margins are equal
    (or the left one is zero, when the block is too wide). *)
Theorem block_fills_container style d cb c :
  whole style → width (content cb) = of_Z c → 0 ≤ c ≤ 2 ^ 18 →
  let d' := calculate_block_width (BlockNode style) d cb in
  width (margin_box d') = of_Z c ∧ leb zero (width (content d')) = true ∧
  (∀ f, value style (lit "width") = Some (Length f Px) → width (content d') = f) ∧
  (value style (lit "width") ≠ None → is_auto (match value style (lit "width") with Some v => v | None => auto end) = false →
   is_auto (lookup style (lit "margin-left") (lit "margin") zero_px) = true →
   is_auto (lookup style (lit "margin-right") (lit "margin") zero_px) = true →
   left (margin d') = right (margin d') ∨ left (margin d') = zero).
Proof.
  intros Hs Ec Hc. cbv zeta. unfold calculate_block_width. cbn [get_style_node]. rewrite Ec.
  destruct (value_whole style (lit "width") Hs) as [nw Hw].
  destruct (lookup_whole style (lit "margin-left") (lit "margin") Hs) as [nml Hml].
  destruct (lookup_whole style (lit "margin-right") (lit "margin") Hs) as [nmr Hmr].
  destruct (lookup_whole style (lit "border-left-width") (lit "border-width") Hs) as [nbl Hbl].
  destruct (lookup_whole style (lit "border-right-width") (lit "border-width") Hs) as [nbr Hbr].
  destruct (lookup_whole style (lit "padding-left") (lit "padding") Hs) as [npl Hpl].
  destruct (lookup_whole style (lit "padding-right") (lit "padding") Hs) as [npr Hpr].
  destruct (solve_widths _ _ _ _ _ _ _ _) as [[w' ml'] mr'] eqn:E.
  destruct (solve_widths_exact c nw nml nmr nbl nbr npl npr _ _ _ _ _ _ _ _ _ _ Hc Hw Hml Hmr Hbl Hbr Hpl Hpr E)
    as (a & b & e & [Ew Ha] & [Eb Hb] & [Ee He] & Ha0 & Hsum & Hkeep & Hauto).
  unfold margin_box, border_box, padding_box, expanded_by, set_width, set_sides.
  cbn [content padding border margin width height x y left right top bottom].
  destruct Hbl as [Ebl Bbl], Hbr as [Ebr Bbr], Hpl as [Epl Bpl], Hpr as [Epr Bpr].
  rewrite of_Z_halves in Ebl, Ebr, Epl, Epr by (unfold small; lia). rewrite Ew, Eb, Ee, Ebl, Ebr, Epl, Epr.
  split; [|split; [|split]].
  - fx_arith. rewrite of_Z_halves by (unfold small; lia). f_equal. lia.
  - change zero with (fx 148 0). rewrite leb_fx by lia. by apply Z.leb_le.
  - intros f Ef. rewrite Ef in Hw, Hkeep. rewrite Hkeep by done. destruct Hw as [Hw Bw]. rewrite of_Z_halves in Hw by (unfold small; lia).
    by rewrite <-Hw.
  - intros _ H1 H2 H3. destruct (Hauto H1 H2 H3) as [->| ->]; [by left|by right].
Qed.

Lemma block_fills_container_witness :
  let style := mkStyled page_dom {[lit "width" := Length (of_Z 200) Px; lit "margin" := auto; lit "padding" := Length (of_Z 10) Px]} [] in
  width (margin_box (calculate_block_width (BlockNode style) default_dimensions (viewport (of_Z 801) (of_Z 600)))) = of_Z 801.
Proof.
  intros style. apply (block_fills_container style default_dimensions (viewport (of_Z 801) (of_Z 600)) 801); [|done|lia].
  unfold whole, style. cbn [specified]. repeat apply map_Forall_insert_2; try apply map_Forall_empty; try apply map_Forall_singleton.
  - exists 200. split; [done|lia].
  - exists 0. split; [done|lia].
  - exists 10. split; [done|lia].
Defined.

(** ** Heights and positions *)

(** The margin boxes of the block boxes of [cs] lie one below the other, from [a] to [e]. *)
Inductive tiles : f32 → list LayoutBox → f32 → Prop :=
| tiles_nil a : tiles a [] a
| tiles_inline a c cs e : is_inline (box_type c) = true → tiles a cs e → tiles a (c :: cs) e
| tiles_block a c cs e : is_inline (box_type c) = false → y (margin_box (dimensions c)) = a →
    tiles (add a (height (margin_box (dimensions c)))) cs e → tiles a (c :: cs) e.

Definition explicit_height (t : BoxType) : option f32 :=
  match get_style_node t with
  | Some s => match value s (lit "height") with Some (Length h Px) => Some h | _ => None end
  | None => None
  end.
(** The blocks of a laid-out tree tile the content of their parents, whose height is
    where they end, or the one that the style gives. *)
Inductive stacked : LayoutBox → Prop :=
| stacked_inline d s cs : stacked (mkBox d (InlineNode s) cs)
| stacked_block d t cs e : is_inline t = false → Forall stacked cs → tiles (y (content d)) cs e →
    match explicit_height t with
    | Some h => height (content d) = h
    | None => add (y (content d)) (height (content d)) = e
    end → stacked (mkBox d t cs).

(** A vertical length of a box in pixels, and a bound of the height of a tree. *)
Definition edge (t : BoxType) (n1 n2 : str) : Z :=
  match get_style_node t with Some s => to_usize (to_px (lookup s n1 n2 zero_px)) | None => 0 end.
Definition edges (t : BoxType) : list Z :=
  [edge t (lit "margin-top") (lit "margin"); edge t (lit "margin-bottom") (lit "margin");
   edge t (lit "border-top-width") (lit "border-width"); edge t (lit "border-bottom-width") (lit "border-width");
   edge t (lit "padding-top") (lit "padding"); edge t (lit "padding-bottom") (lit "padding")].
Definition total (l : list Z) : Z := foldr Z.add 0 l.
Fixpoint extent (b : LayoutBox) : Z :=
  let 'mkBox _ t cs := b in
  if is_inline t then 0
  else total (edges t) + match explicit_height t with Some h => to_usize h | None => 0 end + total (map extent cs).

(** A tree as [build_layout_tree] makes it, of whole pixels. *)
Inductive plain : LayoutBox → Prop :=
| plain_box t cs : match get_style_node t with Some s => whole s | None => True end → Forall plain cs →
    plain (mkBox default_dimensions t cs).

Lemma to_usize_of_Z n : 0 ≤ n → small n → to_usize (of_Z n) = n.
Proof.
  intros H0 Hn. rewrite of_Z_fx by done. unfold fx. rewrite (proj2 (Z.ltb_ge _ _)) by lia. cbn [to_usize].
  rewrite Z.abs_eq by done. change one_mag with (2 ^ 149). rewrite Z.div_mul by done. unfold usize_max, small in *. lia.
Qed.
Lemma of_Z_add a b : small a → small b → small (a + b) → add (of_Z a) (of_Z b) = of_Z (a + b).
Proof. intros. rewrite !of_Z_fx by done. by rewrite add_fx. Qed.
Lemma of_Z_sub a b : small a → small b → small (a - b) → sub (of_Z a) (of_Z b) = of_Z (a - b).
Proof. intros. rewrite !of_Z_fx by done. rewrite sub_fx; [done|lia|done]. Qed.

(** Sums and differences of whole pixels, innermost first. *)
Ltac px_arith := repeat first [rewrite of_Z_add by (unfold small; lia) | rewrite of_Z_sub by (unfold small; lia)].

Lemma edge_spec s t n1 n2 : get_style_node t = Some s → whole s → to_px (lookup s n1 n2 zero_px) = of_Z (edge t n1 n2) ∧ 0 ≤ edge t n1 n2.
Proof.
  intros Et Hs. unfold edge. rewrite Et. destruct (lookup_whole s n1 n2 Hs) as (n & E & Hn). rewrite E.
  rewrite to_usize_of_Z by (unfold small; lia). split; [done|lia].
Qed.

(** The pass for the widths leaves the vertical edges and the height alone. *)
Definition bottoms (d : Dimensions) : list f32 := [bottom (margin d); bottom (border d); bottom (padding d); height (content d)].
Lemma block_width_vertical t d cb : bottoms (calculate_block_width t d cb) = bottoms d.
Proof.
  unfold calculate_block_width. destruct (get_style_node t); [|done]. by destruct (solve_widths _ _ _ _ _ _ _ _) as [[? ?] ?].
Qed.

(** The vertical dimensions after the pass for the position. *)
Lemma vertical_edges t d cb :
  match get_style_node t with Some s => whole s | None => True end → bottoms d = [zero; zero; zero; zero] →
  ∃ mt mb bt bb pt pb : Z, edges t = [mt; mb; bt; bb; pt; pb] ∧ 0 ≤ mt ∧ 0 ≤ mb ∧ 0 ≤ bt ∧ 0 ≤ bb ∧ 0 ≤ pt ∧ 0 ≤ pb ∧
    let d' := calculate_block_position t d cb in
    top (margin d') = of_Z mt ∧ bottom (margin d') = of_Z mb ∧ top (border d') = of_Z bt ∧ bottom (border d') = of_Z bb ∧
    top (padding d') = of_Z pt ∧ bottom (padding d') = of_Z pb ∧ height (content d') = zero ∧
    y (content d') = add (add (add (add (height (content cb)) (y (content cb))) (of_Z mt)) (of_Z bt)) (of_Z pt).
Proof.
  intros Hs [= E1 E2 E3 E4]. unfold edges. do 6 eexists. split; [done|]. unfold calculate_block_position.
  destruct (get_style_node t) as [s|] eqn:Et.
  - pose proof (λ n1 n2, proj2 (edge_spec s t n1 n2 Et Hs)) as Hp. pose proof (λ n1 n2, proj1 (edge_spec s t n1 n2 Et Hs)) as Hq.
    unfold set_top_bottom. cbn [content padding border margin top bottom left right x y width height]. rewrite <-!Hq.
    split_and!; first [apply Hp|done].
  - unfold edge. rewrite Et. split_and!; done.
Qed.

Lemma plain_extent b : plain b → 0 ≤ extent b.
Proof.
  induction b as [d t cs IH] using LayoutBox_tree_ind. intros Hp. inversion Hp as [t' cs' Hs Hcs E1]. subst. cbn [extent].
  destruct (is_inline t); [done|].
  destruct (vertical_edges t default_dimensions default_dimensions Hs)  as (mt & mb & bt & bb & pt & pb & E & H); [done|].
  assert (0 ≤ match explicit_height t with Some h => to_usize h | None => 0 end).
  { unfold explicit_height. destruct (get_style_node t) as [s|]; [|done]. unfold value.
    destruct (specified s !! lit "height") as [[k|h []|c]|] eqn:Eh; try done. destruct (Hs _ _ Eh) as (n & En & Hn). cbn [to_px] in En.
    rewrite En, to_usize_of_Z by (unfold small; lia). lia. }
  assert (0 ≤ total (map extent cs)).
  { clear -IH Hcs. induction Hcs as [|c cs Hc Hcs IHc]; [done|]. inversion_clear IH as [|? ? H1 H2]. cbn [map total foldr].
    specialize (H1 Hc). specialize (IHc H2). unfold total in *. lia. }
  rewrite E. cbn [total foldr]. lia.
Qed.

(** Where a laid-out box is, in a container that is [h0] high already. *)
Definition placed (b : LayoutBox) (top_y : Z) (max : Z) : Prop :=
  stacked b ∧ (∃ h, height (margin_box (dimensions b)) = of_Z h ∧ 0 ≤ h ≤ max) ∧
  (is_inline (box_type b) = false → y (margin_box (dimensions b)) = of_Z top_y).

Lemma children_placed cs d y0 h0 :
  Forall (λ c, plain c → ∀ cb Y H, y (content cb) = of_Z Y → height (content cb) = of_Z H → 0 ≤ Y → 0 ≤ H → Y + H + extent c ≤ 2 ^ 23 →
    placed (layout c cb) (Y + H) (extent c)) cs →
  Forall plain cs → y (content d) = of_Z y0 → height (content d) = of_Z h0 → 0 ≤ y0 → 0 ≤ h0 → y0 + h0 + total (map extent cs) ≤ 2 ^ 23 →
  let r := layout_children d cs in
  ∃ h, h0 ≤ h ≤ h0 + total (map extent cs) ∧ r.1 = set_height d (of_Z h) ∧ Forall stacked r.2 ∧
    tiles (of_Z (y0 + h0)) r.2 (of_Z (y0 + h)).
Proof.
  intros IH Hp. revert d h0. induction Hp as [|c cs Hc Hcs IHc]; intros d h0 Hy Hh H0 H1 Hb; cbn [layout_children map total foldr] in *.
  - exists h0. split_and!; [lia|lia| |constructor|constructor]. destruct d as [[? ? ? ?] ? ? ?]. unfold set_height. cbn in *. by rewrite Hh.
  - inversion_clear IH as [|? ? IH1 IH2]. fold (total (map extent cs)) in *. pose proof (plain_extent c Hc) as Hext.
    assert (Hexts : 0 ≤ total (map extent cs)).
    { clear -Hcs. induction Hcs as [|c cs Hc%plain_extent Hcs IHc]; [done|]. cbn [map total foldr]. unfold total in *. lia. }
    destruct (IH1 Hc d y0 h0 Hy Hh H0 H1 ltac:(lia)) as (Hst & (h & Eh & Hr) & Htop).
    destruct (IHc IH2 (grow d (layout c d)) (h0 + h)) as (h' & Hr' & E' & Hst' & Ht').
    + done.
    + unfold grow, set_height. cbn [content height]. rewrite Hh, Eh. px_arith. done.
    + done.
    + lia.
    + lia.
    + exists h'. split; [lia|]. split; [rewrite E'; by destruct d|]. cbn [snd]. split; [by constructor|].
      destruct (is_inline (box_type (layout c d))) eqn:Ei.
      * apply tiles_inline; [done|]. destruct c as [dc tc csc]. assert (dc = default_dimensions) as -> by by inversion Hc.
        rewrite layout_eq in Ei, Eh. destruct (is_inline tc) eqn:Et; [|cbn [box_type] in Ei; congruence].
        cbn [dimensions] in Eh. assert (h = 0) as ->.
        { apply (f_equal to_usize) in Eh. rewrite to_usize_of_Z in Eh by (unfold small; lia). rewrite <-Eh. vm_compute. done. }
        by rewrite Z.add_0_r in Ht'.
      * apply tiles_block; [done|by apply Htop|]. rewrite Eh. px_arith. by rewrite <-Z.add_assoc.
Qed.

Lemma layout_placed b : plain b → ∀ cb Y H, y (content cb) = of_Z Y → height (content cb) = of_Z H → 0 ≤ Y → 0 ≤ H →
  Y + H + extent b ≤ 2 ^ 23 → placed (layout b cb) (Y + H) (extent b).
Proof.
  induction b as [d t cs IH] using LayoutBox_tree_ind. intros Hp cb Y H HY HH H0 H1 Hb. pose proof (plain_extent _ Hp) as Hext0.
  inversion Hp as [t' cs' Hs Hcs E1]. subst. rewrite layout_eq. cbn [extent] in *. destruct (is_inline t) eqn:Ei.
  { destruct t; try done. split; [constructor|]. split; [exists 0; split; [vm_compute; reflexivity|lia]|done]. }
  cbv zeta. destruct (vertical_edges t (calculate_block_width t default_dimensions cb) cb Hs) as
    (mt & mb & bt & bb & pt & pb & Ee & ? & ? & ? & ? & ? & ? & Emt & Emb & Ebt & Ebb & Ept & Epb & Eh & Ey);
    [apply block_width_vertical|].
  rewrite Ee in *. cbn [total foldr] in *. fold (total (map extent cs)) in *.
  set (d1 := calculate_block_position t _ cb) in *. clearbody d1.
  assert (Hexts : 0 ≤ total (map extent cs)).
  { clear -Hcs. induction Hcs as [|c cs Hc%plain_extent Hcs IHc]; [done|]. cbn [map total foldr]. unfold total in *. lia. }
  assert (Hexp : ∃ k, 0 ≤ k ∧ small k ∧ match explicit_height t with Some h => h = of_Z k ∧ to_usize h = k | None => k = 0 end).
  { unfold explicit_height. destruct (get_style_node t) as [s|]; [|by exists 0]. unfold value.
    destruct (specified s !! lit "height") as [[k|h []|c]|] eqn:Ev; try by exists 0. destruct (Hs _ _ Ev) as (n & En & Hn). cbn [to_px] in En.
    subst h. exists n. rewrite to_usize_of_Z by (unfold small; lia). unfold small. split_and!; done || lia. }
  destruct Hexp as (k & Hk0 & Hks & Hk).
  assert (Hkx : match explicit_height t with Some h => to_usize h | None => 0 end = k) by (destruct (explicit_height t); naive_solver).
  rewrite Hkx in *.
  assert (Ey1 : y (content d1) = of_Z (Y + H + mt + bt + pt)).
  { rewrite Ey, HY, HH. px_arith. f_equal. lia. }
  destruct (children_placed cs d1 (Y + H + mt + bt + pt) 0 IH Hcs Ey1) as (h & Hh & Er & Hst & Ht); [done|lia..|].
  rewrite Z.add_0_l in Hh. rewrite Z.add_0_r in Ht.
  set (r := layout_children d1 cs) in *. clearbody r. destruct r as [d2 cs2]. cbn [fst snd] in *. subst d2.
  set (hh := match explicit_height t with Some _ => k | None => h end).
  assert (Ed : calculate_block_height t (set_height d1 (of_Z h)) = set_height d1 (of_Z hh)).
  { unfold calculate_block_height, hh, explicit_height in *. destruct (get_style_node t) as [s|]; [|done].
    destruct (value s (lit "height")) as [[?|h1 []|?]|]; try done. destruct Hk as [-> _]. by destruct d1 as [[? ? ? ?] ? ? ?]. }
  assert (Hhh : 0 ≤ hh ≤ k + total (map extent cs)) by (unfold hh; destruct (explicit_height t); lia).
  rewrite Ed. clear Ey Hkx. destruct d1 as [[x1 y1 w1 h1] [pl pr pt1 pb1] [bl br bt1 bb1] [ml mr mt1 mb1]]. unfold set_height in *.
  cbn [content padding border margin x y width height left right top bottom] in *. subst.
  split; [|split].
  - eapply stacked_block; [done..|exact Ht|]. unfold hh. cbn [content y height]. destruct (explicit_height t); [by destruct Hk|]. by px_arith.
  - exists (hh + pt + pb + bt + bb + mt + mb). unfold margin_box, border_box, padding_box, expanded_by.
    cbn [dimensions content padding border margin x y width height left right top bottom]. px_arith. split; [done|lia].
  - intros _. unfold margin_box, border_box, padding_box, expanded_by.
    cbn [dimensions content padding border margin x y width height left right top bottom]. px_arith. f_equal. lia.
Qed.

(** A styled tree of whole pixels builds a plain tree. *)
Inductive styled_whole : StyledNode → Prop :=
| styled_whole_node n m cs : whole (mkStyled n m cs) → Forall styled_whole cs → styled_whole (mkStyled n m cs).

Lemma push_child_plain b c : plain b → plain c → plain (push_child b c).
Proof. intros [t cs Ht Hcs] Hc. constructor; [done|]. apply Forall_app. by split; [|constructor]. Qed.
Lemma push_inline_plain b c : plain b → plain c → plain (push_inline b c).
Proof.
  intros Hb Hc. assert (Hn : plain (push_child (new_box AnonymousBlock) c)) by (apply push_child_plain; [by constructor|done]).
  unfold push_inline. destruct Hb as [t cs Ht Hcs]. cbn [box_type]. destruct t; try (by apply push_child_plain; [constructor|]).
  destruct cs as [|l cs _] using rev_ind; [by constructor; [|constructor]|].
  rewrite last_snoc. apply Forall_app in Hcs as [Hcs Hl]. inversion_clear Hl as [|? ? Hl' _]. destruct (is_anonymous l).
  - rewrite removelast_last. constructor; [done|]. apply Forall_app. split; [done|]. constructor; [|done]. by apply push_child_plain.
  - constructor; [done|]. rewrite !Forall_app. split_and!; [done|by constructor|by constructor].
Qed.
Lemma build_plain s : styled_whole s → display s ≠ None_ → ∃ b, build_layout_tree s = Some b ∧ plain b.
Proof.
  apply build_invariant; [|apply push_child_plain|apply push_inline_plain].
  intros t [n m cs Hm Hcs]. split_and!; [done|by constructor|by constructor].
Qed.

(** C24. Blocks stack: on a page where every specified length is a whole number of
    pixels, at most 2^18, and where the heights and the vertical edges add up to at most
    2^23 pixels, so that the floats are exact (with fractions they can leave a gap),
    the margin boxes of the block children of every box lie exactly one below the
    other, from the top of its content to the bottom of it, unless its style gives the
    height; the root is at the top of the page.  Only the root can be refused. *)
Theorem blocks_stack s b w h :
  styled_whole s → build_layout_tree s = Some b → extent b ≤ 2 ^ 23 →
  ∃ root, layout_tree s (viewport w h) = Some root ∧ stacked root ∧
    (is_inline (box_type root) = false → y (margin_box (dimensions root)) = zero).
Proof.
  intros Hs Hb Hext. unfold layout_tree. rewrite Hb. cbn [mbind option_bind]. eexists. split; [done|].
  destruct (build_plain s Hs) as (b' & E & Hp).
  { intros Hd. destruct s as [n m cs]. by rewrite build_eq, Hd in Hb. }
  rewrite Hb in E. injection E as <-.
  destruct (layout_placed b Hp (set_height (viewport w h) zero) 0 0) as (H1 & _ & H2); [done..|lia|]. split; [done|].
  intros Hi. by rewrite H2.
Qed.

Definition paragraph : StyledNode :=
  mkStyled page_dom {[lit "display" := Keyword (lit "block"); lit "height" := Length (of_Z 30) Px; lit "margin" := Length (of_Z 5) Px]} [].
Definition two_paragraphs : StyledNode :=
  mkStyled page_dom {[lit "display" := Keyword (lit "block")]} [paragraph; paragraph].
Lemma whole_keyword k : ∃ n, pixels_of (Keyword k) n.
Proof. exists 0. split; [done|lia]. Qed.
Lemma whole_length n : (0 <=? n) && (n <=? 2 ^ 18) = true → ∃ m, pixels_of (Length (of_Z n) Px) m.
Proof. intros Hn. exists n. split; [done|lia]. Qed.
Lemma blocks_stack_witness : ∃ b root, build_layout_tree two_paragraphs = Some b ∧
  layout_tree two_paragraphs (viewport (of_Z 800) (of_Z 0)) = Some root ∧ stacked root.
Proof.
  assert (Hp : styled_whole paragraph).
  { constructor; [|constructor]. unfold whole. cbn [specified].
    apply map_Forall_insert_2; [apply whole_keyword|]. apply map_Forall_insert_2; [by apply whole_length|].
    apply map_Forall_singleton. by apply whole_length. }
  assert (Hs : styled_whole two_paragraphs).
  { constructor; [|constructor; [exact Hp|constructor; [exact Hp|constructor]]]. unfold whole. cbn [specified]. apply map_Forall_singleton, whole_keyword. }
  destruct (build_plain two_paragraphs Hs) as (b & E & _); [vm_compute; congruence|].
  assert (Hext : match build_layout_tree two_paragraphs with Some b => extent b <=? 2 ^ 23 | None => false end = true)
    by (vm_compute; reflexivity).
  rewrite E in Hext. apply Z.leb_le in Hext.
  destruct (blocks_stack two_paragraphs b (of_Z 800) (of_Z 0) Hs E Hext) as (root & E1 & H & _).
  exists b, root. split_and!; [exact E|exact E1|exact H].
Defined.
