(* ===== verification/LinkedList.v ===== *)
(** * The singly linked stack ([2026-07-22-rust-linked-list/src/lib.rs])

    [List], [Link] and [Node] are the source's types; a [Box] owns its node, so a
    list is a value.  A method on [&mut self] returns the new list.  A reference
    handed out by [peek_mut] or [iter_mut] is modelled by what the caller makes
    of the element behind it (a function on the element).

    The three iterators implement one interface, [Iterator]; [collect] is the
    consumer the tests and [main.rs] write as a [for] loop. *)
From S2P Require Import Prelude.

Section linked_list.
Context {T : Type}.

Inductive Node : Type :=
| mkNode (elem : T) (next : option Node).

Definition Link : Type := option Node.

Definition elem (n : Node) : T := match n with mkNode e _ => e end.
Definition next (n : Node) : Link := match n with mkNode _ l => l end.

Record List : Type := mkList { head : Link }.

Definition new : List := mkList None.

(** [self.head.take()] leaves [None] behind; the old link becomes [next]. *)
Definition push (t : T) (l : List) : List :=
  let new_node := mkNode t (head l) in mkList (Some new_node).

Definition pop (l : List) : option T * List :=
  match head l with
  | Some node => (Some (elem node), mkList (next node))
  | None => (None, l)
  end.

Definition peek (l : List) : option T :=
  match head l with Some node => Some (elem node) | None => None end.

(** [peek_mut], and the list once the caller has written [f] of the element
    through the reference. *)
Definition peek_mut (f : T → T) (l : List) : option T * List :=
  match head l with
  | Some node => (Some (elem node), mkList (Some (mkNode (f (elem node)) (next node))))
  | None => (None, l)
  end.

Definition is_empty (l : List) : bool := match head l with None => true | Some _ => false end.

(** ** Iterators *)
Record IntoIter : Type := mkIntoIter { into_list : List }.
Record Iter : Type := mkIter { iter_next : Link }.

Definition into_iter (l : List) : IntoIter := mkIntoIter l.
Definition iter (l : List) : Iter := mkIter (head l).

Definition IntoIter_next (i : IntoIter) : option T * IntoIter :=
  let '(r, l) := pop (into_list i) in (r, mkIntoIter l).

Definition Iter_next (i : Iter) : option T * Iter :=
  match iter_next i with
  | Some node => (Some (elem node), mkIter (next node))
  | None => (None, i)
  end.

(** [IterMut]: the nodes already yielded, latest first, as the consumer left
    them, and the link still to visit. *)
Record IterMut : Type := mkIterMut { visited : list T; mut_next : Link }.

Definition iter_mut (l : List) : IterMut := mkIterMut [] (head l).

Definition IterMut_next (f : T → T) (i : IterMut) : option T * IterMut :=
  match mut_next i with
  | Some node => (Some (elem node), mkIterMut (f (elem node) :: visited i) (next node))
  | None => (None, i)
  end.

(** The list once the borrow of an [IterMut] ends: visited nodes in front. *)
Definition release (i : IterMut) : List :=
  mkList (foldl (λ l t, Some (mkNode t l)) (mut_next i) (visited i)).

(** [impl Iterator]: one [next]. *)
Class Iterator (S : Type) := iterator_next : S → option T * S.
#[export] Instance IntoIter_Iterator : Iterator IntoIter := IntoIter_next.
#[export] Instance Iter_Iterator : Iterator Iter := Iter_next.

(** [for t in it { .. }] : at most [fuel] calls of [next]; whether the loop
    ended, what it yielded and the iterator it leaves. *)
Fixpoint collect {S} (nxt : S → option T * S) (fuel : nat) (s : S) : bool * list T * S :=
  match fuel with
  | O => (false, [], s)
  | Datatypes.S fuel =>
      match nxt s with
      | (None, s') => (true, [], s')
      | (Some t, s') => let '(e, ts, s'') := collect nxt fuel s' in (e, t :: ts, s'')
      end
  end.

(** ** Dropping

    The trace of a drop: each element dropped and the recursion depth (of drop
    glue frames) at which it happens.  [drop_glue] is what the compiler derives
    for a [Box<Node<T>>]: drop the element, then recurse into [next]. *)
Fixpoint drop_glue (depth : nat) (n : Node) : list (T * nat) :=
  match n with
  | mkNode t None => [(t, depth)]
  | mkNode t (Some n') => (t, depth) :: drop_glue (S depth) n'
  end.

(** [impl Drop for List]: each turn takes the link out of the node, then the
    node, whose [next] is now [None], goes out of scope. *)
Fixpoint drop_loop (boxed_node : Node) : list (T * nat) :=
  match boxed_node with
  | mkNode t cur_link =>
      let unlinked := mkNode t None in
      drop_glue 0 unlinked ++ match cur_link with Some n => drop_loop n | None => [] end
  end.
Definition drop (l : List) : list (T * nat) :=
  match head l with Some n => drop_loop n | None => [] end.

(** ** The abstract stack *)
Fixpoint node_list (n : Node) : list T :=
  match n with mkNode t l => t :: match l with Some n' => node_list n' | None => [] end end.
Definition link_list (l : Link) : list T := match l with Some n => node_list n | None => [] end.
Definition to_list (l : List) : list T := link_list (head l).

Lemma node_list_cons t l : node_list (mkNode t l) = t :: link_list l.
Proof. done. Qed.

(** The calls of the interface and what each returns. *)
Inductive call : Type :=
| Push (t : T) | Pop | Peek | PeekMut (f : T → T) | IsEmpty.

Inductive answer : Type :=
| Unit | Elem (o : option T) | Bool (b : bool).

Definition do_call (c : call) (l : List) : answer * List :=
  match c with
  | Push t => (Unit, push t l)
  | Pop => let '(r, l') := pop l in (Elem r, l')
  | Peek => (Elem (peek l), l)
  | PeekMut f => let '(r, l') := peek_mut f l in (Elem r, l')
  | IsEmpty => (Bool (is_empty l), l)
  end.

(** The specification: a stack as a list of elements, the top first. *)
Definition spec_call (c : call) (s : list T) : answer * list T :=
  match c, s with
  | Push t, _ => (Unit, t :: s)
  | Pop, [] => (Elem None, [])
  | Pop, t :: s' => (Elem (Some t), s')
  | Peek, [] => (Elem None, [])
  | Peek, t :: _ => (Elem (Some t), s)
  | PeekMut _, [] => (Elem None, [])
  | PeekMut f, t :: s' => (Elem (Some t), f t :: s')
  | IsEmpty, _ => (Bool (bool_decide (s = [])), s)
  end.

Fixpoint run_calls {S} (step : call → S → answer * S) (cs : list call) (s : S) : list answer * S :=
  match cs with
  | [] => ([], s)
  | c :: cs' =>
      let '(r, s') := step c s in let '(rs, s'') := run_calls step cs' s' in (r :: rs, s'')
  end.

Lemma do_call_spec c l :
  (do_call c l).1 = (spec_call c (to_list l)).1 ∧
  to_list (do_call c l).2 = (spec_call c (to_list l)).2.
Proof. by destruct c, l as [[[? [?|]]|]]. Qed.

(** C34. Every sequence of calls on a new list answers as the stack of the
    specification does, and the list then holds that stack, top first. *)
Theorem list_refines_stack (cs : list call) :
  (run_calls do_call cs new).1 = (run_calls spec_call cs []).1 ∧
  to_list (run_calls do_call cs new).2 = (run_calls spec_call cs []).2.
Proof.
  assert (Hgen : ∀ cs l,
    (run_calls do_call cs l).1 = (run_calls spec_call cs (to_list l)).1 ∧
    to_list (run_calls do_call cs l).2 = (run_calls spec_call cs (to_list l)).2);
    [|exact (Hgen cs new)].
  clear cs. induction cs as [|c cs IH]; intros l; [done|]. simpl.
  destruct (do_call_spec c l) as [Hr Hl]. destruct (do_call c l) as [r l'].
  destruct (spec_call c (to_list l)) as [r' s']. simpl in *. subst.
  destruct (IH l') as [IH1 IH2]. destruct (run_calls do_call cs l'), (run_calls spec_call cs _).
  simpl in *. by subst.
Qed.

Lemma collect_S {S} (nxt : S → option T * S) k s :
  collect nxt (Datatypes.S k) s =
    match nxt s with
    | (None, s') => (true, [], s')
    | (Some t, s') => let '(e, ts, s'') := collect nxt k s' in (e, t :: ts, s'')
    end.
Proof. done. Qed.

(** An iterator whose [next] yields the head of an abstraction [abs]. *)
Lemma collect_all {S} (nxt : S → option T * S) (abs : S → list T) ts s :
  (∀ s, match abs s with
        | [] => (nxt s).1 = None
        | t :: ts => (nxt s).1 = Some t ∧ abs (nxt s).2 = ts
        end) →
  abs s = ts → (collect nxt (Datatypes.S (length ts)) s).1 = (true, ts).
Proof.
  intros H. revert s. induction ts as [|t ts IH]; intros s E; specialize (H s) as Hs;
    rewrite E in Hs; rewrite collect_S; destruct (nxt s) as [o s']; simpl in Hs.
  - by rewrite Hs.
  - destruct Hs as [-> Habs]. specialize (IH s' Habs). cbn [length].
    destruct (collect nxt _ s') as [[e us] s'']. simpl in *. by injection IH as -> ->.
Qed.

Lemma collect_iter_mut f ts v l :
  link_list l = ts →
  let r := collect (IterMut_next f) (Datatypes.S (length ts)) (mkIterMut v l) in
  r.1 = (true, ts) ∧ mut_next r.2 = None ∧ visited r.2 = rev (List.map f ts) ++ v.
Proof.
  revert v l. induction ts as [|t ts IH]; intros v l E; cbn zeta; rewrite collect_S;
    destruct l as [[t' l']|]; try discriminate E; [done|].
  change (t' :: link_list l' = t :: ts) in E. injection E as -> E.
  cbn [IterMut_next mut_next elem next visited length]. specialize (IH (f t :: v) l' E).
  cbn zeta in IH. destruct (collect _ _ (mkIterMut (f t :: v) l')) as [[e us] i]. simpl in *.
  destruct IH as (IH1 & IH2 & IH3). injection IH1 as -> ->. split_and!; [done|done|].
  by rewrite IH3, <-app_assoc.
Qed.

Lemma release_list v l : link_list (head (release (mkIterMut v l))) = rev v ++ link_list l.
Proof.
  unfold release. simpl. revert l. induction v as [|t v IH]; intros l; [done|].
  simpl. rewrite IH. simpl. by rewrite <-app_assoc.
Qed.

(** The iterators terminate after [length + 1] calls: [iter] and [into_iter]
    yield the elements top first, [iter_mut] yields them too and leaves the list
    with every element replaced by what was written through its reference. *)
Theorem iterators_yield_in_order (l : List) (f : T → T) :
  let n := Datatypes.S (length (to_list l)) in
  (collect (iterator_next (S := Iter)) n (iter l)).1 = (true, to_list l) ∧
  (collect (iterator_next (S := IntoIter)) n (into_iter l)).1 = (true, to_list l) ∧
  (collect (IterMut_next f) n (iter_mut l)).1 = (true, to_list l) ∧
  to_list (release (collect (IterMut_next f) n (iter_mut l)).2) = List.map f (to_list l).
Proof.
  cbn zeta. split; [|split].
  - apply (collect_all Iter_next (λ i, link_list (iter_next i))); [|done].
    by intros [[[? [?|]]|]].
  - apply (collect_all IntoIter_next (λ i, to_list (into_list i))); [|done].
    by intros [[[[? [?|]]|]]].
  - destruct (collect_iter_mut f (to_list l) [] (head l) eq_refl) as (H1 & H2 & H3).
    split; [exact H1|]. unfold iter_mut.
    destruct (collect _ _ (mkIterMut [] (head l))) as [p [v nx]]. simpl in H2, H3. subst.
    cbn [snd]. unfold to_list at 1. rewrite release_list. simpl.
    by rewrite !app_nil_r, rev_involutive.
Qed.

Lemma drop_glue_depths d n :
  drop_glue d n = zip (node_list n) (seq d (length (node_list n))).
Proof.
  revert d n. fix IH 2. intros d [t [n'|]]; [|done]. simpl. by rewrite (IH (S d) n').
Qed.

(** Dropping a list drops every element exactly once, top first, and always at
    recursion depth 0; the derived drop would be [n - 1] frames deep at the last of
    [n] elements. *)
Theorem drop_constant_depth (l : List) :
  drop l = List.map (λ t, (t, 0%nat)) (to_list l) ∧
  match head l with
  | Some n => drop_glue 0 n = zip (to_list l) (seq 0 (length (to_list l)))
  | None => drop l = []
  end.
Proof.
  split.
  - destruct l as [[n|]]; [|done]. unfold drop, to_list. simpl.
    revert n. fix IH 1. intros [t [n'|]]; [|done]. simpl. by rewrite (IH n').
  - destruct l as [[n|]]; [|done]. apply drop_glue_depths.
Qed.
End linked_list.
Arguments Node T : clear implicits.
Arguments List T : clear implicits.
