(* ===== verification/LinkedListDemo.v ===== *)
(** * The singly linked stack: the demo ([2026-07-22-rust-linked-list/src/main.rs])

    What the program prints, as a text computed from the calls of the library. *)
From S2P Require Import Prelude RustStr LinkedList.

Definition println (s : str) : str := s ++ [LF].
(** [{:?}] of an [Option<&i32>] *)
Definition debug_option (o : option Z) : str :=
  match o with Some z => lit "Some(" ++ show_i32 z ++ lit ")" | None => lit "None" end.
(** [for elem in it { print!(" {elem}"); }] *)
Definition print_all (l : list Z) : str := concat (List.map (λ z, lit " " ++ show_i32 z) l).

(** The three loops have fuel for the elements and the last [next]; [None] if one had
    not ended.  The elements are doubled far below the bounds of [i32]. *)
Definition main : option str :=
  let list := push 3 (push 2 (push 1 new)) in
  let peeked := peek list in
  let '(e1, _, i) := collect (IterMut_next (λ elem, elem * 2)) 4 (iter_mut list) in
  let list := release i in
  let '(e2, contents, _) := collect Iter_next 4 (iter list) in
  let '(e3, drained, _) := collect IntoIter_next 4 (into_iter list) in
  if e1 && e2 && e3 then
    Some (println (lit "pushing 1, 2, 3") ++
          println (lit "peek: " ++ debug_option peeked) ++
          println (lit "doubling every element via iter_mut") ++
          println (lit "contents front-to-back via iter():" ++ print_all contents) ++
          println (lit "draining via into_iter():" ++ print_all drained))
  else None.

Example main_prints : main = Some (concat (List.map println
  [lit "pushing 1, 2, 3"; lit "peek: Some(3)"; lit "doubling every element via iter_mut";
   lit "contents front-to-back via iter(): 6 4 2"; lit "draining via into_iter(): 6 4 2"])).
Proof. vm_compute. reflexivity. Qed.
