(* ===== verification/LinkedListTests.v ===== *)
(** * The unit tests of the singly linked stack

    The tests of [2026-07-22-rust-linked-list/src/lib.rs], on the definitions of
    [LinkedList]. *)
From S2P Require Import Prelude RustStr UnitTest LinkedList.
#[local] Open Scope rust_scope.

Definition push_pop_peek : test :=
  let list := @new Z in
  let '(r, list) := pop list in assert! (r == None);
  let list := push 1 list in let list := push 2 list in let list := push 3 list in
  assert! (peek list == Some 3);
  let '(r, list) := pop list in assert! (r == Some 3);
  let '(r, list) := pop list in assert! (r == Some 2);
  let list := push 4 list in let list := push 5 list in
  let '(r, list) := pop list in assert! (r == Some 5);
  let '(r, list) := pop list in assert! (r == Some 4);
  let '(r, list) := pop list in assert! (r == Some 1);
  let '(r, list) := pop list in assert! (r == None).

Definition peek_mut_mutates_top : test :=
  let list := push 3 (push 2 (push 1 (@new Z))) in
  let '(_, list) := peek_mut (λ _, 42) list in
  assert! (peek list == Some 42);
  let '(r, list) := pop list in assert! (r == Some 42).

Definition into_iter_consumes_in_lifo_order : test :=
  let iter := into_iter (push 3 (push 2 (push 1 (@new Z)))) in
  let '(r, iter) := IntoIter_next iter in assert! (r == Some 3);
  let '(r, iter) := IntoIter_next iter in assert! (r == Some 2);
  let '(r, iter) := IntoIter_next iter in assert! (r == Some 1);
  let '(r, iter) := IntoIter_next iter in assert! (r == None).

Definition iter_borrows_without_consuming : test :=
  let list := push 3 (push 2 (push 1 (@new Z))) in
  let it := iter list in
  let '(r, it) := Iter_next it in assert! (r == Some 3);
  let '(r, it) := Iter_next it in assert! (r == Some 2);
  let '(r, it) := Iter_next it in assert! (r == Some 1);
  let '(r, it) := Iter_next it in assert! (r == None);
  assert! (peek list == Some 3).

(** The [for] loop calls [next] until it returns [None]: four times. *)
Definition iter_mut_mutates_each_element : test :=
  let list := push 3 (push 2 (push 1 (@new Z))) in
  let '(ended, _, it) := collect (IterMut_next (λ x, x * 10)) 4 (iter_mut list) in
  assert! ended;
  let list := release it in
  let it := iter list in
  let '(r, it) := Iter_next it in assert! (r == Some 30);
  let '(r, it) := Iter_next it in assert! (r == Some 20);
  let '(r, it) := Iter_next it in assert! (r == Some 10).

Definition is_empty_tracks_state : test :=
  let list := @new Z in
  assert! (is_empty list);
  let list := push 1 list in
  assert! (negb (is_empty list));
  let '(_, list) := pop list in
  assert! (is_empty list).

(** The stack does not overflow because no drop runs inside another. *)
Definition long_list_drops_without_stack_overflow : test :=
  let '(_, list) := Pos.iter (λ '(i, list), (i + 1, push i list)) (0, @new Z) 200000 in
  assert! (forallb (λ p : Z * nat, (p.2 =? 0)%nat) (drop list)).

Example linked_list_tests :
  all_pass [push_pop_peek; peek_mut_mutates_top; into_iter_consumes_in_lifo_order; iter_borrows_without_consuming;
            iter_mut_mutates_each_element; is_empty_tracks_state; long_list_drops_without_stack_overflow] = true.
Proof. vm_compute. reflexivity. Qed.
