(* ===== verification/Nes6502.v ===== *)
(** * The MOS 6502 core ([2026-10-12-rust-nes-6502/src/lib.rs]): definitions

    [Cpu] is the struct, its memory a finite map with absent bytes read as 0
    (the zero-initialised array of 65536 bytes).  A method on [&mut self] is a
    function from [Cpu] to [Cpu]; one that also returns a value returns the pair.
    Only [operand_addr] can panic ([unreachable!]), hence the [option] of [exec]
    and [step].  The lemmas on flags, stack and memory that the properties of
    [Nes6502Props] rest on are here too. *)
From S2P Require Import Prelude.

Definition FLAG_C : Z := 0x01.
Definition FLAG_Z : Z := 0x02.
Definition FLAG_I : Z := 0x04.
Definition FLAG_D : Z := 0x08.
Definition FLAG_B : Z := 0x10.
Definition FLAG_U : Z := 0x20.
Definition FLAG_V : Z := 0x40.
Definition FLAG_N : Z := 0x80.

Definition STACK_BASE : Z := 0x0100.
Definition RESET_VECTOR : Z := 0xFFFC.
Definition IRQ_VECTOR : Z := 0xFFFE.

Inductive Mode : Set :=
| Imp | Acc | Imm | Zp | ZpX | ZpY | Abs | AbsX | AbsY | Ind | IndX | IndY | Rel.

#[export] Instance Mode_eq_dec : EqDecision Mode.
Proof. solve_decision. Defined.

(** [Mode::size]: instruction length in bytes, opcode included. *)
Definition size (m : Mode) : Z :=
  match m with
  | Imp | Acc => 1
  | Imm | Zp | ZpX | ZpY | IndX | IndY | Rel => 2
  | Abs | AbsX | AbsY | Ind => 3
  end.

Inductive Op : Set :=
| Adc | And | Asl | Bcc | Bcs | Beq | Bit | Bmi | Bne | Bpl | Brk | Bvc | Bvs | Clc | Cld | Cli | Clv
| Cmp | Cpx | Cpy | Dec | Dex | Dey | Eor | Inc | Inx | Iny | Jmp | Jsr | Lda | Ldx | Ldy | Lsr | Nop
| Ora | Pha | Php | Pla | Plp | Rol | Ror | Rti | Rts | Sbc | Sec | Sed | Sei | Sta | Stx | Sty | Tax
| Tay | Tsx | Txa | Txs | Tya.

#[export] Instance Op_eq_dec : EqDecision Op.
Proof. solve_decision. Defined.

(** Every official opcode: (byte, operation, addressing mode). *)
Definition OPCODES : list (Z * Op * Mode) :=
  [(0x69, Adc, Imm); (0x65, Adc, Zp); (0x75, Adc, ZpX); (0x6D, Adc, Abs); (0x7D, Adc, AbsX); (0x79, Adc, AbsY); (0x61, Adc, IndX); (0x71, Adc, IndY);
   (0x29, And, Imm); (0x25, And, Zp); (0x35, And, ZpX); (0x2D, And, Abs); (0x3D, And, AbsX); (0x39, And, AbsY); (0x21, And, IndX); (0x31, And, IndY);
   (0x0A, Asl, Acc); (0x06, Asl, Zp); (0x16, Asl, ZpX); (0x0E, Asl, Abs); (0x1E, Asl, AbsX);
   (0x90, Bcc, Rel); (0xB0, Bcs, Rel); (0xF0, Beq, Rel); (0x30, Bmi, Rel); (0xD0, Bne, Rel); (0x10, Bpl, Rel); (0x50, Bvc, Rel); (0x70, Bvs, Rel);
   (0x24, Bit, Zp); (0x2C, Bit, Abs); (0x00, Brk, Imp);
   (0x18, Clc, Imp); (0xD8, Cld, Imp); (0x58, Cli, Imp); (0xB8, Clv, Imp);
   (0xC9, Cmp, Imm); (0xC5, Cmp, Zp); (0xD5, Cmp, ZpX); (0xCD, Cmp, Abs); (0xDD, Cmp, AbsX); (0xD9, Cmp, AbsY); (0xC1, Cmp, IndX); (0xD1, Cmp, IndY);
   (0xE0, Cpx, Imm); (0xE4, Cpx, Zp); (0xEC, Cpx, Abs);
   (0xC0, Cpy, Imm); (0xC4, Cpy, Zp); (0xCC, Cpy, Abs);
   (0xC6, Dec, Zp); (0xD6, Dec, ZpX); (0xCE, Dec, Abs); (0xDE, Dec, AbsX); (0xCA, Dex, Imp); (0x88, Dey, Imp);
   (0x49, Eor, Imm); (0x45, Eor, Zp); (0x55, Eor, ZpX); (0x4D, Eor, Abs); (0x5D, Eor, AbsX); (0x59, Eor, AbsY); (0x41, Eor, IndX); (0x51, Eor, IndY);
   (0xE6, Inc, Zp); (0xF6, Inc, ZpX); (0xEE, Inc, Abs); (0xFE, Inc, AbsX); (0xE8, Inx, Imp); (0xC8, Iny, Imp);
   (0x4C, Jmp, Abs); (0x6C, Jmp, Ind); (0x20, Jsr, Abs);
   (0xA9, Lda, Imm); (0xA5, Lda, Zp); (0xB5, Lda, ZpX); (0xAD, Lda, Abs); (0xBD, Lda, AbsX); (0xB9, Lda, AbsY); (0xA1, Lda, IndX); (0xB1, Lda, IndY);
   (0xA2, Ldx, Imm); (0xA6, Ldx, Zp); (0xB6, Ldx, ZpY); (0xAE, Ldx, Abs); (0xBE, Ldx, AbsY);
   (0xA0, Ldy, Imm); (0xA4, Ldy, Zp); (0xB4, Ldy, ZpX); (0xAC, Ldy, Abs); (0xBC, Ldy, AbsX);
   (0x4A, Lsr, Acc); (0x46, Lsr, Zp); (0x56, Lsr, ZpX); (0x4E, Lsr, Abs); (0x5E, Lsr, AbsX);
   (0xEA, Nop, Imp);
   (0x09, Ora, Imm); (0x05, Ora, Zp); (0x15, Ora, ZpX); (0x0D, Ora, Abs); (0x1D, Ora, AbsX); (0x19, Ora, AbsY); (0x01, Ora, IndX); (0x11, Ora, IndY);
   (0x48, Pha, Imp); (0x08, Php, Imp); (0x68, Pla, Imp); (0x28, Plp, Imp);
   (0x2A, Rol, Acc); (0x26, Rol, Zp); (0x36, Rol, ZpX); (0x2E, Rol, Abs); (0x3E, Rol, AbsX);
   (0x6A, Ror, Acc); (0x66, Ror, Zp); (0x76, Ror, ZpX); (0x6E, Ror, Abs); (0x7E, Ror, AbsX);
   (0x40, Rti, Imp); (0x60, Rts, Imp);
   (0xE9, Sbc, Imm); (0xE5, Sbc, Zp); (0xF5, Sbc, ZpX); (0xED, Sbc, Abs); (0xFD, Sbc, AbsX); (0xF9, Sbc, AbsY); (0xE1, Sbc, IndX); (0xF1, Sbc, IndY);
   (0x38, Sec, Imp); (0xF8, Sed, Imp); (0x78, Sei, Imp);
   (0x85, Sta, Zp); (0x95, Sta, ZpX); (0x8D, Sta, Abs); (0x9D, Sta, AbsX); (0x99, Sta, AbsY); (0x81, Sta, IndX); (0x91, Sta, IndY);
   (0x86, Stx, Zp); (0x96, Stx, ZpY); (0x8E, Stx, Abs);
   (0x84, Sty, Zp); (0x94, Sty, ZpX); (0x8C, Sty, Abs);
   (0xAA, Tax, Imp); (0xA8, Tay, Imp); (0xBA, Tsx, Imp); (0x8A, Txa, Imp); (0x9A, Txs, Imp); (0x98, Tya, Imp)].

(** [OPCODES.iter().find(|e| e.0 == opcode).map(|e| (e.1, e.2))] *)
Definition decode (opcode : Z) : option (Op * Mode) :=
  match List.find (λ e : Z * Op * Mode, e.1.1 =? opcode) OPCODES with
  | Some e => Some (e.1.2, e.2)
  | None => None
  end.

Inductive StepError : Set :=
| UnknownOpcode (opcode pc : Z).

Record Cpu := mkCpu {
  a : Z; x : Z; y : Z; sp : Z; pc : Z; status : Z;
  memory : gmap Z Z
}.

(** The field assignments [self.f = v]. *)
Definition set_a v c := mkCpu v (x c) (y c) (sp c) (pc c) (status c) (memory c).
Definition set_x v c := mkCpu (a c) v (y c) (sp c) (pc c) (status c) (memory c).
Definition set_y v c := mkCpu (a c) (x c) v (sp c) (pc c) (status c) (memory c).
Definition set_sp v c := mkCpu (a c) (x c) (y c) v (pc c) (status c) (memory c).
Definition set_pc v c := mkCpu (a c) (x c) (y c) (sp c) v (status c) (memory c).
Definition set_status v c := mkCpu (a c) (x c) (y c) (sp c) (pc c) v (memory c).
Definition set_memory v c := mkCpu (a c) (x c) (y c) (sp c) (pc c) (status c) v.

(** [Cpu::new]: the empty map is the array of zeros. *)
Definition new : Cpu := mkCpu 0 0 0 0xFD 0 (Z.lor FLAG_I FLAG_U) ∅.

Definition read (c : Cpu) (addr : Z) : Z := default 0 (memory c !! addr).
Definition write (addr v : Z) (c : Cpu) : Cpu := set_memory (<[addr := v]> (memory c)) c.

(** [u16::from_le_bytes([lo, hi])] and [!v] on a byte. *)
Definition from_le (lo hi : Z) : Z := Z.lor lo (Z.shiftl hi 8).
Definition not8 (v : Z) : Z := Z.lxor v 0xFF.

Definition read_u16 (c : Cpu) (addr : Z) : Z := from_le (read c addr) (read c (wrap16 (addr + 1))).

(** The slice [memory[start..start+len]] panics when it ends past the array. *)
Definition load (origin : Z) (program : list Z) (c : Cpu) : option Cpu :=
  if Z.of_nat (length program) + origin <=? 65536 then
    let c := foldl (λ c '(i, b), write (origin + Z.of_nat i) b c) c (imap pair program) in
    let c := write RESET_VECTOR (wrap8 origin) c in
    Some (write (RESET_VECTOR + 1) (wrap8 (Z.shiftr origin 8)) c)
  else None.

Definition reset (c : Cpu) : Cpu :=
  let c := set_status (Z.lor FLAG_I FLAG_U) (set_sp 0xFD (set_y 0 (set_x 0 (set_a 0 c)))) in
  set_pc (read_u16 c RESET_VECTOR) c.

Definition flag (c : Cpu) (f : Z) : bool := negb (Z.land (status c) f =? 0).

Definition set_flag (f : Z) (on : bool) (c : Cpu) : Cpu :=
  if on then set_status (Z.lor (status c) f) c
  else set_status (Z.land (status c) (not8 f)) c.

Definition set_zn (v : Z) (c : Cpu) : Z * Cpu :=
  let c := set_flag FLAG_Z (v =? 0) c in
  let c := set_flag FLAG_N (negb (Z.land v 0x80 =? 0)) c in
  (v, c).

Definition push (v : Z) (c : Cpu) : Cpu :=
  let c := write (STACK_BASE + sp c) v c in
  set_sp (wrap8 (sp c - 1)) c.

Definition pull (c : Cpu) : Z * Cpu :=
  let c := set_sp (wrap8 (sp c + 1)) c in
  (read c (STACK_BASE + sp c), c).

Definition push_u16 (v : Z) (c : Cpu) : Cpu :=
  push (wrap8 v) (push (wrap8 (Z.shiftr v 8)) c).

Definition pull_u16 (c : Cpu) : Z * Cpu :=
  let '(lo, c) := pull c in
  let '(hi, c) := pull c in
  (Z.lor lo (Z.shiftl hi 8), c).

(** Effective address of the operand; [None] is the [unreachable!] arm. *)
Definition operand_addr (c : Cpu) (mode : Mode) : option Z :=
  let pc := pc c in
  match mode with
  | Imm => Some pc
  | Zp => Some (read c pc)
  | ZpX => Some (wrap8 (read c pc + x c))
  | ZpY => Some (wrap8 (read c pc + y c))
  | Abs => Some (read_u16 c pc)
  | AbsX => Some (wrap16 (read_u16 c pc + x c))
  | AbsY => Some (wrap16 (read_u16 c pc + y c))
  | IndX =>
      let ptr := wrap8 (read c pc + x c) in
      Some (from_le (read c ptr) (read c (wrap8 (ptr + 1))))
  | IndY =>
      let ptr := read c pc in
      let base := from_le (read c ptr) (read c (wrap8 (ptr + 1))) in
      Some (wrap16 (base + y c))
  | Ind =>
      let ptr := read_u16 c pc in
      let hi_addr := Z.lor (Z.land ptr 0xFF00) (Z.land (wrap16 (ptr + 1)) 0x00FF) in
      Some (from_le (read c ptr) (read c hi_addr))
  | Rel | Imp | Acc => None
  end.

Definition add_with_carry (m : Z) (c : Cpu) : Cpu :=
  let sum := a c + m + Z.b2z (flag c FLAG_C) in
  let result := wrap8 sum in
  let c := set_flag FLAG_C (0xFF <? sum) c in
  let c := set_flag FLAG_V
    (negb (Z.land (Z.land (Z.lxor (a c) result) (Z.lxor m result)) 0x80 =? 0)) c in
  let '(v, c) := set_zn result c in
  set_a v c.

Definition compare (reg m : Z) (c : Cpu) : Cpu :=
  let c := set_flag FLAG_C (m <=? reg) c in
  (set_zn (wrap8 (reg - m)) c).2.

(** [read(pc) as i8], then [offset as u16] sign-extends. *)
Definition as_i8 (b : Z) : Z := if b <? 128 then b else b - 256.

Definition branch (cond : bool) (c : Cpu) : Cpu :=
  let offset := as_i8 (read c (pc c)) in
  let next := wrap16 (pc c + 1) in
  set_pc (if cond then wrap16 (next + wrap16 offset) else next) c.

(** Read-modify-write shift or rotate on the accumulator or a memory operand. *)
Definition shift (mode : Mode) (f : Z → Cpu → Z * Cpu) (c : Cpu) : option Cpu :=
  if bool_decide (mode = Acc) then
    let '(r, c) := f (a c) c in Some (set_a r c)
  else
    addr ← operand_addr c mode;
    let v := read c addr in
    let '(r, c) := f v c in
    Some (write addr r c).

(** The closures handed to [shift]. *)
Definition asl (v : Z) (c : Cpu) : Z * Cpu :=
  let c := set_flag FLAG_C (negb (Z.land v 0x80 =? 0)) c in
  set_zn (wrap8 (Z.shiftl v 1)) c.
Definition lsr (v : Z) (c : Cpu) : Z * Cpu :=
  let c := set_flag FLAG_C (negb (Z.land v 1 =? 0)) c in
  set_zn (Z.shiftr v 1) c.
Definition rol (v : Z) (c : Cpu) : Z * Cpu :=
  let r := Z.lor (wrap8 (Z.shiftl v 1)) (Z.b2z (flag c FLAG_C)) in
  let c := set_flag FLAG_C (negb (Z.land v 0x80 =? 0)) c in
  set_zn r c.
Definition ror (v : Z) (c : Cpu) : Z * Cpu :=
  let r := Z.lor (Z.shiftr v 1) (Z.shiftl (Z.b2z (flag c FLAG_C)) 7) in
  let c := set_flag FLAG_C (negb (Z.land v 1 =? 0)) c in
  set_zn r c.

(** The value read through the addressing mode: [self.read(self.operand_addr(mode))]. *)
Definition operand (mode : Mode) (c : Cpu) : option Z :=
  addr ← operand_addr c mode; Some (read c addr).

(** How an arm of the [match op] ends: it falls through to the code that skips
    the operand, or returns early with [pc] already set. *)
Inductive flow : Set := Fall | Return.

(** The [match op] of [Cpu::step]. *)
Definition exec (op : Op) (mode : Mode) (c : Cpu) : option (flow * Cpu) :=
  let fall c := Some (Fall, c) in
  let load_reg (set : Z → Cpu → Cpu) (c : Cpu) :=
    v ← operand mode c; let '(v, c) := set_zn v c in fall (set v c) in
  let move (set : Z → Cpu → Cpu) (v : Z) (c : Cpu) :=
    let '(v, c) := set_zn v c in fall (set v c) in
  match op with
  | Lda => load_reg set_a c
  | Ldx => load_reg set_x c
  | Ldy => load_reg set_y c
  | Sta => addr ← operand_addr c mode; fall (write addr (a c) c)
  | Stx => addr ← operand_addr c mode; fall (write addr (x c) c)
  | Sty => addr ← operand_addr c mode; fall (write addr (y c) c)
  | Tax => move set_x (a c) c
  | Tay => move set_y (a c) c
  | Txa => move set_a (x c) c
  | Tya => move set_a (y c) c
  | Tsx => move set_x (sp c) c
  | Txs => fall (set_sp (x c) c)
  | Pha => fall (push (a c) c)
  | Php => fall (push (Z.lor (Z.lor (status c) FLAG_B) FLAG_U) c)
  | Pla => let '(v, c) := pull c in move set_a v c
  | Plp => let '(v, c) := pull c in fall (set_status (Z.lor (Z.land v (not8 FLAG_B)) FLAG_U) c)
  | And => m ← operand mode c; move set_a (Z.land (a c) m) c
  | Eor => m ← operand mode c; move set_a (Z.lxor (a c) m) c
  | Ora => m ← operand mode c; move set_a (Z.lor (a c) m) c
  | Bit =>
      m ← operand mode c;
      let c := set_flag FLAG_Z (Z.land (a c) m =? 0) c in
      let c := set_flag FLAG_V (negb (Z.land m 0x40 =? 0)) c in
      fall (set_flag FLAG_N (negb (Z.land m 0x80 =? 0)) c)
  | Adc => m ← operand mode c; fall (add_with_carry m c)
  | Sbc => m ← operand mode c; fall (add_with_carry (not8 m) c)
  | Cmp => m ← operand mode c; fall (compare (a c) m c)
  | Cpx => m ← operand mode c; fall (compare (x c) m c)
  | Cpy => m ← operand mode c; fall (compare (y c) m c)
  | Inc | Dec =>
      addr ← operand_addr c mode;
      let v := read c addr in
      let r := if bool_decide (op = Inc) then wrap8 (v + 1) else wrap8 (v - 1) in
      let '(r, c) := set_zn r c in
      fall (write addr r c)
  | Inx => move set_x (wrap8 (x c + 1)) c
  | Iny => move set_y (wrap8 (y c + 1)) c
  | Dex => move set_x (wrap8 (x c - 1)) c
  | Dey => move set_y (wrap8 (y c - 1)) c
  | Asl => c ← shift mode asl c; fall c
  | Lsr => c ← shift mode lsr c; fall c
  | Rol => c ← shift mode rol c; fall c
  | Ror => c ← shift mode ror c; fall c
  | Jmp => addr ← operand_addr c mode; Some (Return, set_pc addr c)
  | Jsr =>
      target ← operand_addr c mode;
      Some (Return, set_pc target (push_u16 (wrap16 (pc c + 1)) c))
  | Rts => let '(v, c) := pull_u16 c in Some (Return, set_pc (wrap16 (v + 1)) c)
  | Rti =>
      let '(v, c) := pull c in
      let c := set_status (Z.lor (Z.land v (not8 FLAG_B)) FLAG_U) c in
      let '(v, c) := pull_u16 c in
      Some (Return, set_pc v c)
  | Brk =>
      let c := push_u16 (wrap16 (pc c + 1)) c in
      let c := push (Z.lor (Z.lor (status c) FLAG_B) FLAG_U) c in
      let c := set_flag FLAG_I true c in
      Some (Return, set_pc (read_u16 c IRQ_VECTOR) c)
  | Bcc => fall (branch (negb (flag c FLAG_C)) c)
  | Bcs => fall (branch (flag c FLAG_C) c)
  | Beq => fall (branch (flag c FLAG_Z) c)
  | Bne => fall (branch (negb (flag c FLAG_Z)) c)
  | Bmi => fall (branch (flag c FLAG_N) c)
  | Bpl => fall (branch (negb (flag c FLAG_N)) c)
  | Bvs => fall (branch (flag c FLAG_V) c)
  | Bvc => fall (branch (negb (flag c FLAG_V)) c)
  | Clc => fall (set_flag FLAG_C false c)
  | Sec => fall (set_flag FLAG_C true c)
  | Cld => fall (set_flag FLAG_D false c)
  | Sed => fall (set_flag FLAG_D true c)
  | Cli => fall (set_flag FLAG_I false c)
  | Sei => fall (set_flag FLAG_I true c)
  | Clv => fall (set_flag FLAG_V false c)
  | Nop => fall c
  end.

(** [matches!(op, Bcc | Bcs | Beq | Bne | Bmi | Bpl | Bvs | Bvc)] *)
Definition is_branch (op : Op) : bool :=
  match op with Bcc | Bcs | Beq | Bne | Bmi | Bpl | Bvs | Bvc => true | _ => false end.

(** [Cpu::step]: the result and the state it leaves. *)
Definition step (c : Cpu) : option (result Z StepError * Cpu) :=
  let at_ := pc c in
  let opcode := read c at_ in
  match decode opcode with
  | None => Some (Err (UnknownOpcode opcode at_), c)
  | Some (op, mode) =>
      let c := set_pc (wrap16 (at_ + 1)) c in
      '(fl, c) ← exec op mode c;
      match fl with
      | Return => Some (Ok opcode, c)
      | Fall =>
          let c := if is_branch op then c else set_pc (wrap16 (pc c + (size mode - 1))) c in
          Some (Ok opcode, c)
      end
  end.

(** [Cpu::run]: the loop [for n in 1..=max_steps], [fuel] iterations from [n]. *)
Fixpoint run_from (n : nat) (fuel : nat) (c : Cpu) : option (result nat StepError * Cpu) :=
  match fuel with
  | O => Some (Ok (pred n), c)
  | S fuel =>
      '(r, c) ← step c;
      match r with
      | Err e => Some (Err e, c)
      | Ok op => if op =? 0x00 then Some (Ok n, c) else run_from (S n) fuel c
      end
  end.
Definition run (max_steps : nat) (c : Cpu) : option (result nat StepError * Cpu) :=
  run_from 1 max_steps c.

Definition load_and_run (origin : Z) (program : list Z) (c : Cpu) : option (result nat StepError * Cpu) :=
  c ← load origin program c;
  run (N.to_nat 1000000) (reset c).

(** The program of [main.rs]: 6 * 7 by repeated addition, stored at $0200. *)
Definition main_program : list Z :=
  [0xA9; 0x00; 0xA2; 0x07; 0x18; 0x69; 0x06; 0xCA; 0xD0; 0xFA; 0x8D; 0x00; 0x02; 0x00].

Example main_runs :
  match (c ← load 0x8000 main_program new; run 100 (reset c)) with
  | Some (Ok n, c) => (n, a c, read c 0x200) = (32%nat, 42, 42)
  | _ => False
  end.
Proof. vm_compute. reflexivity. Qed.

(** ** Lemmas: widths *)
Record wf (c : Cpu) : Prop := {
  wf_a : is_u8 (a c); wf_x : is_u8 (x c); wf_y : is_u8 (y c);
  wf_sp : is_u8 (sp c); wf_pc : is_u16 (pc c); wf_status : is_u8 (status c);
  wf_memory : map_Forall (λ k v, is_u16 k ∧ is_u8 v) (memory c)
}.
Create HintDb nes discriminated.
#[export] Hint Resolve wf_a wf_x wf_y wf_sp wf_pc wf_status : nes.

Lemma read_u8 c addr : wf c → is_u8 (read c addr).
Proof.
  intros H. unfold read. destruct (memory c !! addr) as [v|] eqn:E; simpl; [|unfold_int; lia].
  by destruct (wf_memory c H _ _ E).
Qed.

Lemma from_le_add lo hi : is_u8 lo → from_le lo hi = lo + 256 * hi.
Proof. intros H. unfold from_le. rewrite lor_shiftl_add by (unfold_int; lia). lia. Qed.

Lemma from_le_u16 lo hi : is_u8 lo → is_u8 hi → is_u16 (from_le lo hi).
Proof. intros. rewrite from_le_add by done. unfold_int; lia. Qed.

Lemma not8_u8 v : is_u8 v → is_u8 (not8 v).
Proof. intros. apply u8_lxor; [done|unfold_int; lia]. Qed.

Lemma not8_sub v : is_u8 v → not8 v = 255 - v.
Proof.
  intros Hv. apply Z.eqb_eq. apply (byte_enum (λ v, not8 v =? 255 - v)); [|done].
  vm_compute. reflexivity.
Qed.

Lemma read_u16_u16 c addr : wf c → is_u16 (read_u16 c addr).
Proof. intros. apply from_le_u16; by apply read_u8. Qed.
#[export] Hint Resolve read_u8 from_le_u16 not8_u8 read_u16_u16 : nes.

Lemma operand_addr_u16 c mode addr : wf c → operand_addr c mode = Some addr → is_u16 addr.
Proof.
  intros H. destruct mode; simpl; intros [= <-]; auto with nes rust.
Qed.

Section setters.
Context (c : Cpu) (H : wf c).
Lemma set_a_wf v : is_u8 v → wf (set_a v c). Proof using H. by destruct H; constructor. Qed.
Lemma set_x_wf v : is_u8 v → wf (set_x v c). Proof using H. by destruct H; constructor. Qed.
Lemma set_y_wf v : is_u8 v → wf (set_y v c). Proof using H. by destruct H; constructor. Qed.
Lemma set_sp_wf v : is_u8 v → wf (set_sp v c). Proof using H. by destruct H; constructor. Qed.
Lemma set_pc_wf v : is_u16 v → wf (set_pc v c). Proof using H. by destruct H; constructor. Qed.
Lemma set_status_wf v : is_u8 v → wf (set_status v c).
Proof using H. by destruct H; constructor. Qed.
Lemma write_wf addr v : is_u16 addr → is_u8 v → wf (write addr v c).
Proof using H.
  intros. destruct H; constructor; simpl; try done. by apply map_Forall_insert_2.
Qed.
Lemma set_flag_wf f on : is_u8 f → wf (set_flag f on c).
Proof using H.
  intros. unfold set_flag. destruct on; apply set_status_wf; auto using wf_status with nes rust.
Qed.
End setters.
#[export] Hint Resolve set_a_wf set_x_wf set_y_wf set_sp_wf set_pc_wf set_status_wf write_wf
  set_flag_wf : nes.

Lemma FLAG_u8 : is_u8 FLAG_C ∧ is_u8 FLAG_Z ∧ is_u8 FLAG_I ∧ is_u8 FLAG_D ∧ is_u8 FLAG_B
  ∧ is_u8 FLAG_U ∧ is_u8 FLAG_V ∧ is_u8 FLAG_N.
Proof. repeat split; discriminate. Qed.

Lemma stack_addr_u16 s : is_u8 s → is_u16 (STACK_BASE + s).
Proof. unfold STACK_BASE. unfold_int. lia. Qed.

(** The state [set_zn] leaves. *)
Definition zn (v : Z) (c : Cpu) : Cpu := (set_zn v c).2.

Lemma set_zn_eq v c : set_zn v c = (v, zn v c).
Proof. done. Qed.

Lemma set_zn_wf v c : wf c → wf (zn v c).
Proof. intros. unfold zn, set_zn; simpl. repeat apply set_flag_wf; try done; apply FLAG_u8. Qed.

Lemma push_wf v c : wf c → is_u8 v → wf (push v c).
Proof. intros. unfold push. auto using stack_addr_u16 with nes rust. Qed.

Lemma push_u16_wf v c : wf c → wf (push_u16 v c).
Proof. intros. unfold push_u16. auto using push_wf with rust. Qed.

Lemma pull_wf c : wf c → is_u8 (pull c).1 ∧ wf (pull c).2.
Proof. intros H. unfold pull. split; simpl; [apply read_u8|]; auto with nes rust. Qed.

Lemma pull_u16_wf c : wf c → is_u16 (pull_u16 c).1 ∧ wf (pull_u16 c).2.
Proof.
  intros H. unfold pull_u16. pose proof (pull_wf c H) as [Hlo Hc].
  destruct (pull c) as [lo c1]. pose proof (pull_wf c1 Hc) as [Hhi Hc'].
  destruct (pull c1) as [hi c2]. simpl in *. split; [by apply from_le_u16|done].
Qed.

Lemma add_with_carry_wf m c : wf c → wf (add_with_carry m c).
Proof.
  intros H. unfold add_with_carry. rewrite set_zn_eq.
  apply set_a_wf; [|apply wrap8_u8]. apply set_zn_wf.
  repeat apply set_flag_wf; try done; apply FLAG_u8.
Qed.

Lemma compare_wf reg m c : wf c → wf (compare reg m c).
Proof. intros. unfold compare. apply set_zn_wf, set_flag_wf; [done|apply FLAG_u8]. Qed.

Lemma branch_wf b c : wf c → wf (branch b c).
Proof. intros H. unfold branch. apply set_pc_wf; [done|]. destruct b; apply wrap16_u16. Qed.

#[export] Hint Resolve push_wf push_u16_wf set_zn_wf add_with_carry_wf compare_wf branch_wf : nes.

(** A closure handed to [shift] keeps the state well formed and returns a byte. *)
Definition shift_fun_ok (f : Z → Cpu → Z * Cpu) : Prop :=
  ∀ v c, is_u8 v → wf c → is_u8 (f v c).1 ∧ wf (f v c).2.

Lemma b2z_u8 b : is_u8 (Z.b2z b).
Proof. destruct b; unfold_int; simpl; lia. Qed.

Lemma shr1_u8 v : is_u8 v → is_u8 (Z.shiftr v 1).
Proof. intros H. rewrite Z.shiftr_div_pow2 by lia. change (2 ^ 1) with 2. revert H. int_lia. Qed.

Lemma shift_funs_ok : shift_fun_ok asl ∧ shift_fun_ok lsr ∧ shift_fun_ok rol ∧ shift_fun_ok ror.
Proof.
  assert (H7 : ∀ b : bool, is_u8 (Z.shiftl (Z.b2z b) 7)) by (intros []; split; vm_compute; congruence).
  split_and!; intros v c Hv H; unfold asl, lsr, rol, ror; rewrite set_zn_eq; cbn [fst snd];
    (split; [auto using b2z_u8, shr1_u8 with rust|]);
    apply set_zn_wf, set_flag_wf; try done; apply FLAG_u8.
Qed.

Lemma shift_wf f mode c :
  shift_fun_ok f → wf c → (mode = Acc ∨ is_Some (operand_addr c mode)) →
  ∃ c', shift mode f c = Some c' ∧ wf c'.
Proof.
  intros Hf H Hm. unfold shift. case_bool_decide as Hacc.
  - destruct (Hf (a c) c) as [Hv Hc]; [auto with nes..|]. destruct (f (a c) c) as [r c1].
    simpl in *. eauto with nes.
  - destruct Hm as [?|[addr E]]; [done|]. rewrite E. simpl.
    destruct (Hf (read c addr) c) as [Hv Hc]; [auto with nes..|].
    destruct (f (read c addr) c) as [r c1]. simpl in *. eexists; split; [done|].
    eauto using operand_addr_u16 with nes.
Qed.

(** ** Every opcode of the table finds its operand

    [needs_addr op] says that the arm of [op] calls [operand_addr]; [is_shift]
    that it does so through [shift], which treats the accumulator apart. *)
Definition is_shift (op : Op) : bool :=
  match op with Asl | Lsr | Rol | Ror => true | _ => false end.
Definition needs_addr (op : Op) : bool :=
  match op with
  | Lda | Ldx | Ldy | Sta | Stx | Sty | And | Eor | Ora | Bit | Adc | Sbc | Cmp | Cpx | Cpy
  | Inc | Dec | Jmp | Jsr => true
  | _ => false
  end.
Definition has_addr (mode : Mode) : bool :=
  match mode with Rel | Imp | Acc => false | _ => true end.
Definition fits (op : Op) (mode : Mode) : bool :=
  (negb (needs_addr op) || has_addr mode)
  && (negb (is_shift op) || bool_decide (mode = Acc) || has_addr mode).

Lemma has_addr_some c mode : has_addr mode = true → is_Some (operand_addr c mode).
Proof. destruct mode; simpl; intros; try discriminate; eauto. Qed.

Lemma decode_in opcode op mode : decode opcode = Some (op, mode) → (opcode, op, mode) ∈ OPCODES.
Proof.
  unfold decode. destruct (List.find _ OPCODES) as [[[b o] m]|] eqn:E; [|discriminate].
  intros [= <- <-]. apply find_some in E as [Hin Hb]. simpl in Hb.
  apply list_elem_of_In. by rewrite (proj1 (Z.eqb_eq _ _) Hb) in Hin.
Qed.

Lemma decode_fits opcode op mode : decode opcode = Some (op, mode) → fits op mode = true.
Proof.
  intros H%decode_in%list_elem_of_In. revert H.
  assert (Hall : forallb (λ e : Z * Op * Mode, fits e.1.2 e.2) OPCODES = true)
    by (vm_compute; reflexivity).
  rewrite forallb_forall in Hall. intros H. apply (Hall _ H).
Qed.

Lemma status_push_u8 c : wf c → is_u8 (Z.lor (Z.lor (status c) FLAG_B) FLAG_U).
Proof. intros. repeat apply u8_lor; auto with nes; apply FLAG_u8. Qed.

Lemma status_pull_u8 v : is_u8 v → is_u8 (Z.lor (Z.land v (not8 FLAG_B)) FLAG_U).
Proof. intros. apply u8_lor; [apply u8_land; [done|apply not8_u8]|]; apply FLAG_u8. Qed.
#[export] Hint Resolve status_push_u8 status_pull_u8 : nes.

Lemma set_flag_const_wf f b c : is_u8 f → wf c → wf (set_flag f b c).
Proof. auto using set_flag_wf. Qed.

(** The arms of [exec] that address an operand: its address is a [u16], the byte
    read there a [u8]. *)
Lemma operand_some c mode :
  wf c → has_addr mode = true → ∃ addr, operand_addr c mode = Some addr ∧ is_u16 addr ∧
    operand mode c = Some (read c addr) ∧ is_u8 (read c addr).
Proof.
  intros H Hm. destruct (has_addr_some c mode Hm) as [addr E]. exists addr.
  unfold operand. rewrite E. simpl. split_and!; eauto using operand_addr_u16, read_u8.
Qed.

(** Syntax-directed proofs of [wf] and of byte bounds. *)
Ltac u8_step :=
  lazymatch goal with
  | |- is_u8 (wrap8 _) => apply wrap8_u8
  | |- is_u8 (read _ _) => apply read_u8
  | |- is_u8 (Z.lor _ _) => apply u8_lor
  | |- is_u8 (Z.land _ _) => apply u8_land
  | |- is_u8 (Z.lxor _ _) => apply u8_lxor
  | |- is_u8 (not8 _) => apply not8_u8
  | |- is_u8 (a _) => apply wf_a
  | |- is_u8 (x _) => apply wf_x
  | |- is_u8 (y _) => apply wf_y
  | |- is_u8 (sp _) => apply wf_sp
  | |- is_u8 (status _) => apply wf_status
  | |- is_u8 _ => apply FLAG_u8
  | |- is_u16 (wrap16 _) => apply wrap16_u16
  | |- is_u16 (pc _) => apply wf_pc
  | |- is_u16 (read_u16 _ _) => apply read_u16_u16
  end.
Ltac wf_step :=
  lazymatch goal with
  | |- wf (set_a _ _) => apply set_a_wf
  | |- wf (set_x _ _) => apply set_x_wf
  | |- wf (set_y _ _) => apply set_y_wf
  | |- wf (set_sp _ _) => apply set_sp_wf
  | |- wf (set_pc _ _) => apply set_pc_wf
  | |- wf (set_status _ _) => apply set_status_wf
  | |- wf (write _ _ _) => apply write_wf
  | |- wf (set_flag _ _ _) => apply set_flag_wf
  | |- wf (push _ _) => apply push_wf
  | |- wf (push_u16 _ _) => apply push_u16_wf
  | |- wf (zn _ _) => apply set_zn_wf
  | |- wf (add_with_carry _ _) => apply add_with_carry_wf
  | |- wf (compare _ _ _) => apply compare_wf
  | |- wf (branch _ _) => apply branch_wf
  end.
Ltac wf_solve := repeat first [assumption | wf_step | u8_step].

Lemma exec_arm (fl : flow) (c : Cpu) : wf c → ∃ fl' c', Some (fl, c) = Some (fl', c') ∧ wf c'.
Proof. eauto. Qed.

Lemma exec_wf op mode c :
  wf c → fits op mode = true → ∃ fl c', exec op mode c = Some (fl, c') ∧ wf c'.
Proof.
  intros H Hfit. unfold fits in Hfit. apply andb_prop in Hfit as [Ha Hs].
  assert (Hm : needs_addr op = true → has_addr mode = true)
    by (intros E; rewrite E in Ha; done).
  assert (Hsh : is_shift op = true → mode = Acc ∨ is_Some (operand_addr c mode)).
  { intros E. rewrite E in Hs. simpl in Hs. case_bool_decide; [by left|right].
    by apply has_addr_some. }
  clear Ha Hs. destruct shift_funs_ok as (Hasl & Hlsr & Hrol & Hror).
  pose proof (pull_wf c H) as [Hpv Hpc]. pose proof (pull_u16_wf c H) as [Hqv Hqc].
  destruct op; cbn [needs_addr is_shift] in Hm, Hsh;
    try (destruct (operand_some c mode H (Hm eq_refl)) as (addr & E1 & Hu & E2 & Hb));
    unfold exec; rewrite ?E1, ?E2; cbn [mbind option_bind];
    try (match goal with |- context [shift mode ?f c] =>
      destruct (shift_wf f mode c) as (c' & -> & Hc'); [done|done|auto|] end);
    try (destruct (pull c) as [v c1]); try (destruct (pull_u16 c) as [v c1]);
    cbn [fst snd] in *; rewrite ?set_zn_eq; cbn [fst snd].
  all: try (apply exec_arm; wf_solve; case_bool_decide; wf_solve; fail).
  all: try (apply exec_arm; wf_solve; fail).
  (* Rti pulls twice. *)
  destruct (pull_u16_wf (set_status (Z.lor (Z.land v (not8 FLAG_B)) FLAG_U) c1)) as [Hv Hc];
    [wf_solve|].
  destruct (pull_u16 _) as [w c2]. apply exec_arm. by apply set_pc_wf.
Qed.

(** ** Lemmas: flags *)
Definition FLAGS : list Z := [FLAG_C; FLAG_Z; FLAG_I; FLAG_D; FLAG_B; FLAG_U; FLAG_V; FLAG_N].

Definition status_set (f : Z) (on : bool) (s : Z) : Z :=
  if on then Z.lor s f else Z.land s (not8 f).
Definition status_flag (s f : Z) : bool := negb (Z.land s f =? 0).

Lemma status_set_flag_enum :
  forallb (λ s, forallb (λ f, forallb (λ g, forallb (λ on,
    eqb (status_flag (status_set f on s) g) (if f =? g then on else status_flag s g))
    [true; false]) FLAGS) FLAGS) bytes = true.
Proof. vm_compute. reflexivity. Qed.

(** Setting a flag sets that flag and leaves the seven others. *)
Lemma flag_set_flag f g on c :
  f ∈ FLAGS → g ∈ FLAGS → is_u8 (status c) →
  flag (set_flag f on c) g = if f =? g then on else flag c g.
Proof.
  intros Hf Hg Hs. pose proof (byte_enum _ status_set_flag_enum _ Hs) as H.
  rewrite forallb_forall in H. specialize (H f (proj1 (list_elem_of_In _ _) Hf)).
  rewrite forallb_forall in H. specialize (H g (proj1 (list_elem_of_In _ _) Hg)).
  rewrite forallb_forall in H. specialize (H on). apply eqb_prop in H; [|destruct on; simpl; auto].
  unfold set_flag, flag. destruct on; exact H.
Qed.

Lemma set_flag_fields f on c :
  (a (set_flag f on c), x (set_flag f on c), y (set_flag f on c)) = (a c, x c, y c) ∧
  sp (set_flag f on c) = sp c ∧ pc (set_flag f on c) = pc c ∧
  memory (set_flag f on c) = memory c.
Proof. by destruct on. Qed.

Lemma set_flag_status_u8 f on c : is_u8 f → is_u8 (status c) → is_u8 (status (set_flag f on c)).
Proof. intros. destruct on; simpl; u8_step; auto using not8_u8. Qed.

(** The N flag is bit 7: an unsigned comparison with 128. *)
Lemma bit7 v : is_u8 v → negb (Z.land v 0x80 =? 0) = (128 <=? v).
Proof.
  intros Hv. apply eqb_prop. revert v Hv. apply byte_enum. vm_compute. reflexivity.
Qed.

Ltac in_flags := unfold FLAGS; rewrite !elem_of_cons; tauto.

(** What [set_zn] leaves: Z and N from the value, the rest untouched. *)
Lemma zn_flags v c g :
  is_u8 v → is_u8 (status c) → g ∈ FLAGS →
  flag (zn v c) g =
    if g =? FLAG_Z then v =? 0 else if g =? FLAG_N then 128 <=? v else flag c g.
Proof.
  intros Hv Hs Hg. unfold zn, set_zn. simpl.
  rewrite flag_set_flag; [|in_flags|done|apply set_flag_status_u8; [apply FLAG_u8|done]].
  rewrite flag_set_flag by (done || in_flags). rewrite bit7 by done.
  rewrite (Z.eqb_sym g), (Z.eqb_sym g).
  destruct (FLAG_N =? g) eqn:EN; destruct (FLAG_Z =? g) eqn:EZ; try done.
  apply Z.eqb_eq in EN, EZ. subst. discriminate.
Qed.

Lemma zn_fields v c :
  (a (zn v c), x (zn v c), y (zn v c)) = (a c, x c, y c) ∧
  sp (zn v c) = sp c ∧ pc (zn v c) = pc c ∧ memory (zn v c) = memory c.
Proof. unfold zn, set_zn. simpl. by destruct (v =? 0), (negb _). Qed.
