(* ===== verification/Nes6502Props.v ===== *)
(** * The MOS 6502 core: properties

    Safety of [step] and [run], the arithmetic of [ADC]/[SBC], the call and
    interrupt discipline of the stack, the program counter and the memory
    frame of one instruction. *)
From S2P Require Import Prelude Nes6502.

(** ** One step *)

Lemma step_spec c :
  wf c →
  ∃ r c', step c = Some (r, c') ∧ wf c' ∧
    (decode (read c (pc c)) = None → r = Err (UnknownOpcode (read c (pc c)) (pc c)) ∧ c' = c) ∧
    (decode (read c (pc c)) ≠ None → r = Ok (read c (pc c))).
Proof.
  intros H. unfold step. destruct (decode (read c (pc c))) as [[op mode]|] eqn:E;
    [|by eexists _, _; split_and!].
  destruct (exec_wf op mode (set_pc (wrap16 (pc c + 1)) c)) as (fl & c1 & -> & H1);
    [wf_solve|by apply decode_fits in E|].
  simpl. destruct fl; eexists _, _; split_and!; try done. destruct (is_branch op); wf_solve.
Qed.

(** C1. [step] never panics: from a well-formed state it executes an official
    opcode or reports the unknown one, the state it leaves is well formed
    (registers and memory keep their widths, addresses stay below 65536), and
    the error case changes nothing and happens exactly when the byte at [pc]
    is not in the table. *)
Theorem step_total c :
  wf c →
  ∃ r c', step c = Some (r, c') ∧ wf c' ∧
    (decode (read c (pc c)) = None → r = Err (UnknownOpcode (read c (pc c)) (pc c)) ∧ c' = c) ∧
    (decode (read c (pc c)) ≠ None → r = Ok (read c (pc c))).
Proof. apply step_spec. Qed.

Theorem step_total_witness : wf new ∧ ∃ r c', step new = Some (r, c') ∧ wf c'.
Proof.
  assert (H : wf new) by (constructor; closed).
  split; [exact H|]. destruct (step_total new H) as (r & c' & H1 & H2 & _). eauto.
Defined.

(** ** Arithmetic *)

(** The carry in of an addition, and the range of a signed byte. *)
Definition cin (c : Cpu) : Z := Z.b2z (flag c FLAG_C).
Definition in_i8 (z : Z) : bool := (-128 <=? z) && (z <=? 127).

(** What an instruction that only computes into the accumulator leaves alone. *)
Definition same_but_a (c c' : Cpu) : Prop :=
  x c' = x c ∧ y c' = y c ∧ sp c' = sp c ∧ pc c' = pc c ∧ memory c' = memory c ∧
  ∀ g, g ∈ [FLAG_I; FLAG_D; FLAG_B; FLAG_U] → flag c' g = flag c g.

(** The accumulator and the four arithmetic flags hold the result [r], the
    carry [carry] and the signed overflow [over]. *)
Definition arith_result (c' : Cpu) (r : Z) (carry over : bool) : Prop :=
  a c' = r ∧ flag c' FLAG_C = carry ∧ flag c' FLAG_V = over ∧
  flag c' FLAG_Z = (r =? 0) ∧ flag c' FLAG_N = (128 <=? r).

Lemma overflow_enum (k : bool) :
  forallb (λ p, forallb (λ m,
    let sum := p + m + Z.b2z k in
    eqb (negb (Z.land (Z.land (Z.lxor p (wrap8 sum)) (Z.lxor m (wrap8 sum))) 0x80 =? 0))
        (negb (in_i8 (as_i8 p + as_i8 m + Z.b2z k)))) bytes) bytes = true.
Proof. destruct k; vm_compute; reflexivity. Qed.

Lemma overflow_signed k p m :
  is_u8 p → is_u8 m →
  negb (Z.land (Z.land (Z.lxor p (wrap8 (p + m + Z.b2z k))) (Z.lxor m (wrap8 (p + m + Z.b2z k)))) 0x80 =? 0)
  = negb (in_i8 (as_i8 p + as_i8 m + Z.b2z k)).
Proof. intros Hp Hm. apply eqb_prop. revert p m Hp Hm. apply byte2_enum, overflow_enum. Qed.

Lemma add_with_carry_spec m c :
  wf c → is_u8 m →
  let c' := add_with_carry m c in
  same_but_a c c' ∧
  arith_result c' (wrap8 (a c + m + cin c)) (255 <? a c + m + cin c)
    (negb (in_i8 (as_i8 (a c) + as_i8 m + cin c))).
Proof.
  intros H Hm c'. subst c'. unfold add_with_carry. rewrite set_zn_eq.
  unfold cin. rewrite <-overflow_signed by auto with nes. fold (cin c).
  set (r := wrap8 (a c + m + cin c)). set (c1 := set_flag FLAG_C (0xFF <? a c + m + cin c) c).
  assert (Hf1 : ∀ g, g ∈ FLAGS → flag c1 g = if FLAG_C =? g then 255 <? a c + m + cin c else flag c g)
    by (intros; apply flag_set_flag; auto with nes; in_flags).
  assert (Hs1 : is_u8 (status c1)) by (apply set_flag_status_u8; [apply FLAG_u8|auto with nes]).
  destruct (set_flag_fields FLAG_C (0xFF <? a c + m + cin c) c) as (E1 & E2 & E3 & E4).
  fold c1 in E1, E2, E3, E4. injection E1 as Ea Ex Ey. rewrite Ea. clearbody c1.
  set (o := negb _). set (c2 := set_flag FLAG_V o c1).
  assert (Hf2 : ∀ g, g ∈ FLAGS → flag c2 g = if FLAG_V =? g then o else flag c1 g)
    by (intros; apply flag_set_flag; auto with nes; in_flags).
  assert (Hs2 : is_u8 (status c2)) by (apply set_flag_status_u8; [apply FLAG_u8|auto with nes]).
  destruct (set_flag_fields FLAG_V o c1) as (F1 & F2 & F3 & F4).
  fold c2 in F1, F2, F3, F4. injection F1 as Fa Fx Fy. clearbody c2.
  assert (Hf3 : ∀ g, g ∈ FLAGS → flag (set_a r (zn r c2)) g =
    if g =? FLAG_Z then r =? 0 else if g =? FLAG_N then 128 <=? r else flag c2 g)
    by (intros; apply (zn_flags r c2 g); [apply wrap8_u8|done..]).
  destruct (zn_fields r c2) as (G1 & G2 & G3 & G4). injection G1 as Ga Gx Gy.
  unfold same_but_a, arith_result. simpl. split_and!; try congruence.
  - intros g Hg. rewrite !elem_of_cons, elem_of_nil in Hg.
    destruct Hg as [->|[->|[->|[->|[]]]]]; rewrite Hf3, Hf2, Hf1 by in_flags; done.
  - rewrite Hf3, Hf2, Hf1 by in_flags. done.
  - rewrite Hf3, Hf2 by in_flags. done.
  - by rewrite Hf3 by in_flags.
  - by rewrite Hf3 by in_flags.
Qed.

Lemma as_i8_not8 m : is_u8 m → as_i8 (not8 m) = -1 - as_i8 m.
Proof.
  intros Hm. rewrite not8_sub by done. unfold as_i8. unfold_int.
  destruct (Z.ltb_spec m 128), (Z.ltb_spec (255 - m) 128); lia.
Qed.

(** C2. [ADC] computes [a + m + C] and [SBC] computes [a - m - (1 - C)], both
    modulo 256; the carry is the unsigned carry (for [SBC]: no borrow), V says
    that the signed result does not fit a byte, Z and N describe the result, and
    no other register, flag or memory byte changes. *)
Theorem adc_sbc_arithmetic c mode m :
  wf c → operand mode c = Some m →
  (∃ c', exec Adc mode c = Some (Fall, c') ∧ same_but_a c c' ∧
     arith_result c' (wrap8 (a c + m + cin c)) (255 <? a c + m + cin c)
       (negb (in_i8 (as_i8 (a c) + as_i8 m + cin c)))) ∧
  (∃ c', exec Sbc mode c = Some (Fall, c') ∧ same_but_a c c' ∧
     arith_result c' (wrap8 (a c - m - (1 - cin c))) (m + (1 - cin c) <=? a c)
       (negb (in_i8 (as_i8 (a c) - as_i8 m - (1 - cin c))))).
Proof.
  intros H Hop. assert (Hm : is_u8 m).
  { unfold operand in Hop. destruct (operand_addr c mode); [|done].
    injection Hop as <-. auto with nes. }
  simpl. rewrite Hop. simpl. split; eexists; (split; [reflexivity|]).
  - by apply add_with_carry_spec.
  - destruct (add_with_carry_spec (not8 m) c H (not8_u8 m Hm)) as [Hsame Hres]. split; [done|].
    rewrite as_i8_not8 in Hres by done. rewrite not8_sub in * by done.
    replace (wrap8 (a c - m - (1 - cin c))) with (wrap8 (a c + (255 - m) + cin c)) by int_lia.
    replace (m + (1 - cin c) <=? a c) with (255 <? a c + (255 - m) + cin c) by lia.
    replace (as_i8 (a c) - as_i8 m - (1 - cin c)) with (as_i8 (a c) + (-1 - as_i8 m) + cin c) by lia.
    done.
Qed.

Definition adc_cpu : Cpu := mkCpu 0x7F 0 0 0xFD 0x8000 0x25 {[0x8000 := 0x01]}.

Theorem adc_sbc_arithmetic_witness :
  wf adc_cpu ∧ operand Imm adc_cpu = Some 1 ∧
  ∃ c', exec Adc Imm adc_cpu = Some (Fall, c') ∧ arith_result c' 0x81 false true.
Proof.
  assert (H : wf adc_cpu) by (constructor; closed).
  assert (Hop : operand Imm adc_cpu = Some 1) by reflexivity.
  destruct (adc_sbc_arithmetic adc_cpu Imm 1 H Hop) as [(c' & E & _ & R) _].
  split; [exact H|]. split; [exact Hop|]. exists c'. split; [exact E|]. vm_compute in R. exact R.
Defined.

(** ** The stack: subroutine calls and interrupts *)

(** The address of the stack slot [k] below the pointer [s]. *)
Definition slot (s k : Z) : Z := STACK_BASE + wrap8 (s - k).

Lemma slot_u16 s k : 0x100 ≤ slot s k < 0x200.
Proof. unfold slot, STACK_BASE. pose proof (wrap8_u8 (s - k)). unfold_int. lia. Qed.

Lemma slot_ne s j k : 0 ≤ j < 256 → 0 ≤ k < 256 → j ≠ k → slot s j ≠ slot s k.
Proof. intros Hj Hk Hjk E. unfold slot in E. unfold wrap8 in E. Z.to_euclidean_division_equations; lia. Qed.

Lemma vector_not_slot s k : IRQ_VECTOR ≠ slot s k ∧ wrap16 (IRQ_VECTOR + 1) ≠ slot s k.
Proof.
  pose proof (slot_u16 s k). change (wrap16 (IRQ_VECTOR + 1)) with 0xFFFF. unfold IRQ_VECTOR. lia.
Qed.

Lemma read_write_eq addr v c : read (write addr v c) addr = v.
Proof. unfold read, write. simpl. by rewrite lookup_insert_eq. Qed.

Lemma read_write_ne addr addr' v c : addr ≠ addr' → read (write addr v c) addr' = read c addr'.
Proof. intros. unfold read, write. simpl. by rewrite lookup_insert_ne. Qed.

Lemma push_slot v c : is_u8 (sp c) → push v c = set_sp (wrap8 (sp c - 1)) (write (slot (sp c) 0) v c).
Proof. intros H. unfold push, slot. by rewrite Z.sub_0_r, (wrap8_id (sp c)) by done. Qed.

(** [push_u16] leaves the high byte in slot 0 and the low byte in slot 1. *)
Lemma push_u16_spec v c :
  is_u8 (sp c) →
  let c' := push_u16 v c in
  sp c' = wrap8 (sp c - 2) ∧ read c' (slot (sp c) 0) = wrap8 (Z.shiftr v 8) ∧
  read c' (slot (sp c) 1) = wrap8 v ∧
  (∀ k, k ≠ slot (sp c) 0 → k ≠ slot (sp c) 1 → read c' k = read c k) ∧
  (a c', x c', y c', pc c', status c') = (a c, x c, y c, pc c, status c).
Proof.
  intros H. unfold push_u16. rewrite (push_slot _ c H), push_slot by apply wrap8_u8.
  cbn [sp set_sp]. set (s := sp c).
  assert (E1 : slot (wrap8 (s - 1)) 0 = slot s 1) by (unfold slot; f_equal; int_lia).
  assert (E2 : wrap8 (wrap8 (s - 1) - 1) = wrap8 (s - 2)) by int_lia.
  rewrite E1, E2. split_and!; try done.
  - change (read (write (slot s 1) (wrap8 v) (write (slot s 0) (wrap8 (Z.shiftr v 8)) c)) (slot s 0)
      = wrap8 (Z.shiftr v 8)).
    rewrite read_write_ne by (apply slot_ne; lia). apply read_write_eq.
  - apply (read_write_eq (slot s 1)).
  - intros k H0 H1.
    change (read (write (slot s 1) (wrap8 v) (write (slot s 0) (wrap8 (Z.shiftr v 8)) c)) k = read c k).
    by rewrite !read_write_ne by done.
Qed.

(** Pulling from [k] slots below [s]. *)
Lemma pull_slot c s k :
  is_u8 s → sp c = wrap8 (s - k) →
  pull c = (read c (slot s (k - 1)), set_sp (wrap8 (s - (k - 1))) c).
Proof.
  intros Hs Hsp. unfold pull, slot. rewrite Hsp.
  assert (E : wrap8 (wrap8 (s - k) + 1) = wrap8 (s - (k - 1))) by int_lia. rewrite E. done.
Qed.

Lemma pull_u16_slot c s k v :
  is_u8 s → sp c = wrap8 (s - k) → is_u16 v →
  read c (slot s (k - 1)) = wrap8 v → read c (slot s (k - 2)) = wrap8 (Z.shiftr v 8) →
  pull_u16 c = (v, set_sp (wrap8 (s - (k - 2))) c).
Proof.
  intros Hs Hsp Hv Hlo Hhi. unfold pull_u16. rewrite (pull_slot c s k) by done.
  rewrite (pull_slot _ s (k - 1)) by done. rewrite Hlo.
  replace (k - 1 - 1) with (k - 2) by lia.
  change (read (set_sp (wrap8 (s - (k - 1))) c) (slot s (k - 2))) with (read c (slot s (k - 2))).
  rewrite Hhi. f_equal.
  rewrite lor_shiftl_add by (try apply wrap8_u8; lia). rewrite Z.shiftr_div_pow2 by lia.
  change (2 ^ 8) with 256. int_lia.
Qed.

(** [d] continues after [c1] with the stack pointer of [c1] and the [n] slots
    below [s] as [c1] left them. *)
Definition stack_kept (s n : Z) (c1 d : Cpu) : Prop :=
  sp d = sp c1 ∧ ∀ k, 0 ≤ k < n → read d (slot s k) = read c1 (slot s k).

Definition same_registers (d d' : Cpu) : Prop :=
  a d' = a d ∧ x d' = x d ∧ y d' = y d ∧ memory d' = memory d.

(** A subroutine call returns: after [JSR] any code that gives back the
    stack pointer and the two pushed bytes and reaches an [RTS] continues right
    after the three bytes of the [JSR], with the caller's stack pointer, the
    registers, flags and memory of the subroutine's end. *)
Theorem jsr_rts_return c c1 d :
  wf c → read c (pc c) = 0x20 → step c = Some (Ok 0x20, c1) →
  stack_kept (sp c) 2 c1 d → read d (pc d) = 0x60 →
  pc c1 = read_u16 c (wrap16 (pc c + 1)) ∧ a c1 = a c ∧
  ∃ d', step d = Some (Ok 0x60, d') ∧ pc d' = wrap16 (pc c + 3) ∧ sp d' = sp c ∧
    same_registers d d' ∧ status d' = status d.
Proof.
  intros H Hop Hc1 [Hsp Hkept] Hrts. unfold step in Hc1. rewrite Hop in Hc1.
  change (decode 0x20) with (Some (Jsr, Abs)) in Hc1. simpl in Hc1. injection Hc1 as <-.
  set (c0 := set_pc (wrap16 (pc c + 1)) c) in *. set (v := wrap16 (wrap16 (pc c + 1) + 1)) in *.
  destruct (push_u16_spec v c0 (wf_sp c H)) as (Psp & P0 & P1 & _ & Preg).
  cbn [sp c0 set_pc] in Psp, P0, P1. split; [done|].
  split; [done|].
  unfold step. rewrite Hrts. change (decode 0x60) with (Some (Rts, Imp)).
  cbn [exec mbind option_bind].
  rewrite (pull_u16_slot _ (sp c) 2 v).
  - simpl. eexists; split; [done|]. cbn [pc sp set_pc set_sp].
    split_and!; try done; [|rewrite Z.sub_0_r; apply wrap8_id, wf_sp, H]. subst v. int_lia.
  - apply wf_sp, H.
  - simpl. rewrite Hsp. exact Psp.
  - apply wrap16_u16.
  - rewrite <-P1. apply (Hkept 1). lia.
  - rewrite <-P0. apply (Hkept 0). lia.
Qed.

Definition call_cpu : Cpu :=
  mkCpu 1 2 3 0x00 0x8000 0x25 (list_to_map [(0x8000, 0x20); (0x8001, 0x00); (0x8002, 0x90); (0x9000, 0x60)]).

Theorem jsr_rts_return_witness :
  ∃ c1 d', step call_cpu = Some (Ok 0x20, c1) ∧ sp c1 = 0xFE ∧
    step c1 = Some (Ok 0x60, d') ∧ pc d' = 0x8003 ∧ sp d' = 0x00.
Proof.
  assert (H : wf call_cpu) by (constructor; closed).
  destruct (step call_cpu) as [[[op|e] c1]|] eqn:E;
    [assert (op = 0x20) by (vm_compute in E; injection E as <- _; reflexivity); subst op
    |vm_compute in E; discriminate|vm_compute in E; discriminate].
  destruct (jsr_rts_return call_cpu c1 c1 H) as (_ & _ & d' & Hs & Hpc & Hsp & _);
    [reflexivity|exact E|split; reflexivity| |].
  - vm_compute in E. injection E as <-. reflexivity.
  - exists c1, d'. split; [reflexivity|]. split; [vm_compute in E; injection E as <-; reflexivity|].
    split; [exact Hs|]. split; [exact Hpc|exact Hsp].
Defined.

Lemma status_restore_enum :
  forallb (λ s, forallb (λ g,
    eqb (status_flag (Z.lor (Z.land (Z.lor (Z.lor s FLAG_B) FLAG_U) (not8 FLAG_B)) FLAG_U) g)
        (if g =? FLAG_B then false else if g =? FLAG_U then true else status_flag s g))
    FLAGS) bytes = true.
Proof. vm_compute. reflexivity. Qed.

(** What [BRK] leaves: three stack slots, the I flag and the vector. *)
Lemma step_brk c :
  wf c → read c (pc c) = 0x00 →
  ∃ c1, step c = Some (Ok 0x00, c1) ∧ sp c1 = wrap8 (sp c - 3) ∧
    read c1 (slot (sp c) 0) = wrap8 (Z.shiftr (wrap16 (pc c + 2)) 8) ∧
    read c1 (slot (sp c) 1) = wrap8 (wrap16 (pc c + 2)) ∧
    read c1 (slot (sp c) 2) = Z.lor (Z.lor (status c) FLAG_B) FLAG_U ∧
    pc c1 = read_u16 c IRQ_VECTOR ∧ flag c1 FLAG_I = true.
Proof.
  intros H Hop. unfold step. rewrite Hop. change (decode 0x00) with (Some (Brk, Imp)).
  cbn [exec mbind option_bind]. set (c0 := set_pc (wrap16 (pc c + 1)) c).
  replace (wrap16 (pc c0 + 1)) with (wrap16 (pc c + 2)) by (subst c0; simpl; int_lia).
  set (v := wrap16 (pc c + 2)). destruct (push_u16_spec v c0 (wf_sp c H)) as (Psp & P0 & P1 & Pne & _).
  cbn [sp c0 set_pc] in Psp, P0, P1, Pne. assert (Pst : status (push_u16 v c0) = status c) by done.
  set (c2 := push_u16 v c0) in *. clearbody c2.
  assert (Hs2 : is_u8 (sp c2)) by (rewrite Psp; apply wrap8_u8). rewrite push_slot, Pst by done.
  assert (E2 : slot (sp c2) 0 = slot (sp c) 2) by (rewrite Psp; unfold slot; f_equal; int_lia).
  rewrite E2. eexists; split; [reflexivity|].
  set (st := Z.lor (Z.lor (status c) FLAG_B) FLAG_U).
  assert (Hread : ∀ p q k, k ≠ slot (sp c) 2 →
    read (set_pc p (set_flag FLAG_I true (set_sp q (write (slot (sp c) 2) st c2)))) k = read c2 k)
    by (intros p q k Hk; apply (read_write_ne (slot (sp c) 2)); done).
  split_and!.
  - transitivity (wrap8 (sp c2 - 1)); [done|]. rewrite Psp. int_lia.
  - rewrite Hread by (apply slot_ne; lia). exact P0.
  - rewrite Hread by (apply slot_ne; lia). exact P1.
  - apply (read_write_eq (slot (sp c) 2)).
  - unfold read_u16. pose proof (λ k, vector_not_slot (sp c) k) as Hv.
    change (from_le (read (write (slot (sp c) 2) st c2) IRQ_VECTOR)
      (read (write (slot (sp c) 2) st c2) (wrap16 (IRQ_VECTOR + 1))) =
      from_le (read c0 IRQ_VECTOR) (read c0 (wrap16 (IRQ_VECTOR + 1)))).
    rewrite !read_write_ne by (apply not_eq_sym, Hv). by rewrite !Pne by apply Hv.
  - apply negb_true_iff, Z.eqb_neq. intros E. cbn [status set_pc set_flag set_status] in E.
    apply (f_equal (λ z, Z.testbit z 2)) in E.
    rewrite Z.land_spec, Z.lor_spec, orb_true_r in E. discriminate.
Qed.

(** [RTI] pulls the three slots below [s] back. *)
Lemma step_rti d s v st :
  is_u8 s → is_u16 v → read d (pc d) = 0x40 → sp d = wrap8 (s - 3) →
  read d (slot s 2) = st → read d (slot s 1) = wrap8 v →
  read d (slot s 0) = wrap8 (Z.shiftr v 8) →
  ∃ d', step d = Some (Ok 0x40, d') ∧ pc d' = v ∧ sp d' = s ∧ same_registers d d' ∧
    status d' = Z.lor (Z.land st (not8 FLAG_B)) FLAG_U.
Proof.
  intros Hs Hv Hrti Hsp Hst Hlo Hhi. unfold step. rewrite Hrti.
  change (decode 0x40) with (Some (Rti, Imp)). cbn [exec mbind option_bind].
  rewrite (pull_slot _ s 3) by done. rewrite (pull_u16_slot _ s 2 v) by done.
  eexists; split; [reflexivity|]. cbn [pc sp set_pc set_sp set_status status].
  split_and!; try done; [|by rewrite <-Hst]. rewrite Z.sub_0_r. by apply wrap8_id.
Qed.

(** An interrupt returns: [BRK] saves the address two bytes on and the
    flags, masks interrupts and continues at the IRQ vector; any handler that
    gives back the stack pointer and the three pushed bytes and reaches an [RTI]
    resumes there with the interrupted flags (B clear, U set) and stack
    pointer. *)
Theorem brk_rti_return c c1 d :
  wf c → read c (pc c) = 0x00 → step c = Some (Ok 0x00, c1) →
  stack_kept (sp c) 3 c1 d → read d (pc d) = 0x40 →
  pc c1 = read_u16 c IRQ_VECTOR ∧ flag c1 FLAG_I = true ∧
  ∃ d', step d = Some (Ok 0x40, d') ∧ pc d' = wrap16 (pc c + 2) ∧ sp d' = sp c ∧
    same_registers d d' ∧
    ∀ g, g ∈ FLAGS →
      flag d' g = if g =? FLAG_B then false else if g =? FLAG_U then true else flag c g.
Proof.
  intros H Hop Hc1 [Hsp Hkept] Hrti.
  destruct (step_brk c H Hop) as (c1' & E & Esp & E0 & E1 & E2 & Epc & Ei).
  rewrite Hc1 in E. injection E as <-. split_and!; [done..|].
  destruct (step_rti d (sp c) (wrap16 (pc c + 2)) (Z.lor (Z.lor (status c) FLAG_B) FLAG_U))
    as (d' & Hd & Hpc & Hspd & Hreg & Hstat); try rewrite Hkept by lia;
    auto using wrap16_u16 with nes; [congruence|].
  exists d'. split_and!; try done. intros g Hg. unfold flag. rewrite Hstat.
  pose proof (byte_enum _ status_restore_enum _ (wf_status c H)) as Hen.
  rewrite forallb_forall in Hen. apply eqb_prop. apply (Hen g). by apply list_elem_of_In.
Qed.

Definition brk_cpu : Cpu :=
  mkCpu 1 2 3 0x01 0x8000 0xE3 (list_to_map [(0xFFFE, 0x00); (0xFFFF, 0x90); (0x9000, 0x40)]).

Theorem brk_rti_return_witness :
  ∃ c1 d', step brk_cpu = Some (Ok 0x00, c1) ∧ pc c1 = 0x9000 ∧
    step c1 = Some (Ok 0x40, d') ∧ pc d' = 0x8002 ∧ sp d' = 0x01 ∧ flag d' FLAG_N = true.
Proof.
  assert (H : wf brk_cpu) by (constructor; closed).
  destruct (step brk_cpu) as [[[op|e] c1]|] eqn:E;
    [assert (op = 0x00) by (vm_compute in E; injection E as <- _; reflexivity); subst op
    |vm_compute in E; discriminate|vm_compute in E; discriminate].
  destruct (brk_rti_return brk_cpu c1 c1 H) as (Hv & _ & d' & Hs & Hpc & Hsp & _ & Hf);
    [reflexivity|exact E|split; reflexivity| |].
  - vm_compute in E. injection E as <-. reflexivity.
  - exists c1, d'. split; [reflexivity|]. split; [exact Hv|].
    split; [exact Hs|]. split; [exact Hpc|]. split; [exact Hsp|].
    rewrite Hf; [reflexivity|unfold FLAGS; rewrite !elem_of_cons; tauto].
Defined.

(** ** What an instruction leaves alone

    Rewriting a field of a state through the helpers that do not touch it. *)
Lemma pc_set_flag f on c : pc (set_flag f on c) = pc c. Proof. by destruct on. Qed.
Lemma memory_set_flag f on c : memory (set_flag f on c) = memory c. Proof. by destruct on. Qed.
Lemma pc_zn v c : pc (zn v c) = pc c. Proof. apply zn_fields. Qed.
Lemma memory_zn v c : memory (zn v c) = memory c. Proof. apply zn_fields. Qed.
Lemma pc_add_with_carry m c : pc (add_with_carry m c) = pc c.
Proof. unfold add_with_carry. rewrite set_zn_eq. simpl. by rewrite pc_zn, !pc_set_flag. Qed.
Lemma memory_add_with_carry m c : memory (add_with_carry m c) = memory c.
Proof. unfold add_with_carry. rewrite set_zn_eq. simpl. by rewrite memory_zn, !memory_set_flag. Qed.
Lemma pc_compare r m c : pc (compare r m c) = pc c.
Proof. unfold compare. rewrite set_zn_eq. simpl. by rewrite pc_zn, pc_set_flag. Qed.
Lemma memory_compare r m c : memory (compare r m c) = memory c.
Proof. unfold compare. rewrite set_zn_eq. simpl. by rewrite memory_zn, memory_set_flag. Qed.
Create Rewrite HintDb nes.
#[export] Hint Rewrite pc_set_flag memory_set_flag pc_zn memory_zn pc_add_with_carry
  memory_add_with_carry pc_compare memory_compare : nes.

(** A closure of [shift] touches neither [pc] nor memory. *)
Definition shift_fun_frame (f : Z → Cpu → Z * Cpu) : Prop :=
  ∀ v c, pc (f v c).2 = pc c ∧ memory (f v c).2 = memory c.

Lemma shift_funs_frame :
  shift_fun_frame asl ∧ shift_fun_frame lsr ∧ shift_fun_frame rol ∧ shift_fun_frame ror.
Proof.
  unfold shift_fun_frame, asl, lsr, rol, ror.
  split_and!; intros v c; rewrite set_zn_eq; cbn [snd]; autorewrite with nes; done.
Qed.

Lemma shift_frame mode f c c' :
  shift_fun_frame f → shift mode f c = Some c' →
  pc c' = pc c ∧
  ∀ k, read c' k = read c k ∨ operand_addr c mode = Some k.
Proof.
  intros Hf. unfold shift. case_bool_decide.
  - destruct (Hf (a c) c) as [Hpc Hmem]. destruct (f (a c) c) as [r c1]. intros [= <-].
    split; [done|]. intros k. left. unfold read. simpl in *. by rewrite Hmem.
  - destruct (operand_addr c mode) as [addr|]; [|done]. simpl.
    destruct (Hf (read c addr) c) as [Hpc Hmem]. destruct (f (read c addr) c) as [r c1].
    intros [= <-]. split; [done|]. intros k. destruct (decide (addr = k)) as [->|Hne]; [by right|left].
    rewrite read_write_ne by done. unfold read. simpl in *. by rewrite Hmem.
Qed.

(** Opens one arm of [exec] in hypothesis [E : exec op mode c = Some (fl, c')]. *)
Ltac exec_inv E :=
  unfold exec, operand in E;
  try (match type of E with context [operand_addr ?c ?m] =>
    destruct (operand_addr c m) as [addr|]; [|discriminate] end);
  cbn [mbind option_bind] in E; rewrite ?set_zn_eq in E;
  try (match type of E with context [shift ?m ?f ?c] =>
    destruct (shift m f c) as [cs|] eqn:Eshift; [|discriminate] end);
  cbn [mbind option_bind] in E.

Lemma exec_pc op mode c c' :
  exec op mode c = Some (Fall, c') → is_branch op = false → pc c' = pc c.
Proof.
  intros E Hb. destruct shift_funs_frame as (Hasl & Hlsr & Hrol & Hror).
  destruct op; try discriminate Hb; exec_inv E; try discriminate E;
    try (match type of E with context [pull_u16 ?d] => destruct (pull_u16 d); discriminate E end);
    try (injection E as <-; cbn [pc set_a set_x set_y set_sp set_status write set_memory push];
         autorewrite with nes; done);
    try (match goal with Hf : shift_fun_frame ?f, Es : shift _ ?f _ = _ |- _ =>
      injection E as <-; by destruct (shift_frame _ _ _ _ Hf Es) end).
Qed.

(** When the conditional branch [op] is taken. *)
Definition taken (op : Op) (c : Cpu) : bool :=
  match op with
  | Bcc => negb (flag c FLAG_C) | Bcs => flag c FLAG_C
  | Bne => negb (flag c FLAG_Z) | Beq => flag c FLAG_Z
  | Bpl => negb (flag c FLAG_N) | Bmi => flag c FLAG_N
  | Bvc => negb (flag c FLAG_V) | Bvs => flag c FLAG_V
  | _ => false
  end.

(** The operations whose arm sets [pc] itself and returns early. *)
Definition is_jump (op : Op) : bool :=
  match op with Jmp | Jsr | Rts | Rti | Brk => true | _ => false end.

Lemma exec_flow op mode c fl c' : exec op mode c = Some (fl, c') → is_jump op = false → fl = Fall.
Proof.
  intros E Hj. destruct op; try discriminate Hj; exec_inv E;
    try (destruct (pull c) as [? ?]); by injection E as <-.
Qed.

(** The program counter: an instruction that is neither a jump nor a branch
    moves on by its addressing mode's size, an untaken branch by two bytes, and a
    taken one from there by its signed displacement, all modulo 65536. *)
Theorem step_pc c c' opcode op mode :
  step c = Some (Ok opcode, c') → decode (read c (pc c)) = Some (op, mode) → is_jump op = false →
  pc c' =
    if taken op c then wrap16 (pc c + 2 + as_i8 (read c (wrap16 (pc c + 1))))
    else wrap16 (pc c + size mode).
Proof.
  intros Hstep Hd Hj. pose proof (decode_in _ _ _ Hd) as Hin. unfold step in Hstep. rewrite Hd in Hstep.
  set (c0 := set_pc (wrap16 (pc c + 1)) c) in Hstep.
  destruct (exec op mode c0) as [[fl c1]|] eqn:E; [|discriminate]. cbn [mbind option_bind] in Hstep.
  assert (fl = Fall) as -> by exact (exec_flow _ _ _ _ _ E Hj). injection Hstep as _ <-.
  destruct (is_branch op) eqn:Hb.
  - assert (Hrel : mode = Rel).
    { apply list_elem_of_In in Hin. revert Hin.
      assert (Hall : forallb (λ e : Z * Op * Mode, negb (is_branch e.1.2) || bool_decide (e.2 = Rel)) OPCODES = true)
        by (vm_compute; reflexivity).
      rewrite forallb_forall in Hall. intros Hin. specialize (Hall _ Hin). simpl in Hall.
      rewrite Hb in Hall. by apply bool_decide_eq_true in Hall. }
    subst mode. change (size Rel) with 2.
    assert (Hbr : c1 = branch (taken op c) c0) by (destruct op; try discriminate Hb; by injection E as <-).
    subst c1. unfold branch. cbn [pc set_pc c0].
    change (read c0 (wrap16 (pc c + 1))) with (read c (wrap16 (pc c + 1))).
    destruct (taken op c); int_lia.
  - cbn [pc set_pc]. rewrite (exec_pc _ _ _ _ E Hb). cbn [pc set_pc c0].
    destruct (taken op c) eqn:Ht; [by destruct op|]. int_lia.
Qed.

(** [BNE -6] at $8008, Z clear: the loop of [main_program]. *)
Definition bne_cpu : Cpu := mkCpu 0 6 0 0xFD 0x8008 0x24 (list_to_map [(0x8008, 0xD0); (0x8009, 0xFA)]).

Theorem step_pc_witness :
  ∃ c', step bne_cpu = Some (Ok 0xD0, c') ∧ pc c' = 0x8004.
Proof.
  destruct (step bne_cpu) as [[[opcode|e] c']|] eqn:E;
    [|vm_compute in E; discriminate|vm_compute in E; discriminate].
  assert (Hop : opcode = 0xD0) by (vm_compute in E; injection E as <- _; reflexivity). subst opcode.
  exists c'. split; [reflexivity|].
  rewrite (step_pc bne_cpu c' 0xD0 Bne Rel E); reflexivity.
Defined.

(** The operations that write through their addressing mode, and the number of
    bytes an operation pushes. *)
Definition stores (op : Op) : bool :=
  match op with Sta | Stx | Sty | Inc | Dec | Asl | Lsr | Rol | Ror => true | _ => false end.
Definition pushes (op : Op) : Z :=
  match op with Pha | Php => 1 | Jsr => 2 | Brk => 3 | _ => 0 end.

Lemma read_memory c c' k : memory c' = memory c → read c' k = read c k.
Proof. unfold read. by intros ->. Qed.

Lemma push_u16_frame v c k :
  is_u8 (sp c) → read (push_u16 v c) k = read c k ∨ ∃ j, 0 ≤ j < 2 ∧ k = slot (sp c) j.
Proof.
  intros H. destruct (push_u16_spec v c H) as (_ & _ & _ & Hne & _).
  destruct (decide (k = slot (sp c) 0)) as [->|H0]; [right; exists 0; split; [lia|done]|].
  destruct (decide (k = slot (sp c) 1)) as [->|H1]; [right; exists 1; split; [lia|done]|].
  left. auto.
Qed.

Lemma push_frame v c k :
  is_u8 (sp c) → read (push v c) k = read c k ∨ k = slot (sp c) 0.
Proof.
  intros H. rewrite push_slot by done. destruct (decide (slot (sp c) 0 = k)) as [->|Hne]; [by right|left].
  exact (read_write_ne _ _ v c Hne).
Qed.

Lemma exec_frame op mode c fl c' k :
  wf c → exec op mode c = Some (fl, c') →
  read c' k = read c k ∨ (stores op = true ∧ operand_addr c mode = Some k) ∨
  ∃ j, 0 ≤ j < pushes op ∧ k = slot (sp c) j.
Proof.
  intros H E. destruct shift_funs_frame as (Hasl & Hlsr & Hrol & Hror).
  assert (Hsp : is_u8 (sp c)) by auto with nes.
  destruct op; exec_inv E;
    try (match type of E with context [pull ?d] => destruct (pull d) as [v c1] eqn:Ep end;
         unfold pull in Ep; injection Ep as _ <-);
    try (match type of E with context [pull_u16 ?d] => destruct (pull_u16 d) as [v' c2] eqn:Eq end;
         unfold pull_u16, pull in Eq; injection Eq as _ <-);
    try (injection E as _ <-; left; apply read_memory;
         cbn [memory set_a set_x set_y set_sp set_pc set_status]; autorewrite with nes; done);
    try (match goal with Hf : shift_fun_frame ?f, Es : shift _ ?f _ = _ |- _ =>
      injection E as _ <-; destruct (shift_frame _ _ _ _ Hf Es) as [_ Hr];
      destruct (Hr k); auto end);
    try (injection E as _ <-; destruct (decide (addr = k)) as [->|Hne]; [by right; left|left];
         rewrite read_write_ne by done; apply read_memory; autorewrite with nes; done).
  all: injection E as _ <-; cbn [pushes].
  - set (st := Z.lor (Z.lor (status _) FLAG_B) FLAG_U). clearbody st.
    set (v := wrap16 (pc c + 1)). clearbody v.
    destruct (push_u16_spec v c Hsp) as (Psp & _).
    change (read (push st (push_u16 v c)) k = read c k ∨ (stores Brk = true ∧ operand_addr c mode = Some k)
      ∨ ∃ j, 0 ≤ j < 3 ∧ k = slot (sp c) j).
    destruct (push_frame st (push_u16 v c) k) as [E|E]; [rewrite Psp; apply wrap8_u8| |].
    + rewrite E. destruct (push_u16_frame v c k Hsp) as [|(j & Hj & ->)]; [by left|].
      right; right. exists j. split; [lia|done].
    + right; right. exists 2. split; [lia|]. rewrite E, Psp. unfold slot. f_equal. int_lia.
  - destruct (push_u16_frame (wrap16 (pc c + 1)) c k Hsp) as [|]; eauto.
  - destruct (push_frame (a c) c k Hsp) as [|]; [by left|]. right; right. exists 0. split; [lia|done].
  - destruct (push_frame (Z.lor (Z.lor (status c) FLAG_B) FLAG_U) c k Hsp) as [|]; [by left|].
    right; right. exists 0. split; [lia|done].
Qed.

(** One instruction changes memory at most at its own operand address, when
    it is a store or a read-modify-write, and at the stack slots it pushes: every
    other byte keeps its value, and no other instruction writes at all. *)
Theorem step_frame c c' opcode op mode k :
  wf c → step c = Some (Ok opcode, c') → decode (read c (pc c)) = Some (op, mode) →
  read c' k ≠ read c k →
  (stores op = true ∧ operand_addr (set_pc (wrap16 (pc c + 1)) c) mode = Some k) ∨
  ∃ j, 0 ≤ j < pushes op ∧ k = slot (sp c) j.
Proof.
  intros H Hstep Hd Hk. unfold step in Hstep. rewrite Hd in Hstep.
  set (c0 := set_pc (wrap16 (pc c + 1)) c) in *.
  assert (H0 : wf c0) by (apply set_pc_wf; [done|apply wrap16_u16]).
  destruct (exec op mode c0) as [[fl c1]|] eqn:E; [|discriminate]. cbn [mbind option_bind] in Hstep.
  destruct (exec_frame op mode c0 fl c1 k H0 E) as [Hr|]; [|done].
  exfalso. apply Hk. rewrite <-(read_memory c c0 k eq_refl), <-Hr. apply read_memory.
  destruct fl; [destruct (is_branch op)|]; by injection Hstep as _ <-.
Qed.

(** [STA $02FF,X] with X = 1 writes $0300. *)
Definition sta_cpu : Cpu :=
  mkCpu 9 1 0 0xFD 0x8000 0x24 (list_to_map [(0x8000, 0x9D); (0x8001, 0xFF); (0x8002, 0x02)]).

Theorem step_frame_witness :
  ∃ c', step sta_cpu = Some (Ok 0x9D, c') ∧
    (stores Sta = true ∧ operand_addr (set_pc (wrap16 (pc sta_cpu + 1)) sta_cpu) AbsX = Some 0x300 ∨
     ∃ j, 0 ≤ j < pushes Sta ∧ 0x300 = slot (sp sta_cpu) j).
Proof.
  assert (H : wf sta_cpu) by (constructor; closed).
  destruct (step sta_cpu) as [[[opcode|e] c']|] eqn:E;
    [|vm_compute in E; discriminate|vm_compute in E; discriminate].
  assert (Hop : opcode = 0x9D) by (vm_compute in E; injection E as <- _; reflexivity). subst opcode.
  exists c'. split; [reflexivity|]. apply (step_frame sta_cpu c' 0x9D Sta AbsX 0x300 H E); [reflexivity|].
  vm_compute in E. injection E as <-. vm_compute. discriminate.
Defined.

(** ** Running *)

(** [trace c ops c'] : the opcodes [ops] executed in order from [c] lead to [c']. *)
Inductive trace : Cpu → list Z → Cpu → Prop :=
| trace_nil c : trace c [] c
| trace_cons c c1 c2 op ops :
    step c = Some (Ok op, c1) → trace c1 ops c2 → trace c (op :: ops) c2.

Lemma run_from_spec n fuel c :
  (1 ≤ n)%nat → wf c →
  ∃ r c' ops, run_from n fuel c = Some (r, c') ∧ wf c' ∧ trace c ops c' ∧
    match r with
    | Ok k => k = (pred n + length ops)%nat ∧ (length ops ≤ fuel)%nat ∧
        ((length ops = fuel ∧ 0 ∉ ops) ∨ (∃ ops', ops = ops' ++ [0] ∧ (0 ∉ ops')))
    | Err e => (length ops < fuel)%nat ∧ (0 ∉ ops) ∧ step c' = Some (Err e, c')
    end.
Proof.
  revert n c. induction fuel as [|fuel IH]; intros n c Hn H; simpl.
  - exists (Ok (pred n)), c, []. split_and!; [done|done|constructor|simpl; lia|simpl; lia|].
    left. by split; [|apply not_elem_of_nil].
  - destruct (step_spec c H) as (r & c1 & Hs & H1 & Herr & Hok). rewrite Hs. simpl.
    destruct (decode (read c (pc c))) as [om|] eqn:Hd.
    + rewrite Hok in * by done. destruct (Z.eqb_spec (read c (pc c)) 0) as [E0|E0].
      * exists (Ok n), c1, [read c (pc c)].
        split_and!; [done|done|by econstructor; [|constructor]|simpl; lia|simpl; lia|].
        right. exists []. rewrite E0. split; [done|apply not_elem_of_nil].
      * destruct (IH (S n) c1) as (r' & c' & ops & Hr & H' & Ht & Hm); [lia|done|].
        exists r', c', (read c (pc c) :: ops). split_and!; [done|done|by econstructor|].
        destruct r' as [k|e].
        -- destruct Hm as (Hk & Hl & Ho). split_and!; simpl; [simpl in Hk; lia|lia|].
           destruct Ho as [[Hlen Hz]|(ops' & -> & Hz)].
           ++ left. split; [lia|]. rewrite not_elem_of_cons. auto.
           ++ right. exists (read c (pc c) :: ops'). split; [done|]. rewrite not_elem_of_cons. auto.
        -- destruct Hm as (Hl & Hz & He). split_and!; simpl; [lia| |done].
           rewrite not_elem_of_cons. auto.
    + destruct (Herr eq_refl) as [-> ->]. eexists (Err _), c, [].
      split_and!; [done|done|constructor|simpl; lia|apply not_elem_of_nil|done].
Qed.

(** [run max_steps] always terminates with a result and without panicking:
    [Ok k] means that exactly [k] instructions ran and that either the last one
    was the first [BRK] or [k = max_steps] with no [BRK] among them; an error means
    that fewer ran, none of them a [BRK], and that the byte now at [pc] is not an
    official opcode. *)
Theorem run_terminates max_steps c :
  wf c →
  ∃ r c' ops, run max_steps c = Some (r, c') ∧ wf c' ∧ trace c ops c' ∧
    match r with
    | Ok k => k = length ops ∧ (k ≤ max_steps)%nat ∧
        ((k = max_steps ∧ 0 ∉ ops) ∨ (∃ ops', ops = ops' ++ [0] ∧ (0 ∉ ops')))
    | Err e => (length ops < max_steps)%nat ∧ (0 ∉ ops) ∧ step c' = Some (Err e, c')
    end.
Proof.
  intros H. destruct (run_from_spec 1 max_steps c) as (r & c' & ops & Hr & H' & Ht & Hm); [lia|done|].
  exists r, c', ops. split_and!; try done. destruct r as [k|e]; [|done].
  simpl in Hm. destruct Hm as (-> & Hl & Ho). auto.
Qed.

Theorem run_terminates_witness :
  ∃ c0 c', load 0x8000 main_program new = Some c0 ∧
    run 100 (reset c0) = Some (Ok 32%nat, c') ∧ read c' 0x0200 = 42.
Proof.
  destruct (load 0x8000 main_program new) as [c0|] eqn:E0; [|vm_compute in E0; discriminate].
  assert (H : wf (reset c0)) by (vm_compute in E0; injection E0 as <-; constructor; closed).
  destruct (run_terminates 100 (reset c0) H) as (r & c' & ops & Hr & _).
  exists c0, c'. split; [reflexivity|].
  assert (Hc : match run 100 (reset c0) with Some (r, c') => r = Ok 32%nat ∧ read c' 0x0200 = 42 | None => False end)
    by (vm_compute in E0; injection E0 as <-; vm_compute; split; reflexivity).
  rewrite Hr in Hc. destruct Hc as [-> Hc]. split; [exact Hr|exact Hc].
Defined.
