(* ===== verification/Nes6502Main.v ===== *)
(** * The MOS 6502 core: the demo program, for all operands

    [main.rs] loads a program that multiplies 6 by 7 by repeated addition, runs it to
    its [BRK] and prints what it left.  [multiply] is that program with the two bytes
    and the address of the result as parameters; the theorem runs it on every choice of
    them, at every origin, in every initial state, through [Cpu::load], [Cpu::reset]
    and [Cpu::run]. *)
From S2P Require Import Prelude RustStr Bits Nes6502 Nes6502Props.

(** ** The program and what [main] prints *)
Definition multiply (m n addr : Z) : list Z :=
  [0xA9; 0x00; 0xA2; n; 0x18; 0x69; m; 0xCA; 0xD0; 0xFA; 0x8D; wrap8 addr; addr / 256; 0x00].

(** [{:02X}] of a byte, [{:04X}] of a [u16], [{:08b}] of a byte. *)
Definition hex_digit (d : Z) : char := if d <? 10 then 48 + d else 55 + d.
Definition fmt_02X (v : Z) : str := [hex_digit (v / 16); hex_digit (v mod 16)].
Definition fmt_04X (v : Z) : str := fmt_02X (v / 256) ++ fmt_02X (v mod 256).
Definition fmt_08b (v : Z) : str := List.map (λ b : bool, if b then 49 else 48) (bits 8 v).

(** The three [println!]s. *)
Definition report (steps : nat) (c : Cpu) : list str :=
  [lit "ran " ++ show (Z.of_nat steps) ++ lit " instructions";
   lit "6 * 7 = " ++ show (a c) ++ lit " (stored at $0200: " ++ show (read c 0x0200) ++ lit ")";
   lit "A=" ++ fmt_02X (a c) ++ lit " X=" ++ fmt_02X (x c) ++ lit " Y=" ++ fmt_02X (y c) ++
   lit " SP=" ++ fmt_02X (sp c) ++ lit " PC=" ++ fmt_04X (pc c) ++ lit " P=" ++ fmt_08b (status c)].

(** [main]: [None] is a panic, of [load] or of the [expect]. *)
Definition main : option (list str) :=
  '(r, c) ← load_and_run 0x8000 main_program new;
  match r with Ok steps => Some (report steps c) | Err _ => None end.

Example main_program_multiply : main_program = multiply 6 7 0x0200.
Proof. reflexivity. Qed.

(** ** Single instructions

    [regs] is everything but the flags. *)
Definition regs (c : Cpu) : Z * Z * Z * Z * Z * gmap Z Z := (a c, x c, y c, sp c, pc c, memory c).

Lemma regs_set_flag f on c : regs (set_flag f on c) = regs c.
Proof. by destruct on. Qed.
Lemma regs_zn v c : regs (zn v c) = regs c.
Proof. unfold zn, set_zn. cbn [snd]. by rewrite !regs_set_flag. Qed.

Lemma regs_eq c A X Y S P M : regs c = (A, X, Y, S, P, M) → a c = A ∧ x c = X ∧ y c = Y ∧ sp c = S ∧ pc c = P ∧ memory c = M.
Proof. unfold regs. intros E. by injection E as -> -> -> -> -> ->. Qed.

Lemma regs_set_a v c A X Y S P M : regs c = (A, X, Y, S, P, M) → regs (set_a v c) = (v, X, Y, S, P, M).
Proof. unfold regs. intros E. injection E as Ea Ex Ey Es Ep Em. cbn. congruence. Qed.
Lemma regs_set_x v c A X Y S P M : regs c = (A, X, Y, S, P, M) → regs (set_x v c) = (A, v, Y, S, P, M).
Proof. unfold regs. intros E. injection E as Ea Ex Ey Es Ep Em. cbn. congruence. Qed.
Lemma regs_set_pc v c A X Y S P M : regs c = (A, X, Y, S, P, M) → regs (set_pc v c) = (A, X, Y, S, v, M).
Proof. unfold regs. intros E. injection E as Ea Ex Ey Es Ep Em. cbn. congruence. Qed.

(** The byte at an address of a memory. *)
Definition byte_at (M : gmap Z Z) (k : Z) : Z := default 0 (M !! k).

(** A well-formed state at [P] with registers [A] and [X], the stack empty. *)
Definition at_pc (M : gmap Z Z) (P A X : Z) (c : Cpu) : Prop :=
  wf c ∧ regs c = (A, X, 0, 0xFD, P, M).

Section instructions.
Context (M : gmap Z Z) (P A X : Z) (c : Cpu).
Context (H : at_pc M P A X c) (HP : 0 ≤ P) (Hend : P + 3 < 65536).

Lemma at_read k : read c k = byte_at M k.
Proof using H. destruct H as [_ Hr]. apply regs_eq in Hr as (_ & _ & _ & _ & _ & Hm). unfold read, byte_at. by rewrite Hm. Qed.

(** The state behind the opcode. *)
Let c0 := set_pc (wrap16 (P + 1)) c.
Lemma c0_regs : wf c0 ∧ regs c0 = (A, X, 0, 0xFD, wrap16 (P + 1), M).
Proof using H. destruct H as [Hw Hr]. split; [unfold c0; wf_solve|]. by apply (regs_set_pc _ _ _ _ _ _ P). Qed.

Lemma at_step op mode opcode : byte_at M P = opcode → decode opcode = Some (op, mode) →
  step c = '(fl, c1) ← exec op mode c0;
           Some (Ok opcode, match fl with Return => c1 | Fall => if is_branch op then c1 else set_pc (wrap16 (pc c1 + (size mode - 1))) c1 end).
Proof using H.
  intros Ho Hd. pose proof H as [_ Hr]. apply regs_eq in Hr as (_ & _ & _ & _ & Hp & _). unfold step. rewrite Hp, at_read, Ho, Hd.
  fold c0. destruct (exec op mode c0) as [[[] c1]|]; [|done|done]. cbn [mbind option_bind]. by destruct (is_branch op).
Qed.

(** An immediate operand, and the state behind an instruction that falls through. *)
Lemma at_operand v : byte_at M (P + 1) = v → operand Imm c0 = Some v.
Proof using H HP Hend.
  intros Hv. unfold operand, c0. cbn [operand_addr mbind option_bind pc set_pc]. rewrite (wrap16_id (P + 1)) by int_lia.
  change (read (set_pc (P + 1) c) (P + 1)) with (read c (P + 1)). by rewrite at_read, Hv.
Qed.

Lemma at_moved c' A' X' k Q : wf c' → regs c' = (A', X', 0, 0xFD, wrap16 (P + 1), M) → Q = P + 1 + k → 0 ≤ k ≤ 2 →
  at_pc M Q A' X' (set_pc (wrap16 (pc c' + k)) c').
Proof using HP Hend.
  intros Hw E -> Hk. pose proof (regs_eq _ _ _ _ _ _ _ E) as (_ & _ & _ & _ & Ep & _). split; [wf_solve|].
  rewrite Ep, (wrap16_id (P + 1)), wrap16_id by int_lia. by apply (regs_set_pc _ _ _ _ _ _ (wrap16 (P + 1))).
Qed.

Lemma step_lda v : byte_at M P = 0xA9 → byte_at M (P + 1) = v → is_u8 v →
  ∃ c', step c = Some (Ok 0xA9, c') ∧ at_pc M (P + 2) v X c'.
Proof using H HP Hend.
  intros Ho Hv Hu. destruct c0_regs as [Hw Hr]. rewrite (at_step Lda Imm _ Ho eq_refl). cbn [exec]. rewrite (at_operand v Hv).
  cbn [mbind option_bind]. rewrite set_zn_eq. eexists; split; [reflexivity|]. apply at_moved; [wf_solve| |cbn; lia..].
  apply (regs_set_a _ _ A). by rewrite regs_zn.
Qed.

Lemma step_ldx v : byte_at M P = 0xA2 → byte_at M (P + 1) = v → is_u8 v →
  ∃ c', step c = Some (Ok 0xA2, c') ∧ at_pc M (P + 2) A v c'.
Proof using H HP Hend.
  intros Ho Hv Hu. destruct c0_regs as [Hw Hr]. rewrite (at_step Ldx Imm _ Ho eq_refl). cbn [exec]. rewrite (at_operand v Hv).
  cbn [mbind option_bind]. rewrite set_zn_eq. eexists; split; [reflexivity|]. apply at_moved; [wf_solve| |cbn; lia..].
  apply (regs_set_x _ _ A X). by rewrite regs_zn.
Qed.

Lemma step_clc : byte_at M P = 0x18 →
  ∃ c', step c = Some (Ok 0x18, c') ∧ at_pc M (P + 1) A X c' ∧ flag c' FLAG_C = false.
Proof using H HP Hend.
  intros Ho. destruct c0_regs as [Hw Hr]. rewrite (at_step Clc Imp _ Ho eq_refl). eexists; split; [reflexivity|]. split.
  - apply at_moved; [wf_solve|by rewrite regs_set_flag|cbn; lia..].
  - change (flag (set_flag FLAG_C false c0) FLAG_C = false). rewrite flag_set_flag; [done|in_flags..|auto with nes].
Qed.

Lemma step_adc m : byte_at M P = 0x69 → byte_at M (P + 1) = m → is_u8 m → flag c FLAG_C = false →
  ∃ c', step c = Some (Ok 0x69, c') ∧ at_pc M (P + 2) (wrap8 (A + m)) X c'.
Proof using H HP Hend.
  intros Ho Hv Hu Hc. destruct c0_regs as [Hw Hr]. rewrite (at_step Adc Imm _ Ho eq_refl). cbn [exec]. rewrite (at_operand m Hv).
  cbn [mbind option_bind]. eexists; split; [reflexivity|]. apply at_moved; [wf_solve| |cbn; lia..].
  destruct (add_with_carry_spec m c0 Hw Hu) as [(Ex & Ey & Es & Ep & Em & _) (Ea & _)]. unfold regs. rewrite Ex, Ey, Es, Ep, Em, Ea.
  unfold cin. change (flag c0 FLAG_C) with (flag c FLAG_C). rewrite Hc. cbn [Z.b2z]. rewrite Z.add_0_r.
  apply regs_eq in Hr as (-> & -> & -> & -> & -> & ->). done.
Qed.

Lemma step_dex : byte_at M P = 0xCA →
  ∃ c', step c = Some (Ok 0xCA, c') ∧ at_pc M (P + 1) A (wrap8 (X - 1)) c' ∧ flag c' FLAG_Z = (wrap8 (X - 1) =? 0).
Proof using H HP Hend.
  intros Ho. destruct c0_regs as [Hw Hr]. rewrite (at_step Dex Imp _ Ho eq_refl). cbn [exec].
  pose proof (regs_eq _ _ _ _ _ _ _ Hr) as (_ & Ex & _). rewrite Ex, set_zn_eq. eexists; split; [reflexivity|]. split.
  - apply at_moved; [wf_solve| |cbn; lia..]. apply (regs_set_x _ _ A X). by rewrite regs_zn.
  - change (flag (zn (wrap8 (X - 1)) c0) FLAG_Z = (wrap8 (X - 1) =? 0)). by rewrite zn_flags by (apply wrap8_u8 || auto with nes || in_flags).
Qed.

(** [BNE -6]. *)
Lemma step_bne : byte_at M P = 0xD0 → byte_at M (P + 1) = 0xFA → 4 ≤ P →
  ∃ c', step c = Some (Ok 0xD0, c') ∧ at_pc M (if flag c FLAG_Z then P + 2 else P - 4) A X c'.
Proof using H HP Hend.
  intros Ho Hv H4. destruct c0_regs as [Hw Hr]. rewrite (at_step Bne Rel _ Ho eq_refl). eexists; split; [reflexivity|]. cbn [is_branch].
  split; [wf_solve|]. unfold branch. change (pc c0) with (wrap16 (P + 1)). change (flag c0 FLAG_Z) with (flag c FLAG_Z).
  rewrite (wrap16_id (P + 1)) by int_lia. change (read c0 (P + 1)) with (read c (P + 1)). rewrite at_read, Hv. change (as_i8 0xFA) with (-6).
  erewrite (regs_set_pc _ c0) by exact Hr. do 2 f_equal. destruct (flag c FLAG_Z); simpl; int_lia.
Qed.

Lemma step_sta lo hi : byte_at M P = 0x8D → byte_at M (P + 1) = lo → byte_at M (P + 2) = hi → is_u8 lo → is_u8 hi → is_u8 A →
  ∃ c', step c = Some (Ok 0x8D, c') ∧ at_pc (<[lo + 256 * hi := A]> M) (P + 3) A X c'.
Proof using H HP Hend.
  intros Ho Hlo Hhi Hl Hh Hu. destruct c0_regs as [Hw Hr]. rewrite (at_step Sta Abs _ Ho eq_refl). cbn [exec].
  assert (E : operand_addr c0 Abs = Some (lo + 256 * hi)).
  { cbn [operand_addr]. change (pc c0) with (wrap16 (P + 1)). unfold read_u16. rewrite (wrap16_id (P + 1)), wrap16_id by int_lia.
    change (read c0 ?k) with (read c k). rewrite !at_read, Hlo. replace (P + 1 + 1) with (P + 2) by lia. by rewrite Hhi, from_le_add. }
  rewrite E. cbn [mbind option_bind]. eexists; split; [reflexivity|]. cbn [is_branch size].
  apply regs_eq in Hr as (Ea & Ex & Ey & Es & Ep & Em). split.
  - wf_solve. int_lia.
  - unfold regs, write. cbn [a x y sp pc memory set_pc set_memory]. rewrite Ea, Ex, Ey, Es, Ep, Em, (wrap16_id (P + 1)) by int_lia. do 2 f_equal. int_lia.
Qed.
End instructions.

(** [BRK] with the stack empty: three bytes pushed, the registers kept. *)
Definition interrupted (c : Cpu) : Cpu :=
  let c := push_u16 (wrap16 (pc c + 1)) c in
  let c := set_flag FLAG_I true (push (Z.lor (Z.lor (status c) FLAG_B) FLAG_U) c) in
  set_pc (read_u16 c IRQ_VECTOR) c.
Lemma exec_brk c : exec Brk Imp c = Some (Return, interrupted c).
Proof. reflexivity. Qed.
Lemma interrupted_registers c : a (interrupted c) = a c ∧ x (interrupted c) = x c ∧ y (interrupted c) = y c.
Proof. done. Qed.

Lemma step_brk_at M P A X c : at_pc M P A X c → byte_at M P = 0x00 →
  ∃ c', step c = Some (Ok 0x00, c') ∧ wf c' ∧ a c' = A ∧ x c' = X ∧ y c' = 0 ∧ sp c' = 0xFA ∧
    ∀ k, ¬ (0x1FB ≤ k ≤ 0x1FD) → read c' k = byte_at M k.
Proof.
  intros H Ho. pose proof (at_read M P A X c H) as Hread. destruct H as [Hw Hr]. apply regs_eq in Hr as (Ha & Hx & Hy & Hs & Hp & Hm).
  assert (Hop : read c (pc c) = 0) by (by rewrite Hp, Hread). destruct (step_brk c Hw Hop) as (c' & E & Esp & _).
  set (c0 := set_pc (wrap16 (pc c + 1)) c). destruct (exec_wf Brk Imp c0) as (fl & c1 & Ex & Hw1); [unfold c0; wf_solve|done|].
  rewrite exec_brk in Ex. injection Ex as _ E1.
  assert (Est : step c = Some (Ok 0, interrupted c0)).
  { unfold step. rewrite Hop. change (decode 0) with (Some (Brk, Imp)). cbn [mbind option_bind]. fold c0. by rewrite exec_brk. }
  rewrite Est in E. injection E as E. rewrite E in E1. subst c1. destruct (interrupted_registers c0) as (Ea & Ex & Ey).
  rewrite E in Est, Ea, Ex, Ey. exists c'. split; [exact Est|]. split; [exact Hw1|]. rewrite Ea, Ex, Ey, Esp, Hs.
  split; [exact Ha|]. split; [exact Hx|]. split; [exact Hy|]. split; [done|].
  intros k Hk. rewrite <-Hread. destruct (decide (read c' k = read c k)) as [|Hne]; [done|].
  destruct (step_frame c c' 0 Brk Imp k Hw Est) as [[? _]|(j & Hj & ->)]; [by rewrite Hop|done|done|].
  exfalso. apply Hk. rewrite Hs. cbn [pushes] in Hj. unfold slot, STACK_BASE. int_lia.
Qed.

Lemma run_from_step n fuel c op c1 : step c = Some (Ok op, c1) → op ≠ 0 → run_from n (S fuel) c = run_from (S n) fuel c1.
Proof. intros E Hop. cbn [run_from]. rewrite E. cbn [mbind option_bind]. by rewrite (proj2 (Z.eqb_neq op 0) Hop). Qed.

(** ** The program *)
Section program.
Context (M : gmap Z Z) (o m n addr : Z).
Context (Hm : is_u8 m) (Hn : is_u8 n) (Haddr : is_u16 addr) (Ho : 0 ≤ o) (Hend : o + 14 ≤ 0xFFFC).
Context (Hcode : ∀ i b, multiply m n addr !! i = Some b → byte_at M (o + Z.of_nat i) = b).

Ltac code i := lazymatch goal with |- byte_at _ ?k = _ => replace k with (o + Z.of_nat i) by lia; by apply Hcode end.

(** The loop [CLC; ADC #m; DEX; BNE] with [k] turns to go. *)
Lemma loop_runs k : ∀ s fuel A c, (1 ≤ k ≤ 256)%nat → at_pc M (o + 4) A (wrap8 (Z.of_nat k)) c →
  ∃ c', run_from s (4 * k + fuel) c = run_from (s + 4 * k) fuel c' ∧ at_pc M (o + 10) (wrap8 (A + Z.of_nat k * m)) 0 c'.
Proof using Hm Hn Haddr Ho Hend Hcode.
  induction k as [|k IH]; intros s fuel A c Hk Hc; [lia|].
  destruct (step_clc _ _ _ _ _ Hc) as (c1 & E1 & H1 & Hf1); [lia..|code 4%nat|].
  destruct (step_adc _ _ _ _ _ H1 ltac:(lia) ltac:(lia) m) as (c2 & E2 & H2); [code 5%nat|code 6%nat|done|done|].
  destruct (step_dex _ _ _ _ _ H2) as (c3 & E3 & H3 & Hf3); [lia..|code 7%nat|].
  destruct (step_bne _ _ _ _ _ H3) as (c4 & E4 & H4); [lia..|code 8%nat|code 9%nat|lia|].
  replace (4 * S k + fuel)%nat with (S (S (S (S (4 * k + fuel))))) by lia.
  rewrite (run_from_step _ _ _ _ _ E1), (run_from_step _ _ _ _ _ E2), (run_from_step _ _ _ _ _ E3), (run_from_step _ _ _ _ _ E4) by done.
  replace (wrap8 (wrap8 (Z.of_nat (S k)) - 1)) with (wrap8 (Z.of_nat k)) in * by int_lia. rewrite Hf3 in H4.
  destruct k as [|k].
  - exists c4. split; [f_equal; lia|]. change (wrap8 (Z.of_nat 0)) with 0 in H4. cbn in H4.
    replace (o + 10) with (o + 4 + 1 + 2 + 1 + 2) by lia. replace (Z.of_nat 1 * m) with m by lia. exact H4.
  - assert (Hz : (wrap8 (Z.of_nat (S k)) =? 0) = false) by (apply Z.eqb_neq; int_lia). rewrite Hz in H4.
    replace (o + 4 + 1 + 2 + 1 - 4) with (o + 4) in H4 by lia. destruct (IH (S (S (S (S s)))) fuel _ c4 ltac:(lia) H4) as (c' & -> & Hc').
    exists c'. split; [f_equal; lia|]. replace (wrap8 (A + Z.of_nat (S (S k)) * m)) with (wrap8 (wrap8 (A + m) + Z.of_nat (S k) * m)); [exact Hc'|].
    unfold wrap8. rewrite Zplus_mod_idemp_l. f_equal. lia.
Qed.

(** The whole program, from its first instruction to the [BRK]. *)
Definition turns : nat := if n =? 0 then 256 else Z.to_nat n.
Definition spared (k : Z) : Prop := ¬ (0x1FB ≤ k ≤ 0x1FD).
Lemma program_runs fuel c : addr ≠ o + 13 → spared addr → at_pc M o 0 0 c →
  ∃ c', run (4 * turns + 4 + fuel) c = Some (Ok (4 * turns + 4)%nat, c') ∧ wf c' ∧ a c' = wrap8 (m * n) ∧ x c' = 0 ∧ y c' = 0 ∧ sp c' = 0xFA ∧
    read c' addr = wrap8 (m * n) ∧ ∀ k, k ≠ addr → spared k → read c' k = byte_at M k.
Proof using Hm Hn Haddr Ho Hend Hcode.
  intros Hne Hsp Hc. assert (Ht : (1 ≤ turns ≤ 256)%nat) by (unfold turns; destruct (Z.eqb_spec n 0); int_lia).
  assert (Hwt : wrap8 (Z.of_nat turns) = n) by (unfold turns; destruct (Z.eqb_spec n 0) as [->|]; [done|]; int_lia).
  destruct (step_lda _ _ _ _ _ Hc ltac:(lia) ltac:(lia) 0) as (c1 & E1 & H1); [rewrite <-(Z.add_0_r o); code 0%nat|code 1%nat|done|].
  destruct (step_ldx _ _ _ _ _ H1 ltac:(lia) ltac:(lia) n) as (c2 & E2 & H2); [code 2%nat|code 3%nat|done|].
  replace (o + 2 + 2) with (o + 4) in H2 by lia. rewrite <-Hwt in H2. unfold run.
  replace (4 * turns + 4 + fuel)%nat with (S (S (4 * turns + (S (S fuel))))) by lia.
  rewrite (run_from_step _ _ _ _ _ E1), (run_from_step _ _ _ _ _ E2) by done.
  destruct (loop_runs turns 3 (S (S fuel)) _ _ Ht H2) as (c3 & -> & H3). set (A := wrap8 (0 + Z.of_nat turns * m)) in *.
  assert (HA : A = wrap8 (m * n)).
  { unfold A. rewrite <-Hwt. unfold wrap8. rewrite Zmult_mod_idemp_r. f_equal. lia. }
  destruct (step_sta _ _ _ _ _ H3 ltac:(lia) ltac:(lia) (wrap8 addr) (addr / 256)) as (c4 & E4 & H4);
    [code 10%nat|code 11%nat|code 12%nat|apply wrap8_u8|int_lia|apply wrap8_u8|].
  replace (wrap8 addr + 256 * (addr / 256)) with addr in H4 by int_lia. replace (o + 10 + 3) with (o + 13) in H4 by lia.
  destruct (step_brk_at _ _ _ _ _ H4) as (c5 & E5 & Hw5 & Ha5 & Hx5 & Hy5 & Hs5 & Hr5).
  { unfold byte_at. rewrite lookup_insert_ne by done. by apply (Hcode 13%nat). }
  exists c5. rewrite (run_from_step _ _ _ _ _ E4) by done. cbn [run_from]. rewrite E5. cbn [mbind option_bind]. rewrite Z.eqb_refl.
  split; [do 3 f_equal; lia|]. rewrite Ha5, Hx5, Hy5, Hs5, (Hr5 addr Hsp). unfold byte_at. rewrite lookup_insert_eq.
  split_and!; try done. intros k Hk Hk'. rewrite Hr5 by done. unfold byte_at. by rewrite lookup_insert_ne.
Qed.
End program.

(** ** Loading *)
Lemma load_bytes o p c : wf c → Forall is_u8 p → 0 ≤ o → o + Z.of_nat (length p) ≤ 65536 →
  let c' := foldl (λ c '(i, b), write (o + Z.of_nat i) b c) c (imap pair p) in
  wf c' ∧ (∀ i b, p !! i = Some b → read c' (o + Z.of_nat i) = b) ∧ ∀ k, ¬ (o ≤ k < o + Z.of_nat (length p)) → read c' k = read c k.
Proof.
  intros Hw. induction p as [|b p IH] using rev_ind; intros Hp Ho Hlen; [by split_and!|].
  rewrite length_app in Hlen. simpl in Hlen. apply Forall_app in Hp as [Hp Hb]. inversion_clear Hb as [|? ? Hb' _].
  destruct IH as (IHw & IHi & IHk); [done..|lia|]. rewrite imap_app, foldl_app. cbn [imap foldl]. rewrite Nat.add_0_r.
  set (c' := foldl _ c _) in *. clearbody c'. cbv zeta. split_and!.
  - apply write_wf; [done|int_lia|done].
  - intros i v Hi. destruct (decide (i = length p)) as [->|Hne].
    + rewrite lookup_app_r, Nat.sub_diag in Hi by lia. injection Hi as <-. apply read_write_eq.
    + assert (i < length p)%nat by (apply lookup_lt_Some in Hi; rewrite length_app in Hi; simpl in Hi; lia).
      rewrite read_write_ne by lia. apply IHi. by rewrite lookup_app_l in Hi.
  - intros k Hk. rewrite length_app in Hk. simpl in Hk. rewrite read_write_ne by lia. apply IHk. lia.
Qed.

Lemma load_spec o p c : wf c → Forall is_u8 p → 0 ≤ o → o + Z.of_nat (length p) ≤ 0xFFFC →
  ∃ c', load o p c = Some c' ∧ wf c' ∧ (∀ i b, p !! i = Some b → read c' (o + Z.of_nat i) = b) ∧ read_u16 c' RESET_VECTOR = o ∧
    ∀ k, ¬ (o ≤ k < o + Z.of_nat (length p)) → k ≠ RESET_VECTOR → k ≠ RESET_VECTOR + 1 → read c' k = read c k.
Proof.
  intros Hw Hp Ho Hlen. unfold load. rewrite (proj2 (Z.leb_le _ _)) by lia. destruct (load_bytes o p c Hw Hp Ho) as (Hw' & Hi & Hk); [lia|].
  set (c1 := foldl _ c _) in *. clearbody c1. eexists; split; [reflexivity|]. unfold RESET_VECTOR in *. split_and!.
  - repeat apply write_wf; try apply wrap8_u8; done.
  - intros i b Hb. pose proof (lookup_lt_Some _ _ _ Hb). rewrite !read_write_ne by lia. by apply Hi.
  - unfold read_u16. change (wrap16 (0xFFFC + 1)) with (0xFFFC + 1). rewrite read_write_eq, read_write_ne, read_write_eq by lia.
    rewrite from_le_add by apply wrap8_u8. rewrite Z.shiftr_div_pow2 by lia. change (2 ^ 8) with 256. int_lia.
  - intros k H1 H2 H3. rewrite !read_write_ne by done. by apply Hk.
Qed.

(** ** Properties *)

(** C6. The demo program multiplies: [load_and_run] on the program of [main.rs], with
    any two bytes, from any well-formed state, at an origin [o] that leaves room for its
    14 bytes below the vectors, and with an address for the result that is not that of its
    [BRK] ([o + 13]) nor one of the three stack bytes 0x1FB-0x1FD that [BRK] pushes to, ends at its [BRK] after exactly [4t + 4] instructions, where [t] is
    the second factor (256 for 0, which [DEX] counts down from), far from the limit of
    a million; the product modulo 256 is in A and at the address, X and Y are 0, and no
    byte changes but the program, the reset vector, the result and three of the
    stack. *)
Theorem multiply_runs o m n addr c :
  wf c → is_u8 m → is_u8 n → is_u16 addr → 0 ≤ o → o + 14 ≤ 0xFFFC → addr ≠ o + 13 → spared addr →
  ∃ c', load_and_run o (multiply m n addr) c = Some (Ok (4 * turns n + 4)%nat, c') ∧ wf c' ∧
    a c' = wrap8 (m * n) ∧ read c' addr = wrap8 (m * n) ∧ x c' = 0 ∧ y c' = 0 ∧ sp c' = 0xFA ∧
    ∀ k, ¬ (o ≤ k < o + 14) → k ≠ RESET_VECTOR → k ≠ RESET_VECTOR + 1 → k ≠ addr → spared k → read c' k = read c k.
Proof.
  intros Hw Hm Hn Haddr Ho Hend Hne Hsp. unfold load_and_run.
  destruct (load_spec o (multiply m n addr) c Hw) as (c1 & -> & Hw1 & Hcode & Hv & Hk); [|done|done|].
  { unfold multiply. repeat constructor; try done; int_lia. }
  cbn [mbind option_bind]. assert (Ht : (turns n ≤ 256)%nat) by (unfold turns; destruct (Z.eqb_spec n 0); int_lia).
  replace (N.to_nat 1000000) with (4 * turns n + 4 + (N.to_nat 1000000 - (4 * turns n + 4)))%nat by lia.
  assert (Hread : ∀ k, byte_at (memory c1) k = read c1 k) by done.
  destruct (program_runs (memory c1) o m n addr Hm Hn Haddr Ho Hend) with (fuel := (N.to_nat 1000000 - (4 * turns n + 4))%nat) (c := reset c1)
    as (c' & Hrun & Hw' & Ha & Hx & Hy & Hs & Hr & Hk'); [intros i b Hb; rewrite Hread; by apply Hcode|done|done| |].
  - unfold reset. split; [wf_solve; closed|]. unfold regs. cbn [a x y sp pc memory set_pc set_status set_sp set_a set_x set_y].
    do 2 f_equal. exact Hv.
  - exists c'. split; [exact Hrun|]. split_and!; try done. intros k K1 K2 K3 K4 K5. rewrite Hk', Hread by done. by apply Hk.
Qed.

(** [main]'s own run, and the page it prints. *)
Lemma multiply_runs_witness :
  (∃ c', load_and_run 0x8000 main_program new = Some (Ok 32%nat, c') ∧ a c' = 42 ∧ read c' 0x0200 = 42) ∧
  main = Some [lit "ran 32 instructions"; lit "6 * 7 = 42 (stored at $0200: 42)"; lit "A=2A X=00 Y=00 SP=FA PC=0000 P=00100110"].
Proof.
  split; [|vm_compute; reflexivity].
  destruct (multiply_runs 0x8000 6 7 0x0200 new) as (c' & E & _ & Ha & Hr & _); [constructor; closed|done..|closed|].
  exists c'. split; [exact E|]. split; [exact Ha|exact Hr].
Defined.
