(* ===== verification/Roguelike.v ===== *)
(** * The roguelike engine ([2026-10-02-rust-roguelike/src/lib.rs]): definitions

    Coordinates are [i32]: every [+ - *] of the source goes through
    [chk_i32 oc], which panics or wraps out of range as the build profile [oc]
    says.  Indexing [tiles] and [monsters] panics out of bounds.  A function that
    can panic returns an [option]; one that draws random numbers takes and returns
    the generator. *)
From S2P Require Import Prelude RustStr.

Inductive Tile : Set := Wall | Floor.
#[export] Instance Tile_eq_dec : EqDecision Tile.
Proof. solve_decision. Defined.

(** [Rng(u64)] *)
Definition Rng : Type := Z.

Definition rng_new (seed : Z) : Rng := Z.max seed 1.

Definition rng_next (r : Rng) : Z * Rng :=
  let x := r in
  let x := Z.lxor x (wrap64 (Z.shiftl x 13)) in
  let x := Z.lxor x (Z.shiftr x 7) in
  let x := Z.lxor x (wrap64 (Z.shiftl x 17)) in
  (x, x).

Record Rect : Set := mkRect { rx : Z; ry : Z; rw : Z; rh : Z }.

Record Map : Type := mkMap {
  width : Z; height : Z; tiles : list Tile; rooms : list Rect
}.
Definition set_tiles (t : list Tile) (m : Map) : Map := mkMap (width m) (height m) t (rooms m).
Definition set_rooms (r : list Rect) (m : Map) : Map := mkMap (width m) (height m) (tiles m) r.

Record Actor : Type := mkActor { ax : Z; ay : Z; hp : Z; power : Z; glyph : char }.
Definition set_hp (v : Z) (p : Actor) : Actor := mkActor (ax p) (ay p) v (power p) (glyph p).
Definition set_pos (x y : Z) (p : Actor) : Actor := mkActor x y (hp p) (power p) (glyph p).

Record Game : Type := mkGame {
  map : Map; player : Actor; monsters : list Actor; log : list str
}.
Definition set_player (p : Actor) (g : Game) : Game := mkGame (map g) p (monsters g) (log g).
Definition set_monsters (l : list Actor) (g : Game) : Game := mkGame (map g) (player g) l (log g).
Definition push_log (s : str) (g : Game) : Game :=
  mkGame (map g) (player g) (monsters g) (log g ++ [s]).

Section rogue.
Context (oc : bool).

(** [lo + (self.next() % (hi - lo) as u64) as i32]; [%] by zero panics. *)
Definition rng_range (lo hi : Z) (r : Rng) : option (Z * Rng) :=
  let '(n, r) := rng_next r in
  d ← chk_i32 oc (hi - lo);
  if wrap64 d =? 0 then None
  else
    v ← chk_i32 oc (lo + wrap_i32 (n mod wrap64 d));
    Some (v, r).

Definition center (r : Rect) : option (Z * Z) :=
  cx ← chk_i32 oc (rx r + Z.quot (rw r) 2);
  cy ← chk_i32 oc (ry r + Z.quot (rh r) 2);
  Some (cx, cy).

Definition intersects (s o : Rect) : option bool :=
  r1 ← chk_i32 oc (rx o + rw o);
  if rx s <=? r1 then
    r2 ← chk_i32 oc (rx s + rw s);
    if rx o <=? r2 then
      r3 ← chk_i32 oc (ry o + rh o);
      if ry s <=? r3 then
        r4 ← chk_i32 oc (ry s + rh s);
        Some (ry o <=? r4)
      else Some false
    else Some false
  else Some false.

(** [(y * self.width + x) as usize] *)
Definition idx (m : Map) (x y : Z) : option Z :=
  p ← chk_i32 oc (y * width m);
  q ← chk_i32 oc (p + x);
  Some (wrap64 q).

Definition in_bounds (m : Map) (x y : Z) : bool :=
  (0 <=? x) && (0 <=? y) && (x <? width m) && (y <? height m).

(** [self.tiles[i]], read and written. *)
Definition get_tile (m : Map) (i : Z) : option Tile :=
  if i <? Z.of_nat (length (tiles m)) then tiles m !! Z.to_nat i else None.
Definition set_tile (i : Z) (t : Tile) (m : Map) : option Map :=
  if i <? Z.of_nat (length (tiles m)) then Some (set_tiles (<[Z.to_nat i := t]> (tiles m)) m) else None.

Definition walkable (m : Map) (x y : Z) : option bool :=
  if in_bounds m x y then
    i ← idx m x y;
    t ← get_tile m i;
    Some (bool_decide (t = Floor))
  else Some false.

(** [let i = self.idx(x, y); self.tiles[i] = Tile::Floor;] *)
Definition carve (x y : Z) (m : Map) : option Map :=
  i ← idx m x y; set_tile i Floor m.

Definition carve_room (r : Rect) (m : Map) : option Map :=
  yh ← chk_i32 oc (ry r + rh r);
  for_each (λ y m,
    xw ← chk_i32 oc (rx r + rw r);
    for_each (λ x m, carve x y m) (zrange (rx r) xw) m) (zrange (ry r) yh) m.

Definition carve_h (x1 x2 y : Z) (m : Map) : option Map :=
  for_each (λ x m, carve x y m) (zrange (Z.min x1 x2) (Z.max x1 x2 + 1)) m.
Definition carve_v (y1 y2 x : Z) (m : Map) : option Map :=
  for_each (λ y m, carve x y m) (zrange (Z.min y1 y2) (Z.max y1 y2 + 1)) m.

(** [m.rooms.iter().any(|r| r.intersects(&room))] *)
Fixpoint any_intersects (rs : list Rect) (room : Rect) : option bool :=
  match rs with
  | [] => Some false
  | r :: rs => b ← intersects r room; if (b : bool) then Some true else any_intersects rs room
  end.

(** The corridor from the previous room's center to the new one's: a coin flip
    chooses which leg comes first. *)
Definition join_rooms (prev room : Rect) (r : Rng) (m : Map) : option (Rng * Map) :=
  '(px, py) ← center prev;
  '(nx, ny) ← center room;
  let '(n, r) := rng_next r in
  if n mod 2 =? 0 then
    m ← carve_h px nx py m; m ← carve_v py ny nx m; Some (r, m)
  else
    m ← carve_v py ny px m; m ← carve_h px nx ny m; Some (r, m).

(** The body of the loop of [Map::generate]. *)
Definition place_room (rm : Rng * Map) : option (Rng * Map) :=
  let '(r, m) := rm in
  '(w, r) ← rng_range 4 10 r;
  '(h, r) ← rng_range 3 7 r;
  xw ← chk_i32 oc (width m - w); xhi ← chk_i32 oc (xw - 1);
  '(x, r) ← rng_range 1 xhi r;
  yh ← chk_i32 oc (height m - h); yhi ← chk_i32 oc (yh - 1);
  '(y, r) ← rng_range 1 yhi r;
  let room := mkRect x y w h in
  hit ← any_intersects (rooms m) room;
  if (hit : bool) then Some (r, m)
  else
    m ← carve_room room m;
    '(r, m) ← match last (rooms m) with
              | Some prev => join_rooms prev room r m
              | None => Some (r, m)
              end;
    Some (r, set_rooms (rooms m ++ [room]) m).

(** A negative [(width * height) as usize] asks for more memory than any
    allocation can have: [vec!] panics. *)
Definition generate (w h seed : Z) : option Map :=
  n ← chk_i32 oc (w * h);
  if n <? 0 then None
  else
    let m := mkMap w h (replicate (Z.to_nat n) Wall) [] in
    '(_, m) ← for_each (λ _ rm, place_room rm) (seq 0 30) (rng_new seed, m);
    Some m.

(** The monsters of [Game::new]: one per room after the first. *)
Definition spawn (room : Rect) (rl : Rng * list Actor) : option (Rng * list Actor) :=
  let '(r, l) := rl in
  '(dx, r) ← rng_range 0 (rw room) r; x ← chk_i32 oc (rx room + dx);
  '(dy, r) ← rng_range 0 (rh room) r; y ← chk_i32 oc (ry room + dy);
  Some (r, l ++ [mkActor x y 6 2 111]).

Definition game_new (seed : Z) : option Game :=
  m ← generate 60 24 seed;
  let r := rng_new (Z.lxor seed 0x9e3779b97f4a7c15) in
  first ← rooms m !! 0%nat;
  '(px, py) ← center first;
  '(_, ms) ← for_each spawn (skipn 1 (rooms m)) (r, []);
  Some (mkGame m (mkActor px py 30 3 64) ms []).

(** [self.monsters.iter().position(|m| m.x == x && m.y == y && m.hp > 0)] *)
Definition occupies (x y : Z) (p : Actor) : bool := (ax p =? x) && (ay p =? y) && (0 <? hp p).
Fixpoint position (x y : Z) (l : list Actor) : option nat :=
  match l with
  | [] => None
  | p :: l' => if occupies x y p then Some 0%nat else S <$> position x y l'
  end.
Definition monster_at (g : Game) (x y : Z) : option nat := position x y (monsters g).

(** The two attempts of a chasing monster, in order, up to the first success. *)
Fixpoint try_steps (i : nat) (mx my : Z) (tries : list (Z * Z)) (g : Game) : option Game :=
  match tries with
  | [] => Some g
  | (tx, ty) :: tries =>
      if bool_decide ((tx, ty) = (0, 0)) then try_steps i mx my tries g
      else
        nx ← chk_i32 oc (mx + tx); ny ← chk_i32 oc (my + ty);
        let blocked := bool_decide ((nx, ny) = (ax (player g), ay (player g)))
                       || bool_decide (is_Some (monster_at g nx ny)) in
        free ← walkable (map g) nx ny;
        if (free : bool) && negb blocked then
          mi ← monsters g !! i;
          Some (set_monsters (<[i := set_pos nx ny mi]> (monsters g)) g)
        else try_steps i mx my tries g
  end.

(** The turn of monster [i]: the body of the loop of [monsters_act]. *)
Definition monster_act (i : nat) (g : Game) : option Game :=
  mi ← monsters g !! i;
  if hp mi <=? 0 then Some g
  else
    let mx := ax mi in let my := ay mi in
    dx ← chk_i32 oc (ax (player g) - mx); dy ← chk_i32 oc (ay (player g) - my);
    adx ← chk_i32 oc (Z.abs dx); ady ← chk_i32 oc (Z.abs dy);
    if 8 <? Z.max adx ady then Some g
    else if Z.max adx ady <=? 1 then
      h ← chk_i32 oc (hp (player g) - power mi);
      let g := set_player (set_hp h (player g)) g in
      Some (push_log (lit "The orc hits you for " ++ show_i32 (power mi)) g)
    else
      let sx := Z.sgn dx in let sy := Z.sgn dy in
      let tries := if ady <=? adx then [(sx, 0); (0, sy)] else [(0, sy); (sx, 0)] in
      try_steps i mx my tries g.

Definition monsters_act (g : Game) : option Game :=
  for_each monster_act (seq 0 (length (monsters g))) g.

Definition player_move (dx dy : Z) (g : Game) : option (bool * Game) :=
  nx ← chk_i32 oc (ax (player g) + dx); ny ← chk_i32 oc (ay (player g) + dy);
  match monster_at g nx ny with
  | Some i =>
      mi ← monsters g !! i;
      h ← chk_i32 oc (hp mi - power (player g));
      let g := set_monsters (<[i := set_hp h mi]> (monsters g)) g in
      let g := push_log (lit "You hit the orc for " ++ show_i32 (power (player g))) g in
      let g := if h <=? 0 then push_log (lit "The orc dies") g else g in
      g ← monsters_act g; Some (true, g)
  | None =>
      free ← walkable (map g) nx ny;
      if (free : bool) then
        g ← monsters_act (set_player (set_pos nx ny (player g)) g); Some (true, g)
      else Some (false, g)
  end.

Definition is_dead (g : Game) : bool := hp (player g) <=? 0.

(** The character [render] draws at [(x, y)]. *)
Definition render_cell (g : Game) (x y : Z) : option char :=
  if bool_decide ((x, y) = (ax (player g), ay (player g))) then Some 64
  else if bool_decide (is_Some (monster_at g x y)) then Some 111
  else free ← walkable (map g) x y; Some (if (free : bool) then 46 else 35).

Definition render (g : Game) : option str :=
  for_each (λ y out,
    out ← for_each (λ x out, c ← render_cell g x y; Some (out ++ [c])) (zrange 0 (width (map g))) out;
    Some (out ++ [LF])) (zrange 0 (height (map g))) [].
End rogue.
