(* ===== verification/RoguelikeMap.v ===== *)
(** * The roguelike engine: the random generator and the dungeon

    The generator of [Rng] is a permutation of the nonzero 64-bit states; a
    dungeon large enough for the largest room is generated without panic, its
    rooms are disjoint, inside a border of wall, and connected. *)
From S2P Require Import Prelude RustStr Roguelike.

(** ** The xorshift generator *)
Definition is_rng (r : Rng) : Prop := 0 < r < 18446744073709551616.

(** The three linear maps of [rng_next]. *)
Definition xs_left (k x : Z) : Z := Z.lxor x (wrap64 (Z.shiftl x k)).
Definition xs_right (k x : Z) : Z := Z.lxor x (Z.shiftr x k).

Lemma rng_next_eq r : rng_next r = (xs_left 17 (xs_right 7 (xs_left 13 r)), xs_left 17 (xs_right 7 (xs_left 13 r))).
Proof. done. Qed.

Lemma wrap64_bit x i : 0 ≤ i → Z.testbit (wrap64 x) i = (i <? 64) && Z.testbit x i.
Proof.
  intros Hi. unfold wrap64. change 18446744073709551616 with (2 ^ 64).
  destruct (Z.ltb_spec i 64); [by rewrite Z.mod_pow2_bits_low|by rewrite Z.mod_pow2_bits_high by lia].
Qed.

Lemma xs_left_lxor k x y : 0 ≤ k → xs_left k (Z.lxor x y) = Z.lxor (xs_left k x) (xs_left k y).
Proof.
  intros Hk. apply Z.bits_inj'. intros i Hi. unfold xs_left.
  rewrite !Z.lxor_spec, !wrap64_bit, !Z.shiftl_spec, Z.lxor_spec by done.
  destruct (i <? 64), (Z.testbit x i), (Z.testbit y i), (Z.testbit x (i - k)), (Z.testbit y (i - k)); done.
Qed.

Lemma xs_right_lxor k x y : xs_right k (Z.lxor x y) = Z.lxor (xs_right k x) (xs_right k y).
Proof.
  apply Z.bits_inj'. intros i Hi. unfold xs_right.
  rewrite !Z.lxor_spec, !Z.shiftr_spec, Z.lxor_spec by done.
  destruct (Z.testbit x i), (Z.testbit y i), (Z.testbit x (i + k)), (Z.testbit y (i + k)); done.
Qed.

Lemma u64_bound x : is_u64 x ↔ 0 ≤ x < 2 ^ 64.
Proof. done. Qed.

Lemma xs_left_u64 k x : is_u64 x → is_u64 (xs_left k x).
Proof. intros. apply (lxor_bound 64); [lia|done|apply wrap64_u64]. Qed.

Lemma xs_right_u64 k x : 0 ≤ k → is_u64 x → is_u64 (xs_right k x).
Proof.
  intros Hk Hx. apply (lxor_bound 64); [lia|done|]. rewrite Z.shiftr_div_pow2 by done.
  assert (0 < 2 ^ k) by lia. unfold_int. split; [apply Z.div_pos; lia|].
  apply Z.div_lt_upper_bound; nia.
Qed.

(** Only 0 maps to 0: an odd multiple of [x] is 0 modulo [2^64] only if [x] is. *)
Lemma xs_left_zero k x :
  0 < k → Z.gcd (2 ^ 64) (2 ^ k - 1) = 1 → is_u64 x → xs_left k x = 0 → x = 0.
Proof.
  intros Hk Hg Hx E. apply Z.lxor_eq in E. rewrite Z.shiftl_mul_pow2 in E by lia.
  assert (Hdiv : (2 ^ 64 | (2 ^ k - 1) * x)).
  { exists (x * 2 ^ k / 2 ^ 64). unfold wrap64 in E. change 18446744073709551616 with (2 ^ 64) in E.
    pose proof (Z.div_mod (x * 2 ^ k) (2 ^ 64)). lia. }
  apply Z.gauss in Hdiv; [|done]. destruct Hdiv as [q Hq]. rewrite u64_bound in Hx.
  assert (q = 0) by nia. subst. lia.
Qed.

Lemma xs_right_zero k x : 0 < k → is_u64 x → xs_right k x = 0 → x = 0.
Proof.
  intros Hk Hx E. apply Z.lxor_eq in E. rewrite Z.shiftr_div_pow2 in E by lia.
  assert (H2 : 2 ^ 1 ≤ 2 ^ k) by (apply Z.pow_le_mono_r; lia). change (2 ^ 1) with 2 in H2.
  destruct (Z.eq_dec x 0) as [|Hne]; [done|].
  pose proof (Z.div_lt x (2 ^ k)). unfold_int. lia.
Qed.

Definition xorshift (r : Rng) : Rng := xs_left 17 (xs_right 7 (xs_left 13 r)).

Lemma xorshift_zero r : is_u64 r → xorshift r = 0 → r = 0.
Proof.
  intros Hr E. unfold xorshift in E.
  apply (xs_left_zero 13); [done|by vm_compute|done|].
  apply (xs_right_zero 7); [done|by apply xs_left_u64|].
  apply (xs_left_zero 17); [done|by vm_compute| |done].
  by apply xs_right_u64, xs_left_u64.
Qed.

Lemma xorshift_rng r : is_rng r → is_rng (xorshift r).
Proof.
  intros Hr. assert (Hu : is_u64 r) by (unfold is_rng, is_u64 in *; lia).
  assert (is_u64 (xorshift r)) by (by apply xs_left_u64, xs_right_u64, xs_left_u64).
  assert (xorshift r ≠ 0) by (intros H0; pose proof (xorshift_zero r Hu H0); unfold is_rng in *; lia).
  unfold is_rng, is_u64 in *. lia.
Qed.

Lemma xorshift_inj r1 r2 : is_u64 r1 → is_u64 r2 → xorshift r1 = xorshift r2 → r1 = r2.
Proof.
  intros H1 H2 E. apply Z.lxor_eq, xorshift_zero; [by apply (lxor_bound 64)|].
  unfold xorshift in *. rewrite xs_left_lxor, xs_right_lxor, xs_left_lxor by done.
  by rewrite E, Z.lxor_nilpotent.
Qed.

Lemma rng_next_rng r : is_rng r → is_rng (rng_next r).1 ∧ is_rng (rng_next r).2.
Proof. intros. by split; apply xorshift_rng. Qed.

Lemma rng_new_rng seed : is_u64 seed → is_rng (rng_new seed).
Proof. unfold_int. unfold is_rng, rng_new. lia. Qed.

Lemma rng_range_spec oc lo hi r :
  is_rng r → is_i32 lo → is_i32 hi → lo < hi → is_i32 (hi - lo) →
  ∃ v r', rng_range oc lo hi r = Some (v, r') ∧ lo ≤ v < hi ∧ is_rng r'.
Proof.
  intros Hr Hlo Hhi Hlt Hd. unfold rng_range. destruct (rng_next r) as [n r'] eqn:E.
  destruct (rng_next_rng r Hr) as [Hn Hr']. rewrite E in Hn, Hr'. simpl in *.
  rewrite chk_i32_ok by done. simpl.
  assert (Hw : wrap64 (hi - lo) = hi - lo) by (apply Z.mod_small; unfold_int; lia).
  rewrite Hw. destruct (Z.eqb_spec (hi - lo) 0); [lia|].
  assert (Hm : 0 ≤ n mod (hi - lo) < hi - lo) by (apply Z.mod_pos_bound; lia).
  assert (Hv : wrap_i32 (n mod (hi - lo)) = n mod (hi - lo)).
  { unfold wrap_i32. rewrite Z.mod_small; unfold_int; lia. }
  rewrite Hv, chk_i32_ok by (unfold_int; lia). simpl.
  eexists _, _. split_and!; [done|lia..|done].
Qed.

(** ** Floor tiles *)
Definition map_wf (m : Map) : Prop :=
  0 ≤ width m ∧ 0 ≤ height m ∧ width m * height m < 2147483648 ∧
  Z.of_nat (length (tiles m)) = width m * height m.

Definition tile_index (m : Map) (p : Z * Z) : nat := Z.to_nat (p.2 * width m + p.1).
Definition floor (m : Map) (p : Z * Z) : Prop :=
  in_bounds m p.1 p.2 = true ∧ tiles m !! tile_index m p = Some Floor.
#[export] Instance floor_dec m p : Decision (floor m p).
Proof. unfold floor. apply _. Defined.

Lemma in_bounds_spec m x y :
  in_bounds m x y = true ↔ 0 ≤ x < width m ∧ 0 ≤ y < height m.
Proof. unfold in_bounds. rewrite !andb_true_iff, !Z.leb_le, !Z.ltb_lt. lia. Qed.

(** The index of a tile in bounds: no overflow, and within [tiles]. *)
Lemma idx_spec oc m x y :
  map_wf m → in_bounds m x y = true →
  idx oc m x y = Some (y * width m + x) ∧
  0 ≤ y * width m + x < Z.of_nat (length (tiles m)).
Proof.
  intros (Hw & Hh & Hm & Hl) [Hx Hy]%in_bounds_spec. rewrite Hl.
  assert (0 ≤ y * width m + x < width m * height m) by nia. split; [|done].
  unfold idx. rewrite chk_i32_ok by (unfold_int; nia). simpl.
  rewrite chk_i32_ok by (unfold_int; lia). simpl.
  f_equal. apply Z.mod_small. lia.
Qed.

Lemma tile_index_inj m x y p q :
  map_wf m → in_bounds m x y = true → in_bounds m p q = true →
  tile_index m (x, y) = tile_index m (p, q) → (x, y) = (p, q).
Proof.
  intros Hm [Hx Hy]%in_bounds_spec [Hp Hq]%in_bounds_spec E. unfold tile_index in E. simpl in E.
  apply Z2Nat.inj in E; [|nia..]. assert (y = q) by nia. subst. f_equal. lia.
Qed.

Lemma walkable_spec oc m x y :
  map_wf m → walkable oc m x y = Some (bool_decide (floor m (x, y))).
Proof.
  intros Hm. enough (H : ∀ b : bool, (b ↔ floor m (x, y)) → walkable oc m x y = Some b)
    by (apply H, bool_decide_spec).
  intros b Hb. unfold walkable, floor in *. simpl in Hb. destruct (in_bounds m x y) eqn:E.
  - destruct (idx_spec oc m x y Hm E) as [-> Hi]. simpl. unfold get_tile.
    rewrite (proj2 (Z.ltb_lt _ _)) by lia. unfold tile_index in Hb. simpl in Hb.
    destruct (tiles m !! Z.to_nat (y * width m + x)) as [t|] eqn:Et.
    + simpl. f_equal. destruct b, t; naive_solver.
    + apply lookup_ge_None in Et. lia.
  - destruct b; naive_solver.
Qed.

(** [Carved S m m']: [m'] is [m] with the tiles of [S] turned to floor. *)
Definition same_shape (m m' : Map) : Prop :=
  map_wf m' ∧ width m' = width m ∧ height m' = height m ∧ rooms m' = rooms m.
Definition Carved (S : Z * Z → Prop) (m m' : Map) : Prop :=
  same_shape m m' ∧ ∀ p, floor m' p ↔ floor m p ∨ S p.

Lemma in_bounds_shape m m' x y : same_shape m m' → in_bounds m' x y = in_bounds m x y.
Proof. intros (_ & Ew & Eh & _). unfold in_bounds. by rewrite Ew, Eh. Qed.

Lemma carve_spec oc m x y :
  map_wf m → in_bounds m x y = true →
  ∃ m', carve oc x y m = Some m' ∧ Carved (λ p, p = (x, y)) m m'.
Proof.
  intros Hm Hb. unfold carve. destruct (idx_spec oc m x y Hm Hb) as [-> Hi]. simpl.
  unfold set_tile. rewrite (proj2 (Z.ltb_lt _ _)) by lia. eexists. split; [done|].
  destruct Hm as (Hw & Hh & Hwh & Hl).
  split; [unfold same_shape, map_wf; simpl; rewrite length_insert; by split_and!|].
  intros [p q]. unfold floor. simpl. change (in_bounds (set_tiles _ m) p q) with (in_bounds m p q).
  destruct (in_bounds m p q) eqn:E; [|split; [by intros [? _]|intros [[? _]|[= -> ->]]; congruence]].
  unfold tile_index. simpl. rewrite list_lookup_insert_Some. split.
  - intros [_ [(Ei & _ & _)|[_ ?]]]; [|by left]. right. symmetry.
    by apply (tile_index_inj m); [split_and!| | |].
  - intros H. split; [done|].
    destruct (decide (Z.to_nat (y * width m + x) = Z.to_nat (q * width m + p))) as [|Hne].
    + left. split_and!; [done..|lia].
    + right. split; [done|]. destruct H as [[_ H]|[= -> ->]]; done.
Qed.

(** A loop of carvings carves the union. *)
Lemma for_each_carve (f : Z → Map → option Map) (S : Z → Z * Z → Prop) l m :
  map_wf m →
  (∀ x m', x ∈ l → same_shape m m' → ∃ m'', f x m' = Some m'' ∧ Carved (S x) m' m'') →
  ∃ m', for_each f l m = Some m' ∧ Carved (λ p, ∃ x, x ∈ l ∧ S x p) m m'.
Proof.
  intros Hm Hf. assert (H0 : same_shape m m) by done.
  enough (H : ∀ k m1, (∀ x, x ∈ k → x ∈ l) → same_shape m m1 →
    ∃ m', for_each f k m1 = Some m' ∧ Carved (λ p, ∃ x, x ∈ k ∧ S x p) m1 m') by (by apply H).
  clear H0. induction k as [|x k IH]; intros m1 Hk H1; simpl.
  - exists m1. split; [done|]. split; [by destruct H1|]. intros p. set_solver.
  - destruct (Hf x m1) as (m2 & -> & H2 & F2); [set_solver|done|]. simpl.
    destruct (IH m2) as (m3 & E & H3 & F3); [set_solver| |].
    { destruct H1 as (_ & ? & ? & ?), H2 as (? & ? & ? & ?). split_and!; [done|congruence..]. }
    exists m3. split; [done|]. split.
    { destruct H2 as (_ & ? & ? & ?), H3 as (? & ? & ? & ?). split_and!; [done|congruence..]. }
    intros p. rewrite F3, F2. set_solver.
Qed.

Lemma Carved_ext S T m m' : (∀ p, S p ↔ T p) → Carved S m m' → Carved T m m'.
Proof. intros E [H F]. split; [done|]. intros p. by rewrite F, E. Qed.

Lemma Carved_trans S T m1 m2 m3 :
  Carved S m1 m2 → Carved T m2 m3 → Carved (λ p, S p ∨ T p) m1 m3.
Proof.
  intros [(_ & ? & ? & ?) F2] [(? & ? & ? & ?) F3]. split; [split_and!; [done|congruence..]|].
  intros p. rewrite F3, F2. tauto.
Qed.

(** The tiles of a rectangle: [x1 ≤ x < x2], [y1 ≤ y < y2]. *)
Definition box (x1 x2 y1 y2 : Z) (p : Z * Z) : Prop := x1 ≤ p.1 < x2 ∧ y1 ≤ p.2 < y2.
Definition box_in (m : Map) (x1 x2 y1 y2 : Z) : Prop :=
  0 ≤ x1 ∧ x2 ≤ width m ∧ 0 ≤ y1 ∧ y2 ≤ height m.

Lemma carve_row_spec oc m x1 x2 y :
  map_wf m → box_in m x1 x2 y (y + 1) →
  ∃ m', for_each (λ x m, carve oc x y m) (zrange x1 x2) m = Some m' ∧
        Carved (box x1 x2 y (y + 1)) m m'.
Proof.
  intros Hm Hb.
  destruct (for_each_carve (λ x m, carve oc x y m) (λ x p, p = (x, y)) (zrange x1 x2) m)
    as (m' & E & H); [done| |].
  - intros x m' Hx%elem_of_zrange Hs. apply carve_spec; [by destruct Hs|].
    rewrite (in_bounds_shape m) by done. apply in_bounds_spec. unfold box_in in Hb. lia.
  - exists m'. split; [done|]. eapply Carved_ext, H. intros [p q]. unfold box. simpl. split.
    + intros (x & Hx%elem_of_zrange & [= -> ->]). lia.
    + intros [Hp Hq]. exists p. rewrite elem_of_zrange. split; [done|]. f_equal. lia.
Qed.

Lemma carve_h_spec oc m x1 x2 y :
  map_wf m → box_in m (Z.min x1 x2) (Z.max x1 x2 + 1) y (y + 1) →
  ∃ m', carve_h oc x1 x2 y m = Some m' ∧
        Carved (box (Z.min x1 x2) (Z.max x1 x2 + 1) y (y + 1)) m m'.
Proof. apply carve_row_spec. Qed.

Lemma carve_v_spec oc m y1 y2 x :
  map_wf m → box_in m x (x + 1) (Z.min y1 y2) (Z.max y1 y2 + 1) →
  ∃ m', carve_v oc y1 y2 x m = Some m' ∧
        Carved (box x (x + 1) (Z.min y1 y2) (Z.max y1 y2 + 1)) m m'.
Proof.
  intros Hm Hb. set (l := zrange (Z.min y1 y2) (Z.max y1 y2 + 1)).
  destruct (for_each_carve (λ y m, carve oc x y m) (λ y p, p = (x, y)) l m)
    as (m' & E & H); [done| |].
  - intros y m' Hy%elem_of_zrange Hs. apply carve_spec; [by destruct Hs|].
    rewrite (in_bounds_shape m) by done. apply in_bounds_spec. unfold box_in in Hb. lia.
  - exists m'. split; [done|]. eapply Carved_ext, H. intros [p q]. unfold box. simpl. split.
    + intros (y & Hy%elem_of_zrange & [= -> ->]). lia.
    + intros [Hp Hq]. exists q. unfold l. rewrite elem_of_zrange. split; [done|]. f_equal. lia.
Qed.

Definition room_box (r : Rect) : Z * Z → Prop := box (rx r) (rx r + rw r) (ry r) (ry r + rh r).

Lemma carve_room_spec oc m r :
  map_wf m → is_i32 (width m) → is_i32 (height m) →
  box_in m (rx r) (rx r + rw r) (ry r) (ry r + rh r) → 0 ≤ rw r → 0 ≤ rh r →
  ∃ m', carve_room oc r m = Some m' ∧ Carved (room_box r) m m'.
Proof.
  intros Hm Hw Hh Hb Hrw Hrh. unfold box_in in Hb. unfold carve_room.
  rewrite !chk_i32_ok by (unfold_int; lia). simpl.
  destruct (for_each_carve (λ y m, for_each (λ x m, carve oc x y m) (zrange (rx r) (rx r + rw r)) m)
    (λ y, box (rx r) (rx r + rw r) y (y + 1)) (zrange (ry r) (ry r + rh r)) m) as (m' & E & H); [done| |].
  { intros y m' Hy%elem_of_zrange Hs. apply carve_row_spec; [by destruct Hs|].
    destruct Hs as (_ & Ew & Eh & _). unfold box_in. rewrite Ew, Eh. lia. }
  exists m'. split; [exact E|]. eapply Carved_ext, H. intros [p q]. unfold room_box, box. simpl. split.
  - intros (y & Hy%elem_of_zrange & Hp & Hq). lia.
  - intros [Hp Hq]. exists q. rewrite elem_of_zrange. lia.
Qed.

(** ** Paths *)
Definition adjacent (p q : Z * Z) : Prop := Z.abs (p.1 - q.1) + Z.abs (p.2 - q.2) = 1.
(** One orthogonal step from a floor tile to a floor tile. *)
Definition walk (m : Map) (p q : Z * Z) : Prop := floor m p ∧ floor m q ∧ adjacent p q.
Definition connected (m : Map) (S : Z * Z → Prop) : Prop :=
  ∀ p q, S p → S q → rtc (walk m) p q.

Lemma connected_mono m m' (S : Z * Z → Prop) :
  (∀ p, floor m p → floor m' p) → connected m S → connected m' S.
Proof.
  intros F H p q Hp Hq. eapply (rtc_congruence id), H; [|done..].
  intros a b (? & ? & ?). split_and!; auto.
Qed.

Lemma connected_union m (S T : Z * Z → Prop) c :
  connected m S → connected m T → S c → T c → connected m (λ p, S p ∨ T p).
Proof.
  intros HS HT Sc Tc p q [Hp|Hp] [Hq|Hq]; [by apply HS|trans c|trans c|by apply HT];
    first [by apply HS|by apply HT].
Qed.

Lemma connected_ext m (S T : Z * Z → Prop) : (∀ p, S p ↔ T p) → connected m S → connected m T.
Proof. intros E H p q Hp%E Hq%E. by apply H. Qed.

(** A straight line of floor is walked tile by tile. *)
Lemma walk_line m (f : Z → Z * Z) n a :
  (∀ k, adjacent (f k) (f (k + 1))) → 0 ≤ n →
  (∀ k, a ≤ k ≤ a + n → floor m (f k)) →
  rtc (walk m) (f a) (f (a + n)) ∧ rtc (walk m) (f (a + n)) (f a).
Proof.
  intros Hf Hn. revert n Hn. apply (natlike_ind (λ n, (∀ k, a ≤ k ≤ a + n → floor m (f k)) →
    rtc (walk m) (f a) (f (a + n)) ∧ rtc (walk m) (f (a + n)) (f a))).
  - intros _. by rewrite Z.add_0_r.
  - intros n Hn IH H. destruct IH as [IH1 IH2]; [intros; apply H; lia|].
    specialize (Hf (a + n)). replace (a + Z.succ n) with (a + n + 1) by lia.
    assert (F1 : floor m (f (a + n))) by (apply H; lia).
    assert (F2 : floor m (f (a + n + 1))) by (apply H; lia).
    split.
    + eapply rtc_r; [done|]. by split_and!.
    + eapply rtc_l; [|done]. split_and!; [done..|]. unfold adjacent in *. lia.
Qed.

Lemma walk_straight m (f : Z → Z * Z) a b :
  (∀ k, adjacent (f k) (f (k + 1))) →
  (∀ k, Z.min a b ≤ k ≤ Z.max a b → floor m (f k)) → rtc (walk m) (f a) (f b).
Proof.
  intros Hf H. destruct (Z.le_ge_cases a b).
  - replace b with (a + (b - a)) by lia. apply walk_line; [done|lia|]. intros. apply H. lia.
  - replace a with (b + (a - b)) by lia. apply walk_line; [done|lia|]. intros. apply H. lia.
Qed.

Lemma connected_box m x1 x2 y1 y2 :
  (∀ p, box x1 x2 y1 y2 p → floor m p) → connected m (box x1 x2 y1 y2).
Proof.
  intros H [px py] [qx qy] [Hp1 Hp2] [Hq1 Hq2]. simpl in *. trans (qx, py).
  - apply (walk_straight m (λ k, (k, py))); [intros k; unfold adjacent; simpl; lia|].
    intros k Hk. apply H. unfold box. simpl. lia.
  - apply (walk_straight m (λ k, (qx, k))); [intros k; unfold adjacent; simpl; lia|].
    intros k Hk. apply H. unfold box. simpl. lia.
Qed.

(** ** What [Map::generate] builds *)
Definition room_ok (w h : Z) (r : Rect) : Prop :=
  4 ≤ rw r < 10 ∧ 3 ≤ rh r < 7 ∧
  1 ≤ rx r ∧ rx r + rw r ≤ w - 2 ∧ 1 ≤ ry r ∧ ry r + rh r ≤ h - 2.

(** At least one column or one row lies between two rooms. *)
Definition apart (a b : Rect) : Prop :=
  rx a + rw a < rx b ∨ rx b + rw b < rx a ∨ ry a + rh a < ry b ∨ ry b + rh b < ry a.

Definition interior (w h : Z) (p : Z * Z) : Prop := 1 ≤ p.1 ≤ w - 3 ∧ 1 ≤ p.2 ≤ h - 3.
Definition center_of (r : Rect) : Z * Z := (rx r + Z.quot (rw r) 2, ry r + Z.quot (rh r) 2).

Record dungeon (w h : Z) (m : Map) : Prop := {
  d_wf : map_wf m;
  d_width : width m = w;
  d_height : height m = h;
  d_ok : ∀ r, r ∈ rooms m → room_ok w h r;
  d_apart : pairwise apart (rooms m);
  d_floor : ∀ r p, r ∈ rooms m → room_box r p → floor m p;
  d_interior : ∀ p, floor m p → interior w h p;
  d_connected : connected m (floor m)
}.

Definition size_ok (w h : Z) : Prop := 12 ≤ w ∧ 9 ≤ h ∧ w * h < 2147483648.

Lemma size_ok_i32 w h : size_ok w h → w < 238609295 ∧ h < 178956971.
Proof. intros (Hw & Hh & H). split; nia. Qed.

Lemma center_in_room w h r : room_ok w h r → room_box r (center_of r).
Proof. unfold room_ok, room_box, box, center_of. simpl. intros. Z.to_euclidean_division_equations. lia. Qed.

Section generate.
Context (oc : bool) (w h : Z) (Hsize : size_ok w h).

Lemma center_spec r : room_ok w h r → center oc r = Some (center_of r).
Proof using Hsize.
  intros Hr. pose proof (center_in_room _ _ _ Hr) as Hc. pose proof (size_ok_i32 w h Hsize).
  unfold room_ok, room_box, box, center_of in *. simpl in Hc. unfold center.
  rewrite !chk_i32_ok by (unfold_int; lia). done.
Qed.

Lemma intersects_spec a b :
  room_ok w h a → room_ok w h b → ∃ v, intersects oc a b = Some v ∧ (v = false → apart a b).
Proof using Hsize.
  intros Ha Hb. pose proof (size_ok_i32 w h Hsize). unfold room_ok in *. unfold intersects.
  rewrite !chk_i32_ok by (unfold_int; lia). simpl. unfold apart.
  repeat case_match; eexists; (split; [reflexivity|]); intros; lia.
Qed.

Lemma any_intersects_spec room rs :
  room_ok w h room → (∀ r, r ∈ rs → room_ok w h r) →
  ∃ v, any_intersects oc rs room = Some v ∧ (v = false → ∀ r, r ∈ rs → apart r room).
Proof using Hsize.
  intros Hroom. induction rs as [|r rs IH]; intros Hrs; simpl.
  { exists false. split; [done|]. intros _ r Hr%elem_of_nil. done. }
  destruct (intersects_spec r room) as (v & -> & Hv); [apply Hrs; by left|done|]. simpl.
  destruct v; [by exists true|]. destruct IH as (v & -> & Hv2); [intros; apply Hrs; by right|].
  exists v. split; [done|]. intros -> r' [->|Hr']%elem_of_cons; auto.
Qed.

(** The two corridors from one center to the other, whichever the coin picks. *)
Definition joined (a b : Z * Z) (m m' : Map) : Prop :=
  ∃ S, Carved S m m' ∧ (∀ p, S p → interior w h p) ∧ connected m' S ∧ S a ∧ S b.

Lemma corridors_joined m m1 m2 (S T : Z * Z → Prop) a b c :
  Carved S m m1 → Carved T m1 m2 →
  (∀ p, S p → interior w h p) → (∀ p, T p → interior w h p) →
  connected m2 S → connected m2 T → S c → T c → S a → T b → joined a b m m2.
Proof using All.
  intros. exists (λ p, S p ∨ T p). split_and!; auto.
  - by eapply Carved_trans.
  - intros p [?|?]; auto.
  - by apply (connected_union _ _ _ c).
Qed.

Ltac solve_box :=
  repeat match goal with H : room_box _ _ |- _ => unfold room_box, box in H; simpl in H end;
  unfold box_in, box, interior, room_ok in *; simpl in *; lia.

Lemma join_rooms_spec prev room r m :
  is_rng r → map_wf m → width m = w → height m = h → room_ok w h prev → room_ok w h room →
  ∃ r' m', join_rooms oc prev room r m = Some (r', m') ∧ is_rng r' ∧
           joined (center_of prev) (center_of room) m m'.
Proof using Hsize.
  intros Hr Hm Ew Eh Hp Hn.
  pose proof (center_in_room _ _ _ Hp) as Hcp. pose proof (center_in_room _ _ _ Hn) as Hcn.
  unfold join_rooms. rewrite !center_spec by done.
  destruct (center_of prev) as [px py], (center_of room) as [nx ny].
  destruct (rng_next_rng r Hr) as [_ Hr']. destruct (rng_next r) as [n r']. cbn [mbind option_bind] in *.
  destruct (n mod 2 =? 0).
  - destruct (carve_h_spec oc m px nx py) as (m1 & -> & C1); [done|solve_box|]. simpl.
    destruct C1 as [S1 F1]. pose proof S1 as (Hm1 & Ew1 & Eh1 & _).
    destruct (carve_v_spec oc m1 py ny nx) as (m2 & -> & C2); [done|solve_box|]. simpl.
    exists r', m2. split_and!; [done..|]. pose proof C2 as [_ F2].
    eapply (corridors_joined _ m1 _ _ _ _ _ (nx, py)); [done|done|..]; try solve_box.
    + apply connected_box. intros p Hb. apply F2. left. apply F1. by right.
    + apply connected_box. intros p Hb. apply F2. by right.
  - destruct (carve_v_spec oc m py ny px) as (m1 & -> & C1); [done|solve_box|]. simpl.
    destruct C1 as [S1 F1]. pose proof S1 as (Hm1 & Ew1 & Eh1 & _).
    destruct (carve_h_spec oc m1 px nx ny) as (m2 & -> & C2); [done|solve_box|]. simpl.
    exists r', m2. split_and!; [done..|]. pose proof C2 as [_ F2].
    eapply (corridors_joined _ m1 _ _ _ _ _ (px, ny)); [done|done|..]; try solve_box.
    + apply connected_box. intros p Hb. apply F2. left. apply F1. by right.
    + apply connected_box. intros p Hb. apply F2. by right.
Qed.

Lemma joined_shape a b m m' : joined a b m m' → same_shape m m' ∧ ∀ p, floor m p → floor m' p.
Proof using All.
  intros (S & [Hs F] & _). split; [done|]. intros p Hp. apply F. by left.
Qed.

(** A room, joined to the previous one if there is one, extends the dungeon. *)
Lemma dungeon_add_room m m1 m2 room :
  dungeon w h m → room_ok w h room → (∀ r, r ∈ rooms m → apart r room) →
  Carved (room_box room) m m1 →
  match last (rooms m) with
  | Some prev => joined (center_of prev) (center_of room) m1 m2
  | None => m2 = m1 ∧ ∀ p, ~ floor m p
  end →
  dungeon w h (set_rooms (rooms m ++ [room]) m2).
Proof using All.
  intros D Hroom Hap [S1 F1] Hjoin.
  assert (Hs2 : same_shape m m2 ∧ (∀ p, floor m1 p → floor m2 p) ∧
                (∀ p, floor m2 p → interior w h p) ∧ connected m2 (floor m2)).
  { assert (Hin : ∀ p, room_box room p → interior w h p)
      by (intros p ?; unfold interior, room_ok, room_box, box in *; lia).
    assert (Hbox : ∀ m', (∀ p, floor m1 p → floor m' p) → connected m' (room_box room)).
    { intros m' F. apply connected_box. intros p Hp. apply F, F1. by right. }
    destruct (last (rooms m)) as [prev|] eqn:El.
    - destruct Hjoin as (S & [S2 F2] & HS & HcS & Sa & Sb).
      assert (F12 : ∀ p, floor m1 p → floor m2 p) by (intros p ?; apply F2; by left).
      split_and!; [|done| |].
      + destruct S1 as (_ & ? & ? & ?), S2 as (? & ? & ? & ?). split_and!; [done|congruence..].
      + intros p [[?|?]%F1|?]%F2; [by apply (d_interior _ _ _ D)|auto..].
      + assert (Hprev : floor m (center_of prev)).
        { apply last_Some_elem_of in El. apply (d_floor _ _ _ D prev); [done|].
          by eapply center_in_room, (d_ok _ _ _ D). }
        eapply (connected_ext _ (λ p, (floor m p ∨ S p) ∨ room_box room p)).
        { intros p. rewrite F2, F1. tauto. }
        apply (connected_union _ _ _ (center_of room)); [|by apply Hbox|by right|by eapply center_in_room].
        apply (connected_union _ _ _ (center_of prev)); [|done..].
        eapply connected_mono, (d_connected _ _ _ D). intros p Hp. apply F12, F1. by left.
    - destruct Hjoin as [-> Hno]. split_and!; [done..| |].
      + intros p [?|?]%F1; [by apply (d_interior _ _ _ D)|auto].
      + eapply connected_ext, (Hbox m1); [|done]. intros p. rewrite F1. naive_solver. }
  destruct Hs2 as ((Hwf & Ew & Eh & Er) & F12 & Hi & Hc). destruct D as [? Dw Dh ? ? ? ? ?].
  constructor; [exact Hwf|by simpl; rewrite Ew|by simpl; rewrite Eh| | | |exact Hi|exact Hc]; simpl.
  - intros r [Hr| ->%list_elem_of_singleton]%elem_of_app; auto.
  - apply pairwise_snoc; [done|]. intros r Hr. specialize (Hap r Hr). unfold apart in *. lia.
  - intros r p [Hr| ->%list_elem_of_singleton]%elem_of_app Hp; apply (F12 p), F1; eauto.
Qed.

(** Where [place_room] puts a room of any size it draws. *)
Lemma place_room_step r m :
  is_rng r → dungeon w h m → (rooms m = [] → ∀ p, ~ floor m p) →
  ∃ r' m', place_room oc (r, m) = Some (r', m') ∧ is_rng r' ∧ dungeon w h m' ∧
           rooms m' ≠ [] ∧ (length (rooms m') ≤ 1 + length (rooms m))%nat.
Proof using Hsize.
  intros Hr D Hempty. pose proof D as [Hm Ew Eh Hok _ _ _ _]. pose proof Hsize as (Hw & Hh & _).
  pose proof (size_ok_i32 w h Hsize) as [Hw2 Hh2]. unfold place_room.
  destruct (rng_range_spec oc 4 10 r) as (rw0 & r1 & -> & Hrw & Hr1); [done|closed..|]. simpl.
  destruct (rng_range_spec oc 3 7 r1) as (rh0 & r2 & -> & Hrh & Hr2); [done|closed..|]. simpl.
  rewrite Ew, Eh. rewrite !chk_i32_ok by (unfold_int; lia). cbn [mbind option_bind].
  rewrite (chk_i32_ok oc (w - rw0 - 1)) by (unfold_int; lia). cbn [mbind option_bind].
  destruct (rng_range_spec oc 1 (w - rw0 - 1) r2) as (x & r3 & -> & Hx & Hr3); [done|unfold_int; lia..|].
  cbn [mbind option_bind]. rewrite (chk_i32_ok oc (h - rh0 - 1)) by (unfold_int; lia). cbn [mbind option_bind].
  destruct (rng_range_spec oc 1 (h - rh0 - 1) r3) as (y & r4 & -> & Hy & Hr4); [done|unfold_int; lia..|].
  cbn [mbind option_bind]. set (room := mkRect x y rw0 rh0).
  assert (Hroom : room_ok w h room) by (unfold room_ok; simpl; lia).
  destruct (any_intersects_spec room (rooms m)) as (v & Ev & Hv); [done..|]. rewrite Ev. simpl.
  destruct v; [exists r4, m; split_and!; [done..| |lia]; intros E; by rewrite E in Ev|].
  destruct (carve_room_spec oc m room) as (m1 & -> & C1);
    [done|unfold_int; lia|unfold_int; lia|unfold box_in, room_ok in *; lia|simpl; lia|simpl; lia|]. simpl.
  pose proof C1 as [(Hm1 & Ew1 & Eh1 & Er1) _]. rewrite Er1.
  assert (Hadd : ∀ m2, match last (rooms m) with
    | Some prev => joined (center_of prev) (center_of room) m1 m2
    | None => m2 = m1 ∧ ∀ p, ~ floor m p end → dungeon w h (set_rooms (rooms m ++ [room]) m2))
    by (intros m2 Hm2; by apply (dungeon_add_room m m1 m2 room D Hroom (Hv eq_refl) C1)).
  assert (Hne : rooms m ++ [room] ≠ []) by (by destruct (rooms m)).
  assert (Hlen : (length (rooms m ++ [room]) ≤ 1 + length (rooms m))%nat) by (rewrite length_app; simpl; lia).
  destruct (last (rooms m)) as [prev|] eqn:El.
  - assert (Hprev : room_ok w h prev) by (by eapply Hok, last_Some_elem_of).
    destruct (join_rooms_spec prev room r4 m1) as (r5 & m2 & -> & Hr5 & J); [done|done|congruence.. |done|done|].
    simpl. pose proof (joined_shape _ _ _ _ J) as [(_ & _ & _ & ->) _]. rewrite Er1.
    eexists _, _. split_and!; [done|done|by apply Hadd|done|done].
  - simpl. rewrite Er1. apply last_None in El. eexists _, _. split_and!; [done|done|apply Hadd; auto|done|done].
Qed.

Lemma generate_spec seed :
  is_u64 seed → ∃ m, generate oc w h seed = Some m ∧ dungeon w h m ∧
                      rooms m ≠ [] ∧ (length (rooms m) ≤ 30)%nat.
Proof using Hsize.
  intros Hs. unfold generate. pose proof Hsize as (Hw & Hh & Hwh).
  rewrite chk_i32_ok by (unfold_int; nia). cbn [mbind option_bind].
  destruct (Z.ltb_spec (w * h) 0); [nia|].
  set (m0 := mkMap w h (replicate (Z.to_nat (w * h)) Wall) []).
  assert (Hno : ∀ p, ~ floor m0 p).
  { intros p [_ Ht]. simpl in Ht. apply lookup_replicate in Ht. by destruct Ht. }
  assert (D0 : dungeon w h m0).
  { constructor; simpl; [|done|done|..].
    - unfold map_wf. simpl. rewrite length_replicate. lia.
    - by intros r Hr%elem_of_nil.
    - apply pairwise_nil.
    - by intros r p Hr%elem_of_nil.
    - intros p Hp. by apply Hno in Hp.
    - intros p q Hp. by apply Hno in Hp. }
  assert (Eunroll : ∀ f s, for_each f (seq 0 30) s = (f 0%nat s ≫= @for_each nat (Rng * Map) f (seq 1 29)))
    by done. rewrite Eunroll. clear Eunroll.
  destruct (place_room_step (rng_new seed) m0) as (r1 & m1 & -> & Hr1 & D1 & Hne1 & Hl1);
    [by apply rng_new_rng|done|done|]. cbn [mbind option_bind].
  destruct (for_each_count (λ k (rm : Rng * Map), is_rng rm.1 ∧ dungeon w h rm.2 ∧ rooms rm.2 ≠ [] ∧
      (length (rooms rm.2) ≤ k)%nat)
    (λ (_ : nat) rm, place_room oc rm) (seq 1 29) 1 (r1, m1)) as ([r2 m2] & -> & Hr2 & D2 & Hne2 & Hl2).
  - done.
  - intros _ k [r m] _ _ (Hr & D & Hne & Hl). simpl in *.
    destruct (place_room_step r m) as (r' & m' & E & ? & ? & ? & ?); [done..|].
    exists (r', m'). split_and!; [done..|]. simpl. lia.
  - simpl. eauto.
Qed.
End generate.

(** ** Properties *)

(** Random generator: from a nonzero 64-bit state, [Rng::next] yields a
    nonzero 64-bit state (xorshift never falls into its fixed point 0), and two
    states with the same successor are equal, so that [next] permutes the nonzero
    states. *)
Theorem rng_next_permutes r1 r2 :
  is_rng r1 → is_rng r2 →
  is_rng (rng_next r1).2 ∧ (rng_next r1).1 = (rng_next r1).2 ∧
  ((rng_next r1).2 = (rng_next r2).2 → r1 = r2).
Proof.
  intros H1 H2. split_and!; [by apply rng_next_rng|done|].
  intros E. apply xorshift_inj; [unfold is_rng, is_u64 in *; lia..|exact E].
Qed.

Lemma rng_next_permutes_witness :
  let r := rng_new 0 in
  is_rng r ∧ is_rng (rng_next r).2 ∧ (rng_next r).1 = (rng_next r).2 ∧ (rng_next r).2 = 1082269761.
Proof.
  split; [split; closed|]. destruct (rng_next_permutes (rng_new 0) 2) as (H1 & H2 & _);
    [split; closed..|]. split_and!; [exact H1|exact H2|by vm_compute].
Defined.

(** C7. Dungeon generation: on a map of at least 12 by 9 tiles whose area fits an
    [i32], [Map::generate] never panics, overflow checks or not, whatever the
    seed.  It places between 1 and 30 rooms, which lie strictly inside the map
    and do not touch one another, all of whose tiles are floor; the border of the
    map is wall; and every floor tile can be walked to from every other one. *)
Theorem generate_dungeon oc w h seed :
  size_ok w h → is_u64 seed →
  ∃ m, generate oc w h seed = Some m ∧ dungeon w h m ∧ (1 ≤ length (rooms m) ≤ 30)%nat.
Proof.
  intros Hs Hseed. destruct (generate_spec oc w h Hs seed Hseed) as (m & E & D & Hne & Hl).
  exists m. split_and!; [done|done| |done]. destruct (rooms m); [done|simpl; lia].
Qed.

Lemma generate_dungeon_witness :
  ∃ m, generate true 60 24 7 = Some m ∧ dungeon 60 24 m ∧ (1 ≤ length (rooms m) ≤ 30)%nat.
Proof. apply generate_dungeon; [split_and!; closed|closed]. Defined.
