(* ===== verification/RoguelikeGame.v ===== *)
(** * The roguelike engine: the game

    The actors of a reachable game stand on floor tiles and live ones never share
    a tile; no turn of a living player panics; what a player's move and a
    monster's turn do. *)
From S2P Require Import Prelude RustStr Roguelike RoguelikeMap.

(** ** The invariant of a game *)
Definition pos (p : Actor) : Z * Z := (ax p, ay p).
Definition alive (p : Actor) : Prop := 0 < hp p.
#[export] Instance alive_dec p : Decision (alive p).
Proof. unfold alive. apply _. Defined.

(** Two actors, if both alive, stand apart. *)
Definition distinct (p q : Actor) : Prop := alive p → alive q → pos p ≠ pos q.

Definition monster_ok (m : Map) (p : Actor) : Prop := floor m (pos p) ∧ power p = 2 ∧ hp p ≤ 6 ∧ - 3 < hp p.

Record game_wf (g : Game) : Prop := {
  g_map : map_wf (map g);
  g_player : floor (map g) (pos (player g));
  g_power : power (player g) = 3;
  g_monsters : ∀ p, p ∈ monsters g → monster_ok (map g) p;
  g_distinct : pairwise distinct (monsters g);
  g_apart : ∀ p, p ∈ monsters g → alive p → pos p ≠ pos (player g);
  g_count : (length (monsters g) ≤ 29)%nat
}.

(** A step from a tile of the map to the next one does not overflow. *)
Lemma floor_coords m p : map_wf m → floor m p → 0 ≤ p.1 < 2147483647 ∧ 0 ≤ p.2 < 2147483647.
Proof. intros (? & ? & ? & _) [[? ?]%in_bounds_spec _]. nia. Qed.

(** ** [monster_at] *)
Lemma occupies_spec x y p : occupies x y p = true ↔ pos p = (x, y) ∧ alive p.
Proof.
  unfold occupies, pos, alive. rewrite !andb_true_iff, !Z.eqb_eq, Z.ltb_lt.
  split; [intros [[-> ->] ?]; done|intros [[= -> ->] ?]; done].
Qed.

Lemma position_Some x y l i :
  position x y l = Some i → ∃ p, l !! i = Some p ∧ pos p = (x, y) ∧ alive p.
Proof.
  revert i. induction l as [|p l IH]; intros i; simpl; [done|].
  destruct (occupies x y p) eqn:E.
  - intros [= <-]. exists p. split; [done|]. by apply occupies_spec.
  - intros (j & Ej & ->)%fmap_Some. by apply IH.
Qed.

Lemma position_None x y l :
  position x y l = None ↔ ∀ p, p ∈ l → alive p → pos p ≠ (x, y).
Proof.
  induction l as [|p l IH]; simpl.
  - split; [by intros _ p Hp%elem_of_nil|done].
  - destruct (occupies x y p) eqn:E.
    + split; [done|]. apply occupies_spec in E as [E1 E2]. intros H. by destruct (H p); [left| |].
    + rewrite fmap_None, IH. split.
      * intros H q [->|Hq]%elem_of_cons Ha Hpos; [|by apply (H q)].
        by rewrite (proj2 (occupies_spec x y p)) in E.
      * intros H q Hq. apply H. by right.
Qed.

(** [Some] of the index of the living monster at [(x, y)]; [None] if there is none. *)
Lemma monster_at_cases g x y :
  match monster_at g x y with
  | Some i => ∃ p, monsters g !! i = Some p ∧ pos p = (x, y) ∧ alive p
  | None => ∀ p, p ∈ monsters g → alive p → pos p ≠ (x, y)
  end.
Proof.
  unfold monster_at. destruct (position x y (monsters g)) eqn:E; [by apply position_Some|].
  by apply position_None.
Qed.

(** A tile an actor can step on. *)
Definition free (g : Game) (p : Z * Z) : Prop :=
  floor (map g) p ∧ p ≠ pos (player g) ∧ ∀ q, q ∈ monsters g → alive q → pos q ≠ p.

(** ** Updates that keep the invariant *)
Lemma game_wf_log g s : game_wf g → game_wf (push_log s g).
Proof. by intros [????]. Qed.

Lemma game_wf_hp g v : game_wf g → game_wf (set_player (set_hp v (player g)) g).
Proof. by intros [????]. Qed.

Lemma game_wf_insert g i p q :
  game_wf g → monsters g !! i = Some p → monster_ok (map g) q →
  (alive q → pos q ≠ pos (player g)) →
  (∀ j r, j ≠ i → monsters g !! j = Some r → distinct r q) →
  game_wf (set_monsters (<[i := q]> (monsters g)) g).
Proof.
  intros [Hm Hp Hpw Hok Hd Ha Hc] Hi Hq Hqp Hqd. constructor; simpl; [done..| | | |].
  - intros r Hr. apply list_elem_of_lookup_1 in Hr as [j [(_ & <- & _)|[_ Hj]]%list_lookup_insert_Some];
      [done|]. by eapply Hok, list_elem_of_lookup_2.
  - apply pairwise_insert; [done|]. intros j r Hj Hr. split; [by apply (Hqd j)|].
    intros ? ? E. symmetry in E. by apply (Hqd j r).
  - intros r Hr. apply list_elem_of_lookup_1 in Hr as [j [(_ & <- & _)|[_ Hj]]%list_lookup_insert_Some];
      [done|]. by eapply Ha, list_elem_of_lookup_2.
  - by rewrite length_insert.
Qed.

(** ** The turn of a monster *)
Section turn.
Context (oc : bool).

(** The first attempt that leads to a free tile is taken; none is if all fail. *)
Lemma try_steps_spec i mx my tries g p :
  game_wf g → monsters g !! i = Some p → pos p = (mx, my) → alive p →
  Forall (λ t, -1 ≤ t.1 ≤ 1 ∧ -1 ≤ t.2 ≤ 1) tries →
  is_i32 (mx - 1) → is_i32 (mx + 1) → is_i32 (my - 1) → is_i32 (my + 1) →
  ∃ g', try_steps oc i mx my tries g = Some g' ∧
    ((g' = g ∧ ∀ tx ty, (tx, ty) ∈ tries → (tx, ty) ≠ (0, 0) → ~ free g (mx + tx, my + ty)) ∨
     ∃ tx ty, (tx, ty) ∈ tries ∧ (tx, ty) ≠ (0, 0) ∧ free g (mx + tx, my + ty) ∧
              g' = set_monsters (<[i := set_pos (mx + tx) (my + ty) p]> (monsters g)) g).
Proof.
  intros D Hi Hpos Ha Ht B1 B2 B3 B4. induction Ht as [|[tx ty] tries [Htx Hty] _ IH]; simpl.
  { exists g. split; [done|]. left. split; [done|]. intros tx ty H%elem_of_nil. done. }
  destruct IH as (g' & E & IH). case_bool_decide as H0.
  { exists g'. split; [done|]. destruct IH as [[-> H]|(ux & uy & Hu & ?)].
    - left. split; [done|]. intros ux uy [[= -> ->]|Hu]%elem_of_cons Hne; [done|auto].
    - right. exists ux, uy. split; [by right|done]. }
  simpl in Htx, Hty. rewrite !chk_i32_ok by (unfold_int; lia). simpl.
  rewrite (walkable_spec oc (map g)) by apply D. simpl.
  destruct (bool_decide (floor (map g) (mx + tx, my + ty)) &&
            negb (bool_decide ((mx + tx, my + ty) = (ax (player g), ay (player g))) ||
                  bool_decide (is_Some (monster_at g (mx + tx) (my + ty))))) eqn:Efree.
  - apply andb_true_iff in Efree as [Hf%bool_decide_eq_true Hn].
    apply negb_true_iff, orb_false_iff in Hn as [Hn1%bool_decide_eq_false Hn2%bool_decide_eq_false].
    rewrite Hi. simpl. eexists. split; [done|]. right. exists tx, ty.
    split_and!; [by left|done| |done]. split_and!; [done|done|].
    pose proof (monster_at_cases g (mx + tx) (my + ty)) as Hc.
    destruct (monster_at g (mx + tx) (my + ty)); [by destruct Hn2|done].
  - exists g'. split; [done|]. destruct IH as [[-> H]|(ux & uy & Hu & ?)].
    + left. split; [done|]. intros ux uy [[= -> ->]|Hu]%elem_of_cons Hne; [|auto].
      intros (Hf & Hp & Hq). apply andb_false_iff in Efree as [Ef|Ef].
      * by apply bool_decide_eq_false in Ef.
      * apply negb_false_iff, orb_true_iff in Ef as [Ef%bool_decide_eq_true|Ef%bool_decide_eq_true];
          [done|]. pose proof (monster_at_cases g (mx + tx) (my + ty)) as Hc.
        destruct (monster_at g (mx + tx) (my + ty)) as [k|]; [|by destruct Ef].
        destruct Hc as (q & Hk & ? & ?). eapply Hq; [by eapply list_elem_of_lookup_2|done..].
    + right. exists ux, uy. split; [by right|done].
Qed.

Definition manhattan (p q : Z * Z) : Z := Z.abs (p.1 - q.1) + Z.abs (p.2 - q.2).
Definition chebyshev (p q : Z * Z) : Z := Z.max (Z.abs (p.1 - q.1)) (Z.abs (p.2 - q.2)).

(** What a living monster does, by its distance to the player: nothing beyond 8,
    attack when it touches the player, and otherwise one orthogonal step towards
    the player, unless every such step is barred. *)
Definition closer (g : Game) (p q : Z * Z) : Prop :=
  adjacent p q ∧ manhattan q (pos (player g)) = manhattan p (pos (player g)) - 1.
Definition turn_of (i : nat) (p : Actor) (g g' : Game) : Prop :=
  let d := chebyshev (pos p) (pos (player g)) in
  (8 < d ∧ g' = g) ∨
  (d ≤ 1 ∧ g' = push_log (lit "The orc hits you for 2")
                  (set_player (set_hp (hp (player g) - 2) (player g)) g)) ∨
  (1 < d ≤ 8 ∧ g' = g ∧ ∀ q, closer g (pos p) q → ~ free g q) ∨
  (1 < d ≤ 8 ∧ ∃ q, closer g (pos p) q ∧ free g q ∧
    g' = set_monsters (<[i := set_pos q.1 q.2 p]> (monsters g)) g).

Lemma sgn_cases z : (z < 0 ∧ Z.sgn z = -1) ∨ (z = 0 ∧ Z.sgn z = 0) ∨ (0 < z ∧ Z.sgn z = 1).
Proof. destruct z; simpl; lia. Qed.

Lemma sgn_bound z : -1 ≤ Z.sgn z ≤ 1.
Proof. destruct z; simpl; lia. Qed.

(** The attempts of a chasing monster are its orthogonal steps towards the player. *)
Lemma closer_tries g p (tries : list (Z * Z)) :
  let dx := ax (player g) - ax p in let dy := ay (player g) - ay p in
  (∀ t, t ∈ tries ↔ t = (Z.sgn dx, 0) ∨ t = (0, Z.sgn dy)) →
  ∀ q, closer g (pos p) q ↔ ∃ tx ty, (tx, ty) ∈ tries ∧ (tx, ty) ≠ (0, 0) ∧ q = (ax p + tx, ay p + ty).
Proof.
  intros dx dy Ht [qx qy]. unfold closer, adjacent, manhattan, pos. simpl.
  pose proof (sgn_cases dx) as Hx. pose proof (sgn_cases dy) as Hy. subst dx dy. split.
  - intros [Ha Hd]. exists (qx - ax p), (qy - ay p). rewrite Ht. split_and!; [|intros [= ? ?]; lia|f_equal; lia].
    destruct (Z.eq_dec qy (ay p)); [left; f_equal; lia|right; f_equal; lia].
  - intros (tx & ty & [[= -> ->]|[= -> ->]]%Ht & Hne & [= -> ->]).
    + assert (Z.sgn (ax (player g) - ax p) ≠ 0) by (intros E0; by rewrite E0 in Hne). lia.
    + assert (Z.sgn (ay (player g) - ay p) ≠ 0) by (intros E0; by rewrite E0 in Hne). lia.
Qed.

Lemma monster_act_turn i g p :
  game_wf g → monsters g !! i = Some p → alive p →
  -2147483646 ≤ hp (player g) < 2147483648 →
  ∃ g', monster_act oc i g = Some g' ∧ turn_of i p g g'.
Proof.
  intros D Hi Ha Hhp. pose proof D as [Hm Hp _ Hok _ _ _].
  destruct (Hok p) as (Hfp & Hpow & _); [by eapply list_elem_of_lookup_2|].
  pose proof (floor_coords _ _ Hm Hp) as [C1 C2]. pose proof (floor_coords _ _ Hm Hfp) as [C3 C4].
  simpl in C1, C2, C3, C4. unfold monster_act, turn_of. rewrite Hi. simpl. unfold alive in Ha.
  rewrite (proj2 (Z.leb_gt _ _)) by lia.
  set (dx := ax (player g) - ax p). set (dy := ay (player g) - ay p).
  rewrite (chk_i32_ok oc dx), (chk_i32_ok oc dy) by (unfold_int; lia). cbn [mbind option_bind].
  rewrite (chk_i32_ok oc (Z.abs dx)), (chk_i32_ok oc (Z.abs dy)) by (unfold_int; lia). cbn [mbind option_bind].
  assert (Ed : chebyshev (pos p) (pos (player g)) = Z.max (Z.abs dx) (Z.abs dy))
    by (unfold chebyshev; simpl; lia). rewrite Ed. clear Ed.
  destruct (Z.ltb_spec 8 (Z.max (Z.abs dx) (Z.abs dy))); [eexists; split; [done|]; by left|].
  destruct (Z.leb_spec (Z.max (Z.abs dx) (Z.abs dy)) 1).
  - rewrite Hpow, chk_i32_ok by (unfold_int; lia). simpl. eexists. split; [done|]. right. left. by split.
  - set (tries := if Z.abs dy <=? Z.abs dx then _ else _).
    assert (Ht : ∀ t, t ∈ tries ↔ t = (Z.sgn dx, 0) ∨ t = (0, Z.sgn dy))
      by (intros t; unfold tries; case_match; set_solver).
    destruct (try_steps_spec i (ax p) (ay p) tries g p) as (g' & -> & Hg');
      [done|done|done|done| |unfold_int; lia..|].
    { apply Forall_forall. intros t [-> | ->]%Ht; cbn [fst snd]; split; first [apply sgn_bound|lia]. }
    exists g'. split; [done|]. right. right. destruct Hg' as [[-> Hno]|(tx & ty & Hin & Hne & Hf & ->)].
    + left. split_and!; [lia..|done|]. intros q (tx & ty & Hin & Hne & ->)%(closer_tries g p tries Ht). by apply Hno.
    + right. split; [lia|]. exists (ax p + tx, ay p + ty). split_and!; [|done|done].
      apply (closer_tries g p tries Ht). eauto.
Qed.

(** What a turn keeps. *)
Definition turn_keeps (g g' : Game) : Prop :=
  game_wf g' ∧ map g' = map g ∧ pos (player g') = pos (player g) ∧
  hp <$> monsters g' = hp <$> monsters g.

Lemma turn_of_keeps i p g g' :
  game_wf g → monsters g !! i = Some p → alive p → turn_of i p g g' →
  turn_keeps g g' ∧ hp (player g) - 2 ≤ hp (player g') ≤ hp (player g).
Proof.
  intros D Hi Ha [[_ ->]|[[_ ->]|[(_ & -> & _)|(_ & q & _ & (Hf & Hp & Hq) & ->)]]].
  - split; [done|lia].
  - split; [|simpl; lia]. split_and!; [by apply game_wf_log, game_wf_hp|done..].
  - split; [done|lia].
  - destruct q as [qx qy]. assert (Hpin : p ∈ monsters g) by (by eapply list_elem_of_lookup_2).
    destruct (g_monsters _ D p Hpin) as (? & ? & ? & ?). split; [|simpl; lia].
    split_and!; [|done|done|].
    + apply (game_wf_insert g i p); [done|done|by split_and!|done|].
      intros j r Hj Hr Har _. apply Hq; [by eapply list_elem_of_lookup_2|done].
    + simpl. rewrite list_fmap_insert. simpl. apply list_insert_id. by rewrite list_lookup_fmap, Hi.
Qed.

Lemma monsters_act_spec g :
  game_wf g → -2147483500 ≤ hp (player g) < 2147483648 →
  ∃ g', monsters_act oc g = Some g' ∧ turn_keeps g g' ∧
        hp (player g) - 58 ≤ hp (player g') ≤ hp (player g).
Proof.
  intros D Hhp. pose proof (g_count g D) as Hn. unfold monsters_act.
  destruct (for_each_count (λ k g', turn_keeps g g' ∧
      hp (player g) - 2 * Z.of_nat k ≤ hp (player g') ≤ hp (player g))
      (monster_act oc) (seq 0 (length (monsters g))) 0 g) as (g' & E & K & H).
  - split; [done|lia].
  - intros i k g1 Hi%elem_of_seq Hk [(D1 & Em & Ep & Eh) Hhp1]. rewrite length_seq in Hk.
    destruct (lookup_lt_is_Some_2 (monsters g1) i) as [p Hp].
    { apply (f_equal length) in Eh. rewrite !length_fmap in Eh. lia. }
    destruct (decide (alive p)) as [Ha|Ha].
    + destruct (monster_act_turn i g1 p) as (g2 & -> & Ht); [done|done|done|lia|].
      destruct (turn_of_keeps i p g1 g2) as [(D2 & ? & ? & ?) ?]; [done..|].
      exists g2. split; [done|]. split; [split_and!; [done|congruence..]|lia].
    + exists g1. unfold monster_act. rewrite Hp. simpl. unfold alive in Ha.
      rewrite (proj2 (Z.leb_le _ _)) by lia. split; [done|]. split; [by split_and!|lia].
  - exists g'. rewrite length_seq in H. split_and!; [done..|lia|lia].
Qed.

(** ** The move of the player *)
Definition move_target (dx dy : Z) (g : Game) : Z * Z := (ax (player g) + dx, ay (player g) + dy).

Inductive move_result (dx dy : Z) (g : Game) : bool → Game → Prop :=
| move_blocked :
    ~ floor (map g) (move_target dx dy g) → move_result dx dy g false g
| move_walked g' :
    floor (map g) (move_target dx dy g) →
    (∀ p, p ∈ monsters g → alive p → pos p ≠ move_target dx dy g) →
    pos (player g') = move_target dx dy g →
    hp <$> monsters g' = hp <$> monsters g →
    move_result dx dy g true g'
| move_attacked g' i p :
    monsters g !! i = Some p → alive p → pos p = move_target dx dy g →
    pos (player g') = pos (player g) →
    hp <$> monsters g' = <[i := hp p - 3]> (hp <$> monsters g) →
    move_result dx dy g true g'.

Lemma player_move_result g dx dy :
  game_wf g → -2147483500 ≤ hp (player g) < 2147483648 → -1 ≤ dx ≤ 1 → -1 ≤ dy ≤ 1 →
  ∃ b g', player_move oc dx dy g = Some (b, g') ∧ move_result dx dy g b g' ∧
    game_wf g' ∧ map g' = map g ∧ hp (player g) - 58 ≤ hp (player g') ≤ hp (player g).
Proof.
  intros D Hhp Hdx Hdy. pose proof (floor_coords _ _ (g_map g D) (g_player g D)) as [C1 C2].
  simpl in C1, C2. unfold player_move. rewrite !chk_i32_ok by (unfold_int; lia). simpl.
  pose proof (monster_at_cases g (ax (player g) + dx) (ay (player g) + dy)) as Hat.
  destruct (monster_at g _ _) as [i|].
  - destruct Hat as (p & Hi & Hpos & Ha). rewrite Hi. simpl.
    assert (Hpin : p ∈ monsters g) by (by eapply list_elem_of_lookup_2).
    destruct (g_monsters g D p Hpin) as (Hf & Hpow & Hmax & Hmin). unfold alive in Ha.
    rewrite (g_power g D). rewrite chk_i32_ok by (unfold_int; lia). simpl.
    set (g1 := set_monsters _ g). set (g2 := if hp p - 3 <=? 0 then _ else _).
    assert (D1 : game_wf g1).
    { apply (game_wf_insert g i p); [done|done|unfold monster_ok; simpl; split_and!; [done..|lia|lia]| |].
      - intros _. by apply (g_apart g D p).
      - intros j r Hj Hr Har _. by apply (g_distinct g D j i r p). }
    assert (D2 : game_wf g2 ∧ map g2 = map g ∧ player g2 = player g ∧ monsters g2 = monsters g1)
      by (unfold g2; case_match; (split_and!; [by repeat apply game_wf_log|done..])).
    destruct D2 as (D2 & Em & Ep & El).
    destruct (monsters_act_spec g2) as (g' & -> & (D3 & Em3 & Ep3 & El3) & Hhp3); [done|by rewrite Ep|].
    simpl. rewrite Ep in *. exists true, g'. split_and!; [done| |done|congruence|lia|lia].
    apply (move_attacked _ _ _ g' i p); [done..|].
    rewrite El3, El. unfold g1. simpl. by rewrite list_fmap_insert.
  - rewrite (walkable_spec oc (map g)) by apply D. simpl. case_bool_decide as Hfl.
    + set (g1 := set_player _ g).
      assert (D1 : game_wf g1) by (destruct D; by constructor).
      destruct (monsters_act_spec g1) as (g' & -> & (D3 & Em3 & Ep3 & El3) & Hhp3); [done..|].
      simpl. exists true, g'. split_and!; [done| |done|done|simpl in Hhp3; lia|simpl in Hhp3; lia].
      by apply move_walked.
    + exists false, g. split_and!; [done|by constructor|done|done|lia|lia].
Qed.
End turn.

(** ** The game at the start *)
Section start.
Context (oc : bool) (w h : Z) (m : Map) (Hsize : size_ok w h) (Hd : dungeon w h m).

Lemma spawn_spec room r l :
  is_rng r → room ∈ rooms m →
  ∃ r' x y, spawn oc room (r, l) = Some (r', l ++ [mkActor x y 6 2 111]) ∧ is_rng r' ∧ room_box room (x, y).
Proof using All.
  intros Hr Hroom. pose proof (d_ok _ _ _ Hd room Hroom) as Hok.
  pose proof (size_ok_i32 w h Hsize). unfold room_ok in Hok. unfold spawn.
  destruct (rng_range_spec oc 0 (rw room) r) as (dx & r1 & -> & Hdx & Hr1); [done|unfold_int; lia..|]. simpl.
  rewrite (chk_i32_ok oc (rx room + dx)) by (unfold_int; lia). simpl.
  destruct (rng_range_spec oc 0 (rh room) r1) as (dy & r2 & -> & Hdy & Hr2); [done|unfold_int; lia..|]. simpl.
  rewrite (chk_i32_ok oc (ry room + dy)) by (unfold_int; lia). simpl.
  eexists _, _, _. split_and!; [done|done|]. unfold room_box, box. simpl. lia.
Qed.

(** The monsters are spawned one per room, in the order of the rooms. *)
Lemma spawn_all rs r l ls :
  is_rng r → (∀ x, x ∈ rs → x ∈ rooms m) →
  Forall2 (λ p room, room_box room (pos p) ∧ power p = 2 ∧ hp p = 6) l ls →
  ∃ r' l', for_each (spawn oc) rs (r, l) = Some (r', l') ∧
    Forall2 (λ p room, room_box room (pos p) ∧ power p = 2 ∧ hp p = 6) l' (ls ++ rs).
Proof using All.
  revert r l ls. induction rs as [|room rs IH]; intros r l ls Hr Hin Hl; cbn [for_each].
  { exists r, l. by rewrite app_nil_r. }
  destruct (spawn_spec room r l) as (r1 & x & y & -> & Hr1 & Hb); [done|apply Hin; by left|]. cbn [mbind option_bind].
  destruct (IH r1 (l ++ [mkActor x y 6 2 111]) (ls ++ [room])) as (r' & l' & E & H); [done| | |].
  - intros z Hz. apply Hin. by right.
  - apply Forall2_app; [done|]. by apply Forall2_cons; split.
  - exists r', l'. split; [done|]. by rewrite <-app_assoc in H.
Qed.

Lemma apart_distinct a b p : apart a b → room_box a p → room_box b p → False.
Proof. unfold apart, room_box, box. lia. Qed.

Lemma start_wf first rest ms x y :
  rooms m = first :: rest → (length (rooms m) ≤ 30)%nat → center_of first = (x, y) →
  Forall2 (λ p room, room_box room (pos p) ∧ power p = 2 ∧ hp p = 6) ms rest →
  game_wf (mkGame m (mkActor x y 30 3 64) ms []).
Proof using All.
  intros E Hlen Hc H. assert (Hf : first ∈ rooms m) by (rewrite E; by left).
  assert (Hrest : ∀ i room, rest !! i = Some room → rooms m !! S i = Some room) by (by rewrite E).
  assert (Hcf : room_box first (x, y)) by (rewrite <-Hc; by eapply center_in_room, (d_ok _ _ _ Hd)).
  constructor; simpl; [apply Hd|by apply (d_floor _ _ _ Hd first)|done| | | |].
  - intros p [i Hi]%list_elem_of_lookup_1. destruct (Forall2_lookup_l _ _ _ _ _ H Hi) as (room & Hroom & Hb & Hp & Hh).
    split_and!; [|done|lia|lia]. apply (d_floor _ _ _ Hd room); [|done]. by eapply list_elem_of_lookup_2, Hrest.
  - intros i j p q Hij Hi Hj _ _ Epos.
    destruct (Forall2_lookup_l _ _ _ _ _ H Hi) as (ri & Hri%Hrest & Hbi & _).
    destruct (Forall2_lookup_l _ _ _ _ _ H Hj) as (rj & Hrj%Hrest & Hbj & _).
    eapply (apart_distinct ri rj), Hbj; [|by rewrite <-Epos]. by apply (d_apart _ _ _ Hd (S i) (S j)); [lia| |].
  - intros p [i Hi]%list_elem_of_lookup_1 _ Epos. change (pos p = (x, y)) in Epos.
    destruct (Forall2_lookup_l _ _ _ _ _ H Hi) as (ri & Hri%Hrest & Hbi & _).
    eapply (apart_distinct ri first), Hcf; [|by rewrite <-Epos].
    apply (d_apart _ _ _ Hd (S i) 0%nat); [lia|done|by rewrite E].
  - apply Forall2_length in H. rewrite E in Hlen. simpl in Hlen. lia.
Qed.
End start.

Lemma game_new_wf oc seed :
  is_u64 seed → ∃ g, game_new oc seed = Some g ∧ game_wf g ∧ hp (player g) = 30.
Proof.
  intros Hseed. assert (Hsize : size_ok 60 24) by (split_and!; closed). unfold game_new.
  destruct (generate_spec oc 60 24 Hsize seed Hseed) as (m & -> & D & Hne & Hlen). cbn [mbind option_bind].
  destruct (rooms m) as [|first rest] eqn:E; [done|]. simpl.
  rewrite (center_spec oc 60 24) by (try apply (d_ok _ _ _ D first); try rewrite E; try left; done).
  destruct (center_of first) as [x y] eqn:Ec. cbn [mbind option_bind]. rewrite skipn_0.
  destruct (spawn_all oc 60 24 m Hsize D rest (rng_new (Z.lxor seed 0x9e3779b97f4a7c15)) [] [])
    as (r' & ms & -> & H).
  - apply rng_new_rng. apply (lxor_bound 64); [lia|done|closed].
  - intros z Hz. rewrite E. by right.
  - done.
  - simpl. eexists. split_and!; [done| |done]. rewrite <-E in Hlen.
    by apply (start_wf oc 60 24 m Hsize D first rest ms x y).
Qed.

(** ** Reachable games: moves of at most one tile by a living player *)
Inductive reachable (oc : bool) : Game → Prop :=
| reachable_new seed g : is_u64 seed → game_new oc seed = Some g → reachable oc g
| reachable_move g dx dy b g' :
    reachable oc g → is_dead g = false → -1 ≤ dx ≤ 1 → -1 ≤ dy ≤ 1 →
    player_move oc dx dy g = Some (b, g') → reachable oc g'.

Lemma reachable_wf oc g : reachable oc g → game_wf g ∧ -58 < hp (player g) ≤ 30.
Proof.
  induction 1 as [seed g Hs E|g dx dy b g' _ [D Hhp] Hd Hdx Hdy E].
  - destruct (game_new_wf oc seed Hs) as (g1 & E1 & D & Hh). rewrite E1 in E.
    injection E as <-. split; [done|lia].
  - destruct (player_move_result oc g dx dy) as (b1 & g1 & E1 & _ & D1 & _ & Hh); [done|lia|done|done|].
    rewrite E1 in E. injection E as <- <-. split; [done|].
    unfold is_dead in Hd. apply Z.leb_gt in Hd. lia.
Qed.

(** ** Properties *)

(** C12. A whole play never panics: for every seed [Game::new] returns a game, in
    every game reached from there by moves of the living player every further
    move returns, and the invariant holds: the player and the monsters stand on
    floor tiles, and no two living actors share a tile. *)
Theorem play_is_safe oc :
  (∀ seed, is_u64 seed → is_Some (game_new oc seed)) ∧
  (∀ g, reachable oc g → game_wf g ∧
    (is_dead g = false → ∀ dx dy, -1 ≤ dx ≤ 1 → -1 ≤ dy ≤ 1 → is_Some (player_move oc dx dy g))).
Proof.
  split.
  - intros seed Hs. destruct (game_new_wf oc seed Hs) as (g & -> & _). by exists g.
  - intros g Hg. destruct (reachable_wf oc g Hg) as [D Hhp]. split; [done|]. intros _ dx dy Hdx Hdy.
    destruct (player_move_result oc g dx dy) as (b & g' & -> & _); [done|lia|done|done|]. by eexists.
Qed.

Lemma play_is_safe_witness : ∃ g, game_new true 42 = Some g ∧ is_Some (player_move true 1 0 g).
Proof.
  destruct (play_is_safe true) as [H1 H2]. destruct (H1 42) as [g Hg]; [closed|].
  exists g. split; [exact Hg|]. apply H2; [by apply (reachable_new true 42); [closed|]| |lia|lia].
  assert (E : (is_dead <$> game_new true 42) = Some false) by (vm_compute; reflexivity).
  rewrite Hg in E. by injection E.
Defined.

(** [Game::player_move]: it returns [false], and changes nothing, exactly when
    the target is not floor; it attacks a living monster on the target, taking the
    player's power from that monster alone and leaving the player in place; and
    otherwise the player stands on the target.  A turn that was taken takes at
    most two hit points per monster. *)
Theorem player_move_spec oc g dx dy :
  game_wf g → -2147483500 ≤ hp (player g) < 2147483648 → -1 ≤ dx ≤ 1 → -1 ≤ dy ≤ 1 →
  ∃ b g', player_move oc dx dy g = Some (b, g') ∧ move_result dx dy g b g' ∧
    game_wf g' ∧ map g' = map g ∧ hp (player g) - 58 ≤ hp (player g') ≤ hp (player g).
Proof. apply player_move_result. Qed.

(** The turn of a living monster: it does nothing when the player is more than
    8 tiles away, hits the player for 2 when it touches the player, diagonally
    too, and otherwise takes one orthogonal step that brings it closer, onto a
    floor tile free of the player and of living monsters; it stays only if there
    is no such tile. *)
Theorem monster_act_spec oc i g p :
  game_wf g → monsters g !! i = Some p → alive p →
  -2147483646 ≤ hp (player g) < 2147483648 →
  ∃ g', monster_act oc i g = Some g' ∧ turn_of i p g g'.
Proof. apply monster_act_turn. Qed.

(** A corridor with the player and one monster. *)
Definition demo_map : Map := mkMap 6 3 (replicate 6 Wall ++ [Wall; Floor; Floor; Floor; Floor; Wall] ++ replicate 6 Wall) [].
Definition demo : Game := mkGame demo_map (mkActor 1 1 30 3 64) [mkActor 4 1 6 2 111] [].

Lemma demo_wf : game_wf demo.
Proof.
  constructor; simpl; [unfold map_wf; simpl; lia|split; done|done| | | |lia].
  - intros p ->%list_elem_of_singleton. split_and!; [split; done|done|simpl; lia|simpl; lia].
  - intros [|i] [|j] p q Hij Hi Hj; [done|done|done|done].
  - intros p ->%list_elem_of_singleton. done.
Qed.

Lemma player_move_spec_witness :
  ∃ b g', player_move true 1 0 demo = Some (b, g') ∧ move_result 1 0 demo b g' ∧ game_wf g'.
Proof.
  destruct (player_move_spec true demo 1 0 demo_wf) as (b & g' & E & R & D & _); [simpl; lia|lia|lia|].
  exists b, g'. by split_and!.
Defined.

Lemma monster_act_spec_witness :
  ∃ g', monster_act true 0 demo = Some g' ∧ turn_of 0 (mkActor 4 1 6 2 111) demo g'.
Proof. apply (monster_act_spec true 0 demo); [apply demo_wf|done|closed|simpl; lia]. Defined.
