(* ===== verification/RoguelikeDemo.v ===== *)
(** * The roguelike: the headless demo ([2026-10-02-rust-roguelike/src/main.rs])

    The player walks towards the nearest orc, for at most 300 turns.  What the program
    prints; that it never panics; and why a player in line with an orc does not fight. *)
From S2P Require Import Prelude RustStr Roguelike RoguelikeMap RoguelikeGame.

(** ** The program *)
(** [std::env::args().nth(1).and_then(|s| s.parse().ok()).unwrap_or(2026)] *)
Definition seed_of (args : list str) : Z :=
  match args !! 1%nat with
  | Some s => match parse_u64 s with Some v => v | None => 2026 end
  | None => 2026
  end.

(** [l.min_by_key(key)]: the first of the least elements; the key of each is computed. *)
Definition min_by_key {A} (key : A → option Z) (l : list A) : option (option A) :=
  match l with
  | [] => Some None
  | a :: l =>
      k ← key a;
      r ← for_each (λ b r, k ← key b; Some (if k <? r.2 then (b, k) else r)) l (a, k);
      Some (Some r.1)
  end.

Section demo.
Context (oc : bool).

(** [(m.x - px).abs() + (m.y - py).abs()] *)
Definition distance (px py : Z) (m : Actor) : option Z :=
  dx ← chk_i32 oc (ax m - px); adx ← chk_i32 oc (Z.abs dx);
  dy ← chk_i32 oc (ay m - py); ady ← chk_i32 oc (Z.abs dy);
  chk_i32 oc (adx + ady).
Definition living (l : list Actor) : list Actor := List.filter (λ m, 0 <? hp m) l.
Definition nearest (g : Game) : option (option Actor) :=
  min_by_key (distance (ax (player g)) (ay (player g))) (living (monsters g)).

(** The body of the loop. *)
Definition demo_turn (g : Game) : option Game :=
  t ← nearest g;
  target ← t;
  dx ← chk_i32 oc (ax target - ax (player g));
  dy ← chk_i32 oc (ay target - ay (player g));
  '(moved, g) ← player_move oc (Z.sgn dx) 0 g;
  if (moved : bool) then Some g
  else '(_, g) ← player_move oc 0 (Z.sgn dy) g; Some g.

Definition is_over (g : Game) : bool := is_dead g || forallb (λ m, hp m <=? 0) (monsters g).
Fixpoint play (turns : nat) (g : Game) : option Game :=
  match turns with
  | O => Some g
  | S turns => if is_over g then Some g else g ← demo_turn g; play turns g
  end.

(** What is printed at the end. *)
Definition report (g : Game) : str :=
  lit "player hp: " ++ show_i32 (hp (player g)) ++ lit ", orcs alive: " ++
    show (Z.of_nat (length (living (monsters g)))) ++ [LF] ++
  concat (List.map (λ l, l ++ [LF]) (rev (take 5 (rev (log g))))).
Definition main (args : list str) : option str :=
  g ← game_new oc (seed_of args);
  before ← render oc g;
  g ← play 300 g;
  after ← render oc g;
  Some (before ++ [LF] ++ after ++ [LF] ++ report g).

(** ** It does not panic *)
Lemma seed_of_u64 args : is_u64 (seed_of args).
Proof using All.
  unfold seed_of. destruct (args !! 1%nat) as [s|]; [|closed]. destruct (parse_u64 s) as [v|] eqn:E; [|closed].
  apply parse_uint_range in E. unfold_int. lia.
Qed.

Lemma living_spec l p : p ∈ living l ↔ p ∈ l ∧ alive p.
Proof using All. unfold living, alive. rewrite !list_elem_of_In, filter_In, Z.ltb_lt. done. Qed.

Lemma min_by_key_spec {A} (key : A → option Z) (k : A → Z) l : (∀ a, a ∈ l → key a = Some (k a)) → l ≠ [] →
  ∃ a, min_by_key key l = Some (Some a) ∧ a ∈ l ∧ ∀ b, b ∈ l → k a ≤ k b.
Proof using All.
  intros Hk Hl. destruct l as [|a l]; [done|]. cbn [min_by_key]. rewrite (Hk a) by (by left). cbn [mbind option_bind].
  destruct (for_each_post (λ r : A * Z, r.1 ∈ a :: l ∧ r.2 = k r.1 ∧ r.2 ≤ k a) (λ b r, r.2 ≤ k b)
    (λ b r, k ← key b; Some (if k <? r.2 then (b, k) else r)) l (a, k a)) as ([m km] & -> & (Hm & -> & Hle) & Hmin).
  - split; [by left|done].
  - intros b [m km] Hb (Hm & E & Hle). cbn [fst snd] in *. rewrite (Hk b) by (by right). cbn [mbind option_bind]. eexists. split; [done|].
    destruct (Z.ltb_spec (k b) km); cbn [fst snd].
    + split; [split; [by right|split; [done|lia]]|]. split; [lia|]. intros c _ ?. lia.
    + split; [done|]. split; [lia|]. auto.
  - cbn [mbind option_bind fst snd] in *. exists m. split; [done|]. split; [done|]. intros b [->|Hb]%elem_of_cons; [lia|by apply Hmin].
Qed.

(** Distances on a map do not overflow. *)
Lemma distance_spec g p : game_wf g → p ∈ monsters g →
  distance (ax (player g)) (ay (player g)) p = Some (manhattan (pos p) (pos (player g))).
Proof using All.
  intros D Hp. destruct (g_monsters g D p Hp) as (Hf & _). pose proof (g_player g D) as Hq. destruct (g_map g D) as (Hw & Hh & Hs & _).
  destruct Hf as [Hf%in_bounds_spec _]. destruct Hq as [Hq%in_bounds_spec _]. unfold pos in *. cbn [fst snd] in *.
  assert (Z.abs (ax p - ax (player g)) + Z.abs (ay p - ay (player g)) < 2147483648).
  { assert (0 ≤ (width (map g) - 1) * (height (map g) - 1)) by nia. lia. }
  assert (width (map g) ≤ 2147483648 ∧ height (map g) ≤ 2147483648) by nia.
  unfold distance, manhattan. cbn [fst snd].
  do 5 (rewrite chk_i32_ok by (unfold_int; lia); cbn [mbind option_bind]). done.
Qed.

(** The target of a turn is a living orc, none of which is nearer. *)
Definition target_of (g : Game) (t : Actor) : Prop :=
  nearest g = Some (Some t) ∧ t ∈ monsters g ∧ alive t ∧
  ∀ q, q ∈ monsters g → alive q → manhattan (pos t) (pos (player g)) ≤ manhattan (pos q) (pos (player g)).

Lemma nearest_spec g : game_wf g → is_over g = false → ∃ t, target_of g t.
Proof using All.
  intros D Ho. apply orb_false_iff in Ho as [_ Ho]. unfold target_of, nearest.
  destruct (min_by_key_spec (distance (ax (player g)) (ay (player g))) (λ p, manhattan (pos p) (pos (player g))) (living (monsters g)))
    as (t & -> & [Ht Ha]%living_spec & Hmin).
  - intros p [Hp _]%living_spec. by apply distance_spec.
  - intros E. apply not_true_iff_false in Ho. apply Ho, forallb_forall. intros p Hp%list_elem_of_In.
    apply Z.leb_le, Z.nlt_ge. intros Ha. assert (Hin : p ∈ living (monsters g)) by by apply living_spec.
    rewrite E in Hin. by apply elem_of_nil in Hin.
  - exists t. split; [done|]. split; [done|]. split; [done|]. intros q Hq Hqa. apply Hmin. by apply living_spec.
Qed.

Lemma demo_turn_total g : reachable oc g → is_over g = false → ∃ g', demo_turn g = Some g' ∧ reachable oc g'.
Proof using All.
  intros Hr Ho. destruct (reachable_wf oc g Hr) as [D Hhp]. destruct (nearest_spec g D Ho) as (t & En & Ht & _ & _).
  apply orb_false_iff in Ho as [Hd _]. pose proof (floor_coords _ _ (g_map g D) (g_player g D)) as [C1 C2].
  destruct (g_monsters g D t Ht) as (Hf & _). pose proof (floor_coords _ _ (g_map g D) Hf) as [C3 C4]. unfold pos in *. cbn [fst snd] in *.
  unfold demo_turn. rewrite En. cbn [mbind option_bind]. do 2 (rewrite chk_i32_ok by (unfold_int; lia); cbn [mbind option_bind]).
  set (sx := Z.sgn (ax t - _)). set (sy := Z.sgn (ay t - _)). pose proof (sgn_bound (ax t - ax (player g))) as Hx. pose proof (sgn_bound (ay t - ay (player g))) as Hy.
  fold sx in Hx. fold sy in Hy.
  destruct (player_move_result oc g sx 0) as (b & g1 & E1 & R1 & _); [done|lia|lia|lia|]. rewrite E1. cbn [mbind option_bind].
  destruct b; [exists g1; split; [done|]; by apply (reachable_move oc g sx 0 true)|].
  assert (g1 = g) as -> by by inversion R1.
  destruct (player_move_result oc g 0 sy) as (b & g2 & E2 & _); [done|lia|lia|lia|]. rewrite E2. cbn [mbind option_bind].
  exists g2. split; [done|]. by apply (reachable_move oc g 0 sy b).
Qed.
Lemma play_total n : ∀ g, reachable oc g → ∃ g', play n g = Some g' ∧ reachable oc g'.
Proof using All.
  induction n as [|n IH]; intros g Hr; [by exists g|]. cbn [play]. destruct (is_over g) eqn:Ho; [by exists g|].
  destruct (demo_turn_total g Hr Ho) as (g' & -> & Hr'). cbn [mbind option_bind]. by apply IH.
Qed.

(** A picture: the map's rows, each with a line feed. *)
Lemma picture_total g : game_wf g → ∃ out, render oc g = Some out ∧ Z.of_nat (length out) = height (map g) * (width (map g) + 1).
Proof using All.
  intros D. unfold render. destruct (g_map g D) as (Hw & Hh & _). set (w := width (map g)) in *. set (h := height (map g)) in *.
  assert (Hcell : ∀ x y, ∃ c, render_cell oc g x y = Some c).
  { intros x y. unfold render_cell. case_bool_decide; [eauto|]. case_bool_decide; [eauto|].
    rewrite (walkable_spec oc (map g)) by apply D. cbn [mbind option_bind]. eauto. }
  assert (Hrow : ∀ y (out : str), ∃ out', for_each (λ x (out : str), c ← render_cell oc g x y; Some (out ++ [c])) (zrange 0 w) out = Some out' ∧
    length out' = (length out + Z.to_nat w)%nat).
  { intros y out. destruct (for_each_count (λ k o, length o = k) (λ x (out : str), c ← render_cell oc g x y; Some (out ++ [c])) (zrange 0 w) (length out) out)
      as (out' & E & Hl); [done| |].
    - intros x k o _ _ Ho. destruct (Hcell x y) as [c ->]. cbn [mbind option_bind]. eexists. split; [done|]. rewrite length_app, Ho. simpl. lia.
    - exists out'. split; [done|]. rewrite Hl. f_equal. unfold zrange. rewrite length_seqZ. lia. }
  destruct (for_each_count (λ k (o : str), Z.of_nat (length o) = Z.of_nat k * (w + 1)) (λ y (out : str),
    out ← for_each (λ x out, c ← render_cell oc g x y; Some (out ++ [c])) (zrange 0 w) out; Some (out ++ [LF])) (zrange 0 h) 0 [])
    as (out & E & Hl); [done| |].
  - intros y k o _ _ Ho. destruct (Hrow y o) as (o' & -> & Hl). cbn [mbind option_bind]. eexists. split; [done|]. rewrite length_app, Hl. simpl. lia.
  - exists out. split; [done|]. rewrite Hl. f_equal. unfold zrange. rewrite length_seqZ. lia.
Qed.

(** The whole demo, on any arguments: the dungeon is generated, at most 300 turns
    are played, each towards a living orc that none is nearer than, and both pictures
    and the report are printed; nothing panics and the game at the end is one that moves
    of a living player lead to. *)
Theorem demo_runs args : ∃ g g' out, game_new oc (seed_of args) = Some g ∧ play 300 g = Some g' ∧ reachable oc g' ∧
  main args = Some out ∧
  (∀ n g1, play n g = Some g1 → is_over g1 = false → ∃ t, target_of g1 t).
Proof using All.
  destruct (game_new_wf oc (seed_of args) (seed_of_u64 args)) as (g & E & D & _).
  assert (Hr : reachable oc g) by (eapply reachable_new; [apply (seed_of_u64 args)|exact E]).
  destruct (play_total 300 g Hr) as (g' & Ep & Hr'). destruct (reachable_wf oc g' Hr') as [D' _].
  destruct (picture_total g D) as (o1 & E1 & _). destruct (picture_total g' D') as (o2 & E2 & _).
  unfold main. rewrite E. cbn [mbind option_bind]. rewrite E1. cbn [mbind option_bind]. rewrite Ep. cbn [mbind option_bind]. rewrite E2.
  do 3 eexists. split; [done|]. split; [exact Ep|]. split; [done|]. split; [done|].
  intros n g1 En Ho. apply nearest_spec; [|done]. destruct (play_total n g Hr) as (g2 & E3 & Hr2). rewrite E3 in En. injection En as <-.
  by apply (reachable_wf oc).
Qed.

(** ** Where it does not do what it says

    "The player walks toward the nearest orc and fights it": with the target straight
    above or below, the first attempt is a move by (0, 0), which counts as made. *)
Theorem demo_idles g t : game_wf g → -2147483500 ≤ hp (player g) < 2147483648 → target_of g t → ax t = ax (player g) →
  ∃ g', demo_turn g = Some g' ∧ pos (player g') = pos (player g) ∧ hp <$> monsters g' = hp <$> monsters g.
Proof using All.
  intros D Hhp (En & Ht & _) Hx. pose proof (floor_coords _ _ (g_map g D) (g_player g D)) as [C1 C2].
  destruct (g_monsters g D t Ht) as (Hf & _). pose proof (floor_coords _ _ (g_map g D) Hf) as [C3 C4]. unfold pos in *. cbn [fst snd] in *.
  unfold demo_turn. rewrite En. cbn [mbind option_bind]. do 2 (rewrite chk_i32_ok by (unfold_int; lia); cbn [mbind option_bind]).
  rewrite Hx, Z.sub_diag. cbn [Z.sgn].
  destruct (player_move_result oc g 0 0) as (b & g1 & E1 & R1 & _); [done|lia|lia|lia|]. rewrite E1. cbn [mbind option_bind].
  assert (Etarget : move_target 0 0 g = pos (player g)) by (unfold move_target, pos; f_equal; lia).
  inversion R1 as [Hn Eb Eg|? Hfl Hno Ep Eh Eb Eg|? i p Hi Ha Hpos Ep Eh Eb Eg].
  - exfalso. apply Hn. rewrite <-Eg, Etarget. apply (g_player g D).
  - exists g1. split; [done|]. split; [etrans; [exact Ep|exact Etarget]|done].
  - rewrite Etarget in Hpos. destruct (g_apart g D p); [by eapply list_elem_of_lookup_2|done|done].
Qed.
End demo.

Lemma demo_runs_witness : ∃ g out, game_new true 7 = Some g ∧ main true [lit "roguelike"; lit "7"] = Some out.
Proof.
  destruct (demo_runs true [lit "roguelike"; lit "7"]) as (g & _ & out & E & _ & _ & Em & _). exists g, out. split; [exact E|exact Em].
Defined.

(** An orc one tile below kills the player, who never strikes. *)
Example demo_idles_to_death :
  let g := mkGame (mkMap 3 4 ([Wall; Wall; Wall] ++ [Wall; Floor; Wall] ++ [Wall; Floor; Wall] ++ [Wall; Wall; Wall]) [])
    (mkActor 1 1 30 3 64) [mkActor 1 2 6 2 111] [] in
  match play true 300 g with Some g => is_dead g && bool_decide (hp <$> monsters g = [6]) | None => false end = true.
Proof. vm_compute. reflexivity. Qed.
