(* ===== verification/RoguelikeTests.v ===== *)
(** * The unit tests of the roguelike

    The tests of [2026-10-02-rust-roguelike/src/lib.rs], on the definitions of
    [Roguelike]; its generator of random numbers is part of the program, so that the
    maps and games of the tests are computed.  [oc] says whether the build checks
    overflow. *)
From S2P Require Import Prelude RustStr UnitTest Roguelike.
#[local] Open Scope rust_scope.

Section tests.
Context (oc : bool).

Definition same_seed_same_map : test :=
  m1 ← generate oc 60 24 7; m2 ← generate oc 60 24 7;
  assert! (tiles m1 == tiles m2);
  m3 ← generate oc 60 24 7; m4 ← generate oc 60 24 8;
  assert! (negb (tiles m3 == tiles m4)).

Definition rooms_do_not_overlap : test :=
  m ← generate oc 60 24 42;
  for_each (λ '(i, a) _,
    for_each (λ b _, o ← intersects oc a b; assert! (negb o)) (skipn (S i) (rooms m)) tt) (imap pair (rooms m)) tt.

(** The [while] of the search: a tile enters the queue at most once, so one turn per
    tile is enough. *)
Definition search_step (m : Map) (xy : Z * Z) (s : list bool * list (Z * Z)) : option (list bool * list (Z * Z)) :=
  for_each (λ '(dx, dy) '(seen, q),
    let '(nx, ny) := (xy.1 + dx, xy.2 + dy) in
    w ← walkable oc m nx ny;
    if (w : bool) then
      i ← idx oc m nx ny;
      b ← seen !! Z.to_nat i;
      if negb b then Some (<[Z.to_nat i := true]> seen, q ++ [(nx, ny)]) else Some (seen, q)
    else Some (seen, q)) [(1, 0); (-1, 0); (0, 1); (0, -1)] s.
Fixpoint search (fuel : nat) (m : Map) (seen : list bool) (q : list (Z * Z)) : option (list bool) :=
  match q with
  | [] => Some seen
  | xy :: q =>
      match fuel with
      | O => None
      | S fuel => '(seen, q) ← search_step m xy (seen, q); search fuel m seen q
      end
  end.

Definition rooms_connected (seeds : list Z) : test :=
  for_each (λ seed _,
    m ← generate oc 60 24 seed;
    first ← rooms m !! 0%nat;
    '(sx, sy) ← center oc first;
    i ← idx oc m sx sy;
    let seen := <[Z.to_nat i := true]> (replicate (length (tiles m)) false) in
    seen ← search (length (tiles m)) m seen [(sx, sy)];
    for_each (λ r _,
      '(cx, cy) ← center oc r;
      i ← idx oc m cx cy;
      b ← seen !! Z.to_nat i; assert! b) (rooms m) tt) seeds tt.
Definition all_rooms_connected : test := rooms_connected (zrange 1 30).

Definition walls_block_movement : test :=
  g ← game_new oc 3;
  let g := set_monsters [] g in
  '(moved, g) ← for_each (λ _ '(moved, g),
    '(r, g) ← player_move oc (-1) 0 g;
    Some (if (r : bool) then moved + 1 else moved, g)) (seq 0 500) (0, g);
  assert! (moved <? 500);
  w ← walkable oc (map g) (ax (player g)) (ay (player g)); assert! w.

Definition player_attacks_and_kills_monster : test :=
  g ← game_new oc 5;
  let g := set_monsters [mkActor (ax (player g) + 1) (ay (player g)) 6 0 111] g in
  '(_, g) ← player_move oc 1 0 g;
  m ← monsters g !! 0%nat; assert! (hp m == 3);
  '(_, g) ← player_move oc 1 0 g;
  m ← monsters g !! 0%nat; assert! (hp m <=? 0);
  assert! (existsb (contains (lit "dies")) (log g)).

Definition monster_chases_and_hurts_player : test :=
  g ← game_new oc 5;
  let '(px, py) := (ax (player g), ay (player g)) in
  d ← List.find (λ d, forallb (λ k, walkable oc (map g) (px + k) py == Some true) (zrange 1 (d + 1))) (zrange 2 6);
  let g := set_monsters [mkActor (px + d) py 6 2 111] g in
  let hp0 := hp (player g) in
  g ← for_each (λ _ g, monsters_act oc g) (zrange 0 (d + 1)) g;
  assert! (hp (player g) <? hp0).

Definition render_dimensions : test :=
  g ← game_new oc 1;
  r ← render oc g;
  assert! (length (lines r) == 24%nat);
  assert! (forallb (λ l, length l == 60%nat) (lines r));
  assert! (contains [64] r).

End tests.

(** Of [all_rooms_connected] one seed is run here; that the search reaches every room
    for every seed is what [generate_dungeon] proves. *)
Example roguelike_tests_pass :
  all_pass [same_seed_same_map true; rooms_do_not_overlap true; rooms_connected true [29]; walls_block_movement true;
            player_attacks_and_kills_monster true; monster_chases_and_hurts_player true; render_dimensions true] = true.
Proof. vm_compute. reflexivity. Qed.
