(* ===== verification/Todo.v ===== *)
(** * The todo list ([2026-09-21-rust-wasm-todo/src]): definitions

    [state.rs] is modelled whole.  [dom.rs] is modelled as the reaction of the
    page to its events: the application state, the [innerHTML] of [#app] and the
    string kept in [localStorage].  The DOM and the storage belong to the browser:
    an event carries what the handlers read of it, and whether the browser accepts
    a write to the storage is the parameter [accepts].  [oc] is the overflow mode
    of the build. *)
From S2P Require Import Prelude RustStr.

Inductive Filter : Set := All | Active | Completed.
#[export] Instance Filter_eq_dec : EqDecision Filter.
Proof. solve_decision. Defined.

Definition from_hash (hash : str) : Filter :=
  let h := trim_start_matches 35 hash in
  if bool_decide (h = lit "/active") then Active
  else if bool_decide (h = lit "/completed") then Completed
  else All.

Definition as_hash (f : Filter) : str :=
  match f with All => lit "#/" | Active => lit "#/active" | Completed => lit "#/completed" end.

Definition matches (f : Filter) (is_done : bool) : bool :=
  match f with All => true | Active => negb is_done | Completed => is_done end.

Record Todo : Type := mkTodo { id : Z; text : str; completed : bool }.
#[export] Instance Todo_eq_dec : EqDecision Todo.
Proof. solve_decision. Defined.
Definition set_completed (b : bool) (t : Todo) : Todo := mkTodo (id t) (text t) b.

Record AppState : Type := mkState { todos : list Todo; filter : Filter; next_id : Z }.
Definition set_todos (l : list Todo) (s : AppState) : AppState := mkState l (filter s) (next_id s).

Definition new : AppState := mkState [] All 1.

Definition add (oc : bool) (input : str) (s : AppState) : option (bool * AppState) :=
  let trimmed := trim input in
  match trimmed with
  | [] => Some (false, s)
  | _ =>
      let i := next_id s in
      n ← add_u32 oc (next_id s) 1;
      Some (true, mkState (todos s ++ [mkTodo i trimmed false]) (filter s) n)
  end.

(** [iter_mut().find(..)]: the first todo with the id is changed. *)
Fixpoint toggle_first (i : Z) (l : list Todo) : list Todo :=
  match l with
  | [] => []
  | t :: l' => if id t =? i then set_completed (negb (completed t)) t :: l' else t :: toggle_first i l'
  end.
Definition toggle (i : Z) (s : AppState) : AppState := set_todos (toggle_first i (todos s)) s.

Definition remove (i : Z) (s : AppState) : AppState :=
  set_todos (List.filter (λ t, negb (id t =? i)) (todos s)) s.
Definition clear_completed (s : AppState) : AppState :=
  set_todos (List.filter (λ t, negb (completed t)) (todos s)) s.
Definition set_filter (f : Filter) (s : AppState) : AppState := mkState (todos s) f (next_id s).

Definition visible (s : AppState) : list Todo := List.filter (λ t, matches (filter s) (completed t)) (todos s).
Definition remaining_count (s : AppState) : nat := length (List.filter (λ t, negb (completed t)) (todos s)).

(** ** The stored form *)
Definition escape (s : str) : str :=
  replace_char LF (lit "\n") (replace_char TAB (lit "\t") (replace_char BACKSLASH (lit "\\") s)).

Fixpoint unescape (s : str) : str :=
  match s with
  | [] => []
  | c :: s1 =>
      if c =? BACKSLASH then
        match s1 with
        | [] => [BACKSLASH]
        | d :: s2 =>
            (if d =? 116 then [TAB]
             else if d =? 110 then [LF]
             else if d =? BACKSLASH then [BACKSLASH]
             else [BACKSLASH; d]) ++ unescape s2
        end
      else c :: unescape s1
  end.

Definition row (t : Todo) : str := show (id t) ++ [TAB] ++ show_bool (completed t) ++ [TAB] ++ escape (text t).
Definition serialize (s : AppState) : str := join [LF] (List.map row (todos s)).

(** One turn of the loop of [deserialize]. *)
Definition read_line (oc : bool) (line : str) (s : AppState) : option AppState :=
  match splitn 3 TAB line with
  | [i; d; t] =>
      match parse_u32 i, parse_bool d with
      | Some i, Some d =>
          n ← add_u32 oc i 1;
          Some (mkState (todos s ++ [mkTodo i (unescape t) d]) (filter s) (Z.max (next_id s) n))
      | _, _ => Some s
      end
  | _ => Some s
  end.
Definition deserialize (oc : bool) (data : str) : option AppState :=
  for_each (read_line oc) (lines data) new.

(** ** Rendering *)
Definition escape_html (s : str) : str :=
  replace_char 34 (lit "&quot;") (replace_char 62 (lit "&gt;")
    (replace_char 60 (lit "&lt;") (replace_char 38 (lit "&amp;") s))).

Definition render_item (t : Todo) : str :=
  lit "<li class=`" ++ (if completed t then lit "done" else []) ++
  lit "` data-id=`" ++ show (id t) ++
  lit "`><input type=`checkbox` class=`toggle` data-id=`" ++ show (id t) ++ lit "`" ++
  (if completed t then lit " checked" else []) ++
  lit "><span class=`text`>" ++ escape_html (text t) ++
  lit "</span><button class=`remove` data-id=`" ++ show (id t) ++ lit "`>" ++ [215] ++ lit "</button></li>".

Definition selected (f g : Filter) : str := if bool_decide (f = g) then lit "selected" else [].

Definition render (s : AppState) : str :=
  let remaining := remaining_count s in
  lit "<header><h1>todos</h1><input id=`new-todo` autofocus placeholder=`What needs doing?`></header>" ++
  lit "<ul id=`list`>" ++ concat (List.map render_item (visible s)) ++ lit "</ul><footer><span id=`count`>" ++
  show (Z.of_nat remaining) ++ lit " item" ++ (if bool_decide (remaining = 1%nat) then [] else lit "s") ++
  lit " left</span><span class=`filters`><a href=`#/` class=`" ++ selected (filter s) All ++
  lit "`>All</a><a href=`#/active` class=`" ++ selected (filter s) Active ++
  lit "`>Active</a><a href=`#/completed` class=`" ++ selected (filter s) Completed ++
  lit "`>Completed</a></span><button id=`clear-completed`>Clear completed</button></footer>".

(** ** The page ([dom.rs]) *)
Record Element : Type := mkElement { data_id : option str; class_list : list str; element_id : str }.

(** What the handlers read of an event.  A target that is no [Element] (or no
    [HtmlInputElement]) is [None], as is the key of an event that is no keyboard
    event. *)
Inductive Event : Type :=
| Click (target : option Element)
| Keydown (input : option (str * str)) (key : option str)   (* id and value of the input *)
| HashChange (hash : str).

(** [storage] is [None] where the browser has no local storage, else what it
    holds under the project's key. *)
Record Page : Type := mkPage { state : AppState; inner_html : str; storage : option (option str) }.

Section dom.
Context (oc : bool) (accepts : str → bool).

Definition load (st : option (option str)) : option (option AppState) :=
  match st with
  | Some (Some raw) => s ← deserialize oc raw; Some (Some s)
  | _ => Some None
  end.

Definition persist (p : Page) : Page :=
  match storage p with
  | Some old =>
      let data := serialize (state p) in
      mkPage (state p) (inner_html p) (Some (if accepts data then Some data else old))
  | None => p
  end.

Definition render_page (p : Page) : Page := mkPage (state p) (render (state p)) (storage p).
Definition with_state (s : AppState) (p : Page) : Page := mkPage s (inner_html p) (storage p).

Definition start (hash : str) (st : option (option str)) : option Page :=
  l ← load st;
  let initial := match l with Some s => s | None => new end in
  Some (render_page (mkPage (set_filter (from_hash hash) initial) [] st)).

Definition wire_clicks (target : option Element) (p : Page) : Page :=
  match target with
  | None => p
  | Some target =>
      let i := match data_id target with Some s => parse_u32 s | None => None end in
      let '(changed, p) :=
        if bool_decide (lit "toggle" ∈ class_list target) then
          match i with Some i => (true, with_state (toggle i (state p)) p) | None => (false, p) end
        else if bool_decide (lit "remove" ∈ class_list target) then
          match i with Some i => (true, with_state (remove i (state p)) p) | None => (false, p) end
        else if bool_decide (element_id target = lit "clear-completed") then
          (true, with_state (clear_completed (state p)) p)
        else (false, p) in
      if (changed : bool) then render_page (persist p) else p
  end.

Definition wire_new_todo (input : option (str * str)) (key : option str) (p : Page) : option Page :=
  match input with
  | None => Some p
  | Some (input_id, value) =>
      if negb (bool_decide (input_id = lit "new-todo")) then Some p
      else match key with
           | None => Some p
           | Some key =>
               if negb (bool_decide (key = lit "Enter")) then Some p
               else
                 '(added, s) ← add oc value (state p);
                 let p := with_state s p in
                 Some (if (added : bool) then render_page (persist p) else p)
           end
  end.

Definition wire_hash_routing (hash : str) (p : Page) : Page :=
  render_page (with_state (set_filter (from_hash hash) (state p)) p).

Definition handle (e : Event) (p : Page) : option Page :=
  match e with
  | Click target => Some (wire_clicks target p)
  | Keydown input key => wire_new_todo input key p
  | HashChange hash => Some (wire_hash_routing hash p)
  end.
End dom.
