(* ===== verification/TodoProps.v ===== *)
(** * The todo list: properties

    The invariant of the application state, the operations as operations on a
    map from ids to todos, the round trip through the storage, and rendering
    that user text cannot influence. *)
From S2P Require Import Prelude RustStr HtmlText Todo.

(** ** The stored form *)
Definition escape1 (c : char) : str :=
  if c =? BACKSLASH then lit "\\" else if c =? TAB then lit "\t" else if c =? LF then lit "\n" else [c].

Lemma escape_cons c s : escape (c :: s) = escape1 c ++ escape s.
Proof.
  unfold escape. rewrite replace_char_cons, !replace_char_app. f_equal. unfold escape1.
  destruct (Z.eqb_spec c BACKSLASH) as [->|]; [done|]. simpl.
  destruct (Z.eqb_spec c TAB) as [->|]; [done|]. simpl. by destruct (Z.eqb_spec c LF).
Qed.

Lemma unescape_escape s : unescape (escape s) = s.
Proof.
  induction s as [|c s IH]; [done|]. rewrite escape_cons. unfold escape1.
  destruct (Z.eqb_spec c BACKSLASH) as [->|Hb]; [simpl; by rewrite IH|].
  destruct (Z.eqb_spec c TAB) as [->|]; [simpl; by rewrite IH|].
  destruct (Z.eqb_spec c LF) as [->|]; [simpl; by rewrite IH|].
  simpl. destruct (Z.eqb_spec c BACKSLASH); [done|]. by rewrite IH.
Qed.

Lemma escape_not_in c s : c ∉ [BACKSLASH; 116; 110] → c = TAB ∨ c = LF ∨ (c ∉ s) → c ∉ escape s.
Proof.
  intros Hc Hs. induction s as [|d s IH]; [by apply not_elem_of_nil|].
  rewrite escape_cons, not_elem_of_app. split; [|apply IH; set_solver].
  unfold escape1. change (lit "\\") with [BACKSLASH; BACKSLASH]. change (lit "\t") with [BACKSLASH; 116].
  change (lit "\n") with [BACKSLASH; 110].
  repeat case_match; set_solver by lia.
Qed.

Lemma escape_last s : last s ≠ Some CR → last (escape s) ≠ Some CR.
Proof.
  destruct s as [|c s _] using rev_ind; [done|]. rewrite last_snoc. intros Hc.
  assert (E : escape (s ++ [c]) = escape s ++ escape1 c).
  { clear Hc. induction s as [|d s IH]; [by cbn [app]; rewrite escape_cons, app_nil_r|].
    cbn [app]. by rewrite !escape_cons, IH, app_assoc. }
  rewrite E. unfold escape1.
  destruct (c =? BACKSLASH); [by rewrite last_app|]. destruct (c =? TAB); [by rewrite last_app|].
  destruct (c =? LF); [by rewrite last_app|]. by rewrite last_snoc.
Qed.

(** ** The invariant *)
Record state_wf (s : AppState) : Prop := {
  s_nodup : NoDup (List.map id (todos s));
  s_ids : ∀ t, t ∈ todos s → 1 ≤ id t < next_id s;
  s_text : ∀ t, t ∈ todos s → trimmed (text t);
  s_next : 1 ≤ next_id s ≤ 4294967295
}.

Lemma new_wf : state_wf new.
Proof. constructor; simpl; [constructor|by intros t Ht%elem_of_nil..|lia]. Qed.

Lemma todos_sub_wf (f : Todo → bool) s : state_wf s → state_wf (set_todos (List.filter f (todos s)) s).
Proof.
  intros [Hn Hi Ht Hx]. constructor; simpl; [| | |done].
  - clear -Hn. induction (todos s) as [|t l IH]; [done|]. simpl in *.
    apply NoDup_cons in Hn as [Hnot Hn]. destruct (f t); [|by apply IH].
    apply NoDup_cons. split; [|by apply IH]. intros Hin. apply Hnot.
    apply list_elem_of_In, in_map_iff in Hin as (u & <- & [Hu _]%filter_In).
    by apply list_elem_of_In, in_map.
  - intros t Hin. apply Hi. apply list_elem_of_In in Hin. apply filter_In in Hin as [Hin _]. by apply list_elem_of_In.
  - intros t Hin. apply Ht. apply list_elem_of_In in Hin. apply filter_In in Hin as [Hin _]. by apply list_elem_of_In.
Qed.

Lemma toggle_ids i l : List.map id (toggle_first i l) = List.map id l.
Proof. induction l as [|t l IH]; simpl; [done|]. destruct (id t =? i); simpl; congruence. Qed.

Lemma toggle_first_elem i l t : t ∈ toggle_first i l → ∃ u, u ∈ l ∧ id t = id u ∧ text t = text u.
Proof.
  induction l as [|u l IH]; simpl; [by intros Hin%elem_of_nil|].
  destruct (id u =? i); intros [->|Hin]%elem_of_cons.
  - exists u. split; [by left|done].
  - exists t. split; [by right|done].
  - exists u. split; [by left|done].
  - destruct (IH Hin) as (v & ? & ?). exists v. split; [by right|done].
Qed.

Lemma toggle_wf i s : state_wf s → state_wf (toggle i s).
Proof.
  intros [Hn Hi Ht Hx]. constructor; simpl; [by rewrite toggle_ids| | |done].
  - intros t (u & Hu & -> & _)%toggle_first_elem. by apply Hi.
  - intros t (u & Hu & _ & ->)%toggle_first_elem. by apply Ht.
Qed.

Lemma add_spec oc input s :
  state_wf s → next_id s < 4294967295 →
  ∃ b s', add oc input s = Some (b, s') ∧ state_wf s' ∧ next_id s' ≤ next_id s + 1 ∧
    (b = false ↔ trim input = []) ∧ filter s' = filter s ∧
    todos s' = todos s ++ (if b then [mkTodo (next_id s) (trim input) false] else []).
Proof.
  intros D Hn. unfold add. destruct (trim input) as [|c u] eqn:E.
  - exists false, s. rewrite app_nil_r. split_and!; [done|done|lia|done..].
  - assert (Htr : trimmed (c :: u)) by (rewrite <-E; apply trim_trimmed; by rewrite E).
    destruct D as [Hd Hi Ht Hx].
    rewrite add_u32_ok by (unfold_int; lia). simpl. eexists _, _. split_and!; [done| |simpl; lia|done..].
    constructor; simpl.
    + rewrite map_app. simpl. apply NoDup_app. split_and!; [done| |apply NoDup_singleton].
      intros i Hin Hin2. apply list_elem_of_singleton in Hin2 as ->.
      apply list_elem_of_In, in_map_iff in Hin as (t & E2 & Hin%list_elem_of_In). specialize (Hi t Hin). lia.
    + intros t [Hin| ->%list_elem_of_singleton]%elem_of_app; [specialize (Hi t Hin)|simpl]; lia.
    + intros t [Hin| ->%list_elem_of_singleton]%elem_of_app; auto.
    + lia.
Qed.

(** ** The operations, one by one or in sequence *)
Inductive op : Type :=
| Add (input : str) | Toggle (i : Z) | Remove (i : Z) | ClearCompleted | SetFilter (f : Filter).

Definition do_op (oc : bool) (o : op) (s : AppState) : option AppState :=
  match o with
  | Add input => '(_, s) ← add oc input s; Some s
  | Toggle i => Some (toggle i s)
  | Remove i => Some (remove i s)
  | ClearCompleted => Some (clear_completed s)
  | SetFilter f => Some (set_filter f s)
  end.

(** A state that [k] operations can have led to. *)
Definition within (k : nat) (s : AppState) : Prop := state_wf s ∧ next_id s ≤ 1 + Z.of_nat k.

Lemma do_op_within oc o k s :
  within k s → Z.of_nat k < 4294967294 → ∃ s', do_op oc o s = Some s' ∧ within (1 + k) s'.
Proof.
  intros [D Hk] Hlt. destruct o; simpl.
  - destruct (add_spec oc input s) as (b & s' & -> & D' & Hn & _); [done|lia|]. simpl.
    exists s'. split; [done|]. split; [done|lia].
  - eexists. split; [done|]. split; [by apply toggle_wf|simpl; lia].
  - eexists. split; [done|]. split; [by apply todos_sub_wf|simpl; lia].
  - eexists. split; [done|]. split; [by apply todos_sub_wf|simpl; lia].
  - eexists. split; [done|]. split; [by destruct D; constructor|simpl; lia].
Qed.

Lemma do_ops_within oc (ops : list op) :
  Z.of_nat (length ops) < 4294967295 →
  ∃ s, for_each (do_op oc) ops new = Some s ∧ within (length ops) s.
Proof.
  intros Hlen. apply (for_each_count within (do_op oc) ops 0 new).
  - split; [apply new_wf|simpl; lia].
  - intros o k s _ Hk Hs. apply do_op_within; [done|lia].
Qed.

Lemma sublist_filter {A} (f : A → bool) l : sublist (List.filter f l) l.
Proof. induction l as [|t l IH]; simpl; [done|]. by destruct (f t); constructor. Qed.

(** ** Reading back what was stored *)
Lemma row_line t : 0 ≤ id t → trimmed (text t) → row t ≠ [] ∧ (LF ∉ row t) ∧ last (row t) ≠ Some CR.
Proof.
  intros Hid [_ (c & Hc & Hw)]. unfold row. split_and!.
  - destruct (show_nonempty (id t)) as (d & u & ->). done.
  - rewrite !not_elem_of_app. split_and!.
    + by apply show_not_in.
    + by apply not_elem_of_cons; split; [|apply not_elem_of_nil].
    + by apply show_bool_not_in.
    + by apply not_elem_of_cons; split; [|apply not_elem_of_nil].
    + apply escape_not_in; [set_solver by lia|by right; left].
  - rewrite !last_app. destruct (last (escape (text t))) as [d|] eqn:E.
    + intros [= ->]. apply (escape_last (text t)); [|done]. rewrite Hc. intros [= ->]. done.
    + by destruct (completed t).
Qed.

Lemma read_row oc t s :
  0 ≤ id t < 4294967295 → trimmed (text t) →
  read_line oc (row t) s =
    Some (mkState (todos s ++ [t]) (filter s) (Z.max (next_id s) (id t + 1))).
Proof.
  intros Hid Ht. unfold read_line, row. cbn [splitn].
  change ([TAB] ++ show_bool (completed t) ++ [TAB] ++ escape (text t))
    with (TAB :: show_bool (completed t) ++ TAB :: escape (text t)).
  rewrite split_once_app by (apply show_not_in; [lia|done]).
  rewrite split_once_app by by apply show_bool_not_in.
  unfold parse_u32. rewrite parse_show, parse_show_bool by lia.
  rewrite add_u32_ok by (unfold_int; lia). simpl. rewrite unescape_escape. by destruct t.
Qed.

Lemma read_rows oc l s :
  (∀ t, t ∈ l → 0 ≤ id t < 4294967295 ∧ trimmed (text t)) →
  for_each (read_line oc) (List.map row l) s =
    Some (mkState (todos s ++ l) (filter s) (foldl (λ n t, Z.max n (id t + 1)) (next_id s) l)).
Proof.
  revert s. induction l as [|t l IH]; intros s Hl; [by destruct s; simpl; rewrite app_nil_r|].
  cbn [for_each List.map]. destruct (Hl t) as [Hid Ht]; [by left|]. rewrite read_row by done.
  cbn [mbind option_bind]. rewrite IH by (intros u Hu; apply Hl; by right). simpl.
  by rewrite <-app_assoc.
Qed.

Lemma max_ids n k l :
  n ≤ k → (∀ t, t ∈ l → id t < k) →
  n ≤ foldl (λ n t, Z.max n (id t + 1)) n l ≤ k ∧
  ∀ t, t ∈ l → id t < foldl (λ n t, Z.max n (id t + 1)) n l.
Proof.
  revert n. induction l as [|t l IH]; intros n Hn Hl; simpl; [split; [lia|by intros t Ht%elem_of_nil]|].
  pose proof (Hl t ltac:(by left)). destruct (IH (Z.max n (id t + 1))) as [H1 H2]; [lia|intros; apply Hl; by right|].
  split; [lia|]. intros u [->|Hu]%elem_of_cons; [lia|auto].
Qed.

Lemma deserialize_serialize oc s :
  state_wf s → ∃ s', deserialize oc (serialize s) = Some s' ∧ todos s' = todos s ∧ filter s' = All ∧
                     state_wf s' ∧ next_id s' ≤ next_id s.
Proof.
  intros [Hd Hi Ht Hn]. unfold deserialize, serialize. rewrite lines_join.
  - rewrite read_rows by (intros t Hin; specialize (Hi t Hin); split; [lia|auto]).
    destruct (max_ids 1 (next_id s) (todos s)) as [H1 H2]; [lia|intros t Hin; apply (Hi t Hin)|].
    eexists. split_and!; [done|done|done| |simpl; lia]. constructor; simpl; [done| |done|lia].
    intros t Hin. specialize (Hi t Hin). specialize (H2 t Hin). lia.
  - apply Forall_forall. intros p Hp. apply list_elem_of_In, in_map_iff in Hp as (t & <- & Hin%list_elem_of_In).
    apply row_line; [specialize (Hi t Hin); lia|auto].
Qed.

(** ** The state as a map *)
Definition entry (t : Todo) : str * bool := (text t, completed t).
Definition abs_todos (l : list Todo) : gmap Z (str * bool) := list_to_map (List.map (λ t, (id t, entry t)) l).
Definition abs (s : AppState) : gmap Z (str * bool) := abs_todos (todos s).

Lemma abs_lookup l i v :
  NoDup (List.map id l) → abs_todos l !! i = Some v ↔ ∃ t, t ∈ l ∧ id t = i ∧ entry t = v.
Proof.
  intros Hn. unfold abs_todos. rewrite <-elem_of_list_to_map.
  - rewrite list_elem_of_In, in_map_iff. setoid_rewrite list_elem_of_In. naive_solver.
  - replace ((List.map (λ t, (id t, entry t)) l).*1) with (List.map id l); [done|].
    clear. induction l as [|t l IH]; [done|]. simpl. f_equal. apply IH.
Qed.

(** Maps with the same entries are equal. *)
Lemma map_ext_some (m1 m2 : gmap Z (str * bool)) :
  (∀ i v, m1 !! i = Some v ↔ m2 !! i = Some v) → m1 = m2.
Proof. intros H. apply map_eq. intros i. apply option_eq. apply H. Qed.

Lemma toggle_first_map i l :
  NoDup (List.map id l) →
  toggle_first i l = List.map (λ t, if id t =? i then set_completed (negb (completed t)) t else t) l.
Proof.
  induction l as [|t l IH]; intros Hn; simpl; [done|]. simpl in Hn. apply NoDup_cons in Hn as [Hnot Hn].
  destruct (Z.eqb_spec (id t) i) as [<-|]; f_equal; [|auto].
  rewrite <-(List.map_id l) at 1. apply map_ext_in. intros u Hu.
  destruct (Z.eqb_spec (id u) (id t)) as [E|]; [|done]. destruct Hnot. rewrite <-E.
  by apply list_elem_of_In, in_map.
Qed.

Lemma abs_filter (f : Todo → bool) (P : Z * (str * bool) → Prop) `{∀ x, Decision (P x)} l :
  NoDup (List.map id l) → NoDup (List.map id (List.filter f l)) →
  (∀ t, f t = true ↔ P (id t, entry t)) →
  abs_todos (List.filter f l) = base.filter P (abs_todos l).
Proof.
  intros Hn Hn' Hf. apply map_ext_some. intros i v. rewrite map_lookup_filter_Some, !abs_lookup by done.
  setoid_rewrite list_elem_of_In. setoid_rewrite filter_In. setoid_rewrite Hf. naive_solver.
Qed.

(** ** Rendering *)
Lemma escape_html_escaped s : escape_html s = html_escaped s.
Proof. apply replace_chain. Qed.

Lemma escape_html_markup s : markup (escape_html s) = [].
Proof. rewrite escape_html_escaped. apply html_escaped_markup. Qed.

(** Two states that differ in the text of the todos only. *)
Definition same_but_text (s s' : AppState) : Prop :=
  filter s = filter s' ∧ Forall2 (λ t u, id t = id u ∧ completed t = completed u) (todos s) (todos s').

Lemma same_visible s s' :
  same_but_text s s' →
  Forall2 (λ t u, id t = id u ∧ completed t = completed u) (visible s) (visible s') ∧
  remaining_count s = remaining_count s'.
Proof.
  intros [Hf H]. unfold visible, remaining_count. rewrite <-Hf.
  induction H as [|t u l k [Hi Hc] H [IH1 IH2]]; simpl; [done|]. rewrite Hc.
  split; [destruct (matches (filter s) (completed u)); [by constructor|done]|].
  destruct (negb (completed u)); simpl; congruence.
Qed.

Lemma render_item_markup t u :
  id t = id u → completed t = completed u → markup (render_item t) = markup (render_item u).
Proof.
  intros Hi Hc. unfold render_item. rewrite Hi, Hc, !markup_app, !escape_html_markup. done.
Qed.

Lemma render_markup s s' : same_but_text s s' → markup (render s) = markup (render s').
Proof.
  intros H. destruct (same_visible s s' H) as [Hv Hr]. destruct H as [Hf _].
  unfold render. cbn zeta. rewrite Hr, Hf, !markup_app. do 2 f_equal.
  apply (f_equal2 app); [|done].
  clear -Hv. induction Hv as [|t u l k [Hi Hc] _ IH]; [done|].
  cbn [List.map concat]. rewrite !markup_app, IH. f_equal. by apply render_item_markup.
Qed.

(** ** The page *)
Section page.
Context (oc : bool).

(** A session: the events, each with whether the storage takes a write at it. *)
Definition session (events : list (Event * bool)) : Page → option Page :=
  for_each (λ '(e, ok) p, handle oc (λ _, ok) e p) events.















End page.

(** ** Properties *)

(** C9. Storage round trip: after any sequence of fewer than [2^32 - 1] operations
    on a new list, no operation has panicked, and what [serialize] writes
    [deserialize] reads back to the same todos, whatever tabs, line feeds and
    backslashes their texts contain; the next id it chooses is again above every
    id in use. *)
Theorem storage_roundtrip oc (ops : list op) :
  Z.of_nat (length ops) < 4294967295 →
  ∃ s s', for_each (do_op oc) ops new = Some s ∧ state_wf s ∧
    deserialize oc (serialize s) = Some s' ∧ todos s' = todos s ∧ state_wf s'.
Proof.
  intros H. destruct (do_ops_within oc ops H) as (s & E & D & _).
  destruct (deserialize_serialize oc s D) as (s' & E' & Et & _ & D' & _).
  exists s, s'. by split_and!.
Qed.

Lemma storage_roundtrip_witness :
  ∃ s s', for_each (do_op true) [Add (lit " a " ++ [TAB; LF] ++ lit "b"); Toggle 1; Add (lit "\")] new = Some s ∧
    state_wf s ∧ deserialize true (serialize s) = Some s' ∧ todos s' = todos s ∧ state_wf s'.
Proof. apply storage_roundtrip. vm_compute. reflexivity. Defined.

(** C37. The operations on the todos are those of a map from ids to text and status:
    [add] inserts the trimmed text, not done, under a fresh id and refuses blank
    text; [toggle] flips the status of one entry, [remove] deletes one,
    [clear_completed] the completed ones, and [visible] shows those the filter
    selects, in the order of the list. *)
Theorem ops_refine_map oc s i input :
  state_wf s → next_id s < 4294967295 →
  (abs s !! next_id s = None ∧
   ∃ b s', add oc input s = Some (b, s') ∧
     if b then trim input ≠ [] ∧ abs s' = <[next_id s := (trim input, false)]> (abs s)
     else trim input = [] ∧ abs s' = abs s) ∧
  abs (toggle i s) = alter (λ v, (v.1, negb v.2)) i (abs s) ∧
  abs (remove i s) = delete i (abs s) ∧
  abs (clear_completed s) = base.filter (λ p, p.2.2 = false) (abs s) ∧
  sublist (visible s) (todos s) ∧
  (∀ t, t ∈ visible s ↔ t ∈ todos s ∧ matches (filter s) (completed t) = true).
Proof.
  intros D Hn. pose proof (s_nodup s D) as Hd. unfold abs. split_and!.
  - apply eq_None_not_Some. intros [v (t & Hin & Hi & _)%abs_lookup]; [|done].
    pose proof (s_ids s D t Hin). lia.
  - destruct (add_spec oc input s) as (b & s' & E & D' & _ & Hb & _ & Ht); [done|done|].
    exists b, s'. split; [done|]. destruct b.
    + split; [intros E2; by apply Hb in E2|]. apply map_ext_some. intros j v.
      rewrite (abs_lookup (todos s')) by apply D'. rewrite Ht, lookup_insert_Some, abs_lookup by done.
      setoid_rewrite elem_of_app. setoid_rewrite list_elem_of_singleton. split.
      * intros (t & [Hin| ->] & Hj & Hv); [right|left; done].
        split; [pose proof (s_ids s D t Hin); lia|eauto].
      * intros [[<- <-]|[_ (t & ? & ? & ?)]]; [eexists; split; [by right|done]|eauto].
    + split; [by apply Hb|]. by rewrite Ht, app_nil_r.
  - apply map_ext_some. intros j v. rewrite lookup_alter_Some.
    rewrite (abs_lookup (todos (toggle i s))) by (by apply toggle_wf).
    setoid_rewrite abs_lookup; [|done..]. simpl. rewrite toggle_first_map by done.
    setoid_rewrite list_elem_of_In. setoid_rewrite in_map_iff. split.
    + intros (t & (u & <- & Hin) & Hj & Hv). destruct (Z.eqb_spec (id u) i) as [<-|Hne].
      * left. split; [done|]. exists (entry u). split; [eauto|]. by rewrite <-Hv.
      * right. split; [congruence|]. eauto.
    + intros [(<- & v' & (t & Hin & Hi & <-) & ->)|(Hne & t & Hin & <- & <-)].
      * exists (set_completed (negb (completed t)) t). split; [|done]. exists t.
        by rewrite Hi, Z.eqb_refl.
      * exists t. split; [|done]. exists t. by rewrite (proj2 (Z.eqb_neq _ _)) by done.
  - apply map_ext_some. intros j v. rewrite lookup_delete_Some.
    rewrite (abs_lookup (todos (remove i s))) by (by apply todos_sub_wf). rewrite abs_lookup by done. simpl.
    setoid_rewrite list_elem_of_In. setoid_rewrite filter_In. setoid_rewrite negb_true_iff.
    setoid_rewrite Z.eqb_neq. naive_solver.
  - apply abs_filter; [done|by apply todos_sub_wf|]. intros t. simpl. by destruct (completed t).
  - apply sublist_filter.
  - intros t. unfold visible. by rewrite !list_elem_of_In, filter_In.
Qed.

Lemma ops_refine_map_witness :
  ∃ s, add true (lit "x") new = Some (true, s) ∧ abs (toggle 1 s) = alter (λ v, (v.1, negb v.2)) 1 (abs s).
Proof.
  eexists. split; [reflexivity|]. refine (proj1 (proj2 (ops_refine_map true _ 1 [] _ _))); [|closed].
  constructor; simpl; [apply NoDup_singleton| | |lia].
  - intros t ->%list_elem_of_singleton. simpl. lia.
  - intros t ->%list_elem_of_singleton. split; by eexists.
Defined.

(** Rendering is safe against the text of the todos: replacing any texts by any
    others leaves the sequence of tag and attribute delimiters of the page as it
    was (so that no text can open or close a tag), and different texts are never
    confused by [escape_html]. *)
Theorem render_safe s s' :
  same_but_text s s' →
  markup (render s) = markup (render s') ∧
  ∀ t t', escape_html t = escape_html t' → t = t'.
Proof. intros H. split; [by apply render_markup|]. intros t t'. rewrite !escape_html_escaped. apply html_escaped_inj. Qed.

Lemma render_safe_witness :
  let st x := mkState [mkTodo 1 x false] All 2 in
  markup (render (st (lit "<script>alert(`1`)</script>"))) = markup (render (st (lit "a"))).
Proof. apply render_safe. split; [reflexivity|]. apply Forall2_cons. by split. Defined.


(** A session on a stored list: the last of two changes is refused, and is not there again. *)
Definition milk : AppState := mkState [mkTodo 1 (lit "milk") false] Active 2.
Definition two_changes : list (Event * bool) :=
  [(Click (Some (mkElement (Some (lit "1")) [lit "toggle"] [])), true);
   (Keydown (Some (lit "new-todo", lit " bread ")) (Some (lit "Enter")), false)].
Example refused_is_lost :
  match start true [] (Some (Some (serialize milk))) ≫= session true two_changes with
  | Some p => List.map text (todos (state p)) = [lit "milk"; lit "bread"] ∧
      option_map (λ p', List.map (λ t, (text t, completed t)) (todos (state p'))) (start true [] (storage p)) = Some [(lit "milk", true)]
  | None => False
  end.
Proof. by vm_compute. Qed.

(** A stored row with the largest [u32] as its id makes a build with overflow
    checks panic. *)
Lemma deserialize_max_id : deserialize true (lit "4294967295" ++ [TAB] ++ lit "true" ++ [TAB] ++ lit "x") = None.
Proof. vm_compute. reflexivity. Qed.
