(* ===== verification/TodoTests.v ===== *)
(** * The unit tests of the todo list

    The tests of [2026-09-21-rust-wasm-todo/src/state.rs], on the definitions of [Todo].
    [oc] says whether the build checks overflow. *)
From S2P Require Import Prelude RustStr UnitTest Todo.
#[local] Open Scope rust_scope.

Section tests.
Context (oc : bool).
#[local] Instance Filter_eq_dec : EqDecision Filter.
Proof. solve_decision. Defined.
#[local] Instance Todo_eq_dec : EqDecision Todo.
Proof. solve_decision. Defined.

(** [s.add(text)] whose result is not looked at, for each of the texts. *)
Definition add_all (texts : list str) (s : AppState) : option AppState :=
  for_each (λ t s, '(_, s) ← add oc t s; Some s) texts s.

Definition add_appends_trimmed_todo_with_incrementing_id : test :=
  '(r, s) ← add oc (lit "  write tests  ") new; assert! r;
  '(r, s) ← add oc (lit "ship it") s; assert! r;
  t0 ← todos s !! 0%nat; t1 ← todos s !! 1%nat;
  assert! (text t0 == lit "write tests");
  assert! (id t0 == 1);
  assert! (id t1 == 2).

Definition add_rejects_blank_input : test :=
  '(r, s) ← add oc (lit "   ") new; assert! (negb r);
  '(r, s) ← add oc [] s; assert! (negb r);
  assert! (todos s == []).

Definition toggle_flips_done_and_ignores_unknown_id : test :=
  s ← add_all [lit "a"] new;
  let s := toggle 1 s in
  t ← todos s !! 0%nat; assert! (completed t);
  let s := toggle 1 s in
  t ← todos s !! 0%nat; assert! (negb (completed t));
  let s := toggle 999 s in
  assert! (length (todos s) == 1%nat).

Definition remove_deletes_only_the_matching_id : test :=
  s ← add_all [lit "a"; lit "b"] new;
  let s := remove 1 s in
  assert! (length (todos s) == 1%nat);
  t ← todos s !! 0%nat; assert! (text t == lit "b").

Definition clear_completed_keeps_only_active : test :=
  s ← add_all [lit "a"; lit "b"] new;
  let s := clear_completed (toggle 1 s) in
  assert! (length (todos s) == 1%nat);
  t ← todos s !! 0%nat; assert! (id t == 2).

Definition filter_narrows_visible_todos : test :=
  s ← add_all [lit "a"; lit "b"] new;
  let s := toggle 1 s in
  let s := set_filter Active s in
  assert! (length (visible s) == 1%nat);
  t ← head (visible s); assert! (id t == 2);
  let s := set_filter Completed s in
  assert! (length (visible s) == 1%nat);
  t ← head (visible s); assert! (id t == 1);
  let s := set_filter All s in
  assert! (length (visible s) == 2%nat).

Definition remaining_count_excludes_done : test :=
  s ← add_all [lit "a"; lit "b"; lit "c"] new;
  assert! (remaining_count (toggle 2 s) == 2%nat).

Definition filter_from_hash_roundtrips_through_as_hash : test :=
  assert! (forallb (λ f, from_hash (as_hash f) == f) [All; Active; Completed]);
  assert! (from_hash (lit "#/nonsense") == All).

Definition serialize_deserialize_roundtrips_including_tabs_and_newlines : test :=
  s ← add_all [lit "buy" ++ [TAB] ++ lit "milk"; lit "multi" ++ [LF] ++ lit "line"] new;
  let s := toggle 1 s in
  restored ← deserialize oc (serialize s);
  assert! (todos restored == todos s).

Definition deserialize_skips_malformed_lines_without_panicking : test :=
  s ← deserialize oc (lit "not-a-valid-row" ++ [LF] ++ lit "1" ++ [TAB] ++ lit "true" ++ [TAB] ++ lit "ok" ++ [LF; LF] ++ lit "foo" ++ [TAB] ++ lit "bar");
  assert! (length (todos s) == 1%nat);
  t ← todos s !! 0%nat; assert! (text t == lit "ok").

Definition render_escapes_html_in_todo_text : test :=
  s ← add_all [lit "<script>alert(1)</script>"] new;
  let html := render s in
  assert! (negb (contains (lit "<script>") html));
  assert! (contains (lit "&lt;script&gt;") html).

Definition render_reflects_remaining_count_and_selected_filter : test :=
  s ← add_all [lit "a"; lit "b"] new;
  let html := render (set_filter Active (toggle 1 s)) in
  assert! (contains (lit "1 item left") html);
  assert! (contains (lit "class=`selected`>Active") html).

Definition todo_tests : list test :=
  [add_appends_trimmed_todo_with_incrementing_id; add_rejects_blank_input; toggle_flips_done_and_ignores_unknown_id;
   remove_deletes_only_the_matching_id; clear_completed_keeps_only_active; filter_narrows_visible_todos; remaining_count_excludes_done;
   filter_from_hash_roundtrips_through_as_hash; serialize_deserialize_roundtrips_including_tabs_and_newlines;
   deserialize_skips_malformed_lines_without_panicking; render_escapes_html_in_todo_text; render_reflects_remaining_count_and_selected_filter].
End tests.

Example todo_tests_pass : all_pass (todo_tests true) && all_pass (todo_tests false) = true.
Proof. vm_compute. reflexivity. Qed.
