(* ===== verification/WebSocket.v ===== *)
(** * The WebSocket protocol ([2026-09-05-rust-websocket-chat/src]): definitions

    [base64.rs], [sha1.rs] and [websocket.rs], whole.  Bytes are [Z] below 256, a
    [u32] a [Z] below [2^32].  Indexing panics ([None]) out of bounds; [oc] is the
    overflow mode of the build. *)
From S2P Require Import Prelude RustStr RustUtf8.

(** ** [base64.rs] *)
Definition TABLE : str := lit "ABCDEFGHIJKLMNOPQRSTUVWXYZabcdefghijklmnopqrstuvwxyz0123456789+/".

Definition encode_chunk (chunk : list Z) : option str :=
  b0 ← chunk !! 0%nat;
  let b1 := nth 1 chunk 0 in
  let b2 := nth 2 chunk 0 in
  let n := Z.lor (Z.lor (wrap32 (Z.shiftl b0 16)) (wrap32 (Z.shiftl b1 8))) b2 in
  c0 ← TABLE !! Z.to_nat (Z.land (Z.shiftr n 18) 0x3F);
  c1 ← TABLE !! Z.to_nat (Z.land (Z.shiftr n 12) 0x3F);
  c2 ← (if 1 <? Z.of_nat (length chunk) then TABLE !! Z.to_nat (Z.land (Z.shiftr n 6) 0x3F) else Some 61);
  c3 ← (if 2 <? Z.of_nat (length chunk) then TABLE !! Z.to_nat (Z.land n 0x3F) else Some 61);
  Some [c0; c1; c2; c3].

Definition base64_encode (data : list Z) : option str :=
  for_each (λ chunk out, q ← encode_chunk chunk; Some (out ++ q)) (chunks 3 data) [].

(** ** [sha1.rs] *)
Definition rotate_left (x n : Z) : Z := wrap32 (Z.lor (Z.shiftl x n) (Z.shiftr x (32 - n))).
Definition not_u32 (x : Z) : Z := Z.lxor x 0xFFFFFFFF.
Definition wadd (a b : Z) : Z := wrap32 (a + b).

Record Regs : Type := mkRegs { ra : Z; rb : Z; rc : Z; rd : Z; re : Z }.
Definition INIT : Regs := mkRegs 0x67452301 0xEFCDAB89 0x98BADCFE 0x10325476 0xC3D2E1F0.

(** [while msg.len() % 64 != 56 { msg.push(0) }]; 64 turns are enough. *)
Fixpoint pad_zeros (fuel : nat) (msg : list Z) : option (list Z) :=
  if Z.of_nat (length msg) mod 64 =? 56 then Some msg
  else match fuel with O => None | S fuel => pad_zeros fuel (msg ++ [0]) end.

Definition pad (oc : bool) (input : list Z) : option (list Z) :=
  bit_len ← chk_u64 oc (Z.of_nat (length input) * 8);
  msg ← pad_zeros 64 (input ++ [0x80]);
  Some (msg ++ to_be_bytes 8 bit_len).

Definition word (chunk : list Z) (i : nat) : option Z :=
  b0 ← chunk !! (i * 4)%nat; b1 ← chunk !! (i * 4 + 1)%nat;
  b2 ← chunk !! (i * 4 + 2)%nat; b3 ← chunk !! (i * 4 + 3)%nat;
  Some (from_be_bytes [b0; b1; b2; b3]).

(** The array [w] of 80 words. *)
Definition schedule (chunk : list Z) : option (list Z) :=
  w ← for_each (λ i w, v ← word chunk i; Some (<[i := v]> w)) (seq 0 16) (replicate 80 0);
  for_each (λ i w,
    w3 ← w !! (i - 3)%nat; w8 ← w !! (i - 8)%nat; w14 ← w !! (i - 14)%nat; w16 ← w !! (i - 16)%nat;
    Some (<[i := rotate_left (Z.lxor (Z.lxor (Z.lxor w3 w8) w14) w16) 1]> w)) (seq 16 64) w.

Definition round_f (i : nat) (b c d : Z) : Z * Z :=
  if (i <? 20)%nat then (Z.lor (Z.land b c) (Z.land (not_u32 b) d), 0x5A827999)
  else if (i <? 40)%nat then (Z.lxor (Z.lxor b c) d, 0x6ED9EBA1)
  else if (i <? 60)%nat then (Z.lor (Z.lor (Z.land b c) (Z.land b d)) (Z.land c d), 0x8F1BBCDC)
  else (Z.lxor (Z.lxor b c) d, 0xCA62C1D6).

Definition round (r : Regs) (iw : nat * Z) : Regs :=
  let '(i, wi) := iw in
  let '(f, k) := round_f i (rb r) (rc r) (rd r) in
  let temp := wadd (wadd (wadd (wadd (rotate_left (ra r) 5) f) (re r)) k) wi in
  mkRegs temp (ra r) (rotate_left (rb r) 30) (rc r) (rd r).

Definition compress (chunk : list Z) (h : Regs) : option Regs :=
  w ← schedule chunk;
  let r := foldl round h (zip (seq 0 (length w)) w) in
  Some (mkRegs (wadd (ra h) (ra r)) (wadd (rb h) (rb r)) (wadd (rc h) (rc r))
               (wadd (rd h) (rd r)) (wadd (re h) (re r))).

Definition sha1 (oc : bool) (input : list Z) : option (list Z) :=
  msg ← pad oc input;
  h ← for_each compress (chunks 64 msg) INIT;
  Some (to_be_bytes 4 (ra h) ++ to_be_bytes 4 (rb h) ++ to_be_bytes 4 (rc h) ++
        to_be_bytes 4 (rd h) ++ to_be_bytes 4 (re h)).

(** ** [websocket.rs] *)
Definition WS_GUID : str := lit "258EAFA5-E914-47DA-95CA-C5AB0DC85B11".

Definition accept_key (oc : bool) (client_key : str) : option str :=
  digest ← sha1 oc (as_bytes client_key ++ as_bytes WS_GUID);
  base64_encode digest.

(** The closure of [find_map]. *)
Definition header_key (line : str) : option str :=
  '(name, value) ← split_once 58 line;
  if eq_ignore_ascii_case (trim name) (lit "Sec-WebSocket-Key") then Some (trim value) else None.

Fixpoint find_map {A B} (f : A → option B) (l : list A) : option B :=
  match l with
  | [] => None
  | x :: l' => match f x with Some y => Some y | None => find_map f l' end
  end.

Definition parse_websocket_key (request : str) : option str := find_map header_key (lines request).

Inductive Opcode : Type :=
| Continuation | Text | Binary | Close | Ping | Pong | Other (b : Z).
#[export] Instance Opcode_eq_dec : EqDecision Opcode.
Proof. solve_decision. Defined.

Definition from_u8 (b : Z) : Opcode :=
  if b =? 0x0 then Continuation
  else if b =? 0x1 then Text
  else if b =? 0x2 then Binary
  else if b =? 0x8 then Close
  else if b =? 0x9 then Ping
  else if b =? 0xA then Pong
  else Other b.

Definition to_u8 (op : Opcode) : Z :=
  match op with
  | Continuation => 0x0 | Text => 0x1 | Binary => 0x2 | Close => 0x8 | Ping => 0x9 | Pong => 0xA
  | Other b => b
  end.

Record Frame : Type := mkFrame { fin : bool; opcode : Opcode; payload : list Z }.

(** [*byte ^= key[i % 4]] for each byte in turn. *)
Definition unmask (key payload : list Z) : option (list Z) :=
  for_each (λ '(i, byte) out, k ← key !! (i mod 4)%nat; Some (out ++ [Z.lxor byte k]))
    (zip (seq 0 (length payload)) payload) [].

(** The length field: the bytes after the header that extend it. *)
Definition read_len (h1 : Z) : reading io_error Z :=
  let len := Z.land h1 0x7F in
  if len =? 126 then let! ext := read_exact 2 in rret (from_be_bytes ext)
  else if len =? 127 then let! ext := read_exact 8 in rret (from_be_bytes ext)
  else rret len.

Definition read_mask (masked : bool) : reading io_error (option (list Z)) :=
  if masked then let! key := read_exact 4 in rret (Some key) else rret None.

Definition read_frame : reading io_error Frame :=
  let! header := read_exact 2 in
  let! h0 := or_panic (header !! 0%nat) in
  let! h1 := or_panic (header !! 1%nat) in
  let fin := negb (Z.land h0 0x80 =? 0) in
  let opcode := from_u8 (Z.land h0 0x0F) in
  let masked := negb (Z.land h1 0x80 =? 0) in
  let! len := read_len h1 in
  let! mask_key := read_mask masked in
  let! buf := or_panic (alloc len) in
  let! payload := read_exact len in
  let! payload := or_panic (match mask_key with Some key => unmask key payload | None => Some payload end) in
  rret (mkFrame fin opcode payload).

Definition encode_frame (op : Opcode) (payload : list Z) : list Z :=
  let len := Z.of_nat (length payload) in
  [Z.lor 0x80 (to_u8 op)] ++
  (if len <=? 125 then [wrap8 len]
   else if len <=? 0xFFFF then 126 :: to_be_bytes 2 (wrap16 len)
   else 127 :: to_be_bytes 8 (wrap64 len)) ++
  payload.
