(* ===== verification/WebSocketProps.v ===== *)
(** * The WebSocket protocol: properties

    Frames round-trip, masked or not, at every length class; base64 against a
    reference decoder; SHA-1 never panics and pads as RFC 3174 says. *)
From S2P Require Import Prelude RustStr RustUtf8 WebSocket.

(** ** Base64 *)
Fixpoint index_of (c : char) (l : str) : option Z :=
  match l with
  | [] => None
  | d :: l' => if c =? d then Some 0 else i ← index_of c l'; Some (1 + i)
  end.

(** A reference decoder (RFC 4648). *)
Definition decode_quad (q : str) : option (list Z) :=
  match q with
  | [c0; c1; c2; c3] =>
      v0 ← index_of c0 TABLE; v1 ← index_of c1 TABLE;
      if c2 =? 61 then Some [v0 * 4 + v1 / 16]
      else
        v2 ← index_of c2 TABLE;
        if c3 =? 61 then Some [v0 * 4 + v1 / 16; v1 mod 16 * 16 + v2 / 4]
        else
          v3 ← index_of c3 TABLE;
          Some [v0 * 4 + v1 / 16; v1 mod 16 * 16 + v2 / 4; v2 mod 4 * 64 + v3]
  | _ => None
  end.
Definition base64_decode (s : str) : option (list Z) :=
  for_each (λ q out, b ← decode_quad q; Some (out ++ b)) (chunks 4 s) [].

Lemma TABLE_lookup i :
  0 ≤ i < 64 → ∃ c, TABLE !! Z.to_nat i = Some c ∧ index_of c TABLE = Some i ∧ c ≠ 61.
Proof.
  intros Hi. pose (ok j := match TABLE !! Z.to_nat j with
    | Some c => bool_decide (index_of c TABLE = Some j) && negb (c =? 61) | None => false end).
  assert (H : ok i = true).
  { assert (Hall : forallb ok (seqZ 0 64) = true) by (vm_compute; reflexivity).
    rewrite forallb_forall in Hall. apply Hall, list_elem_of_In, elem_of_seqZ. lia. }
  unfold ok in H. destruct (TABLE !! Z.to_nat i) as [c|]; [|done]. exists c.
  apply andb_prop in H as [H1%bool_decide_eq_true H2%negb_true_iff]. split_and!; [done|done|lia].
Qed.

(** The four six-bit indices of a chunk, and the bytes they give back. *)
Lemma sextets b0 b1 b2 :
  is_u8 b0 → is_u8 b1 → is_u8 b2 →
  let n := Z.lor (Z.lor (wrap32 (Z.shiftl b0 16)) (wrap32 (Z.shiftl b1 8))) b2 in
  Z.land (Z.shiftr n 18) 0x3F = b0 / 4 ∧ Z.land (Z.shiftr n 12) 0x3F = b0 mod 4 * 16 + b1 / 16 ∧
  Z.land (Z.shiftr n 6) 0x3F = b1 mod 16 * 4 + b2 / 64 ∧ Z.land n 0x3F = b2 mod 64.
Proof.
  intros H0 H1 H2. cbn zeta.
  assert (En : Z.lor (Z.lor (wrap32 (Z.shiftl b0 16)) (wrap32 (Z.shiftl b1 8))) b2 = b2 + (b1 + b0 * 256) * 256).
  { rewrite !Z.shiftl_mul_pow2, !wrap32_id by int_lia.
    assert (E1 : Z.lor (b0 * 2 ^ 16) (b1 * 2 ^ 8) = (b1 + b0 * 2 ^ 8) * 2 ^ 8).
    { rewrite Z.lor_comm. replace (b0 * 2 ^ 16) with (Z.shiftl (Z.shiftl b0 8) 8)
        by (rewrite !Z.shiftl_mul_pow2 by done; lia).
      rewrite <-(Z.shiftl_mul_pow2 b1 8), <-Z.shiftl_lor, (lor_shiftl_add 8) by (unfold_int; lia).
      by rewrite Z.shiftl_mul_pow2. }
    rewrite E1, Z.lor_comm. rewrite <-Z.shiftl_mul_pow2, lor_shiftl_add by (unfold_int; lia). done. }
  rewrite En. change 63 with (Z.ones 6). rewrite !Z.land_ones, !Z.shiftr_div_pow2 by done.
  unfold_int. split_and!; Z.to_euclidean_division_equations; lia.
Qed.

(** A chunk of one to three bytes becomes a quad that decodes to it. *)
Lemma encode_chunk_spec chunk :
  Forall is_u8 chunk → (1 ≤ length chunk ≤ 3)%nat →
  ∃ q, encode_chunk chunk = Some q ∧ length q = 4%nat ∧ decode_quad q = Some chunk.
Proof.
  intros Hu Hlen. destruct chunk as [|b0 r]; [simpl in Hlen; lia|].
  assert (H0 : is_u8 b0) by by inversion Hu. apply Forall_inv_tail in Hu as Hr.
  set (b1 := nth 0 r 0). set (b2 := nth 1 r 0).
  assert (H1 : is_u8 b1) by (unfold b1; destruct r; [closed|by inversion Hr]).
  assert (H2 : is_u8 b2) by (unfold b2; destruct r as [|? [|? ?]]; [closed..|by inversion Hr as [|?? _ Hr2]; inversion Hr2]).
  destruct (sextets b0 b1 b2 H0 H1 H2) as (E0 & E1 & E2 & E3). unfold encode_chunk.
  change (nth 1 (b0 :: r) 0) with b1. change (nth 2 (b0 :: r) 0) with b2. cbn [lookup list_lookup mbind option_bind].
  rewrite E0, E1, E2, E3.
  destruct (TABLE_lookup (b0 / 4)) as (c0 & -> & I0 & _); [int_lia|].
  destruct (TABLE_lookup (b0 mod 4 * 16 + b1 / 16)) as (c1 & -> & I1 & _); [int_lia|].
  destruct (TABLE_lookup (b1 mod 16 * 4 + b2 / 64)) as (c2 & L2 & I2 & N2); [int_lia|].
  destruct (TABLE_lookup (b2 mod 64)) as (c3 & L3 & I3 & N3); [int_lia|].
  cbn [mbind option_bind].
  assert (Hb0 : b0 / 4 * 4 + (b0 mod 4 * 16 + b1 / 16) / 16 = b0) by int_lia.
  assert (Hb1 : (b0 mod 4 * 16 + b1 / 16) mod 16 * 16 + (b1 mod 16 * 4 + b2 / 64) / 4 = b1) by int_lia.
  assert (Hb2 : (b1 mod 16 * 4 + b2 / 64) mod 4 * 64 + b2 mod 64 = b2) by int_lia.
  destruct r as [|x [|y [|z r]]]; [..|simpl in Hlen; lia].
  - simpl. eexists. split_and!; [done..|]. unfold decode_quad. rewrite I0, I1. simpl. by rewrite Hb0.
  - cbn [length Z.of_nat]. rewrite L2. simpl. eexists. split_and!; [done..|]. unfold decode_quad.
    rewrite I0, I1, I2. simpl. rewrite (proj2 (Z.eqb_neq _ _)), Hb0, Hb1 by done. done.
  - cbn [length Z.of_nat]. rewrite L2, L3. simpl. eexists. split_and!; [done..|]. unfold decode_quad.
    rewrite I0, I1, I2, I3. simpl. rewrite !(proj2 (Z.eqb_neq _ _)), Hb0, Hb1, Hb2 by done. done.
Qed.

Lemma base64_spec data out out' :
  Forall is_u8 data →
  ∃ s, for_each (λ chunk out, q ← encode_chunk chunk; Some (out ++ q)) (chunks 3 data) out = Some (out ++ s) ∧
       for_each (λ q out, b ← decode_quad q; Some (out ++ b)) (chunks 4 s) out' = Some (out' ++ data) ∧
       length s = (4 * ((length data + 2) / 3))%nat.
Proof.
  remember (length data) as n eqn:En. revert data out out' En.
  induction n as [n IH] using lt_wf_ind. intros data out out' En Hu.
  destruct (decide (data = [])) as [->|Hne].
  { simpl in En. subst n. exists []. rewrite !app_nil_r. done. }
  assert (Hpos : (0 < n)%nat) by (destruct data; [done|simpl in En; lia]).
  assert (Hdrop : length (drop 3 data) = (n - 3)%nat) by (rewrite length_drop; lia).
  destruct (encode_chunk_spec (take 3 data)) as (q & Eq & Lq & Dq);
    [by apply Forall_take|rewrite length_take; lia|].
  destruct (IH (n - 3)%nat ltac:(lia) (drop 3 data) (out ++ q) (out' ++ take 3 data))
    as (s & Es & Ds & Ls); [done|by apply Forall_drop|].
  exists (q ++ s). rewrite chunks_step, chunks_cons by (done || lia). cbn [for_each].
  rewrite Eq, Dq. cbn [mbind option_bind]. rewrite Es, Ds. rewrite <-!app_assoc, take_drop, length_app, Lq, Ls.
  split_and!; [done..|]. destruct (decide (n ≤ 3)%nat).
  - replace (n - 3)%nat with 0%nat by lia. destruct n as [|[|[|[|n]]]]; simpl; lia.
  - replace (n + 2)%nat with ((n - 3 + 2) + 1 * 3)%nat by lia. rewrite Nat.div_add by lia. lia.
Qed.

(** ** SHA-1 *)
(** Padding: a one bit, the fewest zero bytes that reach 56 modulo 64, and the
    length in bits. *)
Definition zeros_needed (n : nat) : nat := Z.to_nat ((55 - Z.of_nat n) mod 64).

Lemma pad_zeros_spec fuel msg k :
  (k ≤ fuel)%nat → (Z.of_nat (length msg) + Z.of_nat k) mod 64 = 56 →
  (∀ j, (j < k)%nat → (Z.of_nat (length msg) + Z.of_nat j) mod 64 ≠ 56) →
  pad_zeros fuel msg = Some (msg ++ replicate k 0).
Proof.
  revert fuel msg. induction k as [|k IH]; intros fuel msg Hk He Hl.
  - rewrite Z.add_0_r in He. destruct fuel; simpl; by rewrite He, app_nil_r.
  - destruct fuel as [|fuel]; [lia|]. simpl. specialize (Hl 0%nat ltac:(lia)) as H0. rewrite Z.add_0_r in H0.
    rewrite (proj2 (Z.eqb_neq _ _)) by done. rewrite (IH fuel (msg ++ [0])).
    + by rewrite <-app_assoc.
    + lia.
    + rewrite length_app. simpl. rewrite <-He. f_equal. lia.
    + intros j Hj. specialize (Hl (S j) ltac:(lia)). rewrite length_app. simpl.
      intros E. apply Hl. rewrite <-E. f_equal. lia.
Qed.

Lemma pad_spec oc input :
  Z.of_nat (length input) * 8 < 2 ^ 64 →
  pad oc input = Some (input ++ [0x80] ++ replicate (zeros_needed (length input)) 0 ++
                       to_be_bytes 8 (Z.of_nat (length input) * 8)).
Proof.
  intros Hlen. unfold pad. rewrite chk_u64_ok by (unfold_int; lia). cbn [mbind option_bind].
  set (n := length input) in *.
  assert (Hz : Z.of_nat (zeros_needed n) = (55 - Z.of_nat n) mod 64)
    by (unfold zeros_needed; rewrite Z2Nat.id; [done|apply Z.mod_pos_bound; lia]).
  rewrite (pad_zeros_spec 64 _ (zeros_needed n)).
  - cbn [mbind option_bind]. by rewrite <-!app_assoc.
  - apply Nat2Z.inj_le. rewrite Hz. pose proof (Z.mod_pos_bound (55 - Z.of_nat n) 64). lia.
  - rewrite length_app, Hz. fold n. simpl. Z.to_euclidean_division_equations. lia.
  - intros j Hj. apply Nat2Z.inj_lt in Hj. rewrite Hz in Hj. rewrite length_app. fold n. simpl.
    Z.to_euclidean_division_equations. lia.
Qed.

Lemma pad_blocks n :
  ∃ k, (n + (1 + (zeros_needed n + 8)) = 64 * k)%nat.
Proof.
  exists (Z.to_nat ((Z.of_nat n + 9 + (55 - Z.of_nat n) mod 64) / 64)). apply Nat2Z.inj.
  rewrite Nat2Z.inj_mul, !Nat2Z.inj_add. unfold zeros_needed.
  rewrite !Z2Nat.id by (Z.to_euclidean_division_equations; lia). Z.to_euclidean_division_equations. lia.
Qed.

(** The message schedule never indexes out of bounds. *)
Lemma schedule_total chunk : length chunk = 64%nat → ∃ w, schedule chunk = Some w ∧ length w = 80%nat.
Proof.
  intros Hl. unfold schedule.
  assert (Hat : ∀ (l : list Z) i, (i < length l)%nat → ∃ x, l !! i = Some x)
    by (intros l i Hi; by apply lookup_lt_is_Some_2).
  destruct (for_each_inv (λ w : list Z, length w = 80%nat)
    (λ i w, v ← word chunk i; Some (<[i := v]> w)) (seq 0 16) (replicate 80 0)) as (w & -> & Hw).
  - by rewrite length_replicate.
  - intros i w [_ Hi]%elem_of_seq Hw. unfold word.
    destruct (Hat chunk (i * 4)%nat) as [b0 ->]; [lia|]. destruct (Hat chunk (i * 4 + 1)%nat) as [b1 ->]; [lia|].
    destruct (Hat chunk (i * 4 + 2)%nat) as [b2 ->]; [lia|]. destruct (Hat chunk (i * 4 + 3)%nat) as [b3 ->]; [lia|].
    simpl. eexists. split; [done|]. by rewrite length_insert.
  - cbn [mbind option_bind]. apply (for_each_inv (λ w : list Z, length w = 80%nat)); [done|].
    intros i w' [Hi0 Hi]%elem_of_seq Hw'.
    destruct (Hat w' (i - 3)%nat) as [b0 ->]; [lia|]. destruct (Hat w' (i - 8)%nat) as [b1 ->]; [lia|].
    destruct (Hat w' (i - 14)%nat) as [b2 ->]; [lia|]. destruct (Hat w' (i - 16)%nat) as [b3 ->]; [lia|].
    simpl. eexists. split; [done|]. by rewrite length_insert.
Qed.

Lemma compress_total chunk h : length chunk = 64%nat → is_Some (compress chunk h).
Proof.
  intros H. unfold compress. destruct (schedule_total chunk H) as (w & -> & _). by eexists.
Qed.

Lemma chunks_exact {A} k n (l : list A) c :
  (0 < k)%nat → length l = (k * n)%nat → c ∈ chunks k l → length c = k.
Proof.
  intros Hk. revert l. induction n as [|n IH]; intros l Hl Hc.
  - destruct l; [by apply elem_of_nil in Hc|simpl in Hl; lia].
  - rewrite chunks_step in Hc; [|done|intros ->; simpl in Hl; nia].
    apply elem_of_cons in Hc as [->|Hc]; [rewrite length_take; nia|].
    apply (IH (drop k l)); [rewrite length_drop; nia|done].
Qed.

Lemma sha1_spec oc input :
  Z.of_nat (length input) * 8 < 2 ^ 64 →
  ∃ d, sha1 oc input = Some d ∧ length d = 20%nat ∧ Forall is_u8 d.
Proof.
  intros Hlen. unfold sha1. rewrite pad_spec by done. cbn [mbind option_bind].
  set (msg := input ++ _). destruct (pad_blocks (length input)) as [k Hk].
  assert (Hmsg : length msg = (64 * k)%nat).
  { rewrite <-Hk. unfold msg. by rewrite !length_app, length_replicate, to_be_bytes_length. }
  destruct (for_each_inv (λ _ : Regs, True) compress (chunks 64 msg) INIT) as (h & -> & _); [done| |].
  { intros c h Hc _. destruct (compress_total c h) as [h' E]; [by eapply chunks_exact, Hc; [lia|]|eauto]. }
  cbn [mbind option_bind]. eexists. split; [done|]. rewrite !length_app, !to_be_bytes_length.
  split; [done|]. rewrite !Forall_app. split_and!; apply to_be_bytes_u8.
Qed.

(** ** Frames *)
(** XOR with the key, from position [i] on. *)
Fixpoint masked (i : nat) (key p : list Z) : list Z :=
  match p with
  | [] => []
  | b :: p' => Z.lxor b (nth (i mod 4) key 0) :: masked (S i) key p'
  end.

Lemma masked_length i key p : length (masked i key p) = length p.
Proof. revert i. induction p as [|b p IH]; intros i; simpl; [done|]. by rewrite IH. Qed.

Lemma masked_involutive i key p : masked i key (masked i key p) = p.
Proof.
  revert i. induction p as [|b p IH]; intros i; cbn [masked]; [done|].
  by rewrite IH, Z.lxor_assoc, Z.lxor_nilpotent, Z.lxor_0_r.
Qed.

Lemma unmask_spec key p : length key = 4%nat → unmask key p = Some (masked 0 key p).
Proof.
  intros Hk. unfold unmask.
  enough (H : ∀ s out, for_each (λ '(i, byte) out, k ← key !! (i mod 4)%nat; Some (out ++ [Z.lxor byte k]))
    (zip (seq s (length p)) p) out = Some (out ++ masked s key p)) by apply H.
  induction p as [|b p IH]; intros s out; cbn [masked length seq zip zip_with for_each];
    [by rewrite app_nil_r|].
  destruct (lookup_lt_is_Some_2 key (s mod 4)) as [x Hx];
    [rewrite Hk; apply Nat.mod_upper_bound; lia|].
  rewrite Hx. cbn [mbind option_bind]. rewrite IH, <-app_assoc.
  by rewrite (nth_lookup_Some _ _ _ _ Hx).
Qed.

(** The bytes of a frame with first byte [h0], as RFC 6455 lays them out. *)
Definition len_field (mask_bit len : Z) : list Z :=
  if len <=? 125 then [mask_bit + len]
  else if len <=? 0xFFFF then (mask_bit + 126) :: to_be_bytes 2 len
  else (mask_bit + 127) :: to_be_bytes 8 len.
Definition wire (h0 : Z) (key : option (list Z)) (p : list Z) : list Z :=
  h0 :: len_field (match key with Some _ => 128 | None => 0 end) (Z.of_nat (length p)) ++
  match key with Some k => k ++ masked 0 k p | None => p end.

Lemma byte_high h : is_u8 h → (Z.land h 0x80 =? 0) = (h <? 128).
Proof.
  intros Hh. apply (byte_enum (λ h, Bool.eqb (Z.land h 0x80 =? 0) (h <? 128))) in Hh; [|by vm_compute].
  by apply Bool.eqb_prop in Hh.
Qed.

Lemma read_len_spec b len r :
  b = 0 ∨ b = 128 → 0 ≤ len < 2 ^ 64 →
  ∃ h1 ext, len_field b len = h1 :: ext ∧ is_u8 h1 ∧ (h1 <? 128) = (b =? 0) ∧
            read_len h1 (ext ++ r) = Some (Ok (len, r)).
Proof.
  intros Hb Hlen. unfold len_field, read_len.
  assert (Hland : ∀ l, 0 ≤ l < 128 → Z.land (b + l) 0x7F = l).
  { intros l Hl. change 127 with (Z.ones 7). rewrite Z.land_ones by done. destruct Hb; subst; int_lia. }
  assert (Hbit : ∀ l, 0 ≤ l < 128 → is_u8 (b + l) ∧ (b + l <? 128) = (b =? 0))
    by (intros l Hl; destruct Hb as [-> | ->]; split; unfold_int; lia).
  destruct (Z.leb_spec len 125); [|destruct (Z.leb_spec len 0xFFFF)].
  - exists (b + len), []. destruct (Hbit len); [lia|]. rewrite Hland by lia. split_and!; [done..|].
    destruct (Z.eqb_spec len 126); [lia|]. by destruct (Z.eqb_spec len 127); [lia|].
  - exists (b + 126), (to_be_bytes 2 len). destruct (Hbit 126); [lia|]. rewrite Hland by lia.
    split_and!; [done..|]. rewrite Z.eqb_refl. erewrite rbind_eq by (apply read_exact_app; by rewrite to_be_bytes_length).
    by rewrite from_to_be_bytes by lia.
  - exists (b + 127), (to_be_bytes 8 len). destruct (Hbit 127); [lia|]. rewrite Hland by lia.
    split_and!; [done..|]. change (127 =? 126) with false. rewrite Z.eqb_refl. cbn iota. erewrite rbind_eq by (apply read_exact_app; by rewrite to_be_bytes_length).
    by rewrite from_to_be_bytes by lia.
Qed.

Lemma read_frame_wire h0 key p rest :
  is_u8 h0 → (∀ k, key = Some k → length k = 4%nat) → Z.of_nat (length p) ≤ ISIZE_MAX →
  read_frame (wire h0 key p ++ rest) =
    Some (Ok (mkFrame (negb (h0 <? 128)) (from_u8 (Z.land h0 0x0F)) p, rest)).
Proof.
  intros H0 Hkey Hlen. pose proof Hlen as Hmax. unfold ISIZE_MAX in Hmax. unfold wire.
  set (b := match key with Some _ => 128 | None => 0 end). set (n := Z.of_nat (length p)) in *.
  set (body := match key with Some k => k ++ masked 0 k p | None => p end).
  destruct (read_len_spec b n (body ++ rest)) as (h1 & ext & E & H1 & Hb & Hr);
    [unfold b; destruct key; auto|lia|].
  rewrite E. unfold read_frame. cbn [app]. rewrite <-app_assoc.
  change (h0 :: h1 :: ext ++ body ++ rest) with ([h0; h1] ++ (ext ++ body ++ rest)).
  erewrite rbind_eq by by apply read_exact_app. cbn [lookup list_lookup].
  do 2 erewrite rbind_eq by reflexivity. cbn zeta. erewrite rbind_eq by exact Hr.
  rewrite !byte_high, Hb by done. unfold read_mask, alloc.
  assert (Hal : or_panic (E := io_error) (if n <=? ISIZE_MAX then Some tt else None) = rret tt)
    by by rewrite (proj2 (Z.leb_le _ _)).
  unfold body, b. destruct key as [k|]; simpl negb; cbn iota.
  - specialize (Hkey k eq_refl). rewrite <-app_assoc.
    erewrite rbind_eq by (erewrite rbind_eq by (apply read_exact_app; by rewrite Hkey); reflexivity).
    rewrite Hal. erewrite rbind_eq by reflexivity.
    erewrite rbind_eq by (apply read_exact_app; by rewrite masked_length).
    rewrite unmask_spec, masked_involutive by done. by erewrite rbind_eq by reflexivity.
  - erewrite rbind_eq by reflexivity. rewrite Hal. erewrite rbind_eq by reflexivity.
    erewrite rbind_eq by by apply read_exact_app. by erewrite rbind_eq by reflexivity.
Qed.

Lemma encode_frame_wire op p :
  Z.of_nat (length p) ≤ ISIZE_MAX → encode_frame op p = wire (Z.lor 0x80 (to_u8 op)) None p.
Proof.
  intros Hlen. unfold ISIZE_MAX in Hlen. unfold encode_frame, wire, len_field. cbn [app]. f_equal. f_equal.
  destruct (Z.leb_spec (Z.of_nat (length p)) 125); [by rewrite wrap8_id by (unfold_int; lia)|].
  destruct (Z.leb_spec (Z.of_nat (length p)) 0xFFFF); [by rewrite wrap16_id by (unfold_int; lia)|].
  unfold wrap64. by rewrite Z.mod_small by lia.
Qed.

(** The opcodes of the protocol: [Other] only for numbers without a name. *)
Definition opcode_ok (op : Opcode) : Prop := 0 ≤ to_u8 op < 16 ∧ from_u8 (to_u8 op) = op.

Lemma opcode_byte op :
  opcode_ok op → let h0 := Z.lor 0x80 (to_u8 op) in
  is_u8 h0 ∧ (h0 <? 128) = false ∧ from_u8 (Z.land h0 0x0F) = op.
Proof.
  intros [Hr Hop]. cbn zeta.
  assert (H : is_u8 (to_u8 op)) by (unfold_int; lia).
  apply (byte_enum (λ b, (16 <=? b) || (negb (Z.lor 0x80 b <? 128) && (Z.lor 0x80 b <? 256) &&
    (Z.land (Z.lor 0x80 b) 0x0F =? b)))) in H; [|by vm_compute].
  destruct (Z.leb_spec 16 (to_u8 op)); [lia|]. cbn [orb] in H.
  apply andb_prop in H as [[H1 H2]%andb_prop H3]. apply Z.eqb_eq in H3. rewrite H3. unfold_int.
  split_and!; [lia|lia|lia|done].
Qed.

Lemma read_frame_stable : stable read_frame.
Proof. unfold read_frame, read_len, read_mask. cbn zeta. solve_stable. Qed.

(** ** Properties *)

(** C20. Frame round trip: a frame the server encodes, of any opcode of the protocol
    and any length, is read back with its payload, and nothing behind it is
    touched; and so is the frame a client sends, masked with any key, whose
    payload is unmasked. *)
Theorem frame_roundtrip op p rest :
  opcode_ok op → Z.of_nat (length p) ≤ ISIZE_MAX →
  read_frame (encode_frame op p ++ rest) = Some (Ok (mkFrame true op p, rest)) ∧
  ∀ key, length key = 4%nat →
    read_frame (wire (Z.lor 0x80 (to_u8 op)) (Some key) p ++ rest) = Some (Ok (mkFrame true op p, rest)).
Proof.
  intros Hop Hlen. destruct (opcode_byte op Hop) as (H0 & Hfin & Eop). split.
  - rewrite encode_frame_wire, read_frame_wire by done. by rewrite Hfin, Eop.
  - intros key Hkey. rewrite read_frame_wire; [by rewrite Hfin, Eop|done| |done]. by intros k [= <-].
Qed.

Lemma frame_roundtrip_witness :
  read_frame (encode_frame Text (repeat 97 300) ++ [1; 2]) = Some (Ok (mkFrame true Text (repeat 97 300), [1; 2])) ∧
  read_frame (wire 0x81 (Some [1; 2; 3; 4]) (lit "hello") ++ []) = Some (Ok (mkFrame true Text (lit "hello"), [])).
Proof.
  split.
  - apply (frame_roundtrip Text (repeat 97 300) [1; 2]); [split; [closed|reflexivity]|vm_compute; discriminate].
  - apply (frame_roundtrip Text (lit "hello") []); [split; [closed|reflexivity]|vm_compute; discriminate|reflexivity].
Defined.

(** Broken streams: a stream that ends inside a frame is an [UnexpectedEof], at
    whatever byte it ends; but a header that announces more than [isize::MAX]
    bytes, which ten bytes from any client can do, is a panic and not an error. *)
Theorem read_frame_errors op p :
  opcode_ok op → Z.of_nat (length p) ≤ ISIZE_MAX →
  (∀ seen lost, encode_frame op p = seen ++ lost → lost ≠ [] →
     read_frame seen = Some (Err UnexpectedEof)) ∧
  (∀ len rest, ISIZE_MAX < len < 2 ^ 64 →
     read_frame ([0x81; 127] ++ to_be_bytes 8 len ++ rest) = None).
Proof.
  intros Hop Hlen. split.
  - intros seen lost E Hlost. pose proof (read_frame_stable seen lost) as H. rewrite <-E in H.
    destruct (opcode_byte op Hop) as (H0 & _ & _).
    assert (Hall : read_frame (encode_frame op p) =
      Some (Ok (mkFrame (negb (Z.lor 0x80 (to_u8 op) <? 128)) (from_u8 (Z.land (Z.lor 0x80 (to_u8 op)) 0x0F)) p, [])))
      by (rewrite <-(app_nil_r (encode_frame op p)), encode_frame_wire by done; by apply read_frame_wire).
    rewrite Hall in H. destruct (read_frame seen) as [[[f r]|e]|]; [|by subst|done].
    injection H as _ H. symmetry in H. by apply app_eq_nil in H as [_ ?].
  - intros len rest Hbig. unfold read_frame. erewrite rbind_eq by by apply read_exact_app.
    cbn [lookup list_lookup]. do 2 erewrite rbind_eq by reflexivity. cbn zeta.
    erewrite rbind_eq.
    2: { unfold read_len. change (Z.land 127 127 =? 126) with false. change (Z.land 127 127 =? 127) with true.
         cbn iota. erewrite rbind_eq by (apply read_exact_app; by rewrite to_be_bytes_length).
         rewrite from_to_be_bytes by lia. reflexivity. }
    erewrite rbind_eq by reflexivity. unfold alloc. by rewrite (proj2 (Z.leb_gt _ _)) by lia.
Qed.

Lemma read_frame_errors_witness :
  read_frame [0x81; 5; 104] = Some (Err UnexpectedEof) ∧
  read_frame ([0x81; 127] ++ to_be_bytes 8 (2 ^ 63) ++ []) = None.
Proof.
  destruct (read_frame_errors Text (lit "hello")) as [H1 H2]; [split; [closed|reflexivity]|vm_compute; discriminate|].
  split; [by apply (H1 _ (lit "ello"))|apply H2; split; vm_compute; reflexivity].
Defined.

(** Base64: [encode] never panics, its output has four characters for every
    three bytes begun, and a decoder of RFC 4648 gives the bytes back. *)
Theorem base64_roundtrip data :
  Forall is_u8 data →
  ∃ s, base64_encode data = Some s ∧ base64_decode s = Some data ∧
       length s = (4 * ((length data + 2) / 3))%nat.
Proof.
  intros H. destruct (base64_spec data [] [] H) as (s & E & D & L). exists s. by split_and!.
Qed.

Lemma base64_roundtrip_witness :
  ∃ s, base64_encode (lit "hello") = Some s ∧ base64_decode s = Some (lit "hello") ∧ length s = 8%nat.
Proof. apply (base64_roundtrip (lit "hello")). closed. Defined.

(** The handshake digest: for any input whose length in bits fits a [u64],
    SHA-1 pads with the one bit, the fewest zero bytes and the length, up to a
    whole number of 64-byte blocks, indexes nothing out of bounds and returns 20
    bytes; [accept_key] then returns 28 characters. *)
Theorem sha1_total oc input :
  Z.of_nat (length input) * 8 < 2 ^ 64 →
  (∃ d, sha1 oc input = Some d ∧ length d = 20%nat ∧ Forall is_u8 d) ∧
  (∃ z k, pad oc input = Some (input ++ [0x80] ++ replicate z 0 ++ to_be_bytes 8 (Z.of_nat (length input) * 8)) ∧
          (length input + 9 + z = 64 * k)%nat ∧ (z < 64)%nat) ∧
  (∀ key, Z.of_nat (length (as_bytes key)) * 8 < 2 ^ 64 - 288 →
     ∃ s, accept_key oc key = Some s ∧ length s = 28%nat).
Proof.
  intros Hlen. split_and!; [by apply sha1_spec| |].
  - destruct (pad_blocks (length input)) as [k Hk]. exists (zeros_needed (length input)), k.
    split_and!; [by apply pad_spec|lia|]. unfold zeros_needed.
    pose proof (Z.mod_pos_bound (55 - Z.of_nat (length input)) 64). lia.
  - intros key Hkey. unfold accept_key.
    destruct (sha1_spec oc (as_bytes key ++ as_bytes WS_GUID)) as (d & -> & Ld & Hd).
    { rewrite length_app. change (length (as_bytes WS_GUID)) with 36%nat. lia. }
    cbn [mbind option_bind]. destruct (base64_spec d [] [] Hd) as (s & E & _ & L).
    exists s. split; [exact E|]. by rewrite L, Ld.
Qed.

(** The example of RFC 6455, section 1.3. *)
Lemma sha1_total_witness :
  (∃ d, sha1 true (lit "abc") = Some d ∧ length d = 20%nat ∧ Forall is_u8 d) ∧
  accept_key true (lit "dGhlIHNhbXBsZSBub25jZQ==") = Some (lit "s3pPLMBiTxaQ9kYGzzhZRbK+xOo=").
Proof.
  split; [|vm_compute; reflexivity].
  refine (proj1 (sha1_total true (lit "abc") _)). vm_compute. reflexivity.
Defined.
