(* ===== verification/HandshakeSpec.v ===== *)
(** * The handshake against its standards

    FIPS 180-4 defines SHA-1 and RFC 4648 base64, both on bit strings.  The reference
    definitions below follow their text; the theorems say that [sha1.rs] and
    [base64.rs], which work on bytes, words and tables, compute the same, and with them
    the value of Sec-WebSocket-Accept that RFC 6455 asks for. *)
From S2P Require Import Prelude RustStr RustUtf8 Bits WebSocket WebSocketProps.

(** ** SHA-1 by FIPS 180-4 *)
Module Fips.
(** Section 2.2.2 and 3.2: words are numbers below 2^32; [ROTL] is a circular shift. *)
Definition plus (x y : Z) : Z := (x + y) mod 2 ^ 32.
Definition ROTL (n : nat) (x : Z) : Z := value (drop n (bits 32 x) ++ take n (bits 32 x)).
Definition complement (x : Z) : Z := 2 ^ 32 - 1 - x.

(** Section 4.1.1 and 4.2.1. *)
Definition Ch (x y z : Z) : Z := Z.lxor (Z.land x y) (Z.land (complement x) z).
Definition Parity (x y z : Z) : Z := Z.lxor (Z.lxor x y) z.
Definition Maj (x y z : Z) : Z := Z.lxor (Z.lxor (Z.land x y) (Z.land x z)) (Z.land y z).
Definition f (t : nat) : Z → Z → Z → Z :=
  if (t <=? 19)%nat then Ch else if (t <=? 39)%nat then Parity else if (t <=? 59)%nat then Maj else Parity.
Definition K (t : nat) : Z :=
  if (t <=? 19)%nat then 0x5a827999 else if (t <=? 39)%nat then 0x6ed9eba1 else if (t <=? 59)%nat then 0x8f1bbcdc else 0xca62c1d6.

(** Section 5.1.1: a one, the smallest number of zeros that reaches 448 modulo 512,
    and the length. *)
Definition zeros (l : Z) : nat := Z.to_nat ((448 - (l + 1)) mod 512).
Definition pad (m : list bool) : list bool :=
  let l := Z.of_nat (length m) in m ++ [true] ++ replicate (zeros l) false ++ bits 64 l.
Lemma zeros_smallest l k : 0 ≤ k → (l + 1 + k) mod 512 = 448 ↔ Z.of_nat (zeros l) ≤ k ∧ (k - Z.of_nat (zeros l)) mod 512 = 0.
Proof.
  intros Hk. unfold zeros. rewrite Z2Nat.id by (apply Z.mod_pos_bound; lia). split; intros; Z.to_euclidean_division_equations; lia.
Qed.

(** Section 6.1.2: the schedule of the words [M] of a block, up to [n] of them, the
    working variables after each [t], and the hash of the blocks so far. *)
Fixpoint W (M : list Z) (n : nat) : list Z :=
  match n with
  | O => []
  | S t =>
      let w := W M t in
      w ++ [if (t <=? 15)%nat then nth t M 0
            else ROTL 1 (Z.lxor (Z.lxor (Z.lxor (nth (t - 3) w 0) (nth (t - 8) w 0)) (nth (t - 14) w 0)) (nth (t - 16) w 0))]
  end.
Definition state : Type := Z * Z * Z * Z * Z.
Definition turn (w : list Z) (s : state) (t : nat) : state :=
  let '(a, b, c, d, e) := s in
  let T := plus (plus (plus (plus (ROTL 5 a) (f t b c d)) e) (K t)) (nth t w 0) in
  (T, a, ROTL 30 b, c, d).
Definition block (h : state) (m : list bool) : state :=
  let '(h0, h1, h2, h3, h4) := h in
  let '(a, b, c, d, e) := foldl (turn (W (List.map value (chunks 32 m)) 80)) h (seq 0 80) in
  (plus a h0, plus b h1, plus c h2, plus d h3, plus e h4).
Definition H0 : state := (0x67452301, 0xefcdab89, 0x98badcfe, 0x10325476, 0xc3d2e1f0).
Definition SHA1 (m : list bool) : list bool :=
  let '(h0, h1, h2, h3, h4) := foldl block H0 (chunks 512 (pad m)) in
  bits 32 h0 ++ bits 32 h1 ++ bits 32 h2 ++ bits 32 h3 ++ bits 32 h4.

(** The one-block and the two-block example of FIPS 180-1. *)
Example SHA1_abc : SHA1 (bytes_bits (lit "abc")) = bits 160 0xa9993e364706816aba3e25717850c26c9cd0d89d.
Proof. vm_compute. reflexivity. Qed.
Example SHA1_two_blocks :
  SHA1 (bytes_bits (lit "abcdbcdecdefdefgefghfghighijhijkijkljklmklmnlmnomnopnopq")) = bits 160 0x84983e441c3bd26ebaae4aa1f95129e5e54670f1.
Proof. vm_compute. reflexivity. Qed.
End Fips.

(** ** Base64 by RFC 4648 *)
Module Rfc4648.
(** Table 1. *)
Definition alphabet (i : Z) : char :=
  if i <? 26 then 65 + i else if i <? 52 then 97 + (i - 26) else if i <? 62 then 48 + (i - 52) else if i =? 62 then 43 else 47.
(** Section 4: groups of six bits, the last filled with zeros on the right; [=] up to a
    whole number of groups of four characters. *)
Definition sextet (g : list bool) : char := alphabet (value (g ++ replicate (6 - length g) false)).
Definition base64 (b : list bool) : str :=
  let s := List.map sextet (chunks 6 b) in s ++ replicate (Z.to_nat (- Z.of_nat (length s) mod 4)) 61.

Example base64_vectors :
  List.map (λ s, base64 (bytes_bits s)) [[]; lit "f"; lit "fo"; lit "foo"; lit "foob"; lit "fooba"; lit "foobar"] =
  [[]; lit "Zg=="; lit "Zm8="; lit "Zm9v"; lit "Zm9vYg=="; lit "Zm9vYmE="; lit "Zm9vYmFy"].
Proof. vm_compute. reflexivity. Qed.
End Rfc4648.

(** ** RFC 6455, section 4.2.2: the constant and the value of Sec-WebSocket-Accept *)
Module Rfc6455.
Definition GUID : list Z := lit "258EAFA5-E914-47DA-95CA-C5AB0DC85B11".
Definition accept (key : list Z) : str := Rfc4648.base64 (Fips.SHA1 (bytes_bits (key ++ GUID))).

(** The example of section 1.3. *)
Example accept_sample : accept (lit "dGhlIHNhbXBsZSBub25jZQ==") = lit "s3pPLMBiTxaQ9kYGzzhZRbK+xOo=".
Proof. vm_compute. reflexivity. Qed.
End Rfc6455.

(** ** Words *)
Lemma rotate_left_fips x k n : is_u32 x → k = Z.of_nat n → (0 < n < 32)%nat → rotate_left x k = Fips.ROTL n x.
Proof.
  intros Hx -> Hn. unfold Fips.ROTL, rotate_left.
  replace (bits 32 x) with (bits (n + (32 - n)) x) by (f_equal; lia). rewrite bits_app.
  rewrite drop_app_length', take_app_length' by (by rewrite bits_length). rewrite value_app, bits_length, !value_bits.
  replace (Z.of_nat (32 - n)) with (32 - Z.of_nat n) by lia. set (k := Z.of_nat n). assert (Hk : 0 < k < 32) by (unfold k; lia). clearbody k. clear Hn.
  rewrite Z.shiftl_mul_pow2, Z.shiftr_div_pow2 by lia.
  assert (Hp : 0 < 2 ^ k) by lia. assert (Hq : 0 < 2 ^ (32 - k)) by lia.
  assert (Hpq : 2 ^ k * 2 ^ (32 - k) = 4294967296) by (rewrite <-Z.pow_add_r by lia; replace (k + (32 - k)) with 32 by lia; done).
  assert (Hd : 0 ≤ x / 2 ^ (32 - k) < 2 ^ k).
  { split; [apply Z.div_pos; unfold_int; lia|]. apply Z.div_lt_upper_bound; [lia|]. unfold_int. nia. }
  rewrite Z.lor_comm, <-(Z.shiftl_mul_pow2 x) by lia. rewrite lor_shiftl_add by lia.
  rewrite (Z.mod_small (x / _)) by done. unfold wrap32. rewrite (Z.mod_eq x) by lia.
  set (q := x / 2 ^ (32 - k)) in *. set (P := 2 ^ k) in *. set (Q := 2 ^ (32 - k)) in *.
  symmetry. apply (Z.mod_unique_pos _ _ q); [|nia].
  pose proof (Z.mod_pos_bound x Q Hq) as Hm. rewrite Z.mod_eq in Hm by lia. fold q in Hm. nia.
Qed.

Lemma not_u32_fips x : is_u32 x → not_u32 x = Fips.complement x.
Proof.
  intros Hx. unfold not_u32, Fips.complement. change 0xFFFFFFFF with (Z.ones 32).
  assert (E : Z.land x (Z.lxor x (Z.ones 32)) = 0).
  { apply Z.bits_inj'. intros i Hi. rewrite Z.land_spec, Z.lxor_spec, Z.bits_0. destruct (Z.lt_ge_cases i 32).
    - rewrite Z.ones_spec_low by lia. by destruct (Z.testbit x i).
    - rewrite (testbit_above 32) by (unfold_int; lia). done. }
  pose proof (Z.add_nocarry_lxor x (Z.lxor x (Z.ones 32)) E) as H.
  rewrite <-Z.lxor_assoc, Z.lxor_nilpotent, Z.lxor_0_l in H. change (Z.ones 32) with (2 ^ 32 - 1) in *. lia.
Qed.

(** Where the code writes [|], the standard writes an exclusive or of the same terms. *)
Lemma choose_fips x y z : is_u32 x → Z.lor (Z.land x y) (Z.land (not_u32 x) z) = Fips.Ch x y z.
Proof.
  intros Hx. unfold Fips.Ch. rewrite <-not_u32_fips by done. unfold not_u32. apply Z.bits_inj'. intros i Hi.
  rewrite Z.lor_spec, !Z.lxor_spec, !Z.land_spec, Z.lxor_spec. change 0xFFFFFFFF with (Z.ones 32). destruct (Z.lt_ge_cases i 32).
  - rewrite Z.ones_spec_low by lia. by destruct (Z.testbit x i), (Z.testbit y i), (Z.testbit z i).
  - rewrite (testbit_above 32 x) by (unfold_int; lia). by destruct (Z.testbit y i), (xorb _ _ && _).
Qed.
Lemma majority_fips x y z : Z.lor (Z.lor (Z.land x y) (Z.land x z)) (Z.land y z) = Fips.Maj x y z.
Proof.
  unfold Fips.Maj. apply Z.bits_inj'. intros i Hi. rewrite !Z.lor_spec, !Z.lxor_spec, !Z.land_spec.
  by destruct (Z.testbit x i), (Z.testbit y i), (Z.testbit z i).
Qed.
Lemma round_f_fips t b c d : is_u32 b → round_f t b c d = (Fips.f t b c d, Fips.K t).
Proof.
  intros Hb. unfold round_f, Fips.f, Fips.K.
  destruct (Nat.ltb_spec t 20), (Nat.leb_spec t 19); try lia; [by rewrite choose_fips|].
  destruct (Nat.ltb_spec t 40), (Nat.leb_spec t 39); try lia; [done|].
  destruct (Nat.ltb_spec t 60), (Nat.leb_spec t 59); try lia; [by rewrite majority_fips|done].
Qed.

(** ** Rounds *)
Definition tuple (r : Regs) : Fips.state := (ra r, rb r, rc r, rd r, re r).
Definition regs_ok (r : Regs) : Prop := is_u32 (ra r) ∧ is_u32 (rb r) ∧ is_u32 (rc r) ∧ is_u32 (rd r) ∧ is_u32 (re r).

Lemma sum_fips a f e k w : wadd (wadd (wadd (wadd a f) e) k) w = Fips.plus (Fips.plus (Fips.plus (Fips.plus a f) e) k) w.
Proof. unfold wadd, wrap32, Fips.plus. change (2 ^ 32) with 4294967296. reflexivity. Qed.
Lemma plus_u32 a b : is_u32 (Fips.plus a b).
Proof. apply (Z.mod_pos_bound (a + b) (2 ^ 32)). done. Qed.
Lemma rotate_left_u32 x n : is_u32 (rotate_left x n).
Proof. apply wrap32_u32. Qed.
Lemma round_fips w r t : regs_ok r → tuple (round r (t, nth t w 0)) = Fips.turn w (tuple r) t ∧ regs_ok (round r (t, nth t w 0)).
Proof.
  intros (Ha & Hb & Hc & Hd & He). unfold round, tuple, Fips.turn. rewrite round_f_fips by done. cbn [ra rb rc rd re].
  rewrite (rotate_left_fips (ra r) 5 5 Ha eq_refl), (rotate_left_fips (rb r) 30 30 Hb eq_refl) by lia. rewrite sum_fips.
  split; [reflexivity|].
  split_and!; cbn [ra rb rc rd re]; [apply plus_u32|done| |done..]. rewrite <-(rotate_left_fips (rb r) 30 30 Hb eq_refl) by lia. apply rotate_left_u32.
Qed.
Lemma rounds_fips w ts r : regs_ok r →
  tuple (foldl round r (List.map (λ t, (t, nth t w 0)) ts)) = foldl (Fips.turn w) (tuple r) ts ∧
  regs_ok (foldl round r (List.map (λ t, (t, nth t w 0)) ts)).
Proof.
  revert r. induction ts as [|t ts IH]; intros r Hr; [done|]. cbn [List.map foldl].
  destruct (round_fips w r t Hr) as [<- Hr']. by apply IH.
Qed.
Lemma indexed w : zip (seq 0 (length w)) w = List.map (λ t, (t, nth t w 0)) (seq 0 (length w)).
Proof.
  induction w as [|v w IH] using rev_ind; [done|]. rewrite length_app. simpl (length [v]). rewrite seq_app, zip_with_app by by rewrite length_seq.
  rewrite map_app, IH. cbn [seq zip List.map Nat.add zip_with]. f_equal.
  - apply map_ext_in. intros t Ht%in_seq. by rewrite app_nth1 by lia.
  - by rewrite app_nth2, Nat.sub_diag by lia.
Qed.

(** ** The schedule *)
Lemma W_length M n : length (Fips.W M n) = n.
Proof. induction n as [|n IH]; [done|]. cbn [Fips.W]. rewrite length_app, IH. simpl. lia. Qed.
Lemma W_prefix M t n : (t < n)%nat → nth t (Fips.W M n) 0 = nth t (Fips.W M (S t)) 0.
Proof.
  induction n as [|n IH]; intros Ht; [lia|]. destruct (decide (t = n)) as [->|]; [done|].
  rewrite <-IH by lia. cbn [Fips.W]. by rewrite app_nth1 by (rewrite W_length; lia).
Qed.
Lemma W_S M t : Fips.W M (S t) = Fips.W M t ++ [if (t <=? 15)%nat then nth t M 0
  else Fips.ROTL 1 (Z.lxor (Z.lxor (Z.lxor (nth (t - 3) (Fips.W M t) 0) (nth (t - 8) (Fips.W M t) 0))
         (nth (t - 14) (Fips.W M t) 0)) (nth (t - 16) (Fips.W M t) 0))].
Proof. done. Qed.
(** The words of the full schedule, by the recurrence of the standard. *)
Lemma W_step M t : (t < 80)%nat → nth t (Fips.W M 80) 0 =
  if (t <=? 15)%nat then nth t M 0
  else Fips.ROTL 1 (Z.lxor (Z.lxor (Z.lxor (nth (t - 3) (Fips.W M 80) 0) (nth (t - 8) (Fips.W M 80) 0))
         (nth (t - 14) (Fips.W M 80) 0)) (nth (t - 16) (Fips.W M 80) 0)).
Proof.
  intros Ht. rewrite (W_prefix M t 80) by done. rewrite (W_S M t), app_nth2, W_length, Nat.sub_diag by (rewrite W_length; lia). cbn [nth].
  destruct (Nat.leb_spec t 15); [done|].
  rewrite !(W_prefix M (t - 3) t), !(W_prefix M (t - 8) t), !(W_prefix M (t - 14) t), !(W_prefix M (t - 16) t) by lia.
  by rewrite !(W_prefix M (t - 3) 80), !(W_prefix M (t - 8) 80), !(W_prefix M (t - 14) 80), !(W_prefix M (t - 16) 80) by lia.
Qed.

Lemma lxor_u32 a b : is_u32 a → is_u32 b → is_u32 (Z.lxor a b).
Proof. unfold is_u32. change 4294967296 with (2 ^ 32). intros Ha Hb. by apply lxor_bound. Qed.

Section schedule.
Context (chunk : list Z) (Hu : Forall is_u8 chunk) (Hl : length chunk = 64%nat).
Let M : list Z := List.map value (chunks 32 (bytes_bits chunk)).

Lemma word_fips i : (i < 16)%nat → word chunk i = Some (nth i M 0) ∧ is_u32 (nth i M 0).
Proof using All.
  intros Hi. unfold M. change 32%nat with (8 * 4)%nat. rewrite bytes_bits_chunks by lia. rewrite map_map.
  assert (Hc : chunks 4 chunk !! i = Some (take 4 (drop (4 * i) chunk))) by (apply (chunks_lookup 4 chunk 16); [lia|done|done]).
  rewrite (nth_lookup _ _ 0). change (List.map ?f ?l) with (f <$> l). rewrite list_lookup_fmap, Hc. cbn [fmap option_fmap option_map default].
  assert (Hw : ∃ b0 b1 b2 b3, take 4 (drop (4 * i) chunk) = [b0; b1; b2; b3] ∧ chunk !! (i * 4)%nat = Some b0 ∧
    chunk !! (i * 4 + 1)%nat = Some b1 ∧ chunk !! (i * 4 + 2)%nat = Some b2 ∧ chunk !! (i * 4 + 3)%nat = Some b3 ∧ Forall is_u8 [b0; b1; b2; b3]).
  { assert (Hd : length (drop (4 * i) chunk) = (64 - 4 * i)%nat) by (rewrite length_drop; lia).
    assert (Hv : Forall is_u8 (drop (4 * i) chunk)) by by apply Forall_drop.
    assert (Hat : ∀ j, chunk !! (i * 4 + j)%nat = drop (4 * i) chunk !! j) by (intros j; rewrite lookup_drop; f_equal; lia).
    pose proof (Hat 0%nat) as A0. pose proof (Hat 1%nat) as A1. pose proof (Hat 2%nat) as A2. pose proof (Hat 3%nat) as A3.
    rewrite Nat.add_0_r in A0. clear Hat.
    destruct (drop (4 * i) chunk) as [|b0 [|b1 [|b2 [|b3 r]]]]; try (simpl in Hd; lia).
    exists b0, b1, b2, b3. split_and!; [done..|]. by apply (Forall_take is_u8 4) in Hv. }
  destruct Hw as (b0 & b1 & b2 & b3 & -> & E0 & E1 & E2 & E3 & Hb). unfold word. rewrite E0, E1, E2, E3. cbn [mbind option_bind].
  rewrite value_bytes_bits by done. split; [done|]. inversion_clear Hb as [|? ? B0 Hb1]. inversion_clear Hb1 as [|? ? B1 Hb2].
  inversion_clear Hb2 as [|? ? B2 Hb3]. inversion_clear Hb3 as [|? ? B3 _]. unfold from_be_bytes. simpl. unfold_int. lia.
Qed.

Lemma W_u32 t : (t < 80)%nat → is_u32 (nth t (Fips.W M 80) 0).
Proof using All.
  induction t as [t IH] using lt_wf_ind. intros Ht. rewrite W_step by done. destruct (Nat.leb_spec t 15).
  - by apply word_fips; lia.
  - rewrite <-(rotate_left_fips _ 1 1) by (try lia; repeat apply lxor_u32; apply IH; lia). apply rotate_left_u32.
Qed.

Lemma schedule_fips : schedule chunk = Some (Fips.W M 80).
Proof using All.
  set (agrees k (w : list Z) := length w = 80%nat ∧ ∀ j, (j < k)%nat → w !! j = Some (nth j (Fips.W M 80) 0)).
  assert (Hset : ∀ k w v, (k < 80)%nat → agrees k w → v = nth k (Fips.W M 80) 0 → agrees (1 + k)%nat (<[k := v]> w)).
  { intros k w v Hk [Hw Hj] ->. split; [by rewrite length_insert|]. intros j Hlt. destruct (decide (j = k)) as [->|].
    - apply list_lookup_insert_eq. lia.
    - rewrite list_lookup_insert_ne by done. apply Hj. lia. }
  unfold schedule. destruct (for_each_seq agrees (λ i w, v ← word chunk i; Some (<[i := v]> w)) 0 16 (replicate 80 0)) as (w & -> & Hw).
  - split; [done|]. intros j Hj. lia.
  - intros k w Hk Hw. destruct (word_fips k) as [-> _]; [lia|]. cbn [mbind option_bind]. eexists. split; [done|].
    apply Hset; [lia|done|]. rewrite W_step by lia. by destruct (Nat.leb_spec k 15); [|lia].
  - cbn [mbind option_bind]. change (0 + 16)%nat with 16%nat in Hw. match goal with |- for_each ?g _ _ = _ => destruct (for_each_seq agrees g 16 64 w Hw) as (w' & -> & Hw2 & Hj) end.
    + intros k w1 Hk Hw1. pose proof (proj2 Hw1) as Hj. rewrite !Hj by lia. cbn [mbind option_bind]. eexists. split; [done|].
      apply Hset; [lia|done|]. rewrite (W_step M k) by lia. destruct (Nat.leb_spec k 15); [lia|].
      apply rotate_left_fips; [repeat apply lxor_u32; apply W_u32; lia|done|lia].
    + f_equal. apply (nth_ext _ _ 0 0); [by rewrite Hw2, W_length|]. intros j Hlt. rewrite (nth_lookup w'), Hj by lia. done.
Qed.
End schedule.

(** ** Blocks and the digest *)
Lemma compress_fips chunk h : Forall is_u8 chunk → length chunk = 64%nat → regs_ok h →
  ∃ h', compress chunk h = Some h' ∧ tuple h' = Fips.block (tuple h) (bytes_bits chunk) ∧ regs_ok h'.
Proof.
  intros Hu Hl Hh. unfold compress. rewrite (schedule_fips chunk Hu Hl). cbn [mbind option_bind]. rewrite indexed, W_length.
  set (w := Fips.W _ 80). destruct (rounds_fips w (seq 0 80) h Hh) as [E Hr]. set (r := foldl round _ _) in *. clearbody r.
  eexists. split; [done|]. split; [|split_and!; apply wrap32_u32].
  unfold Fips.block, tuple at 2. fold w. fold (tuple h). rewrite <-E. unfold tuple. cbn [ra rb rc rd re].
  unfold wadd, wrap32, Fips.plus. change (2 ^ 32) with 4294967296. repeat (f_equal; [|f_equal; lia]). f_equal. lia.
Qed.

Lemma blocks_fips cs h : Forall (λ c, Forall is_u8 c ∧ length c = 64%nat) cs → regs_ok h →
  ∃ h', for_each compress cs h = Some h' ∧ tuple h' = foldl Fips.block (tuple h) (List.map bytes_bits cs).
Proof.
  intros Hc. revert h. induction Hc as [|c cs [Hu Hl] Hcs IH]; intros h Hh; [by exists h|]. cbn [for_each List.map foldl].
  destruct (compress_fips c h Hu Hl Hh) as (h1 & -> & <- & Hh1). cbn [mbind option_bind]. by apply IH.
Qed.

Lemma pad_fips input : Z.of_nat (length input) * 8 < 2 ^ 64 →
  bytes_bits (input ++ [0x80] ++ replicate (zeros_needed (length input)) 0 ++ to_be_bytes 8 (Z.of_nat (length input) * 8)) =
  Fips.pad (bytes_bits input).
Proof.
  intros Hl. unfold Fips.pad. rewrite !bytes_bits_app, bytes_bits_length, bytes_bits_zeros, to_be_bytes_bits.
  replace (Z.of_nat (8 * length input)) with (Z.of_nat (length input) * 8) by lia. f_equal.
  change (bytes_bits [0x80]) with ([true] ++ replicate 7 false). rewrite <-app_assoc. f_equal. rewrite app_assoc, <-replicate_add. do 2 f_equal.
  unfold Fips.zeros, zeros_needed. apply Nat2Z.inj. rewrite Nat2Z.inj_add, Nat2Z.inj_mul, !Z2Nat.id by (apply Z.mod_pos_bound; lia).
  Z.to_euclidean_division_equations. lia.
Qed.

Lemma chunks_forall {A} (P : A → Prop) k l : (0 < k)%nat → Forall P l → Forall (Forall P) (chunks k l).
Proof.
  intros Hk. remember (length l) as n eqn:En. revert l En. induction n as [n IH] using lt_wf_ind. intros l -> Hl.
  destruct l as [|a l]; [constructor|]. rewrite chunks_step by done. constructor; [by apply Forall_take|].
  eapply IH; [|done|by apply Forall_drop]. rewrite length_drop. simpl. lia.
Qed.

Lemma sha1_bits oc input : Forall is_u8 input → Z.of_nat (length input) * 8 < 2 ^ 64 →
  ∃ d, sha1 oc input = Some d ∧ Forall is_u8 d ∧ length d = 20%nat ∧ bytes_bits d = Fips.SHA1 (bytes_bits input).
Proof.
  intros Hu Hl. unfold sha1. rewrite pad_spec by done. cbn [mbind option_bind]. pose proof (pad_fips input Hl) as Hp.
  set (msg := input ++ _) in *. destruct (pad_blocks (length input)) as [k Hk].
  assert (Hm : length msg = (64 * k)%nat) by (rewrite <-Hk; unfold msg; by rewrite !length_app, length_replicate, to_be_bytes_length).
  assert (Hmu : Forall is_u8 msg).
  { unfold msg. rewrite !Forall_app. split_and!; [done|by repeat constructor|apply Forall_replicate; closed|apply to_be_bytes_u8]. }
  destruct (blocks_fips (chunks 64 msg) INIT) as (h & -> & E).
  - apply Forall_forall. intros c Hc. pose proof (chunks_forall is_u8 64 msg ltac:(lia) Hmu) as Hf. rewrite Forall_forall in Hf.
    split; [by apply Hf|]. by eapply chunks_exact, Hc; [lia|].
  - split_and!; closed.
  - cbn [mbind option_bind]. eexists. split; [done|]. split; [rewrite !Forall_app; split_and!; apply to_be_bytes_u8|].
    split; [by rewrite !length_app, !to_be_bytes_length|]. rewrite !bytes_bits_app, !to_be_bytes_bits. unfold Fips.SHA1.
    rewrite <-Hp. change 512%nat with (8 * 64)%nat. rewrite bytes_bits_chunks by lia. change Fips.H0 with (tuple INIT). rewrite <-E.
    unfold tuple. reflexivity.
Qed.

(** ** Base64 *)
Lemma TABLE_rfc i : 0 ≤ i < 64 → TABLE !! Z.to_nat i = Some (Rfc4648.alphabet i).
Proof.
  intros Hi. assert (H : forallb (λ i, bool_decide (TABLE !! Z.to_nat i = Some (Rfc4648.alphabet i))) (seqZ 0 64) = true) by (vm_compute; done).
  rewrite forallb_forall in H. apply (bool_decide_eq_true_1 _), H, list_elem_of_In, elem_of_seqZ. lia.
Qed.

(** Six bits across the boundary of two bytes. *)
Lemma bits_join n m a b : 0 ≤ b < 2 ^ Z.of_nat m → bits n a ++ bits m b = bits (n + m) (a * 2 ^ Z.of_nat m + b).
Proof.
  intros Hb. rewrite bits_app. f_equal.
  - f_equal. rewrite Z.div_add_l by lia. rewrite Z.div_small by lia. lia.
  - rewrite <-(bits_mod m m (_ + b)) by lia. f_equal. rewrite Z.add_comm, Z.mod_add by lia. symmetry. by apply Z.mod_small.
Qed.

Lemma sextet_bits n z i : (n ≤ 6)%nat → i = z mod 2 ^ Z.of_nat n * 2 ^ Z.of_nat (6 - n) → Rfc4648.sextet (bits n z) = Rfc4648.alphabet i.
Proof.
  intros Hn ->. unfold Rfc4648.sextet. rewrite bits_length, value_app, value_bits, length_replicate.
  rewrite <-bits_0, value_bits, Z.mod_0_l by (apply Z.pow_nonzero; lia). by rewrite Z.add_0_r.
Qed.

(** The groups of six of one, two and three bytes. *)
Lemma byte_bits b : is_u8 b → bits 8 b = bits 6 (b / 4) ++ bits 2 (b mod 4).
Proof. intros Hb. rewrite (bits_app 6 2). f_equal. by rewrite (bits_mod 2 2). Qed.
Lemma byte_bits_4 b : is_u8 b → bits 8 b = bits 4 (b / 16) ++ bits 4 (b mod 16).
Proof. intros Hb. rewrite (bits_app 4 4). f_equal. by rewrite (bits_mod 4 4). Qed.
Lemma byte_bits_2 b : is_u8 b → bits 8 b = bits 2 (b / 64) ++ bits 6 (b mod 64).
Proof. intros Hb. rewrite (bits_app 2 6). f_equal. by rewrite (bits_mod 6 6). Qed.

Lemma two_bytes b0 b1 : is_u8 b0 → is_u8 b1 →
  bits 8 b0 ++ bits 8 b1 = bits 6 (b0 / 4) ++ bits 6 (b0 mod 4 * 16 + b1 / 16) ++ bits 4 (b1 mod 16).
Proof.
  intros H0 H1. rewrite byte_bits, byte_bits_4 by done. rewrite <-app_assoc. f_equal. rewrite app_assoc. f_equal.
  apply (bits_join 2 4). int_lia.
Qed.
Lemma three_bytes b0 b1 b2 : is_u8 b0 → is_u8 b1 → is_u8 b2 → bits 8 b0 ++ bits 8 b1 ++ bits 8 b2 =
  bits 6 (b0 / 4) ++ bits 6 (b0 mod 4 * 16 + b1 / 16) ++ bits 6 (b1 mod 16 * 4 + b2 / 64) ++ bits 6 (b2 mod 64).
Proof.
  intros H0 H1 H2. rewrite app_assoc, two_bytes, byte_bits_2 by done. rewrite <-!app_assoc. do 2 f_equal. rewrite app_assoc. f_equal.
  apply (bits_join 4 2). int_lia.
Qed.

Lemma chunks_bits_6 z rest : chunks 6 (bits 6 z ++ rest) = bits 6 z :: chunks 6 rest.
Proof. apply chunks_cons; [lia|apply bits_length]. Qed.

Definition groups (chunk : list Z) : list (list bool) := chunks 6 (bytes_bits chunk).
Lemma encode_chunk_rfc chunk : Forall is_u8 chunk → (1 ≤ length chunk ≤ 3)%nat →
  encode_chunk chunk = Some (Rfc4648.base64 (bytes_bits chunk)) ∧ length (groups chunk) = S (length chunk).
Proof.
  intros Hu Hlen. unfold groups, Rfc4648.base64. unfold bytes_bits. destruct chunk as [|b0 r]; [simpl in Hlen; lia|]. inversion_clear Hu as [|? ? H0 Hr].
  assert (Hsix : ∀ z, 0 ≤ z < 64 → Rfc4648.sextet (bits 6 z) = Rfc4648.alphabet z).
  { intros z Hz. apply sextet_bits; [lia|]. rewrite Z.mod_small by done. simpl. lia. }
  unfold encode_chunk. cbn [lookup list_lookup mbind option_bind flat_map nth].
  destruct r as [|b1 [|b2 [|b3 r]]]; [..|simpl in Hlen; lia]; cbn [flat_map nth length Z.of_nat].
  - destruct (sextets b0 0 0 H0 ltac:(closed) ltac:(closed)) as (-> & -> & _ & _). rewrite app_nil_r, byte_bits, chunks_bits_6 by done.
    change (1 <? Z.of_nat 1) with false. change (2 <? Z.of_nat 1) with false. cbv iota.
    change (chunks 6 (bits 2 (b0 mod 4))) with [bits 2 (b0 mod 4)]. rewrite !TABLE_rfc by int_lia. cbn [List.map length mbind option_bind].
    rewrite Hsix, (sextet_bits 2 _ (b0 mod 4 * 16 + 0 / 16)) by (change (2 ^ Z.of_nat 2) with 4; change (2 ^ Z.of_nat (6 - 2)) with 16; int_lia).
    split; reflexivity.
  - inversion_clear Hr as [|? ? H1 _]. destruct (sextets b0 b1 0 H0 H1 ltac:(closed)) as (-> & -> & -> & _).
    change (1 <? Z.of_nat 2) with true. change (2 <? Z.of_nat 2) with false. cbv iota.
    rewrite app_nil_r, two_bytes, !chunks_bits_6 by done. change (chunks 6 (bits 4 (b1 mod 16))) with [bits 4 (b1 mod 16)].
    rewrite !TABLE_rfc by int_lia. cbn [List.map length mbind option_bind].
    rewrite !Hsix, (sextet_bits 4 _ (b1 mod 16 * 4 + 0 / 64)) by (change (2 ^ Z.of_nat 4) with 16; change (2 ^ Z.of_nat (6 - 4)) with 4; int_lia).
    split; reflexivity.
  - inversion_clear Hr as [|? ? H1 Hr2]. inversion_clear Hr2 as [|? ? H2 _]. destruct (sextets b0 b1 b2 H0 H1 H2) as (-> & -> & -> & ->).
    change (1 <? Z.of_nat 3) with true. change (2 <? Z.of_nat 3) with true. cbv iota.
    rewrite (app_nil_r (bits 8 b2)), three_bytes by done. rewrite <-(app_nil_r (bits 6 (b2 mod 64))), !chunks_bits_6.
    rewrite !TABLE_rfc by int_lia. cbn [List.map length mbind option_bind chunks chunks_fuel]. rewrite !Hsix by int_lia. split; reflexivity.
Qed.

(** Three bytes make whole characters: the rest is encoded by itself. *)
Lemma base64_app chunk rest : Forall is_u8 chunk → length chunk = 3%nat →
  Rfc4648.base64 (bytes_bits (chunk ++ rest)) = Rfc4648.base64 (bytes_bits chunk) ++ Rfc4648.base64 (bytes_bits rest).
Proof.
  intros Hu Hl. destruct chunk as [|b0 [|b1 [|b2 [|]]]]; try done. inversion_clear Hu as [|? ? H0 Hr]. inversion_clear Hr as [|? ? H1 Hr2].
  inversion_clear Hr2 as [|? ? H2 _]. assert (E : ∀ r, bytes_bits ([b0; b1; b2] ++ r) = bits 6 (b0 / 4) ++ bits 6 (b0 mod 4 * 16 + b1 / 16) ++
    bits 6 (b1 mod 16 * 4 + b2 / 64) ++ bits 6 (b2 mod 64) ++ bytes_bits r).
  { intros r. rewrite bytes_bits_app. unfold bytes_bits at 1. cbn [flat_map]. rewrite app_nil_r, three_bytes by done. by rewrite <-!app_assoc. }
  rewrite E. rewrite <-(app_nil_r [b0; b1; b2]), E. unfold Rfc4648.base64. rewrite !chunks_bits_6. change (bytes_bits []) with (@nil bool).
  cbv zeta. change (chunks 6 (@nil bool)) with (@nil (list bool)). rewrite !map_cons. cbn [List.map length app]. change (Z.to_nat (- Z.of_nat 4 mod 4)) with 0%nat.
  cbn [replicate app]. rewrite !Nat2Z.inj_succ. do 7 f_equal. Z.to_euclidean_division_equations. lia.
Qed.

Lemma base64_rfc data : Forall is_u8 data → base64_encode data = Some (Rfc4648.base64 (bytes_bits data)).
Proof.
  unfold base64_encode. intros Hu. change (Rfc4648.base64 (bytes_bits data)) with ([] ++ Rfc4648.base64 (bytes_bits data)). generalize (@nil char) as out.
  remember (length data) as n eqn:En. revert data En Hu. induction n as [n IH] using lt_wf_ind. intros data -> Hu out.
  destruct (decide (data = [])) as [->|Hne]; [by rewrite app_nil_r|]. assert (Hpos : (0 < length data)%nat) by (destruct data; simpl; [done|lia]).
  rewrite chunks_step by (done || lia). cbn [for_each].
  destruct (encode_chunk_rfc (take 3 data)) as [-> _]; [by apply Forall_take|rewrite length_take; lia|]. cbn [mbind option_bind].
  destruct (decide (length data ≤ 3)%nat) as [Hle|Hgt].
  - rewrite take_ge, drop_ge by lia. done.
  - rewrite (IH (length (drop 3 data))); [|rewrite length_drop; lia|done|by apply Forall_drop]. rewrite <-app_assoc. do 2 f_equal.
    rewrite <-base64_app by (by apply Forall_take || (rewrite length_take; lia)). by rewrite take_drop.
Qed.

(** ** Properties *)

(** C18. [sha1] is SHA-1: for every input whose length in bits fits 64 bits, the digest
    of [sha1.rs], as bits, is what FIPS 180-4 defines on the bits of the input.  A
    longer input panics or is hashed with a wrapped length, by the build. *)
Theorem sha1_fips oc input : Forall is_u8 input → Z.of_nat (length input) * 8 < 2 ^ 64 →
  ∃ d, sha1 oc input = Some d ∧ Forall is_u8 d ∧ bytes_bits d = Fips.SHA1 (bytes_bits input).
Proof. intros Hu Hl. destruct (sha1_bits oc input Hu Hl) as (d & E & Hd & _ & Hb). by exists d. Qed.

Lemma sha1_fips_witness : ∃ d, sha1 true (lit "abc") = Some d ∧ bytes_bits d = bits 160 0xa9993e364706816aba3e25717850c26c9cd0d89d.
Proof.
  destruct (sha1_fips true (lit "abc")) as (d & E & _ & Hd); [closed|vm_compute; reflexivity|]. exists d. split; [exact E|].
  rewrite Hd. apply Fips.SHA1_abc.
Defined.

(** C19. The handshake answers as RFC 6455 asks: for every key whose request fits 64 bits
    [accept_key] returns, and returns the base64 of RFC 4648, defined on bit strings, of
    the SHA-1 of FIPS 180-4 of the bytes of the key followed by the GUID. *)
Theorem accept_key_rfc oc key : Z.of_nat (length (as_bytes key)) * 8 < 2 ^ 64 - 288 → forallb is_scalar key = true →
  accept_key oc key = Some (Rfc6455.accept (as_bytes key)).
Proof.
  intros Hk Hs. unfold accept_key, Rfc6455.accept. change Rfc6455.GUID with (as_bytes WS_GUID).
  destruct (sha1_bits oc (as_bytes key ++ as_bytes WS_GUID)) as (d & -> & Hd & _ & <-).
  - rewrite Forall_app. split; [by apply as_bytes_bytes|apply as_bytes_bytes; vm_compute; reflexivity].
  - rewrite length_app. change (length (as_bytes WS_GUID)) with 36%nat. lia.
  - cbn [mbind option_bind]. by apply base64_rfc.
Qed.

Lemma accept_key_rfc_witness :
  accept_key true (lit "dGhlIHNhbXBsZSBub25jZQ==") = Some (Rfc6455.accept (as_bytes (lit "dGhlIHNhbXBsZSBub25jZQ=="))) ∧
  Rfc6455.accept (as_bytes (lit "dGhlIHNhbXBsZSBub25jZQ==")) = lit "s3pPLMBiTxaQ9kYGzzhZRbK+xOo=".
Proof. split; [apply accept_key_rfc|]; vm_compute; reflexivity. Defined.
