(* ===== verification/ChatServer.v ===== *)
(** * The chat service ([2026-09-05-rust-websocket-chat/src/server.rs])

    One thread per client, a registry of write handles behind a mutex, and the
    broadcast.  The threads interleave: a step of the server is one action of one
    thread, between which the others may act.  An action is a blocking read
    together with what the code does up to the next write or lock, one [write] of a
    [write_all], which takes as many bytes as the network likes, or what the code does
    with the lock at once.  A broadcast holds the lock and writes to one peer after the
    other, in many actions; a pong is written without the lock, so its bytes and those of
    a broadcast to the same socket can mix.

    A connection carries all bytes its client will ever send ([unread]) and the
    bytes its socket has taken ([sent]).  Whether a write fails, and how many bytes one
    takes, is up to the network: it is an argument of the step. *)
From S2P Require Import Prelude RustStr RustUtf8 WebSocket WebSocketProps.

(** ** The handshake *)
Fixpoint read_request (fuel : nat) (request : str) : reading io_error str :=
  match fuel with
  | O => λ _, None
  | S fuel =>
      let! line := read_line in
      if bool_decide (line = []) then rfail UnexpectedEof
      else if bool_decide (line = [CR; LF]) || bool_decide (line = [LF]) then rret request
      else read_request fuel (request ++ line)
  end.

(** A line has at least one byte: one turn per byte, and one for the end, are
    enough. *)
Definition read_handshake_key : reading io_error str := λ r,
  (let! request := read_request (S (length r)) [] in
   match parse_websocket_key request with Some key => rret key | None => rfail InvalidData end) r.

Definition handshake_response (accept : str) : str :=
  lit "HTTP/1.1 101 Switching Protocols" ++ crlf ++ lit "Upgrade: websocket" ++ crlf ++
  lit "Connection: Upgrade" ++ crlf ++ lit "Sec-WebSocket-Accept: " ++ accept ++ crlf ++ crlf.

(** ** The server *)
(** Where the thread of a client is: before the handshake; with the response written; in
    the loop, before it reads a frame, with the rest of a pong to write, with a text that
    waits for the lock, or in [broadcast] with the lock; out of [handle_client]; done;
    unwound by a panic. *)
Inductive Phase : Set :=
| Handshaking | Answered | Chatting | Ponging (rest : list Z) | Speaking (data : list Z) | Broadcasting
| Leaving | Gone | Panicked.
#[export] Instance Phase_eq_dec : EqDecision Phase.
Proof. solve_decision. Defined.

Record Conn : Type := mkConn { phase : Phase; unread : list Z; sent : list Z }.

(** The registry's lock while [broadcast] holds it: by whom, the text, the socket that is
    being written to and what it has yet to take, the peers to come, and those whose
    write has failed. *)
Record Lock : Type := mkLock {
  holder : Z; said : list Z; current : option (Z * list Z); todo : gset Z; dead : gset Z }.
Definition frame_of (l : Lock) : list Z := encode_frame Text (said l).

Record Server : Type := mkServer { conns : gmap Z Conn; clients : gset Z; next_id : Z; lock : option Lock }.

Definition with_phase (p : Phase) (c : Conn) : Conn := mkConn p (unread c) (sent c).
Definition take_bytes (data : list Z) (c : Conn) : Conn := mkConn (phase c) (unread c) (sent c ++ data).
Definition set_conn (i : Z) (c : Conn) (s : Server) : Server := mkServer (<[i := c]> (conns s)) (clients s) (next_id s) (lock s).
Definition set_lock (l : option Lock) (s : Server) : Server := mkServer (conns s) (clients s) (next_id s) l.
Definition set_clients (cl : gset Z) (s : Server) : Server := mkServer (conns s) cl (next_id s) (lock s).

Definition serve_init : Server := mkServer ∅ ∅ 1 None.

(** The outcome of writing the response, to which no other thread writes: done, or failed
    after some of the bytes.  [Failed 0] is also a [try_clone] before it that fails. *)
Inductive outcome : Set := Written | Failed (n : nat).
Definition taken (o : outcome) (data : list Z) : list Z :=
  match o with Written => data | Failed n => take n data end.
Definition succeeded (o : outcome) : bool := match o with Written => true | Failed _ => false end.

(** The accept loop: a stream and its id, and a thread. *)
Definition accept (input : list Z) (s : Server) : Server :=
  mkServer (<[next_id s := mkConn Handshaking input []]> (conns s)) (clients s) (wrap64 (next_id s + 1)) (lock s).

Section server.
Context (oc : bool).

(** [handle_client] up to the response. *)
Definition handshake (o : outcome) (c : Conn) : Conn :=
  match read_handshake_key (unread c) with
  | None => with_phase Panicked c
  | Some (Err _) => with_phase Leaving c
  | Some (Ok (key, rest)) =>
      let c := mkConn (phase c) rest (sent c) in
      match accept_key oc key with
      | None => with_phase Panicked c
      | Some acc =>
          with_phase (if succeeded o then Answered else Leaving) (take_bytes (taken o (as_bytes (handshake_response acc))) c)
      end
  end.
End server.

(** One turn of the loop of [handle_client], up to the first write or lock. *)
Definition turn (c : Conn) : Conn :=
  match read_frame (unread c) with
  | None => with_phase Panicked c
  | Some (Err _) => with_phase Leaving c
  | Some (Ok (frame, rest)) =>
      let c := mkConn (phase c) rest (sent c) in
      match opcode frame with
      | Text => with_phase (Speaking (payload frame)) c
      | Ping => with_phase (Ponging (encode_frame Pong (payload frame))) c
      | Close => with_phase Leaving c
      | _ => c
      end
  end.

(** One [write] of a [write_all]: the socket takes [n] of the bytes, and what is left. *)
Definition write_some (n : nat) (rest : list Z) : option (list Z * list Z) :=
  if (0 <? n)%nat && (n <=? length rest)%nat then Some (take n rest, drop n rest) else None.

(** A broadcast, for the statements: who sent what, and whom it reached. *)
Record Bcast : Type := mkBcast { sender : Z; text : list Z; reached : gset Z }.

(** [broadcast]: with the lock, and the frame encoded; *)
Definition acquire (i : Z) (data : list Z) (s : Server) : Server :=
  set_lock (Some (mkLock i data None (clients s ∖ {[i]}) ∅)) s.
(** the next peer of the iteration, which is in no particular order; *)
Definition start_peer (cid : Z) (l : Lock) : option Lock :=
  match current l with
  | None => if bool_decide (cid ∈ todo l) then Some (mkLock (holder l) (said l) (Some (cid, frame_of l)) (todo l ∖ {[cid]}) (dead l)) else None
  | Some _ => None
  end.
(** a write to it that takes some of the bytes, or fails; *)
Definition write_peer (cid : Z) (rest : list Z) (l : Lock) : Lock :=
  mkLock (holder l) (said l) (match rest with [] => None | _ => Some (cid, rest) end) (todo l) (dead l).
Definition fail_peer (cid : Z) (l : Lock) : Lock := mkLock (holder l) (said l) None (todo l) ({[cid]} ∪ dead l).
(** and at the end the dead are removed and the lock is given back. *)
Definition release (l : Lock) (s : Server) : Server * list Bcast :=
  (set_lock None (set_clients (clients s ∖ dead l) s), [mkBcast (holder l) (said l) ((clients s ∖ {[holder l]}) ∖ dead l)]).

(** The actions, by thread. *)
Inductive action : Type :=
| Accept (input : list Z)
| Handshake (i : Z) (o : outcome)
| Register (i : Z) (cloned : bool)   (* [try_clone] can fail *)
| Turn (i : Z)
| PongWrite (i : Z) (n : nat) | PongFail (i : Z)
| Acquire (i : Z) | StartPeer (cid : Z) | PeerWrite (n : nat) | PeerFail | Release
| Remove (i : Z).

Definition unlocked (s : Server) : option unit := match lock s with None => Some tt | Some _ => None end.

(** [None]: the thread is not there, or waits for the lock. *)
Definition step (oc : bool) (a : action) (s : Server) : option (Server * list Bcast) :=
  match a with
  | Accept input => Some (accept input s, [])
  | Handshake i o =>
      c ← conns s !! i;
      if bool_decide (phase c = Handshaking) then Some (set_conn i (handshake oc o c) s, []) else None
  | Register i cloned =>
      c ← conns s !! i;
      _ ← unlocked s;
      if bool_decide (phase c = Answered) then
        if (cloned : bool) then Some (set_clients ({[i]} ∪ clients s) (set_conn i (with_phase Chatting c) s), [])
        else Some (set_conn i (with_phase Leaving c) s, [])
      else None
  | Turn i =>
      c ← conns s !! i;
      if bool_decide (phase c = Chatting) then Some (set_conn i (turn c) s, []) else None
  | PongWrite i n =>
      c ← conns s !! i;
      match phase c with
      | Ponging rest =>
          '(now, rest) ← write_some n rest;
          Some (set_conn i (with_phase (match rest with [] => Chatting | _ => Ponging rest end) (take_bytes now c)) s, [])
      | _ => None
      end
  | PongFail i =>
      c ← conns s !! i;
      match phase c with Ponging _ => Some (set_conn i (with_phase Leaving c) s, []) | _ => None end
  | Acquire i =>
      c ← conns s !! i;
      _ ← unlocked s;
      match phase c with Speaking data => Some (acquire i data (set_conn i (with_phase Broadcasting c) s), []) | _ => None end
  | StartPeer cid => l ← lock s; l ← start_peer cid l; Some (set_lock (Some l) s, [])
  | PeerWrite n =>
      l ← lock s;
      '(cid, rest) ← current l;
      c ← conns s !! cid;
      '(now, rest) ← write_some n rest;
      Some (set_lock (Some (write_peer cid rest l)) (set_conn cid (take_bytes now c) s), [])
  | PeerFail => l ← lock s; '(cid, _) ← current l; Some (set_lock (Some (fail_peer cid l)) s, [])
  | Release =>
      l ← lock s;
      c ← conns s !! holder l;
      if bool_decide (current l = None ∧ todo l = ∅) then Some (release l (set_conn (holder l) (with_phase Chatting c) s)) else None
  | Remove i =>
      c ← conns s !! i;
      _ ← unlocked s;
      if bool_decide (phase c = Leaving) then Some (set_clients (clients s ∖ {[i]}) (set_conn i (with_phase Gone c) s), []) else None
  end.

(** Reachable with a log of broadcasts, before the ids wrap. *)
Inductive reach (oc : bool) : list Bcast → Server → Prop :=
| reach_init : reach oc [] serve_init
| reach_step log s a s' bs :
    reach oc log s → next_id s < 2 ^ 64 - 1 → step oc a s = Some (s', bs) → reach oc (log ++ bs) s'.

(** ** Ordered delivery: the invariant *)
(** Frames of one kind, as bytes. *)
Definition frames_of (op : Opcode) (ps : list (list Z)) : list Z := flat_map (encode_frame op) ps.

(** Two writers to one socket: their bytes, each in its own order. *)
Inductive interleaved : list Z → list Z → list Z → Prop :=
| il_nil : interleaved [] [] []
| il_left x a b w : interleaved a b w → interleaved (x :: a) b (x :: w)
| il_right x a b w : interleaved a b w → interleaved a (x :: b) (x :: w).
#[local] Hint Constructors interleaved : core.

Lemma interleaved_left a : interleaved a [] a.
Proof. induction a; auto. Qed.
Lemma interleaved_right b : interleaved [] b b.
Proof. induction b; auto. Qed.
Lemma interleaved_app_left a b w x : interleaved a b w → interleaved (a ++ x) b (w ++ x).
Proof. induction 1; cbn [app]; auto. apply interleaved_left. Qed.
Lemma interleaved_app_right a b w x : interleaved a b w → interleaved a (b ++ x) (w ++ x).
Proof. induction 1; cbn [app]; auto. apply interleaved_right. Qed.
Lemma interleaved_left_inv a w : interleaved a [] w → w = a.
Proof.
  remember [] as b eqn:Eb. induction 1 as [|x a b w _ IH|]; [done|by rewrite IH|done].
Qed.

Definition unreached (log : list Bcast) (i : Z) : Prop := ∀ b, b ∈ log → i ∉ reached b.

(** What the peers of [i] said from the log [l]. *)
Definition said_to (i : Z) (l : list Bcast) : list (list Z) :=
  List.map text (List.filter (λ b, negb (sender b =? i)) l).

(** A peer whose turn is over has the frame, or a part of it if the write failed. *)
Definition served (l : Lock) (i : Z) (part : list Z) : Prop :=
  part `prefix_of` frame_of l ∧ (i ∉ dead l → part = frame_of l).
(** The part of the frame of the broadcast under way that [i] has: nothing before its
    turn, and in its turn what is not yet to write. *)
Definition progress (lk : option Lock) (i : Z) (part : list Z) : Prop :=
  match lk with
  | None => part = []
  | Some l =>
      if decide (i = holder l ∨ i ∈ todo l) then part = [] else
      match current l with
      | Some (cid, rest) => if decide (cid = i) then part ++ rest = frame_of l else served l i part
      | None => served l i part
      end
  end.

(** The part of a pong that is out. *)
Definition ponged (p : Phase) (part : list Z) : Prop :=
  match p with Ponging rest => ∃ data, part ++ rest = encode_frame Pong data | _ => part = [] end.

(** What a client in the loop has been sent: the response, then the bytes of two
    writers.  The lock's are the texts of the others since it registered and a part of
    one more; its own thread's are pongs and a part of one more. *)
Definition delivered (log : list Bcast) (lk : option Lock) (i : Z) (c : Conn) : Prop :=
  ∃ acc before after w part pongs ppart,
    log = before ++ after ∧ unreached before i ∧
    (∀ b, b ∈ after → i ∈ reached b ↔ sender b ≠ i) ∧
    sent c = as_bytes (handshake_response acc) ++ w ∧
    interleaved (frames_of Text (said_to i after) ++ part) (frames_of Pong pongs ++ ppart) w ∧
    progress lk i part ∧ ponged (phase c) ppart.

Definition fits (data : list Z) : Prop := Z.of_nat (length data) ≤ ISIZE_MAX.

(** In the loop of [handle_client]. *)
Definition in_loop (p : Phase) : Prop :=
  match p with Chatting | Ponging _ | Speaking _ | Broadcasting => True | _ => False end.

Definition conn_ok (log : list Bcast) (lk : option Lock) (registered : Prop) (i : Z) (c : Conn) : Prop :=
  match phase c with
  | Handshaking => sent c = [] ∧ ~ registered ∧ unreached log i
  | Answered => (∃ acc, sent c = as_bytes (handshake_response acc)) ∧ ~ registered ∧ unreached log i
  | Speaking data => fits data ∧ (registered → delivered log lk i c)
  | Chatting | Ponging _ | Broadcasting => registered → delivered log lk i c
  | Gone => ~ registered
  | Leaving | Panicked => True
  end.

(** The lock: its holder is in [broadcast], and the peers are registered others. *)
Record lock_ok (s : Server) (l : Lock) : Prop := {
  l_holder : ∃ c, conns s !! holder l = Some c ∧ phase c = Broadcasting;
  l_said : fits (said l);
  l_todo : todo l ⊆ clients s ∖ {[holder l]};
  l_current : ∀ cid rest, current l = Some (cid, rest) → cid ∈ clients s ∧ cid ≠ holder l ∧ (cid ∉ todo l)
}.

Record server_ok (log : list Bcast) (s : Server) : Prop := {
  k_next : 1 ≤ next_id s < 2 ^ 64;
  k_fresh : ∀ i, next_id s ≤ i → conns s !! i = None ∧ (i ∉ clients s) ∧ unreached log i;
  k_conn : ∀ i c, conns s !! i = Some c → conn_ok log (lock s) (i ∈ clients s) i c;
  k_lock : ∀ l, lock s = Some l → lock_ok s l;
  k_log : ∀ b, b ∈ log → fits (text b)
}.

(** *** One connection changes *)
(** Fewer are registered, and the lock is as before for those that are. *)
Lemma conn_ok_mono log lk lk' (P Q : Prop) i c :
  (Q → P) → (∀ part, Q → progress lk i part → progress lk' i part) →
  conn_ok log lk P i c → conn_ok log lk' Q i c.
Proof.
  intros HQ Hp. assert ((P → delivered log lk i c) → Q → delivered log lk' i c).
  { intros H q. destruct (H (HQ q)) as (acc & bf & af & w & part & ps & pp & H1 & H2 & H3 & H4 & H5 & H6 & H7).
    exists acc, bf, af, w, part, ps, pp. auto 10. }
  unfold conn_ok. destruct (phase c); tauto.
Qed.

Lemma k_lt log s i c : server_ok log s → conns s !! i = Some c → i < next_id s.
Proof.
  intros D Hc. destruct (Z.lt_ge_cases i (next_id s)) as [|H]; [done|].
  destruct (k_fresh _ _ D i H) as [E _]. congruence.
Qed.

(** A thread acts on its own connection; the registry changes only with the lock free. *)
Lemma server_ok_set log s i c0 c cl :
  server_ok log s → conns s !! i = Some c0 → (phase c0 = Broadcasting → phase c = Broadcasting) →
  conn_ok log (lock s) (i ∈ cl) i c → (∀ j, j ≠ i → j ∈ cl → j ∈ clients s) →
  cl = clients s ∨ lock s = None →
  server_ok log (set_clients cl (set_conn i c s)).
Proof.
  intros D Hc0 Hph Hc Hcl Hlk. pose proof (k_lt _ _ _ _ D Hc0) as Hi. destruct D as [Hn Hf Hk Hl Hg].
  constructor; cbn [conns clients next_id lock set_conn set_clients]; [done| | | |done].
  - intros j Hj. destruct (Hf j Hj) as (E & Hj2 & Hu). split_and!; [by rewrite lookup_insert_ne by lia| |done].
    intros Hin. apply Hj2, Hcl; [lia|done].
  - intros j d [[-> ->]|[Hne Hd]]%lookup_insert_Some; [done|].
    eapply conn_ok_mono, Hk, Hd; auto.
  - intros l El. destruct Hlk as [->|En]; [|congruence].
    destruct (Hl l El) as [(h & Hh & Hhp) H2 H3 H4]. constructor; [|done..]. cbn [conns set_clients set_conn].
    destruct (decide (i = holder l)) as [->|Hne].
    + exists c. rewrite lookup_insert_eq. split; [done|]. apply Hph. congruence.
    + exists h. by rewrite lookup_insert_ne.
Qed.

Lemma server_ok_same log s i c0 c :
  server_ok log s → conns s !! i = Some c0 → (phase c0 = Broadcasting → phase c = Broadcasting) →
  conn_ok log (lock s) (i ∈ clients s) i c → server_ok log (set_conn i c s).
Proof. intros D Hc Hp H. pose proof (server_ok_set log s i c0 c (clients s) D Hc Hp H) as K. destruct s. apply K; auto. Qed.

(** *** What is delivered grows *)
Lemma unreached_app log b i : unreached log i → (i ∉ reached b) → unreached (log ++ [b]) i.
Proof. intros H Hb x [Hx| ->%list_elem_of_singleton]%elem_of_app; auto. Qed.

Lemma delivered_start c acc log i :
  sent c = as_bytes (handshake_response acc) → unreached log i → ponged (phase c) [] → delivered log None i c.
Proof.
  intros Es Hu Hp. exists acc, log, [], [], [], [], []. rewrite !app_nil_r.
  split_and!; [done|done| |done|constructor|done|done]. by intros b Hb%elem_of_nil.
Qed.

(** The thread goes on without a write. *)
Lemma delivered_phase log lk i c c' :
  delivered log lk i c → sent c' = sent c → (∀ pp, ponged (phase c) pp → ponged (phase c') pp) → delivered log lk i c'.
Proof.
  intros (acc & bf & af & w & part & ps & pp & H1 & H2 & H3 & H4 & H5 & H6 & H7) Es Hp.
  exists acc, bf, af, w, part, ps, pp. rewrite Es. auto 10.
Qed.

(** The thread writes some of its pong. *)
Lemma delivered_pong log lk i c now rest :
  delivered log lk i c → phase c = Ponging (now ++ rest) →
  delivered log lk i (with_phase (match rest with [] => Chatting | _ => Ponging rest end) (take_bytes now c)).
Proof.
  intros (acc & bf & af & w & part & ps & pp & H1 & H2 & H3 & H4 & H5 & H6 & H7) Hph.
  rewrite Hph in H7. destruct H7 as [data Ed]. apply (interleaved_app_right _ _ _ now) in H5.
  assert (Es : sent c ++ now = as_bytes (handshake_response acc) ++ w ++ now) by by rewrite H4, <-app_assoc.
  destruct rest as [|x rest].
  - exists acc, bf, af, (w ++ now), part, (ps ++ [data]), []. split_and!; [done..| |done|done].
    unfold frames_of at 2. rewrite flat_map_app. cbn [flat_map]. rewrite <-Ed, !app_nil_r. by rewrite app_assoc.
  - exists acc, bf, af, (w ++ now), part, ps, (pp ++ now). split_and!; [done..| |done|].
    + by rewrite app_assoc.
    + exists data. by rewrite <-Ed, <-app_assoc.
Qed.

(** The lock's holder writes some of its text. *)
Lemma delivered_peer log lk lk' i c now :
  delivered log lk i c → (∀ part, progress lk i part → progress lk' i (part ++ now)) →
  delivered log lk' i (take_bytes now c).
Proof.
  intros (acc & bf & af & w & part & ps & pp & H1 & H2 & H3 & H4 & H5 & H6 & H7) Hp.
  exists acc, bf, af, (w ++ now), (part ++ now), ps, pp. split_and!; [done..| | |by apply Hp|done].
  - cbn [sent take_bytes]. by rewrite H4, <-app_assoc.
  - rewrite app_assoc. by apply interleaved_app_left.
Qed.

Lemma said_to_app i l b : said_to i (l ++ [b]) = said_to i l ++ (if sender b =? i then [] else [text b]).
Proof. unfold said_to. rewrite List.filter_app, map_app. cbn. by destruct (sender b =? i). Qed.

(** The broadcast is over. *)
Lemma delivered_release log l i c cl :
  current l = None → todo l = ∅ → i ∈ cl → i ∉ dead l → delivered log (Some l) i c →
  delivered (log ++ [mkBcast (holder l) (said l) ((cl ∖ {[holder l]}) ∖ dead l)]) None i c.
Proof.
  intros Hcur Htodo Hi Hd (acc & bf & af & w & part & ps & pp & H1 & H2 & H3 & H4 & H5 & H6 & H7).
  exists acc, bf, (af ++ [mkBcast (holder l) (said l) ((cl ∖ {[holder l]}) ∖ dead l)]), w, [], ps, pp.
  split_and!; [by rewrite H1, app_assoc|done| |done| |done|done].
  - intros b [Hb| ->%list_elem_of_singleton]%elem_of_app; [auto|]. cbn. split; [set_solver|]. intros. set_solver.
  - rewrite said_to_app. cbn [sender text]. unfold progress in H6. rewrite Hcur, Htodo in H6. destruct (Z.eqb_spec (holder l) i) as [E|E].
    + rewrite decide_True in H6 by auto. subst part. by rewrite (app_nil_r (said_to i af)).
    + rewrite decide_False in H6 by set_solver. destruct H6 as [_ H6]. rewrite (H6 Hd) in H5. unfold frames_of at 1. rewrite flat_map_app.
      cbn [flat_map]. by rewrite !app_nil_r.
Qed.

(** *** The lock's steps *)
Lemma write_some_inv n rest now rest' : write_some n rest = Some (now, rest') → rest = now ++ rest'.
Proof. unfold write_some. destruct (_ && _); [|done]. intros [= <- <-]. by rewrite take_drop. Qed.

(** The lock changes hands, or moves on. *)
Lemma server_ok_relock log s lk :
  server_ok log s → (∀ j part, j ∈ clients s → progress (lock s) j part → progress lk j part) →
  (∀ l, lk = Some l → lock_ok s l) → server_ok log (set_lock lk s).
Proof.
  intros [Hn Hf Hk Hl Hg] Hp Hlk. constructor; cbn [conns clients next_id lock set_lock]; [done|done| | |done].
  - intros i c Hc. eapply conn_ok_mono, Hk, Hc; [done|]. intros part Hi. by apply Hp.
  - intros l E. by destruct (Hlk l E).
Qed.

Lemma acquire_ok log s i c data :
  server_ok log s → lock s = None → conns s !! i = Some c → phase c = Speaking data →
  server_ok log (acquire i data (set_conn i (with_phase Broadcasting c) s)).
Proof.
  intros D Hlk Hc Hph. pose proof (k_conn _ _ D i c Hc) as Hok. unfold conn_ok in Hok. rewrite Hph in Hok.
  destruct Hok as [Hfit Hdel].
  assert (server_ok log (set_conn i (with_phase Broadcasting c) s)) as D'.
  { eapply server_ok_same; [done|done|done|]. intros Hi. eapply delivered_phase; [by apply Hdel|done|]. by rewrite Hph. }
  apply server_ok_relock; [done|..]; cbn [lock set_conn clients]; rewrite ?Hlk.
  - intros j part Hj ->. unfold progress. cbn [holder todo current dead].
    rewrite decide_True; [done|]. cbn [clients set_conn]. destruct (decide (j = i)); set_solver.
  - intros l [= <-]. constructor; cbn; [|done|done|done]. exists (with_phase Broadcasting c). by rewrite lookup_insert_eq.
Qed.

Lemma start_peer_ok log s cid l l' :
  server_ok log s → lock s = Some l → start_peer cid l = Some l' → server_ok log (set_lock (Some l') s).
Proof.
  intros D Hlk E. destruct (k_lock _ _ D l Hlk) as [Hh Hs Ht Hc]. unfold start_peer in E.
  destruct (current l) eqn:Ecur; [done|]. case_bool_decide as Hin; [|done]. injection E as <-.
  apply server_ok_relock; [done|..].
  - intros j part _. rewrite Hlk. unfold progress. cbn [holder todo current dead frame_of said]. rewrite Ecur.
    destruct (decide (cid = j)) as [->|Hne].
    + rewrite decide_True by auto. intros ->. by rewrite decide_False by set_solver.
    + destruct (decide (j = holder l ∨ j ∈ todo l)); [rewrite decide_True by set_solver|rewrite decide_False by set_solver]; done.
  - intros l' [= <-]. constructor; cbn; [done|done|set_solver|]. intros k rest [= <- <-]. set_solver.
Qed.

(** The peer that is written to leaves its turn, or keeps it. *)
Lemma peer_done s l l' cid rest :
  lock_ok s l → current l = Some (cid, rest) → holder l' = holder l → said l' = said l → todo l' = todo l →
  (∀ k r, current l' = Some (k, r) → k = cid) → lock_ok s l'.
Proof.
  intros [H1 H2 H3 H4] Ec Eh Es Et Ec'. constructor; rewrite ?Eh, ?Es, ?Et; [done..|].
  intros k r Hk. rewrite (Ec' k r Hk). by apply (H4 cid rest).
Qed.

Lemma fail_peer_ok log s l cid rest :
  server_ok log s → lock s = Some l → current l = Some (cid, rest) → server_ok log (set_lock (Some (fail_peer cid l)) s).
Proof.
  intros D Hlk Ecur. pose proof (k_lock _ _ D l Hlk) as L.
  apply server_ok_relock; [done|..].
  - intros j part _. rewrite Hlk. unfold progress. cbn [holder todo current dead fail_peer]. change (frame_of (fail_peer cid l)) with (frame_of l).
    rewrite Ecur. destruct (decide _); [done|]. destruct (decide (cid = j)) as [<-|]; unfold served; cbn [dead fail_peer];
      change (frame_of (fail_peer cid l)) with (frame_of l).
    + intros <-. split; [by apply prefix_app_r|set_solver].
    + intros [H H']. split; [done|set_solver].
  - intros l' [= <-]. eapply peer_done; [done|done|done..].
Qed.

Lemma write_peer_ok log s l cid now rest c :
  server_ok log s → lock s = Some l → current l = Some (cid, now ++ rest) → conns s !! cid = Some c →
  server_ok log (set_lock (Some (write_peer cid rest l)) (set_conn cid (take_bytes now c) s)).
Proof.
  intros D Hlk Ecur Hc. pose proof (k_lock _ _ D l Hlk) as L. destruct (l_current _ _ L _ _ Ecur) as (Hin & Hh & Ht).
  pose proof (k_lt _ _ _ _ D Hc) as Hlt. destruct D as [Hn Hf Hk Hl Hg].
  constructor; cbn [conns clients next_id lock set_lock set_conn]; [done| | | |done].
  - intros j Hj. rewrite lookup_insert_ne by lia. auto.
  - intros j d [[<- <-]|[Hne Hd]]%lookup_insert_Some.
    + specialize (Hk cid c Hc). rewrite Hlk in Hk.
      assert (delivered log (Some l) cid c → delivered log (Some (write_peer cid rest l)) cid (take_bytes now c)) as Hdel.
      { intros H. eapply delivered_peer; [done|]. intros part. unfold progress. cbn [holder todo current dead write_peer].
        change (frame_of (write_peer cid rest l)) with (frame_of l). rewrite Ecur, !(decide_False (P := _ ∨ _)), decide_True by naive_solver.
        intros E. rewrite app_assoc in E. destruct rest; [rewrite app_nil_r in E; by rewrite E|]. by rewrite decide_True. }
      unfold conn_ok in *. cbn [phase take_bytes]. destruct (phase c); naive_solver.
    + eapply conn_ok_mono, Hk, Hd; [done|]. intros part _. rewrite Hlk. unfold progress. cbn [holder todo current dead write_peer].
      change (frame_of (write_peer cid rest l)) with (frame_of l). rewrite Ecur. destruct (decide (_ ∨ _)); [done|].
      rewrite (decide_False (P := cid = j)) by done. destruct rest; [done|]. by rewrite decide_False.
  - intros l' [= <-]. assert (lock_ok s (write_peer cid rest l)) as [[h [Hh1 Hh2]] H2 H3 H4].
    { eapply peer_done; [done|done|done..|]. cbn. intros k r. destruct rest; [done|]. by intros [= <- _]. }
    constructor; [|done..]. exists h. cbn [conns set_lock set_conn]. by rewrite lookup_insert_ne.
Qed.

Lemma release_ok log s l c s' bs :
  server_ok log s → lock s = Some l → current l = None → todo l = ∅ → conns s !! holder l = Some c →
  release l (set_conn (holder l) (with_phase Chatting c) s) = (s', bs) → server_ok (log ++ bs) s'.
Proof.
  intros D Hlk Hcur Htodo Hc [= <- <-]. pose proof (k_lock _ _ D l Hlk) as [(h & Hh & Hph) Hs _ _].
  pose proof (k_lt _ _ _ _ D Hc) as Hlt. destruct D as [Hn Hf Hk Hl Hg]. rewrite Hlk in Hk.
  constructor; cbn [conns clients next_id lock set_lock set_conn set_clients]; [done| | |done|].
  - intros j Hj. destruct (Hf j Hj) as (E & Hj2 & Hu). split_and!; [by rewrite lookup_insert_ne by lia|set_solver|].
    apply unreached_app; [done|]. set_solver.
  - intros j d [[<- <-]|[Hne Hd]]%lookup_insert_Some.
    + specialize (Hk _ _ Hc). replace h with c in Hph by congruence. unfold conn_ok in *. rewrite Hph in Hk. cbn [phase with_phase].
      intros [Hi Hd]%elem_of_difference. apply delivered_release; [done..|]. eapply delivered_phase; [by apply Hk|done|]. by rewrite Hph.
    + specialize (Hk _ _ Hd).
      assert ((j ∈ clients s → delivered log (Some l) j d) → j ∈ clients s ∖ dead l →
        delivered (log ++ [mkBcast (holder l) (said l) ((clients s ∖ {[holder l]}) ∖ dead l)]) None j d) as Hdel.
      { intros H [Hi Hdd]%elem_of_difference. apply delivered_release; auto. }
      assert (j ∉ clients s → unreached log j → unreached (log ++ [mkBcast (holder l) (said l) ((clients s ∖ {[holder l]}) ∖ dead l)]) j) as Hun.
      { intros. apply unreached_app; [done|]. set_solver. }
      assert (j ∉ clients s → j ∉ clients s ∖ dead l) as Hout by set_solver.
      clear - Hk Hdel Hun Hout. unfold conn_ok in *. destruct (phase d); naive_solver.
  - intros b [Hb| ->%list_elem_of_singleton]%elem_of_app; [auto|done].
Qed.

(** *** Frames that were read fit an allocation *)
(** A payload that was read fits an allocation. *)
Lemma unmask_length key p q : unmask key p = Some q → length q = length p.
Proof.
  unfold unmask. intros E.
  assert (H : ∀ l out q, for_each (λ '(i, byte) out, k ← key !! (i mod 4)%nat; Some (out ++ [Z.lxor byte k])) l out
    = Some q → length q = (length out + length l)%nat).
  { clear. induction l as [|[i b] l IH]; intros out q E; cbn [for_each] in E.
    - injection E as <-. simpl. lia.
    - destruct (key !! (i mod 4)%nat); [|done]. cbn [mbind option_bind] in E. apply IH in E.
      rewrite length_app in E. simpl in *. lia. }
  apply H in E. rewrite E. simpl. rewrite length_zip, length_seq. lia.
Qed.

Lemma read_frame_size r f r' : read_frame r = Some (Ok (f, r')) → Z.of_nat (length (payload f)) ≤ ISIZE_MAX.
Proof.
  intros (header & r1 & _ & E)%rbind_inv. apply rbind_inv in E as (h0 & r2 & _ & E).
  apply rbind_inv in E as (h1 & r3 & _ & E). apply rbind_inv in E as (len & r4 & _ & E).
  apply rbind_inv in E as (mask & r5 & _ & E). apply rbind_inv in E as (u & r6 & Ea & E).
  apply rbind_inv in E as (p & r7 & Ep & E). apply rbind_inv in E as (q & r8 & Eq & E).
  injection E as <- _. cbn [payload].
  assert (Hlen : len ≤ ISIZE_MAX) by (unfold alloc in Ea; destruct (Z.leb_spec len ISIZE_MAX); [done|discriminate Ea]).
  assert (Hp : Z.of_nat (length p) ≤ ISIZE_MAX).
  { destruct (Z.le_gt_cases 0 len).
    - apply read_exact_inv in Ep as [_ Ep]; [lia|done].
    - unfold read_exact in Ep. destruct (len <=? _); [|done]. injection Ep as <- _.
      rewrite length_take. unfold ISIZE_MAX. lia. }
  destruct mask as [key|]; simpl in Eq.
  - destruct (unmask key p) as [q'|] eqn:Eu; [|done]. injection Eq as <- _. by rewrite (unmask_length _ _ _ Eu).
  - by injection Eq as <- _.
Qed.

(** *** The invariant is kept *)
Lemma turn_ok log s i c :
  server_ok log s → conns s !! i = Some c → phase c = Chatting → server_ok log (set_conn i (turn c) s).
Proof.
  intros D Hc Hph. pose proof (k_conn _ _ D i c Hc) as Hk. unfold conn_ok in Hk. rewrite Hph in Hk.
  eapply server_ok_same; [done|done|congruence|]. unfold turn.
  destruct (read_frame (unread c)) as [[[f rest]|e]|] eqn:Er; [|done..].
  pose proof (read_frame_size _ _ _ Er) as Hsize.
  assert (∀ c', sent c' = sent c → (∀ pp, pp = [] → ponged (phase c') pp) → i ∈ clients s → delivered log (lock s) i c') as Hd.
  { intros c' Es Hp Hi. eapply delivered_phase; [by apply Hk|done|]. by rewrite Hph. }
  unfold conn_ok. destruct (opcode f); cbn [phase with_phase]; rewrite ?Hph; [|split; [done|]|..]; try done;
    apply Hd; cbn; rewrite ?Hph; try done.
  intros pp ->. by exists (payload f).
Qed.

Lemma accept_ok log s input : server_ok log s → next_id s < 2 ^ 64 - 1 → server_ok log (accept input s).
Proof.
  intros [Hnx Hf Hk Hl Hg] Hn. unfold accept.
  assert (Ew : wrap64 (next_id s + 1) = next_id s + 1) by (apply Z.mod_small; lia). rewrite Ew.
  destruct (Hf (next_id s) ltac:(lia)) as (Hno & Hni & Hnu).
  constructor; cbn [conns clients next_id lock]; [lia| | | |done].
  - intros j Hj. destruct (Hf j ltac:(lia)) as (? & ? & ?). by rewrite lookup_insert_ne by lia.
  - intros j c [[<- <-]|[Hne Hc]]%lookup_insert_Some; [|by apply Hk]. by split_and!.
  - intros l E. destruct (Hl l E) as [(h & Hh & Hp) H2 H3 H4]. constructor; [|done..].
    exists h. cbn [conns]. rewrite lookup_insert_ne; [done|]. congruence.
Qed.

Lemma step_ok oc log s a s' bs :
  server_ok log s → next_id s < 2 ^ 64 - 1 → step oc a s = Some (s', bs) → server_ok (log ++ bs) s'.
Proof.
  intros D Hn E. pose proof (k_conn _ _ D) as Hk.
  destruct a as [input|i o|i cloned|i|i n|i|i|cid|n| | |i]; cbn [step] in E.
  - injection E as <- <-. rewrite app_nil_r. by apply accept_ok.
  - destruct (conns s !! i) as [c|] eqn:Hc; [|done]. cbn in E. case_bool_decide as Hph; [|done].
    injection E as <- <-. rewrite app_nil_r. eapply server_ok_same; [done|done|congruence|].
    specialize (Hk i c Hc). unfold conn_ok in Hk. rewrite Hph in Hk. destruct Hk as (Hs & Hni & Hu).
    unfold handshake. destruct (read_handshake_key (unread c)) as [[[key rest]|e]|]; [|done..].
    destruct (accept_key oc key) as [acc|]; [|done]. destruct o as [|k]; [|done].
    unfold conn_ok. cbn. split_and!; [|done|done]. exists acc. by rewrite Hs.
  - destruct (conns s !! i) as [c|] eqn:Hc; [|done]. unfold unlocked in E. destruct (lock s) eqn:Hl; [done|].
    cbn in E. case_bool_decide as Hph; [|done].
    specialize (Hk i c Hc). unfold conn_ok in Hk. rewrite Hph in Hk. destruct Hk as ([acc Hs] & Hni & Hu).
    destruct cloned; injection E as <- <-; rewrite app_nil_r; [|by eapply server_ok_same; [done|done|congruence|]].
    eapply server_ok_set; [done|done|congruence| |set_solver|by right].
    unfold conn_ok. cbn. intros _. rewrite Hl. by eapply delivered_start.
  - destruct (conns s !! i) as [c|] eqn:Hc; [|done]. cbn in E. case_bool_decide as Hph; [|done].
    injection E as <- <-. rewrite app_nil_r. by apply turn_ok.
  - destruct (conns s !! i) as [c|] eqn:Hc; [|done]. cbn in E. destruct (phase c) as [| | |rest| | | | |] eqn:Hph; try done.
    destruct (write_some n rest) as [[now rest']|] eqn:Ew; [|done]. injection E as <- <-. rewrite app_nil_r.
    apply write_some_inv in Ew as ->. specialize (Hk i c Hc). unfold conn_ok in Hk. rewrite Hph in Hk.
    assert (i ∈ clients s → delivered log (lock s) i
      (with_phase (match rest' with [] => Chatting | _ => Ponging rest' end) (take_bytes now c))) as Hd.
    { intros Hi. apply delivered_pong; auto. }
    eapply server_ok_same; [done|done|congruence|]. unfold conn_ok. by destruct rest'.
  - destruct (conns s !! i) as [c|] eqn:Hc; [|done]. cbn in E. destruct (phase c) eqn:Hph; try done.
    injection E as <- <-. rewrite app_nil_r. by eapply server_ok_same; [done|done|congruence|].
  - destruct (conns s !! i) as [c|] eqn:Hc; [|done]. unfold unlocked in E. destruct (lock s) eqn:Hl; [done|].
    cbn in E. destruct (phase c) eqn:Hph; try done. injection E as <- <-. rewrite app_nil_r. by apply acquire_ok.
  - destruct (lock s) as [l|] eqn:Hl; [|done]. cbn in E. destruct (start_peer cid l) as [l'|] eqn:El; [|done].
    injection E as <- <-. rewrite app_nil_r. by eapply start_peer_ok.
  - destruct (lock s) as [l|] eqn:Hl; [|done]. cbn in E. destruct (current l) as [[cid rest]|] eqn:Ecur; [|done].
    cbn in E. destruct (conns s !! cid) as [c|] eqn:Hc; [|done]. cbn in E.
    destruct (write_some n rest) as [[now rest']|] eqn:Ew; [|done]. injection E as <- <-. rewrite app_nil_r.
    apply write_some_inv in Ew as ->. by eapply write_peer_ok.
  - destruct (lock s) as [l|] eqn:Hl; [|done]. cbn in E. destruct (current l) as [[cid rest]|] eqn:Ecur; [|done].
    injection E as <- <-. rewrite app_nil_r. by eapply fail_peer_ok.
  - destruct (lock s) as [l|] eqn:Hl; [|done]. cbn in E. destruct (conns s !! holder l) as [c|] eqn:Hc; [|done].
    cbn in E. case_bool_decide as Hq; [|done]. destruct Hq as [Hcur Htodo]. injection E as E E'.
    eapply release_ok; [done|done|done|done|done|]. by rewrite <-E, <-E'.
  - destruct (conns s !! i) as [c|] eqn:Hc; [|done]. unfold unlocked in E. destruct (lock s) eqn:Hl; [done|].
    cbn in E. case_bool_decide as Hph; [|done]. injection E as <- <-. rewrite app_nil_r.
    eapply server_ok_set; [done|done|congruence| |set_solver|by right]. unfold conn_ok. cbn. set_solver.
Qed.

Lemma reach_ok oc log s : reach oc log s → server_ok log s.
Proof.
  induction 1 as [|log s a s' bs _ IH Hn E]; [|by eapply step_ok].
  constructor; cbn; [lia| |by intros i c|done|by intros b Hb%elem_of_nil].
  intros i _. split_and!; [done|set_solver|by intros b Hb%elem_of_nil].
Qed.

(** ** Reading the handshake *)
(** A header line: not empty, of chars, without a line feed. *)
Definition line_ok (t : str) : Prop := t ≠ [] ∧ forallb is_scalar t = true ∧ (LF ∉ t).

Lemma crlf_line t : line_ok t → forallb is_scalar (t ++ [CR]) = true ∧ (LF ∉ t ++ [CR]).
Proof. intros (_ & Hs & Hl). rewrite forallb_app, Hs. split; [done|]. unfold LF, CR in *. set_solver by lia. Qed.

Lemma read_request_spec ts fuel acc rest :
  Forall line_ok ts → (length ts < fuel)%nat →
  read_request fuel acc (as_bytes (concat (List.map (λ t, t ++ crlf) ts) ++ crlf) ++ rest) =
    Some (Ok (acc ++ concat (List.map (λ t, t ++ crlf) ts), rest)).
Proof.
  intros Hts. revert fuel acc. induction Hts as [|t ts Ht Hts IH]; intros [|fuel] acc Hf; simpl in Hf; try lia.
  - cbn [List.map concat app]. rewrite app_nil_r.
    change (as_bytes crlf ++ rest) with (as_bytes [CR] ++ LF :: rest). cbn [read_request].
    erewrite rbind_eq by (apply read_line_spec; [done|]; unfold LF, CR; set_solver by lia). done.
  - cbn [List.map concat read_request]. rewrite <-!app_assoc. destruct (crlf_line t Ht) as [H1 H2].
    set (k := concat (List.map (λ t, t ++ crlf) ts)) in *.
    replace (as_bytes (t ++ crlf ++ k ++ crlf) ++ rest) with
      (as_bytes (t ++ [CR]) ++ LF :: (as_bytes (k ++ crlf) ++ rest))
      by (rewrite !as_bytes_app; change (as_bytes crlf) with [CR; LF]; change (as_bytes [CR]) with [CR];
          by rewrite <-!app_assoc).
    erewrite rbind_eq by by apply read_line_spec. rewrite <-app_assoc. change ([CR] ++ [LF]) with crlf.
    destruct t as [|c t]; [by destruct Ht|].
    rewrite !bool_decide_false; [|intros [= -> E]; by destruct t|intros [= -> E]; by destruct t as [|? [|? ?]]|done].
    cbn [orb]. rewrite IH by lia. by rewrite <-!app_assoc.
Qed.

Lemma lines_crlf ts :
  Forall line_ok ts → lines (concat (List.map (λ t, t ++ crlf) ts)) = ts.
Proof.
  intros Hts. replace (concat (List.map (λ t, t ++ crlf) ts))
    with (flat_map (λ t, t ++ [LF]) (List.map (λ t, t ++ [CR]) ts)).
  - rewrite lines_terminated.
    + rewrite map_map, (map_ext _ (λ t, t)); [apply List.map_id|]. intros t. apply strip_cr_snoc.
    + apply Forall_map. eapply Forall_impl; [exact Hts|]. intros t Ht. by apply crlf_line.
  - clear. induction ts as [|t ts IH]; [done|]. cbn [List.map flat_map concat]. rewrite IH. by rewrite <-!app_assoc.
Qed.

Lemma read_request_total fuel acc r : (length r < fuel)%nat → read_request fuel acc r ≠ None.
Proof.
  revert acc r. induction fuel as [|fuel IH]; intros acc r Hf; [lia|]. cbn [read_request]. unfold rbind.
  destruct (read_line_cases r) as [[e ->]|(s & r' & -> & Hs)]; [done|].
  case_bool_decide as Hne; [done|]. destruct (_ || _); [done|]. apply IH. destruct Hs; [done|lia].
Qed.

(** Reading frames off a byte stream until it ends. *)
Fixpoint reads (fs : list (Opcode * list Z)) (r : list Z) : Prop :=
  match fs with
  | [] => r = []
  | f :: fs => ∃ r', read_frame r = Some (Ok (mkFrame true f.1 f.2, r')) ∧ reads fs r'
  end.

Lemma reads_frames op ps : op = Text ∨ op = Pong → (∀ p, p ∈ ps → fits p) → reads (List.map (pair op) ps) (frames_of op ps).
Proof.
  intros Hop. induction ps as [|p ps IH]; intros H; [done|]. exists (frames_of op ps).
  split; [|apply IH; intros q Hq; apply H; by right]. cbn [fst snd].
  change (frames_of op (p :: ps)) with (encode_frame op p ++ frames_of op ps).
  assert (opcode_ok op) as Hok by (destruct Hop as [-> | ->]; split; [closed|done|closed|done]).
  destruct (opcode_byte op Hok) as (H0 & Hfin & Eop). assert (fits p) by (apply H; by left).
  rewrite encode_frame_wire, read_frame_wire by done. by rewrite Hfin, Eop.
Qed.

Lemma said_to_fits i before after :
  (∀ b, b ∈ before ++ after → fits (text b)) → ∀ p, p ∈ said_to i after → fits p.
Proof.
  intros H p Hp. unfold said_to in Hp. apply list_elem_of_In, in_map_iff in Hp as (b & <- & [Hb _]%filter_In).
  apply H, elem_of_app. right. by apply list_elem_of_In.
Qed.

(** ** Properties *)

(** The handshake: [read_handshake_key] always returns, on any bytes; on header
    lines that a blank line ends it reads up to that line and no further, and
    returns the trimmed value of the first header whose name is
    [Sec-WebSocket-Key] in any case, or an error if there is none. *)
Theorem handshake_key ts rest :
  Forall line_ok ts →
  (∀ r, read_handshake_key r ≠ None) ∧
  read_handshake_key (as_bytes (concat (List.map (λ t, t ++ crlf) ts) ++ crlf) ++ rest) =
    (match find_map header_key ts with
     | Some key => Some (Ok (key, rest))
     | None => Some (Err InvalidData)
     end) ∧
  (∀ name value, 58 ∉ name → header_key (name ++ 58 :: value) =
     if eq_ignore_ascii_case (trim name) (lit "Sec-WebSocket-Key") then Some (trim value) else None).
Proof.
  intros Hts. split_and!.
  - intros r. unfold read_handshake_key, rbind.
    pose proof (read_request_total (S (length r)) [] r ltac:(lia)) as H.
    destruct (read_request _ _ r) as [[[req r']|e]|]; [|done|done]. by destruct (parse_websocket_key req).
  - unfold read_handshake_key. set (r := _ ++ rest).
    assert (Hlen : (length ts < S (length r))%nat).
    { unfold r. rewrite length_app, as_bytes_app, length_app. clear.
      enough (length ts ≤ length (as_bytes (concat (List.map (λ t, t ++ crlf) ts))))%nat by lia.
      induction ts as [|t ts IH]; simpl; [lia|]. rewrite !as_bytes_app, !length_app.
      change (length (as_bytes crlf)) with 2%nat. lia. }
    erewrite rbind_eq by by apply read_request_spec. cbn [app]. unfold parse_websocket_key.
    rewrite lines_crlf by done. by destruct (find_map header_key ts).
  - intros name value Hn. unfold header_key. by rewrite split_once_app.
Qed.

Lemma handshake_key_witness :
  let ts := [lit "GET / HTTP/1.1"; lit "Host: x"; lit "sec-websocket-key:  abc= "] in
  read_handshake_key (as_bytes (concat (List.map (λ t, t ++ crlf) ts) ++ crlf) ++ [1; 2]) =
    Some (Ok (lit "abc=", [1; 2])).
Proof.
  refine (proj1 (proj2 (handshake_key [lit "GET / HTTP/1.1"; lit "Host: x"; lit "sec-websocket-key:  abc= "] [1; 2] _))).
  unfold line_ok. closed.
Defined.

(** C5. Ordered delivery, with every write split as the kernel likes and the threads
    in any order: what a registered client in the loop has been sent is the handshake
    response followed by the bytes of two writers, each in its own order.  The broadcasts
    are one of them: whole text frames, which read back as exactly what the others
    said since it registered, each text once, never its own, in the one order in which
    the broadcasts took the lock; and then the part it has of the broadcast under way.
    Its own thread is the other: whole pongs, and a part of one more.  A pong may
    fall inside a text frame, but with none the client has the text frames as they are. *)
Theorem ordered_delivery oc log s i c :
  reach oc log s → conns s !! i = Some c → in_loop (phase c) → i ∈ clients s →
  ∃ acc before after w part pongs ppart,
    log = before ++ after ∧ unreached before i ∧
    (∀ b, b ∈ after → i ∈ reached b ↔ sender b ≠ i) ∧
    sent c = as_bytes (handshake_response acc) ++ w ∧
    interleaved (frames_of Text (said_to i after) ++ part) (frames_of Pong pongs ++ ppart) w ∧
    progress (lock s) i part ∧ ponged (phase c) ppart ∧
    reads (List.map (pair Text) (said_to i after)) (frames_of Text (said_to i after)) ∧
    (pongs = [] → ppart = [] → w = frames_of Text (said_to i after) ++ part).
Proof.
  intros Hr Hc Hph Hin. pose proof (reach_ok _ _ _ Hr) as D. pose proof (k_conn _ _ D i c Hc) as Hk.
  assert (delivered log (lock s) i c) as (acc & bf & af & w & part & ps & pp & H1 & H2 & H3 & H4 & H5 & H6 & H7).
  { unfold conn_ok in Hk. destruct (phase c); naive_solver. }
  exists acc, bf, af, w, part, ps, pp. split_and!; [done..| |].
  - apply reads_frames; [by left|]. eapply said_to_fits. rewrite <-H1. apply (k_log _ _ D).
  - intros -> ->. by apply interleaved_left_inv.
Qed.

(** Runs, for the examples. *)
Definition run_actions (l : list action) (s : Server * list Bcast) : option (Server * list Bcast) :=
  for_each (λ a '(s, log), if next_id s <? 2 ^ 64 - 1 then '(s', bs) ← step true a s; Some (s', log ++ bs) else None) l s.

Lemma run_actions_reach l log s log' s' :
  reach true log s → run_actions l (s, log) = Some (s', log') → reach true log' s'.
Proof.
  unfold run_actions. revert log s. induction l as [|a l IH]; intros log s Hr E; cbn [for_each] in *.
  - by injection E as <- <-.
  - destruct (Z.ltb_spec (next_id s) (2 ^ 64 - 1)); [|done].
    destruct (step true a s) as [[s1 bs]|] eqn:Es; [|done]. cbn [mbind option_bind] in E.
    refine (IH (log ++ bs) s1 _ E). by econstructor.
Qed.

(** Three clients.  The first sends a ping, and is pinged back; the second says "hi", a
    write takes one byte of it, and the pong goes out before the rest. *)
Definition demo_request : list Z := lit "Sec-WebSocket-Key: x" ++ crlf ++ crlf.
Definition demo_start : list action :=
  [Accept (demo_request ++ wire 0x89 (Some [1; 2; 3; 4]) (lit "p")); Accept (demo_request ++ wire 0x81 (Some [1; 2; 3; 4]) (lit "hi"));
   Accept demo_request; Handshake 1 Written; Handshake 2 Written; Register 1 true; Register 2 true; Turn 1; Turn 2;
   Acquire 2; StartPeer 1; PeerWrite 1].
Definition demo_end : list action := [PongWrite 1 3; PeerWrite 3; Release; Handshake 3 Written; Register 3 true].

Lemma ordered_delivery_witness :
  ∃ s log c, run_actions demo_start (serve_init, []) = Some (s, log) ∧ conns s !! 1 = Some c ∧
    ∃ acc before after w part pongs ppart, log = before ++ after ∧
      sent c = as_bytes (handshake_response acc) ++ w ∧
      interleaved (frames_of Text (said_to 1 after) ++ part) (frames_of Pong pongs ++ ppart) w ∧ progress (lock s) 1 part.
Proof.
  destruct (run_actions demo_start (serve_init, [])) as [[s log]|] eqn:E; [|vm_compute in E; discriminate E].
  assert (Hr : reach true log s) by (exact (run_actions_reach demo_start [] serve_init log s (reach_init true) E)).
  assert (Hs : match run_actions demo_start (serve_init, []) with
    | Some (s, _) => match conns s !! 1 with
      | Some c => match phase c with Ponging _ => bool_decide (1 ∈ clients s) | _ => false end | None => false end
    | None => false end = true) by (vm_compute; reflexivity).
  rewrite E in Hs. destruct (conns s !! 1) as [c|] eqn:Ec; [|discriminate Hs].
  assert (Hph : in_loop (phase c)) by (destruct (phase c); [discriminate Hs..|exact I|discriminate Hs|discriminate Hs|discriminate Hs|discriminate Hs|discriminate Hs]).
  assert (Hin : 1 ∈ clients s) by (destruct (phase c); try discriminate Hs; exact (proj1 (bool_decide_eq_true _) Hs)).
  destruct (ordered_delivery true log s 1 c Hr Ec Hph Hin) as (acc & before & after & w & part & pongs & ppart & H1 & _ & _ & H4 & H5 & H6 & _).
  exists s, log, c. split; [reflexivity|]. split; [exact Ec|].
  exists acc, before, after, w, part, pongs, ppart. exact (conj H1 (conj H4 (conj H5 H6))).
Defined.

(** The merge of [ordered_delivery] is not always one of whole frames: the pong of a
    client's own thread, which is written without the lock, can fall inside a text frame,
    and the client cannot read the stream. *)
Lemma pong_inside_text :
  ∃ log s c acc, reach true log s ∧ lock s = None ∧ List.map text log = [lit "hi"] ∧ conns s !! 1 = Some c ∧ phase c = Chatting ∧
    sent c = as_bytes (handshake_response acc) ++ [0x81; 0x8A; 1; 112; 2; 104; 105] ∧
    frames_of Text (List.map text log) = [0x81; 2; 104; 105] ∧ encode_frame Pong (lit "p") = [0x8A; 1; 112] ∧
    read_frame [0x81; 0x8A; 1; 112; 2; 104; 105] = Some (Err UnexpectedEof).
Proof.
  destruct (run_actions (demo_start ++ demo_end) (serve_init, [])) as [[s log]|] eqn:E; [|vm_compute in E; discriminate E].
  pose proof (run_actions_reach _ _ _ _ _ (reach_init true) E) as Hr.
  vm_compute in E. injection E as Es El. subst s log.
  eexists _, _, _. exists (default [] (accept_key true (lit "x"))). split; [exact Hr|]. split; [done|]. split; [done|]. split; [by vm_compute|]. split; [done|].
  split; [|split; [by vm_compute|split; by vm_compute]]. by vm_compute.
Qed.
