(* ===== verification/TextDocument.v ===== *)
(** * The text editor ([2026-08-04-rust-text-editor/src]): rows and documents

    [row.rs] and [document.rs].  A [usize] is a [nat]: every one here is an index
    into a [Vec], or the length of one, and stays below [isize::MAX].  The disk is
    a map from file names to bytes; a fault of the disk during [save] is an
    argument.  [str::to_lowercase] goes by the tables of Unicode: it is the one
    operation of the interface [Unicode], with what the documentation says of it
    on ASCII text. *)
From S2P Require Import Prelude RustStr RustUtf8.

Class Unicode : Type := {
  to_lowercase : str → str;
  to_lowercase_ascii s : forallb is_ascii s = true → to_lowercase s = to_ascii_lowercase s
}.

(** ** [row.rs] *)
Definition TAB_STOP : nat := 8.

Record Row : Type := mkRow { chars : str; render : str }.
#[export] Instance Row_eq_dec : EqDecision Row.
Proof. solve_decision. Defined.

(** [while col % TAB_STOP != 0 { render.push(' '); col += 1 }]: fewer than
    [TAB_STOP] turns. *)
Fixpoint fill_tab (fuel : nat) (out : str) (col : nat) : str * nat :=
  match fuel with
  | O => (out, col)
  | S fuel => if (col mod TAB_STOP =? 0)%nat then (out, col) else fill_tab fuel (out ++ [SPACE]) (S col)
  end.

Definition rebuild_render (cs : str) : str :=
  (foldl (λ '(out, col) c,
     if c =? TAB then fill_tab TAB_STOP (out ++ [SPACE]) (S col) else (out ++ [c], S col))
   ([], 0%nat) cs).1.

Definition row_of (cs : str) : Row := mkRow cs (rebuild_render cs).
Definition row_default : Row := mkRow [] [].
Definition row_len (r : Row) : nat := length (chars r).

(** [chars[start..end]] of the render string. *)
Definition render_slice (start stop : nat) (r : Row) : str :=
  let stop := Nat.min stop (length (render r)) in
  let start := Nat.min start stop in
  take (stop - start) (drop start (render r)).

(** [Vec::insert], [Vec::remove], [Vec::split_off] at an index in range. *)
Definition vec_insert {A} (at_ : nat) (x : A) (l : list A) : list A := take at_ l ++ x :: drop at_ l.
Definition vec_remove {A} (at_ : nat) (l : list A) : list A := take at_ l ++ drop (S at_) l.

Definition row_insert (at_ : nat) (c : char) (r : Row) : Row :=
  let at_ := Nat.min at_ (length (chars r)) in row_of (vec_insert at_ c (chars r)).

Definition row_delete (at_ : nat) (r : Row) : Row :=
  if (length (chars r) <=? at_)%nat then r else row_of (vec_remove at_ (chars r)).

(** [split] returns the tail and leaves the head. *)
Definition row_split (at_ : nat) (r : Row) : Row * Row :=
  let at_ := Nat.min at_ (length (chars r)) in
  (row_of (take at_ (chars r)), row_of (drop at_ (chars r))).

Definition row_append (other r : Row) : Row := row_of (chars r ++ chars other).

(** What precedes the first occurrence of [needle]: [hay[..i]] for the byte index
    [i] that [hay.find(needle)] returns. *)
Fixpoint find_prefix (needle hay : str) : option str :=
  if starts_with needle hay then Some []
  else match hay with
       | [] => None
       | c :: hay' => match find_prefix needle hay' with Some p => Some (c :: p) | None => None end
       end.

Definition row_find `{Unicode} (query : str) (from : nat) (r : Row) : option nat :=
  if bool_decide (query = []) || (length (chars r) <? from)%nat then None
  else
    let haystack_lower := to_lowercase (drop from (chars r)) in
    let query_lower := to_lowercase query in
    match find_prefix query_lower haystack_lower with
    | Some p => Some (from + length p)%nat
    | None => None
    end.

Definition as_string (r : Row) : str := chars r.

(** ** [document.rs] *)
Record Position : Type := mkPos { px : nat; py : nat }.
#[export] Instance Position_eq_dec : EqDecision Position.
Proof. solve_decision. Defined.

Record Document : Type := mkDoc { rows : list Row; file_name : option str; dirty : bool }.
Definition doc_default : Document := mkDoc [] None false.
Definition set_rows (l : list Row) (d : Document) : Document := mkDoc l (file_name d) (dirty d).
Definition set_dirty (d : Document) : Document := mkDoc (rows d) (file_name d) true.
Definition set_name (n : option str) (d : Document) : Document := mkDoc (rows d) n (dirty d).

Definition doc_len (d : Document) : nat := length (rows d).

(** The disk, and what can go wrong in [save]: the file cannot be created, or a
    write fails when [k] bytes have reached the file. *)
Abbreviation Disk := (gmap str (list Z)) (only parsing).
Inductive fault : Set := NoFault | CreateFails | WriteFails (k : nat).
Inductive save_error : Set := NoName | IoError.

(** [fs::read_to_string] fails if there is no such file or it is not UTF-8. *)
Definition open_doc (filename : str) (disk : Disk) : option Document :=
  bytes ← disk !! filename;
  contents ← from_utf8 bytes;
  Some (mkDoc (List.map row_of (lines contents)) (Some filename) false).

(** The bytes [save] writes, row by row. *)
Definition file_bytes (d : Document) : list Z := flat_map (λ r, as_bytes (as_string r) ++ [LF]) (rows d).

Definition save_doc (f : fault) (d : Document) (disk : Disk) : result unit save_error * Document * Disk :=
  match file_name d with
  | None => (Err NoName, d, disk)
  | Some name =>
      match f with
      | CreateFails => (Err IoError, d, disk)
      | WriteFails k => (Err IoError, d, <[name := take k (file_bytes d)]> disk)
      | NoFault => (Ok tt, mkDoc (rows d) (file_name d) false, <[name := file_bytes d]> disk)
      end
  end.

Definition insert_newline (at_ : Position) (d : Document) : Document :=
  if (length (rows d) <=? py at_)%nat then set_rows (rows d ++ [row_default]) d
  else match rows d !! py at_ with
       | Some r =>
           let '(head, tail) := row_split (px at_) r in
           set_rows (vec_insert (S (py at_)) tail (<[py at_ := head]> (rows d))) d
       | None => d
       end.

Definition doc_insert (at_ : Position) (c : char) (d : Document) : Document :=
  if (length (rows d) <? py at_)%nat then d
  else
    let d := set_dirty d in
    if c =? LF then insert_newline at_ d
    else if (py at_ =? length (rows d))%nat then set_rows (rows d ++ [row_insert 0 c row_default]) d
    else match rows d !! py at_ with
         | Some r => set_rows (<[py at_ := row_insert (px at_) c r]> (rows d)) d
         | None => d
         end.

Definition doc_delete (at_ : Position) (d : Document) : Document :=
  match rows d !! py at_ with
  | None => d
  | Some r =>
      let d := set_dirty d in
      match rows d !! S (py at_) with
      | Some next_row =>
          if (px at_ =? row_len r)%nat then
            set_rows (<[py at_ := row_append next_row r]> (vec_remove (S (py at_)) (rows d))) d
          else set_rows (<[py at_ := row_delete (px at_) r]> (rows d)) d
      | None => set_rows (<[py at_ := row_delete (px at_) r]> (rows d)) d
      end
  end.

(** The first match in the rows [l], which are numbered from [y] on; the first of
    them is searched from column [x], the others from column 0. *)
Fixpoint find_from `{Unicode} (query : str) (x y : nat) (l : list Row) : option Position :=
  match l with
  | [] => None
  | r :: l' =>
      match row_find query x r with
      | Some x' => Some (mkPos x' y)
      | None => find_from query 0 (S y) l'
      end
  end.

Definition doc_find `{Unicode} (query : str) (from : Position) (d : Document) : option Position :=
  if bool_decide (query = []) then None
  else
    match find_from query (px from) (py from) (drop (py from) (rows d)) with
    | Some p => Some p
    | None => find_from query 0 0 (take (Nat.min (py from) (length (rows d))) (rows d))
    end.
