(* ===== verification/TextDocumentProps.v ===== *)
(** * The text editor: properties of rows and documents

    A document is a text in which every row ends in a line feed: edits are
    insertions and deletions of one character of that text.  Saving and opening
    round-trip, tabs expand to the next stop, and what a search finds. *)
From S2P Require Import Prelude RustStr RustUtf8 TextDocument.

(** ** The render cache *)
(** The reference: the column a character starts at, and what is drawn for it. *)
Fixpoint expand (col : nat) (cs : str) : str :=
  match cs with
  | [] => []
  | c :: cs =>
      if c =? TAB then
        let n := (TAB_STOP - col mod TAB_STOP)%nat in replicate n SPACE ++ expand (col + n) cs
      else c :: expand (S col) cs
  end.

Lemma fill_tab_spec fuel out col k :
  (k < fuel)%nat → ((col + k) mod TAB_STOP = 0)%nat → (∀ j, (j < k)%nat → ((col + j) mod TAB_STOP ≠ 0)%nat) →
  fill_tab fuel out col = (out ++ replicate k SPACE, (col + k)%nat).
Proof.
  revert out col k. induction fuel as [|fuel IH]; intros out col k Hk He Hl; [lia|]. cbn [fill_tab].
  destruct k as [|k].
  - rewrite Nat.add_0_r in He. by rewrite He, app_nil_r, Nat.add_0_r.
  - specialize (Hl 0%nat ltac:(lia)) as H0. rewrite Nat.add_0_r in H0.
    rewrite (proj2 (Nat.eqb_neq _ _)) by done. rewrite (IH _ _ k); [|lia| |].
    + rewrite <-app_assoc. f_equal. lia.
    + by rewrite Nat.add_succ_comm.
    + intros j Hj. rewrite Nat.add_succ_comm. apply Hl. lia.
Qed.

Lemma fill_tab_stop out col :
  fill_tab TAB_STOP (out ++ [SPACE]) (S col) =
    (out ++ replicate (TAB_STOP - col mod TAB_STOP) SPACE, (col + (TAB_STOP - col mod TAB_STOP))%nat).
Proof.
  unfold TAB_STOP. pose proof (Nat.mod_upper_bound col 8 ltac:(lia)) as Hb.
  pose proof (Nat.div_mod col 8 ltac:(lia)) as Hd. set (q := (col / 8)%nat) in *. set (m := (col mod 8)%nat) in *.
  assert (Hmod : ∀ j, (j < 8 - m)%nat → ((S col + j) mod 8 = (if j =? 7 - m then 0 else m + 1 + j))%nat).
  { intros j Hj. destruct (Nat.eqb_spec j (7 - m)).
    - replace (S col + j)%nat with ((q + 1) * 8)%nat by lia. apply Nat.Div0.mod_mul.
    - replace (S col + j)%nat with (m + 1 + j + q * 8)%nat by lia.
      rewrite Nat.Div0.mod_add. apply Nat.mod_small. lia. }
  rewrite (fill_tab_spec 8 _ _ (7 - m)); [|lia| |].
  - rewrite <-app_assoc. change ([SPACE] ++ replicate (7 - m) SPACE) with (replicate (S (7 - m)) SPACE).
    replace (S (7 - m)) with (8 - m)%nat by lia. f_equal. lia.
  - unfold TAB_STOP. rewrite Hmod by lia. by rewrite Nat.eqb_refl.
  - intros j Hj. unfold TAB_STOP. rewrite Hmod by lia. rewrite (proj2 (Nat.eqb_neq _ _)) by lia. lia.
Qed.

Lemma rebuild_render_expand cs : rebuild_render cs = expand 0 cs.
Proof.
  unfold rebuild_render.
  enough (H : ∀ out col, (foldl (λ '(out, col) c,
     if c =? TAB then fill_tab TAB_STOP (out ++ [SPACE]) (S col) else (out ++ [c], S col)) (out, col) cs).1
     = out ++ expand col cs) by apply H.
  induction cs as [|c cs IH]; intros out col; cbn [foldl expand]; [by rewrite app_nil_r|].
  destruct (c =? TAB).
  - rewrite fill_tab_stop, IH. by rewrite <-app_assoc.
  - rewrite IH. by rewrite <-app_assoc.
Qed.

(** The column a character is drawn at. *)
Definition draw_col (cs : str) (i : nat) : nat := length (expand 0 (take i cs)).

Lemma expand_app col a b : expand col (a ++ b) = expand col a ++ expand (col + length (expand col a)) b.
Proof.
  revert col. induction a as [|c a IH]; intros col; cbn [app expand]; [simpl; by rewrite Nat.add_0_r|].
  destruct (c =? TAB); cbn [length app]; rewrite IH.
  - rewrite <-app_assoc, length_app, length_replicate. do 3 f_equal. lia.
  - do 2 f_equal. f_equal. lia.
Qed.

Lemma expand_no_tab col cs : TAB ∉ expand col cs.
Proof.
  revert col. induction cs as [|c cs IH]; intros col; cbn [expand]; [apply not_elem_of_nil|].
  destruct (Z.eqb_spec c TAB).
  - rewrite not_elem_of_app. split; [|done]. intros [E _]%elem_of_replicate. done.
  - rewrite not_elem_of_cons. by split.
Qed.

(** ** Documents as texts *)
Definition flat_rows (l : list Row) : str := flat_map (λ r, chars r ++ [LF]) l.
Definition flat (d : Document) : str := flat_rows (rows d).
Definition offset_of (p : Position) (d : Document) : nat := (length (flat_rows (take (py p) (rows d))) + px p)%nat.

Definition row_wf (r : Row) : Prop := render r = expand 0 (chars r) ∧ LF ∉ chars r.
Definition doc_wf (d : Document) : Prop := Forall row_wf (rows d).

Lemma row_of_wf cs : (LF ∉ cs) → row_wf (row_of cs).
Proof. intros H. split; [apply rebuild_render_expand|done]. Qed.

Lemma row_default_wf : row_wf row_default.
Proof. split; [done|apply not_elem_of_nil]. Qed.

Lemma elem_of_vec_insert {A} i (x y : A) l : y ∈ vec_insert i x l ↔ y = x ∨ y ∈ l.
Proof.
  unfold vec_insert. rewrite elem_of_app, elem_of_cons. rewrite <-(take_drop i l) at 3. rewrite elem_of_app. tauto.
Qed.

Lemma elem_of_vec_remove {A} i (y : A) l : y ∈ vec_remove i l → y ∈ l.
Proof.
  unfold vec_remove. rewrite elem_of_app. intros [H|H].
  - by apply (subseteq_take i l).
  - by apply (subseteq_drop (S i) l).
Qed.

Lemma row_insert_wf i c r : row_wf r → c ≠ LF → row_wf (row_insert i c r).
Proof.
  intros [_ Hr] Hc. apply row_of_wf. rewrite elem_of_vec_insert. intros [E|]; [by destruct Hc|done].
Qed.

Lemma row_delete_wf i r : row_wf r → row_wf (row_delete i r).
Proof.
  intros Hr. unfold row_delete. case_match; [done|]. apply row_of_wf. intros Hin%elem_of_vec_remove. by apply Hr.
Qed.

Lemma row_split_wf i r : row_wf r → row_wf (row_split i r).1 ∧ row_wf (row_split i r).2.
Proof.
  intros [_ Hr]. split; apply row_of_wf; intros H; apply Hr.
  - by apply (subseteq_take _ (chars r)) in H.
  - by apply (subseteq_drop _ (chars r)) in H.
Qed.

Lemma row_append_wf r1 r2 : row_wf r1 → row_wf r2 → row_wf (row_append r2 r1).
Proof. intros [_ H1] [_ H2]. apply row_of_wf. rewrite elem_of_app. tauto. Qed.

Lemma flat_rows_app a b : flat_rows (a ++ b) = flat_rows a ++ flat_rows b.
Proof. apply flat_map_app. Qed.
Lemma flat_rows_cons r b : flat_rows (r :: b) = chars r ++ LF :: flat_rows b.
Proof. change (flat_rows (r :: b)) with ((chars r ++ [LF]) ++ flat_rows b). by rewrite <-app_assoc. Qed.

(** A row in the middle of a document. *)
Lemma rows_split (d : Document) y r :
  rows d !! y = Some r → ∃ l1 l2, rows d = l1 ++ r :: l2 ∧ length l1 = y.
Proof.
  intros H. exists (take y (rows d)), (drop (S y) (rows d)).
  split; [by rewrite take_drop_middle|]. apply lookup_lt_Some in H. rewrite length_take. lia.
Qed.

Lemma insert_mid {A} (l1 l2 : list A) r r' : <[length l1 := r']> (l1 ++ r :: l2) = l1 ++ r' :: l2.
Proof. rewrite <-(Nat.add_0_r (length l1)). by rewrite insert_app_r. Qed.

Lemma vec_insert_mid {A} (l1 l2 : list A) x : vec_insert (length l1) x (l1 ++ l2) = l1 ++ x :: l2.
Proof. unfold vec_insert. by rewrite take_app_length, drop_app_length. Qed.

Lemma vec_remove_mid {A} (l1 l2 : list A) x : vec_remove (length l1) (l1 ++ x :: l2) = l1 ++ l2.
Proof.
  unfold vec_remove. rewrite take_app_length. f_equal.
  rewrite drop_app_ge by lia. by replace (S (length l1) - length l1)%nat with 1%nat by lia.
Qed.

Lemma vec_insert_shift {A} (a b : list A) i x :
  (i ≤ length b)%nat → vec_insert (length a + i) x (a ++ b) = a ++ vec_insert i x b.
Proof.
  intros Hi. unfold vec_insert. rewrite take_app_add', drop_app_add' by done. by rewrite <-app_assoc.
Qed.

Lemma vec_insert_left {A} (a b : list A) i x :
  (i ≤ length a)%nat → vec_insert i x (a ++ b) = vec_insert i x a ++ b.
Proof.
  intros Hi. unfold vec_insert. rewrite take_app_le, drop_app_le by done. by rewrite <-app_assoc.
Qed.

Lemma vec_remove_shift {A} (a b : list A) i : vec_remove (length a + i) (a ++ b) = a ++ vec_remove i b.
Proof.
  unfold vec_remove. rewrite take_app_add', <-Nat.add_succ_r, drop_app_add' by done. by rewrite <-app_assoc.
Qed.

Lemma vec_remove_left {A} (a b : list A) i :
  (i < length a)%nat → vec_remove i (a ++ b) = vec_remove i a ++ b.
Proof.
  intros Hi. unfold vec_remove. rewrite take_app_le, drop_app_le by lia. by rewrite <-app_assoc.
Qed.

(** ** Edits *)
Section edits.
Context (d : Document) (l1 l2 : list Row) (r : Row).
Context (Hd : doc_wf d) (E : rows d = l1 ++ r :: l2).

Lemma mid_lookup : rows d !! length l1 = Some r.
Proof using E. rewrite E. by rewrite list_lookup_middle. Qed.

Lemma mid_offset x : offset_of (mkPos x (length l1)) d = (length (flat_rows l1) + x)%nat.
Proof using E. unfold offset_of. simpl. by rewrite E, take_app_length. Qed.

Lemma mid_wf : Forall row_wf l1 ∧ row_wf r ∧ Forall row_wf l2.
Proof using Hd E. unfold doc_wf in Hd. rewrite E in Hd. by apply Forall_app in Hd as [? [? ?]%Forall_cons]. Qed.

Lemma insert_mid_text x c :
  (x ≤ row_len r)%nat →
  let d' := doc_insert (mkPos x (length l1)) c d in
  flat d' = vec_insert (offset_of (mkPos x (length l1)) d) c (flat d) ∧ doc_wf d'.
Proof using Hd E.
  intros Hx. cbn zeta. pose proof mid_wf as (W1 & W & W2). rewrite mid_offset. unfold doc_insert. cbn [py px].
  assert (Hlt : (length (rows d) <? length l1)%nat = false) by (rewrite E, length_app; apply Nat.ltb_ge; lia).
  rewrite Hlt.
  unfold flat, doc_wf. rewrite E, flat_rows_app, flat_rows_cons, vec_insert_shift by (rewrite length_app; unfold row_len in Hx; lia).
  rewrite vec_insert_left by done.
  destruct (Z.eqb_spec c LF) as [->|Hc].
  - unfold insert_newline. cbn [py px rows set_dirty]. rewrite E, length_app. cbn [length].
    rewrite (proj2 (Nat.leb_gt _ _)) by lia. rewrite list_lookup_middle by done.
    pose proof (row_split_wf x r W) as [Wh Wt]. unfold row_split in *. cbn [fst snd] in Wh, Wt.
    rewrite Nat.min_l in * by done. cbn [rows set_rows]. rewrite insert_mid.
    set (h := row_of (take x (chars r))) in *. set (t := row_of (drop x (chars r))) in *.
    replace (vec_insert (S (length l1)) t (l1 ++ h :: l2)) with (l1 ++ h :: t :: l2).
    + split; [|by rewrite Forall_app, !Forall_cons]. rewrite flat_rows_app, !flat_rows_cons. unfold vec_insert. simpl.
      by rewrite <-!app_assoc.
    + replace (l1 ++ h :: l2) with ((l1 ++ [h]) ++ l2) by (by rewrite <-app_assoc).
      replace (S (length l1)) with (length (l1 ++ [h])) by (rewrite length_app; simpl; lia).
      by rewrite vec_insert_mid, <-app_assoc.
  - cbn [rows set_dirty]. rewrite E, length_app. cbn [length]. rewrite (proj2 (Nat.eqb_neq _ _)) by lia.
    rewrite list_lookup_middle by done. cbn [rows set_rows]. rewrite insert_mid. split.
    + rewrite flat_rows_app, flat_rows_cons. unfold row_insert. simpl. unfold row_len in Hx.
      by rewrite Nat.min_l.
    + rewrite Forall_app, Forall_cons. split_and!; [done|by apply row_insert_wf|done].
Qed.

Lemma delete_mid_text x :
  (x < row_len r)%nat ∨ (x = row_len r ∧ l2 ≠ []) →
  let d' := doc_delete (mkPos x (length l1)) d in
  flat d' = vec_remove (offset_of (mkPos x (length l1)) d) (flat d) ∧ doc_wf d'.
Proof using Hd E.
  intros Hx. cbn zeta. pose proof mid_wf as (W1 & W & W2). rewrite mid_offset. unfold doc_delete. cbn [py px].
  rewrite mid_lookup. cbn [rows set_dirty]. unfold flat, doc_wf. rewrite E, flat_rows_app, flat_rows_cons, vec_remove_shift.
  assert (Enext : (l1 ++ r :: l2) !! S (length l1) = head l2).
  { rewrite lookup_app_r by lia. replace (S (length l1) - length l1)%nat with 1%nat by lia. by destruct l2. }
  rewrite Enext.
  assert (Hin : (x < row_len r)%nat →
    flat_rows (<[length l1 := row_delete x r]> (l1 ++ r :: l2)) =
      flat_rows l1 ++ vec_remove x (chars r ++ LF :: flat_rows l2) ∧
    Forall row_wf (<[length l1 := row_delete x r]> (l1 ++ r :: l2))).
  { intros Hlt. rewrite insert_mid, flat_rows_app, flat_rows_cons, Forall_app, Forall_cons.
    split; [|split_and!; [done|by apply row_delete_wf|done]]. unfold row_len in Hlt.
    rewrite vec_remove_left by done. unfold row_delete. by rewrite (proj2 (Nat.leb_gt _ _)) by done. }
  destruct l2 as [|n l2']; cbn [head rows set_rows set_dirty].
  - destruct Hx as [Hx|[_ []]]; [|done]. by apply Hin.
  - destruct (Nat.eqb_spec x (row_len r)) as [->|Hne]; cbn [rows set_rows]; [|apply Hin; lia].
    replace (vec_remove (S (length l1)) (l1 ++ r :: n :: l2')) with (l1 ++ r :: l2').
    + rewrite insert_mid, flat_rows_app, !flat_rows_cons, Forall_app, Forall_cons. apply Forall_cons in W2 as [Wn W2].
      split; [|split_and!; [done|by apply row_append_wf|done]].
      unfold row_len. rewrite vec_remove_mid. simpl. by rewrite <-app_assoc.
    + replace (l1 ++ r :: n :: l2') with ((l1 ++ [r]) ++ n :: l2') by (by rewrite <-app_assoc).
      replace (S (length l1)) with (length (l1 ++ [r])) by (rewrite length_app; simpl; lia).
      by rewrite vec_remove_mid, <-app_assoc.
Qed.
End edits.

(** A property of rows that the operations on rows keep is kept by the edits. *)
Section row_property.
Context (P : Row → Prop) (P_default : P row_default)
  (P_split : ∀ i r, P r → P (row_split i r).1 ∧ P (row_split i r).2)
  (P_delete : ∀ i r, P r → P (row_delete i r)) (P_append : ∀ r1 r2, P r1 → P r2 → P (row_append r2 r1)).

Lemma doc_insert_rows d p c :
  (∀ i r, P r → c ≠ LF → P (row_insert i c r)) → Forall P (rows d) → Forall P (rows (doc_insert p c d)).
Proof using P_default P_split.
  unfold doc_insert, insert_newline. intros P_insert Hd'. pose proof (proj1 (Forall_forall P _) Hd') as Hd.
  case_match; [done|]. cbn [rows set_dirty].
  assert (Hat : ∀ r, rows d !! py p = Some r → P r) by (intros r Hr; by eapply Hd, list_elem_of_lookup_2).
  destruct (Z.eqb_spec c LF) as [|Hc].
  - case_match; cbn [rows set_rows]; [apply Forall_app; split; [done|]; by apply Forall_singleton|].
    destruct (rows d !! py p) as [r|] eqn:Er; [|done]. destruct (P_split (px p) r (Hat r eq_refl)) as [W1 W2].
    destruct (row_split (px p) r) as [h t]. cbn [rows set_rows].
    apply Forall_forall. intros x [->|Hx]%elem_of_vec_insert; [done|]. revert x Hx. apply Forall_forall.
    by apply Forall_insert.
  - case_match; cbn [rows set_rows].
    + apply Forall_app. split; [done|]. apply Forall_singleton. by apply P_insert.
    + destruct (rows d !! py p) as [r|] eqn:Er; cbn [rows set_rows]; [|done]. apply Forall_insert; [done|].
      apply P_insert; [by apply Hat|done].
Qed.

Lemma doc_delete_rows d p : Forall P (rows d) → Forall P (rows (doc_delete p d)).
Proof using P_delete P_append.
  unfold doc_delete. intros Hd'. pose proof (proj1 (Forall_forall P _) Hd') as Hd. destruct (rows d !! py p) as [r|] eqn:Er; [|done].
  assert (W : P r) by (by eapply Hd, list_elem_of_lookup_2).
  cbn [rows set_dirty]. destruct (rows d !! S (py p)) as [n|] eqn:En; cbn [rows set_rows].
  - assert (Wn : P n) by (by eapply Hd, list_elem_of_lookup_2).
    case_match; cbn [rows set_rows]; (apply Forall_insert; [|by apply P_append || by apply P_delete]); [|done].
    apply Forall_forall. intros x Hx%elem_of_vec_remove. by apply Hd.
  - apply Forall_insert; [done|by apply P_delete].
Qed.
End row_property.

Lemma doc_insert_wf d p c : doc_wf d → doc_wf (doc_insert p c d).
Proof. apply doc_insert_rows; auto using row_default_wf, row_split_wf, row_insert_wf. Qed.
Lemma doc_delete_wf d p : doc_wf d → doc_wf (doc_delete p d).
Proof. apply doc_delete_rows; auto using row_delete_wf, row_append_wf. Qed.

(** A file opens to a well-formed document. *)
Lemma split_on_parts c s p : p ∈ split_on c s → c ∉ p.
Proof.
  revert p. induction s as [|d s IH]; intros p; cbn [split_on]; [intros ->%list_elem_of_singleton; apply not_elem_of_nil|].
  destruct (Z.eqb_spec d c) as [->|Hne]; [intros [->|Hp]%elem_of_cons; [apply not_elem_of_nil|by apply IH]|].
  destruct (split_on c s) as [|q ps]; [intros ->%list_elem_of_singleton; apply not_elem_of_cons; split; [done|apply not_elem_of_nil]|].
  intros [->|Hp]%elem_of_cons.
  - apply not_elem_of_cons. split; [done|]. apply IH, elem_of_cons. by left.
  - apply IH, elem_of_cons. by right.
Qed.

Lemma strip_cr_subset s x : x ∈ strip_cr s → x ∈ s.
Proof.
  unfold strip_cr. destruct (rev s) as [|c r] eqn:E; [done|]. destruct (c =? CR); [|done].
  assert (Es : s = rev r ++ [c]) by (by rewrite <-(rev_involutive s), E). rewrite Es. intros H. apply elem_of_app. by left.
Qed.

Lemma lines_parts s p : p ∈ lines s → ∃ q, q ∈ split_on LF s ∧ ∀ x, x ∈ p → x ∈ q.
Proof.
  unfold lines. generalize (split_on LF s) as l. intros l. induction l as [|q l IH]; cbn [lines_from]; [by intros ?%elem_of_nil|].
  destruct l as [|q' l].
  - destruct q; [by intros ?%elem_of_nil|]. intros ->%list_elem_of_singleton. eexists. split; [apply list_elem_of_singleton; reflexivity|done].
  - intros [->|Hp]%elem_of_cons.
    + exists q. split; [apply elem_of_cons; by left|]. apply strip_cr_subset.
    + destruct (IH Hp) as (q0 & Hq & Hx). exists q0. split; [apply elem_of_cons; by right|done].
Qed.

Lemma open_doc_wf name disk d : open_doc name disk = Some d → doc_wf d.
Proof.
  unfold open_doc. destruct (disk !! name) as [bs|]; [|done]. cbn [mbind option_bind]. destruct (from_utf8 bs) as [s|]; [|done].
  intros [= <-]. unfold doc_wf. cbn [rows]. apply Forall_forall. intros r Hr. apply list_elem_of_In, in_map_iff in Hr as (l & <- & Hl).
  apply row_of_wf. apply list_elem_of_In, lines_parts in Hl as (q & Hq & Hx). intros Hin. by apply (split_on_parts LF s q Hq), Hx.
Qed.

(** ** Saving and opening *)
Definition row_scalar (r : Row) : Prop := forallb is_scalar (chars r) = true.
(** What a saved row is when it is read back: one carriage return at its end is lost. *)
Definition reopened (r r' : Row) : Prop :=
  (∃ cs, chars r = cs ++ [CR] ∧ r' = row_of cs) ∨ (last (chars r) ≠ Some CR ∧ r' = r).

Lemma file_bytes_flat d : file_bytes d = as_bytes (flat d).
Proof.
  unfold file_bytes, flat. induction (rows d) as [|r l IH]; [done|]. cbn [flat_map].
  rewrite IH. change (flat_rows (r :: l)) with ((chars r ++ [LF]) ++ flat_rows l).
  rewrite !as_bytes_app. done.
Qed.

Lemma flat_rows_map l : flat_rows l = flat_map (λ t, t ++ [LF]) (List.map chars l).
Proof. induction l as [|r l IH]; [done|]. simpl. by rewrite <-IH. Qed.

Lemma flat_lines d :
  doc_wf d → Forall row_scalar (rows d) →
  forallb is_scalar (flat d) = true ∧ ∃ rs, List.map row_of (lines (flat d)) = rs ∧ Forall2 reopened (rows d) rs.
Proof.
  intros Hd Hs. unfold flat, doc_wf in *. split.
  - clear Hd. induction Hs as [|r l Hr _ IH]; [done|]. unfold row_scalar in Hr. rewrite flat_rows_cons, forallb_app, Hr. exact IH.
  - eexists. split; [done|]. rewrite flat_rows_map, lines_terminated, !map_map.
    + clear Hs. induction Hd as [|r l [Hr _] _ IH]; constructor; [|done]. unfold reopened.
      destruct (decide (last (chars r) = Some CR)) as [[cs E]%last_Some|Hcr].
      * left. exists cs. by rewrite E, strip_cr_snoc.
      * right. rewrite strip_cr_id by done. split; [done|]. unfold row_of. rewrite rebuild_render_expand, <-Hr. by destruct r.
    + apply Forall_map. eapply Forall_impl; [exact Hd|]. by intros r [_ ?].
Qed.

Lemma reopened_same l rs : Forall2 reopened l rs → Forall (λ r, last (chars r) ≠ Some CR) l → rs = l.
Proof.
  induction 1 as [|r r' l rs [(cs & E & _)|[_ ->]] _ IH]; [done| |]; inversion_clear 1 as [|? ? Hr Hl].
  - rewrite E, last_snoc in Hr. done.
  - by rewrite IH.
Qed.

(** ** Searching *)
(** The text at column [x] of a row begins with the query, but for ASCII case. *)
Definition match_col (query : str) (r : Row) (x : nat) : bool :=
  starts_with (to_ascii_lowercase query) (to_ascii_lowercase (drop x (chars r))).

Definition row_ascii (r : Row) : Prop := forallb is_ascii (chars r) = true.

Lemma row_find_first `{Unicode} query from r :
  query ≠ [] → forallb is_ascii query = true → row_ascii r →
  row_find query from r = List.find (match_col query r) (seq from (row_len r - from)).
Proof.
  intros Hne Hq Hr. unfold row_find. rewrite bool_decide_false by done. cbn [orb].
  unfold row_len. destruct (Nat.ltb_spec (length (chars r)) from) as [|Hle];
    [by replace (length (chars r) - from)%nat with 0%nat by lia|].
  assert (Hd : forallb is_ascii (drop from (chars r)) = true).
  { unfold row_ascii in Hr. rewrite <-(take_drop from (chars r)), forallb_app in Hr. by apply andb_prop in Hr as [_ ?]. }
  rewrite !to_lowercase_ascii by done. rewrite <-length_drop.
  set (cs := drop from (chars r)). assert (Ecs : cs = drop from (chars r)) by done. clearbody cs. clear Hle Hd.
  revert from Ecs. induction cs as [|c cs IH]; intros from Ecs; cbn [length seq List.find].
  - destruct query as [|q query]; [done|]. done.
  - assert (Ecs' : cs = drop (S from) (chars r)) by (by rewrite <-Nat.add_1_r, <-drop_drop, <-Ecs).
    assert (Ef : match_col query r from = starts_with (to_ascii_lowercase query) (to_ascii_lowercase (c :: cs)))
      by (unfold match_col; by rewrite <-Ecs).
    rewrite Ef. change (to_ascii_lowercase (c :: cs)) with (ascii_lower c :: to_ascii_lowercase cs).
    cbn [find_prefix]. destruct (starts_with _ _); [by rewrite Nat.add_0_r|].
    rewrite <-(IH (S from) Ecs'). destruct (find_prefix _ _); [|done]. simpl. f_equal. lia.
Qed.

(** The positions in the order in which a search visits them: the rest of the row
    it starts in, the rows below, and then the rows above. *)
Definition row_positions (y from : nat) (r : Row) : list Position :=
  List.map (λ x, mkPos x y) (seq from (row_len r - from)).
Fixpoint rows_positions (x y : nat) (l : list Row) : list Position :=
  match l with
  | [] => []
  | r :: l' => row_positions y x r ++ rows_positions 0 (S y) l'
  end.
Definition search_order (from : Position) (d : Document) : list Position :=
  rows_positions (px from) (py from) (drop (py from) (rows d)) ++
  rows_positions 0 0 (take (py from) (rows d)).

Definition match_at (query : str) (d : Document) (p : Position) : bool :=
  match rows d !! py p with Some r => match_col query r (px p) | None => false end.

Lemma find_app {A} (f : A → bool) l1 l2 :
  List.find f (l1 ++ l2) = match List.find f l1 with Some x => Some x | None => List.find f l2 end.
Proof. induction l1 as [|x l1 IH]; simpl; [done|]. by destruct (f x). Qed.

Lemma find_map_list {A B} (f : B → bool) (g : A → B) l :
  List.find f (List.map g l) = g <$> List.find (λ x, f (g x)) l.
Proof. induction l as [|x l IH]; simpl; [done|]. by destruct (f (g x)). Qed.

Lemma find_ext_in {A} (f g : A → bool) l : (∀ x, f x = g x) → List.find f l = List.find g l.
Proof. intros H. induction l as [|x l IH]; simpl; [done|]. by rewrite H, IH. Qed.

Lemma find_from_first `{Unicode} query d x y l :
  query ≠ [] → forallb is_ascii query = true → Forall row_ascii l →
  (∀ i r, l !! i = Some r → rows d !! (y + i)%nat = Some r) →
  find_from query x y l = List.find (match_at query d) (rows_positions x y l).
Proof.
  intros Hne Hq Hl. revert x y. induction Hl as [|r l Hr Hl IH]; intros x y Hrows; cbn [find_from rows_positions]; [done|].
  rewrite row_find_first by done. rewrite find_app. unfold row_positions at 1. rewrite find_map_list.
  assert (Hy : rows d !! y = Some r) by (rewrite <-(Nat.add_0_r y); by apply Hrows).
  rewrite (find_ext_in (λ k, match_at query d (mkPos k y)) (match_col query r)) by (intros k; unfold match_at; simpl; by rewrite Hy).
  destruct (List.find _ _); [done|]. simpl. apply IH. intros i r' Hi.
  rewrite Nat.add_succ_comm. by apply (Hrows (S i)).
Qed.

Lemma doc_find_first `{Unicode} query from d :
  query ≠ [] → forallb is_ascii query = true → Forall row_ascii (rows d) →
  doc_find query from d = List.find (match_at query d) (search_order from d).
Proof.
  intros Hne Hq Hd. unfold doc_find, search_order. rewrite bool_decide_false by done. rewrite find_app.
  rewrite (find_from_first query d); [|done|done|by apply Forall_drop|].
  2: { intros i r Hr. by rewrite <-lookup_drop. }
  destruct (List.find _ _); [done|].
  assert (Et : take (Nat.min (py from) (length (rows d))) (rows d) = take (py from) (rows d)).
  { destruct (Nat.le_ge_cases (py from) (length (rows d))); [by rewrite Nat.min_l|].
    rewrite Nat.min_r by done. by rewrite !take_ge by lia. }
  rewrite Et. apply find_from_first; [done|done|by apply Forall_take|].
  intros i r Hr. by apply lookup_take_Some in Hr as [? _].
Qed.

(** ** Properties *)

(** C3. Editing is editing the text: at any position on a row of a document,
    inserting a character, a line feed included, inserts it in the text at the
    offset of the position; deleting removes the character there, the line feed at
    the end of a row joining it with the next one, and does nothing at the very
    end; on the line below the last row a character starts a new row.  The render
    cache stays right and no row ever holds a line feed. *)
Theorem edits_refine_text d x y c :
  doc_wf d → (∀ r, rows d !! y = Some r → (x ≤ row_len r)%nat) → (y ≤ doc_len d)%nat →
  let p := mkPos x y in
  doc_wf (doc_insert p c d) ∧ doc_wf (doc_delete p d) ∧ dirty (doc_insert p c d) = true ∧
  flat (doc_insert p c d) =
    (if (y =? doc_len d)%nat then flat d ++ (if c =? LF then [LF] else [c; LF])
     else vec_insert (offset_of p d) c (flat d)) ∧
  flat (doc_delete p d) =
    (if (S (offset_of p d) <? length (flat d))%nat then vec_remove (offset_of p d) (flat d) else flat d).
Proof.
  intros Hd Hx Hy. cbn zeta. unfold doc_len in *. destruct (Nat.eqb_spec y (length (rows d))) as [->|Hne].
  - assert (Eoff : offset_of (mkPos x (length (rows d))) d = (length (flat d) + x)%nat)
      by (unfold offset_of; simpl; by rewrite take_ge).
    unfold doc_insert, doc_delete, insert_newline. cbn [py px rows set_dirty]. rewrite Nat.ltb_irrefl, Nat.leb_refl, Nat.eqb_refl.
    rewrite (lookup_ge_None_2 (rows d)) by lia. rewrite Eoff, (proj2 (Nat.ltb_ge _ _)) by lia.
    destruct (Z.eqb_spec c LF) as [->|Hc]; unfold flat, doc_wf; cbn [rows set_rows dirty set_dirty].
    + rewrite flat_rows_app. split_and!; [|done..]. apply Forall_app. split; [done|]. by apply Forall_singleton, row_default_wf.
    + rewrite flat_rows_app. split_and!; [|done..]. apply Forall_app. split; [done|].
      apply Forall_singleton. apply row_insert_wf; [apply row_default_wf|done].
  - destruct (lookup_lt_is_Some_2 (rows d) y) as [r Hr]; [lia|]. specialize (Hx r Hr).
    destruct (rows_split d y r Hr) as (l1 & l2 & E & <-).
    destruct (insert_mid_text d l1 l2 r Hd E x c Hx) as [Ei Wi].
    assert (Hlen : length (flat d) = (length (flat_rows l1) + (row_len r + S (length (flat_rows l2))))%nat)
      by (unfold flat; by rewrite E, flat_rows_app, flat_rows_cons, !length_app).
    assert (Hdirty : dirty (doc_insert (mkPos x (length l1)) c d) = true).
    { unfold doc_insert, insert_newline. cbn [py px rows set_dirty]. rewrite Hr.
      rewrite (proj2 (Nat.ltb_ge _ _)), (proj2 (Nat.leb_gt _ _)), (proj2 (Nat.eqb_neq _ _)) by lia.
      by destruct (c =? LF); [destruct (row_split x r)|]. }
    rewrite (mid_offset d l1 l2 r E) in *. rewrite Hlen.
    destruct (decide (x = row_len r ∧ l2 = [])) as [[-> ->]|Hmid].
    + rewrite (proj2 (Nat.ltb_ge _ _)) by (simpl; lia).
      assert (Hdel : doc_delete (mkPos (row_len r) (length l1)) d = set_dirty d).
      { unfold doc_delete. cbn [py px]. rewrite Hr. rewrite (lookup_ge_None_2 (rows d)) by (rewrite E, length_app; simpl; lia).
        unfold row_delete, row_len. rewrite Nat.leb_refl. unfold set_rows, set_dirty. cbn [rows file_name dirty].
        by rewrite list_insert_id. }
      rewrite Hdel. by split_and!.
    + destruct (delete_mid_text d l1 l2 r Hd E x) as [Ed Wd].
      { destruct (decide (x = row_len r)); [right; split; [done|]; intros ->; by apply Hmid|left; lia]. }
      rewrite (mid_offset d l1 l2 r E) in Ed. rewrite (proj2 (Nat.ltb_lt _ _)); [by split_and!|].
      destruct l2 as [|n l2]; [|rewrite flat_rows_cons, length_app; simpl; lia].
      assert (x ≠ row_len r) by (intros ->; by apply Hmid). simpl. lia.
Qed.

Definition demo_doc : Document := mkDoc [row_of (lit "ab"); row_of (lit "c" ++ [TAB] ++ lit "d")] None false.

Lemma demo_doc_wf : doc_wf demo_doc.
Proof. unfold doc_wf, row_wf. closed. Qed.

Lemma edits_refine_text_witness :
  flat (doc_insert (mkPos 1 1) LF demo_doc) = lit "ab" ++ [LF] ++ lit "c" ++ [LF; TAB] ++ lit "d" ++ [LF] ∧
  flat (doc_delete (mkPos 2 0) demo_doc) = lit "abc" ++ [TAB] ++ lit "d" ++ [LF].
Proof.
  split.
  - refine (proj1 (proj2 (proj2 (proj2 (edits_refine_text demo_doc 1 1 LF demo_doc_wf _ _))))).
    + intros r [= <-]. vm_compute. lia.
    + vm_compute. lia.
  - refine (proj2 (proj2 (proj2 (proj2 (edits_refine_text demo_doc 2 0 LF demo_doc_wf _ _))))).
    + intros r [= <-]. vm_compute. lia.
    + vm_compute. lia.
Defined.

(** C36. Saving: without a fault the file holds the text in UTF-8 and the document is
    clean, and opening the file again succeeds and gives the same rows, but for one
    carriage return at the end of a row, which is lost since [lines] takes it for a
    part of the line ending; where no row ends in one, they are the same.  A fault, or the
    lack of a name, leaves the document as it was, dirty if it was, but may leave only a
    part of the text in the file. *)
Theorem save_open_roundtrip d disk name f :
  doc_wf d → Forall row_scalar (rows d) → file_name d = Some name →
  (let '(res, d', disk') := save_doc NoFault d disk in
   res = Ok tt ∧ dirty d' = false ∧ rows d' = rows d ∧
   disk' !! name = Some (as_bytes (flat d)) ∧ (∀ other, other ≠ name → disk' !! other = disk !! other) ∧
   ∃ rs, open_doc name disk' = Some (mkDoc rs (Some name) false) ∧ Forall2 reopened (rows d) rs ∧
     (Forall (λ r, last (chars r) ≠ Some CR) (rows d) → rs = rows d)) ∧
  (let '(res, d', disk') := save_doc f d disk in
   f ≠ NoFault → res = Err IoError ∧ d' = d ∧
   (disk' = disk ∨ ∃ k, disk' = <[name := take k (as_bytes (flat d))]> disk)) ∧
  save_doc f (set_name None d) disk = (Err NoName, set_name None d, disk).
Proof.
  intros Hd Hs Hn. destruct (flat_lines d Hd Hs) as (Hscalar & rs & Hlines & Hrs). split_and!.
  - unfold save_doc, open_doc. rewrite Hn, file_bytes_flat. split_and!; [done..| | |].
    + by rewrite lookup_insert_eq.
    + intros other Ho. by rewrite lookup_insert_ne.
    + exists rs. split; [|split; [done|by apply reopened_same]].
      rewrite lookup_insert_eq. simpl. rewrite from_utf8_as_bytes by done. simpl. by rewrite Hlines.
  - unfold save_doc. rewrite Hn, file_bytes_flat. destruct f as [| |k]; [done| |]; intros _; split_and!; [done..|by left|done|done|].
    right. by exists k.
  - done.
Qed.

Definition cr_doc : Document := mkDoc [row_of (lit "ab"); row_of (lit "c" ++ [CR])] (Some (lit "f")) true.
Lemma save_open_roundtrip_witness :
  let '(res, d', disk') := save_doc NoFault cr_doc ∅ in
  ∃ rs, open_doc (lit "f") disk' = Some (mkDoc rs (Some (lit "f")) false) ∧ Forall2 reopened (rows cr_doc) rs.
Proof.
  pose proof (save_open_roundtrip cr_doc ∅ (lit "f") NoFault
    ltac:(unfold doc_wf, row_wf; closed) ltac:(unfold row_scalar; closed) eq_refl) as [H _].
  destruct (save_doc NoFault cr_doc ∅) as [[res d'] disk'].
  destruct H as (_ & _ & _ & _ & _ & rs & E & Hrs & _). exists rs. exact (conj E Hrs).
Defined.

(** The loss, from a file: a row that ends in a carriage return can be opened, and saving and
    opening again takes the carriage return away; so do the line endings CR LF of a whole file. *)
Lemma carriage_return_lost :
  let disk : Disk := {[lit "f" := lit "a" ++ [CR; CR; LF] ++ lit "b" ++ [CR; LF]]} in
  let texts d := List.map chars (rows d) in
  match open_doc (lit "f") disk with
  | Some d =>
      let '(res, _, disk') := save_doc NoFault d disk in
      texts d = [lit "a" ++ [CR]; lit "b"] ∧ res = Ok tt ∧ disk' !! lit "f" = Some (lit "a" ++ [CR; LF] ++ lit "b" ++ [LF]) ∧
      texts <$> open_doc (lit "f") disk' = Some [lit "a"; lit "b"]
  | None => False
  end.
Proof. by vm_compute. Qed.

(** Tab stops: the cached render of a row shows every character but a tab in one
    column and pads a tab with at least one space up to the next multiple of 8; it
    holds no tab; and a slice of it is never wider than what was asked for. *)
Theorem tabs_expand cs i c :
  cs !! i = Some c →
  render (row_of cs) = expand 0 cs ∧ (TAB ∉ render (row_of cs)) ∧
  (if c =? TAB
   then draw_col cs (S i) = ((draw_col cs i / TAB_STOP + 1) * TAB_STOP)%nat ∧
        ∀ k, (draw_col cs i ≤ k < draw_col cs (S i))%nat → render (row_of cs) !! k = Some SPACE
   else draw_col cs (S i) = S (draw_col cs i) ∧ render (row_of cs) !! draw_col cs i = Some c) ∧
  ∀ a b, (length (render_slice a b (row_of cs)) ≤ b - a)%nat.
Proof.
  intros Hi. unfold row_of at 1 2 3 4. cbn [render]. rewrite !rebuild_render_expand.
  assert (Ecs : cs = take i cs ++ c :: drop (S i) cs) by by rewrite take_drop_middle.
  assert (ES : take (S i) cs = take i cs ++ [c]) by by apply take_S_r.
  split_and!; [done|apply expand_no_tab| |].
  - assert (EC : expand 0 cs = expand 0 (take i cs) ++ expand (draw_col cs i) (c :: drop (S i) cs))
      by (rewrite Ecs at 1; by rewrite expand_app).
    assert (ED : draw_col cs (S i) = (draw_col cs i + length (expand (draw_col cs i) [c]))%nat)
      by (unfold draw_col at 1; by rewrite ES, expand_app, length_app).
    rewrite EC, ED. set (col := draw_col cs i). assert (Hcol : length (expand 0 (take i cs)) = col) by done.
    cbn [expand]. destruct (c =? TAB).
    + rewrite app_nil_r, length_replicate. unfold TAB_STOP.
      pose proof (Nat.mod_upper_bound col 8 ltac:(lia)). pose proof (Nat.div_mod col 8 ltac:(lia)).
      split; [lia|]. intros k Hk. rewrite lookup_app_r by lia. rewrite lookup_app_l by (rewrite length_replicate; lia).
      apply lookup_replicate. split; [done|lia].
    + simpl. split; [lia|]. by rewrite lookup_app_r, Hcol, Nat.sub_diag by lia.
  - intros a b. unfold render_slice. rewrite length_take. lia.
Qed.

Lemma tabs_expand_witness :
  render (row_of (lit "a" ++ [TAB] ++ lit "b")) = expand 0 (lit "a" ++ [TAB] ++ lit "b") ∧
  render (row_of (lit "a" ++ [TAB] ++ lit "b")) = lit "a       b".
Proof.
  split; [|vm_compute; reflexivity].
  refine (proj1 (tabs_expand (lit "a" ++ [TAB] ++ lit "b") 1 TAB _)). vm_compute. reflexivity.
Defined.

(** Search: for ASCII text [Document::find] returns the first match, ignoring
    case, in the order: rest of the row from the cursor on, rows below, rows above;
    and [None] if there is none.  The part of the cursor's own row before the
    cursor is not in that order. *)
Theorem find_first_match `{Unicode} query from d :
  query ≠ [] → forallb is_ascii query = true → Forall row_ascii (rows d) →
  doc_find query from d = List.find (match_at query d) (search_order from d).
Proof. apply doc_find_first. Qed.

(** Lower case by the ASCII rules alone: one instance of the interface. *)
Definition ascii_only : Unicode := {| to_lowercase := to_ascii_lowercase; to_lowercase_ascii := λ s _, eq_refl |}.

(** The only match is on the cursor's row, before the cursor: it is not found. *)
Lemma find_first_match_witness :
  @doc_find ascii_only (lit "AB") (mkPos 1 0) demo_doc = None ∧
  @doc_find ascii_only (lit "AB") (mkPos 0 1) demo_doc = Some (mkPos 0 0).
Proof.
  split.
  - rewrite (@find_first_match ascii_only (lit "AB") (mkPos 1 0) demo_doc); [reflexivity|discriminate|reflexivity|unfold row_ascii; closed].
  - rewrite (@find_first_match ascii_only (lit "AB") (mkPos 0 1) demo_doc); [reflexivity|discriminate|reflexivity|unfold row_ascii; closed].
Defined.

(** Where lower-casing changes the number of characters, as it does for U+0130, the
    index of [Row::find] is not an index into the row. *)
Lemma find_index_off `{Unicode} :
  to_lowercase [304; 120] = [105; 775; 120] → row_find (lit "x") 0 (row_of [304; 120]) = Some 2%nat.
Proof.
  intros E. unfold row_find. change (drop 0 (chars (row_of [304; 120]))) with [304; 120]. rewrite E.
  rewrite (to_lowercase_ascii (lit "x")) by done. reflexivity.
Qed.
