(* ===== verification/TextEditor.v ===== *)
(** * The text editor: the editor and what it draws

    [terminal.rs], [editor.rs] and [main.rs].  The terminal belongs to crossterm: what
    its calls return is data that arrives, the results of [event::read] and of the
    flushes in the order of the calls; drawing is the list of commands queued.  [None]
    is a panic of the drawing: [String::truncate] panics inside a character. *)
From S2P Require Import Prelude RustStr RustUtf8 TextDocument.

(** ** crossterm's events, as far as the editor looks at them *)
Inductive KeyCode : Type :=
| Char (c : char) | Enter | Delete | Backspace | Esc
| Up | Down | Left | Right | PageUp | PageDown | Home | End_ | OtherKey.
Inductive Modifiers : Set := NoModifier | SHIFT | CONTROL | OtherModifiers.
#[export] Instance Modifiers_eq_dec : EqDecision Modifiers.
Proof. solve_decision. Defined.
#[export] Instance KeyCode_eq_dec : EqDecision KeyCode.
Proof. solve_decision. Defined.
Record KeyEvent : Type := mkKey { code : KeyCode; modifiers : Modifiers }.
(** [Event]: a key, or a resize, a mouse event, a paste or a change of focus. *)
Inductive Event : Type := KeyPress (key : KeyEvent) | OtherEvent.

(** ** [terminal.rs]: input and output

    [Terminal::read_key] on the results of [event::read] to come, of which there are
    only errors after the last; it loops past the events that are no keys. *)
Fixpoint read_key (events : list (result Event unit)) : result KeyEvent unit * list (result Event unit) :=
  match events with
  | [] => (Err tt, [])
  | Err _ :: events => (Err tt, events)
  | Ok (KeyPress key) :: events => (Ok key, events)
  | Ok OtherEvent :: events => read_key events
  end.

(** What the successive calls of [read_key] return; the editor sees no more of the
    events than this. *)
Fixpoint key_results (events : list (result Event unit)) : list (result KeyEvent unit) :=
  match events with
  | [] => []
  | Err _ :: events => Err tt :: key_results events
  | Ok (KeyPress key) :: events => Ok key :: key_results events
  | Ok OtherEvent :: events => key_results events
  end.
Lemma key_results_read events :
  match key_results events with
  | [] => (read_key events).1 = Err tt ∧ key_results (read_key events).2 = []
  | r :: rs => (read_key events).1 = r ∧ key_results (read_key events).2 = rs
  end.
Proof. induction events as [|[[key|]|[]] events IH]; done. Qed.

(** The terminal during a session: the results of the calls of [read_key] to come, and
    those of [Terminal::flush], which succeeds after the last. *)
Record Tty : Type := mkTty { reads : list (result KeyEvent unit); flushes : list (result unit unit) }.
Definition next_key (t : Tty) : result KeyEvent unit * Tty :=
  match reads t with [] => (Err tt, t) | r :: rs => (r, mkTty rs (flushes t)) end.
Definition flush (t : Tty) : result unit unit * Tty :=
  match flushes t with [] => (Ok tt, t) | r :: fs => (r, mkTty (reads t) fs) end.

(** What the editor queues on the terminal. *)
Inductive Command : Type :=
| Hide | Show | MoveTo (x y : nat) | ClearAll | ClearCurrentLine | PrintText (s : str)
| SetBackground (r g b : Z) | SetForeground (r g b : Z) | ResetColors.

(** [Color::Rgb], and the commands that set one. *)
Record Color : Type := Rgb { c_r : Z; c_g : Z; c_b : Z }.
Definition set_bg_color (c : Color) : Command := SetBackground (c_r c) (c_g c) (c_b c).
Definition set_fg_color (c : Color) : Command := SetForeground (c_r c) (c_g c) (c_b c).

Definition STATUS_BG : Color := Rgb 63 63 63.
Definition STATUS_FG : Color := Rgb 239 239 239.
Definition QUIT_TIMES : nat := 3.

(** [size] is what [Terminal::new] leaves of the screen for the text. *)
Record Editor : Type := mkEditor {
  should_quit : bool; size : nat * nat; cursor : Position; offset : Position;
  document : Document; status_message : str; quit_times : nat
}.
Definition set_quit (e : Editor) : Editor :=
  mkEditor true (size e) (cursor e) (offset e) (document e) (status_message e) (quit_times e).
Definition set_cursor (p : Position) (e : Editor) : Editor :=
  mkEditor (should_quit e) (size e) p (offset e) (document e) (status_message e) (quit_times e).
Definition set_offset (p : Position) (e : Editor) : Editor :=
  mkEditor (should_quit e) (size e) (cursor e) p (document e) (status_message e) (quit_times e).
Definition set_document (d : Document) (e : Editor) : Editor :=
  mkEditor (should_quit e) (size e) (cursor e) (offset e) d (status_message e) (quit_times e).
Definition set_status (s : str) (e : Editor) : Editor :=
  mkEditor (should_quit e) (size e) (cursor e) (offset e) (document e) s (quit_times e).
Definition set_quit_times (n : nat) (e : Editor) : Editor :=
  mkEditor (should_quit e) (size e) (cursor e) (offset e) (document e) (status_message e) n.

(** [Terminal::new], on what [terminal::size] and [enable_raw_mode] return: the size
    for the text and whether the terminal is left in raw mode. *)
Definition terminal_size (cols lines : nat) : nat * nat := (cols, (lines - 2)%nat).
Definition terminal_new (screen : result (nat * nat) str) (enable : result unit str) : result (nat * nat) str * bool :=
  match screen with
  | Err e => (Err e, false)
  | Ok (cols, lines) => match enable with Err e => (Err e, false) | Ok _ => (Ok (terminal_size cols lines), true) end
  end.
(** [Drop]: the result of [disable_raw_mode] is ignored. *)
Definition terminal_drop (disable : result unit str) (raw : bool) : bool :=
  match disable with Ok _ => false | Err _ => raw end.

Definition show_nat (n : nat) : str := show (Z.of_nat n).

Definition editor_new (filename : option str) (terminal : result (nat * nat) str) (disk : Disk) : result Editor str :=
  let '(document, status) :=
    match filename with
    | Some name =>
        match open_doc name disk with
        | Some doc => (doc, [])
        | None => (doc_default, lit "ERR: Could not open file: " ++ name)
        end
    | None => (doc_default, lit "HELP: Ctrl-S = save | Ctrl-F = find | Ctrl-Q = quit")
    end in
  match terminal with
  | Ok size => Ok (mkEditor false size (mkPos 0 0) (mkPos 0 0) document status QUIT_TIMES)
  | Err e => Err e
  end.

(** ** Drawing *)
(** [s.truncate(n)], in bytes: nothing if [s] is no longer, a panic inside a
    character. *)
Fixpoint truncate (n : nat) (s : str) : option str :=
  match s with
  | [] => Some []
  | c :: s' =>
      if (n =? 0)%nat then Some []
      else
        let k := length (utf8_char c) in
        if (n <? k)%nat then None else t ← truncate (n - k) s'; Some (c :: t)
  end.
Definition byte_len (s : str) : nat := length (as_bytes s).
Definition spaces (n : nat) : str := replicate n SPACE.

Definition draw_row (e : Editor) (r : Row) : list Command :=
  [PrintText (render_slice (px (offset e)) (px (offset e) + (size e).1) r)].

Definition draw_welcome_message (e : Editor) : option (list Command) :=
  let welcome_message := lit "Hecto editor -- version 0.1.0" in
  let width := (size e).1 in
  let len := byte_len welcome_message in
  let padding := ((width - len) / 2)%nat in
  let message := lit "~" ++ spaces (padding - 1) ++ welcome_message in
  message ← truncate width message;
  Some [PrintText message].

(** One screen line. *)
Definition draw_line (e : Editor) (terminal_row : nat) : option (list Command) :=
  let file_row := (terminal_row + py (offset e))%nat in
  body ← match rows (document e) !! file_row with
         | Some r => Some (draw_row e r)
         | None =>
             if bool_decide (rows (document e) = []) && (terminal_row =? (size e).2 / 3)%nat
             then draw_welcome_message e
             else Some [PrintText (lit "~")]
         end;
  Some ([ClearCurrentLine] ++ body ++ [PrintText crlf]).

Definition draw_rows (e : Editor) : option (list Command) :=
  for_each (λ terminal_row out, l ← draw_line e terminal_row; Some (out ++ l)) (seq 0 (size e).2) [].

Definition draw_status_bar (e : Editor) : option (list Command) :=
  let width := (size e).1 in
  let d := document e in
  let modified := if dirty d then lit " (modified)" else [] in
  let name := match file_name d with Some n => n | None => lit "[No Name]" end in
  let status := take 20 name ++ modified ++ lit " - " ++ show_nat (doc_len d) ++ lit " lines" in
  let line_indicator := show_nat (S (py (cursor e))) ++ lit "/" ++ show_nat (doc_len d) in
  let len := (byte_len status + byte_len line_indicator)%nat in
  let status := status ++ spaces (width - len) ++ line_indicator in
  status ← truncate width status;
  Some [set_bg_color STATUS_BG; set_fg_color STATUS_FG; PrintText status; ResetColors; PrintText crlf].

Definition draw_message_bar (e : Editor) : option (list Command) :=
  text ← truncate (size e).1 (status_message e);
  Some [ClearCurrentLine; PrintText text].

(** [pos.x.min(u16::MAX)] *)
Definition U16_MAX : nat := Z.to_nat 65535.
Definition move_to (x y : nat) : Command := MoveTo (Nat.min x U16_MAX) (Nat.min y U16_MAX).

Definition refresh_screen (e : Editor) : option (list Command) :=
  body ← (if should_quit e then Some [ClearAll; PrintText (lit "Goodbye." ++ crlf)]
          else
            r ← draw_rows e; s ← draw_status_bar e; m ← draw_message_bar e;
            Some (r ++ s ++ m ++ [move_to (px (cursor e) - px (offset e)) (py (cursor e) - py (offset e))]));
  Some ([Hide; move_to 0 0] ++ body ++ [Show]).

(** ** The cursor *)
Definition width_at (d : Document) (y : nat) : nat :=
  match rows d !! y with Some r => row_len r | None => 0 end.

Definition move_cursor (key : KeyCode) (e : Editor) : Editor :=
  let d := document e in
  let x := px (cursor e) in
  let y := py (cursor e) in
  let height := doc_len d in
  let width := width_at d y in
  let '(x, y) :=
    match key with
    | Up => (x, (y - 1)%nat)
    | Down => if (y <? height)%nat then (x, S y) else (x, y)
    | Left =>
        if (0 <? x)%nat then ((x - 1)%nat, y)
        else if (0 <? y)%nat then (width_at d (y - 1), (y - 1)%nat)
        else (x, y)
    | Right =>
        if (x <? width)%nat then (S x, y)
        else if (y <? height)%nat then (0%nat, S y)
        else (x, y)
    | PageUp => (x, (y - (size e).2)%nat)
    | PageDown => (x, Nat.min (y + (size e).2) height)
    | Home => (0%nat, y)
    | End_ => (width, y)
    | _ => (x, y)
    end in
  let width := width_at d y in
  set_cursor (mkPos (if (width <? x)%nat then width else x) y) e.

Definition scroll_axis (p off extent : nat) : nat :=
  if (p <? off)%nat then p
  else if (off + extent <=? p)%nat then S (p - extent)
  else off.
Definition scroll (e : Editor) : Editor :=
  let '(width, height) := size e in
  set_offset (mkPos (scroll_axis (px (cursor e)) (px (offset e)) width)
                    (scroll_axis (py (cursor e)) (py (offset e)) height)) e.

(** ** Prompts *)
Definition Callback : Type := Editor → KeyEvent → str → Editor.

(** The result ([Err] if flushing or [read_key] fails), the editor, and the terminal;
    the two lists are those of the terminal before. *)
Fixpoint prompt (text : str) (callback : Callback) (keys : list (result KeyEvent unit)) (fl : list (result unit unit))
    (answer : str) (e : Editor) : option (result (option str) unit * Editor * Tty) :=
  let e := set_status (text ++ answer) e in
  _ ← refresh_screen e;
  let '(flushed, t) := flush (mkTty keys fl) in
  match flushed, keys with
  | Err _, _ => Some (Err tt, e, t)
  | Ok _, [] => Some (Err tt, e, t)
  | Ok _, Err _ :: keys => Some (Err tt, e, mkTty keys (flushes t))
  | Ok _, Ok key :: keys =>
      let next answer := prompt text callback keys (flushes t) answer (callback e key answer) in
      match code key with
      | Backspace => next (removelast answer)
      | Enter => Some (Ok (Some answer), set_status [] e, mkTty keys (flushes t))
      | Esc => Some (Ok None, callback e key [], mkTty keys (flushes t))
      | Char c =>
          next (if bool_decide (modifiers key = NoModifier) || bool_decide (modifiers key = SHIFT)
                then answer ++ [c] else answer)
      | _ => next answer
      end
  end.

(** [unwrap_or(None)] *)
Definition answered (r : result (option str) unit) : option str :=
  match r with Ok o => o | Err _ => None end.

Definition write_document (f : fault) (e : Editor) (disk : Disk) : Editor * Disk :=
  let '(res, d, disk) := save_doc f (document e) disk in
  (set_status (match res with Ok _ => lit "File saved successfully." | Err _ => lit "Error writing file!" end)
     (set_document d e), disk).

Definition save (f : fault) (t : Tty) (e : Editor) (disk : Disk) : option (Editor * Tty * Disk) :=
  match file_name (document e) with
  | Some _ => let '(e, disk) := write_document f e disk in Some (e, t, disk)
  | None =>
      '(r, e, t) ← prompt (lit "Save as: ") (λ e _ _, e) (reads t) (flushes t) [] e;
      match answered r with
      | None => Some (set_status (lit "Save aborted.") e, t, disk)
      | Some name =>
          let e := set_document (set_name (Some name) (document e)) e in
          let '(e, disk) := write_document f e disk in Some (e, t, disk)
      end
  end.

Section editor.
Context `{Unicode}.

(** The closure of [search]. *)
Definition search_callback : Callback := λ e key query,
  if bool_decide (code key = Enter) then e
  else match doc_find query (cursor e) (document e) with
       | Some position => scroll (set_cursor position e)
       | None => e
       end.

Definition search (t : Tty) (e : Editor) : option (Editor * Tty) :=
  let old_position := cursor e in
  '(r, e, t) ← prompt (lit "Search (ESC to cancel): ") search_callback (reads t) (flushes t) [] e;
  match answered r with
  | None => Some (scroll (set_cursor old_position e), t)
  | Some _ => Some (e, t)
  end.

(** The end of [process_keypress]. *)
Definition after_key (e : Editor) : Editor :=
  let e := scroll e in
  if (quit_times e <? QUIT_TIMES)%nat then set_status [] (set_quit_times QUIT_TIMES e) else e.

Definition is_ctrl (c : char) (key : KeyEvent) : bool :=
  bool_decide (code key = Char c) && bool_decide (modifiers key = CONTROL).

Definition quit_warning (n : nat) : str :=
  lit "WARNING! File has unsaved changes. Press Ctrl-Q " ++ show_nat n ++ lit " more times to quit.".

(** The keys that only edit or move. *)
Definition edit_key (key : KeyEvent) (e : Editor) : Editor :=
  match code key with
  | Char c => move_cursor Right (set_document (doc_insert (cursor e) c (document e)) e)
  | Enter => move_cursor Right (set_document (doc_insert (cursor e) LF (document e)) e)
  | Delete => set_document (doc_delete (cursor e) (document e)) e
  | Backspace =>
      if (0 <? px (cursor e))%nat || (0 <? py (cursor e))%nat then
        let e := move_cursor Left e in set_document (doc_delete (cursor e) (document e)) e
      else e
  | Up | Down | Left | Right | PageUp | PageDown | Home | End_ => move_cursor (code key) e
  | Esc | OtherKey => e
  end.

(** The key pressed, the terminal after reading it. *)
Definition press (f : fault) (key : KeyEvent) (t : Tty) (e : Editor) (disk : Disk) : option (Editor * Tty * Disk) :=
  if is_ctrl 113 key then
    if dirty (document e) && (0 <? quit_times e)%nat then
      Some (set_quit_times (quit_times e - 1) (set_status (quit_warning (quit_times e)) e), t, disk)
    else Some (after_key (set_quit e), t, disk)
  else if is_ctrl 115 key then
    '(e, t, disk) ← save f t e disk; Some (after_key e, t, disk)
  else if is_ctrl 102 key then
    '(e, t) ← search t e; Some (after_key e, t, disk)
  else Some (after_key (edit_key key e), t, disk).

Definition process_keypress (f : fault) (t : Tty) (e : Editor) (disk : Disk)
  : option (result unit unit * (Editor * Tty * Disk)) :=
  match next_key t with
  | (Err _, t) => Some (Err tt, (e, t, disk))
  | (Ok key, t) => s ← press f key t e disk; Some (Ok tt, s)
  end.

(** How [run] ends: by quitting, with the last screen, or in [die]; [fuel] bounds the
    turns.  The faults of the disk come one per turn. *)
Inductive Ending : Type :=
| Quits (screen : list Command) (e : Editor) (disk : Disk)
| Dies (e : Editor) (disk : Disk)
| OutOfFuel.
Fixpoint run (fuel : nat) (faults : nat → fault) (t : Tty) (e : Editor) (disk : Disk) : option Ending :=
  match fuel with
  | O => Some OutOfFuel
  | S fuel =>
      screen ← refresh_screen e;
      match flush t with
      | (Err _, _) => Some (Dies e disk)
      | (Ok _, t) =>
          if should_quit e then Some (Quits screen e disk)
          else
            '(res, (e, t, disk)) ← process_keypress (faults 0%nat) t e disk;
            match res with
            | Ok _ => run fuel (λ n, faults (S n)) t e disk
            | Err _ => Some (Dies e disk)
            end
      end
  end.

(** ** [main.rs]

    What the operating system will answer, and how the process ends: it returns,
    having reported that the editor could not start or after the session, or it
    panics, in [die] or in drawing, which unwinds and drops the editor; with it
    whether the terminal is left in raw mode. *)
Record System : Type := mkSystem {
  screen : result (nat * nat) str; enable : result unit str; disable : result unit str;
  events : list (result Event unit); flushed : list (result unit unit); faults : nat → fault; files : Disk
}.
Inductive Exit : Type :=
| NotStarted (message : str) | Returned (e : Editor) (disk : Disk) | Died | DrawingPanicked | StillRunning.

Definition main (fuel : nat) (args : list str) (os : System) : Exit * bool :=
  let filename := args !! 1%nat in
  let '(terminal, raw) := terminal_new (screen os) (enable os) in
  match editor_new filename terminal (files os) with
  | Err e => (NotStarted (lit "Could not start editor: " ++ e), raw)
  | Ok e =>
      match run fuel (faults os) (mkTty (key_results (events os)) (flushed os)) e (files os) with
      | Some (Quits _ e disk) => (Returned e disk, terminal_drop (disable os) raw)
      | Some OutOfFuel => (StillRunning, raw)
      | Some (Dies _ _) => (Died, terminal_drop (disable os) raw)
      | None => (DrawingPanicked, terminal_drop (disable os) raw)
      end
  end.
End editor.
