(* ===== verification/TextEditorProps.v ===== *)
(** * The text editor: properties of a session

    Every key press keeps the cursor on the text and on the screen and the
    document well formed, without a panic; and unsaved changes are not lost by a
    single slip. *)
From S2P Require Import Prelude RustStr RustUtf8 TextDocument TextDocumentProps TextEditor.

(** ** Cursors *)
Definition cursor_ok (p : Position) (d : Document) : Prop :=
  (py p ≤ doc_len d)%nat ∧ (px p ≤ width_at d (py p))%nat.

Definition visible (e : Editor) : Prop :=
  (py (offset e) ≤ py (cursor e) < py (offset e) + (size e).2)%nat ∧
  (px (offset e) ≤ px (cursor e) < px (offset e) + (size e).1)%nat.

Record editor_ok (e : Editor) : Prop := {
  e_doc : doc_wf (document e);
  e_cursor : cursor_ok (cursor e) (document e);
  e_visible : visible e;
  e_quit : (quit_times e ≤ QUIT_TIMES)%nat
}.

Lemma scroll_axis_visible p off extent :
  (0 < extent)%nat → (scroll_axis p off extent ≤ p < scroll_axis p off extent + extent)%nat.
Proof.
  intros He. unfold scroll_axis. destruct (Nat.ltb_spec p off); [lia|].
  destruct (Nat.leb_spec (off + extent) p); lia.
Qed.

Definition screen_ok (e : Editor) : Prop := (0 < (size e).1)%nat ∧ (0 < (size e).2)%nat.

Lemma scroll_visible e : screen_ok e → visible (scroll e).
Proof.
  intros [Hw Hh]. unfold scroll, visible. destruct (size e) as [w h] eqn:E. simpl in *. rewrite E. simpl.
  split; by apply scroll_axis_visible.
Qed.

Lemma scroll_fields e :
  should_quit (scroll e) = should_quit e ∧ size (scroll e) = size e ∧ cursor (scroll e) = cursor e ∧
  document (scroll e) = document e ∧ status_message (scroll e) = status_message e ∧
  quit_times (scroll e) = quit_times e.
Proof. by destruct e as [? [? ?] ? ? ? ? ?]. Qed.

Lemma move_cursor_ok key e :
  (py (cursor e) ≤ doc_len (document e))%nat → cursor_ok (cursor (move_cursor key e)) (document e).
Proof.
  intros Hy. unfold move_cursor.
  set (p := match key with Up => _ | _ => _ end).
  assert (Hp : (p.2 ≤ doc_len (document e))%nat).
  { unfold p. destruct key; simpl; try lia; repeat case_match; simpl; try lia.
    all: match goal with H : (_ <? _)%nat = true |- _ => apply Nat.ltb_lt in H; lia end. }
  destruct p as [x y]. simpl in *. split; simpl; [done|].
  destruct (Nat.ltb_spec (width_at (document e) y) x); lia.
Qed.

(** ** Edits and the cursor *)
Lemma width_at_lookup d y r : rows d !! y = Some r → width_at d y = row_len r.
Proof. intros E. unfold width_at. by rewrite E. Qed.

Lemma doc_insert_len p c d : (doc_len d ≤ doc_len (doc_insert p c d))%nat.
Proof.
  unfold doc_len, doc_insert, insert_newline. case_match; [done|]. cbn [rows set_dirty].
  destruct (c =? LF); case_match; cbn [rows set_rows]; rewrite ?length_app; try lia.
  - destruct (rows d !! py p); [|done]. destruct (row_split _ _). cbn [rows set_rows].
    unfold vec_insert. rewrite length_app, length_take. cbn [length]. rewrite length_drop, length_insert. lia.
  - destruct (rows d !! py p); cbn [rows set_rows]; [by rewrite length_insert|done].
Qed.

Lemma doc_delete_cursor p d : cursor_ok p d → cursor_ok p (doc_delete p d).
Proof.
  intros [Hy Hx]. unfold doc_delete. destruct (rows d !! py p) as [r|] eqn:Er; [|done].
  pose proof (lookup_lt_Some _ _ _ Er) as Hlt. rewrite (width_at_lookup _ _ _ Er) in Hx.
  assert (Hdel : cursor_ok p (set_rows (<[py p := row_delete (px p) r]> (rows d)) (set_dirty d))).
  { split; [unfold doc_len; cbn [rows set_rows]; rewrite length_insert; unfold doc_len in Hy; lia|].
    rewrite (width_at_lookup _ _ (row_delete (px p) r)) by (cbn [rows set_rows]; by rewrite list_lookup_insert_eq).
    unfold row_delete, row_len in *. destruct (Nat.leb_spec (length (chars r)) (px p)); [done|].
    simpl. unfold vec_remove. rewrite length_app, length_take, length_drop. lia. }
  cbn [rows set_dirty]. destruct (rows d !! S (py p)) as [n|] eqn:En; [|done].
  destruct (Nat.eqb_spec (px p) (row_len r)) as [Ex|]; [|done].
  apply lookup_lt_Some in En.
  assert (Hlen : length (vec_remove (S (py p)) (rows d)) = (length (rows d) - 1)%nat).
  { unfold vec_remove. rewrite length_app, length_take, length_drop. lia. }
  split; [unfold doc_len; cbn [rows set_rows]; rewrite length_insert, Hlen; lia|].
  rewrite (width_at_lookup _ _ (row_append n r))
    by (cbn [rows set_rows]; rewrite list_lookup_insert_eq; [done|rewrite Hlen; lia]).
  unfold row_append, row_len in *. simpl. rewrite length_app. lia.
Qed.

(** A key that edits or moves, scrolling included. *)
Definition pre_ok (e : Editor) : Prop :=
  doc_wf (document e) ∧ cursor_ok (cursor e) (document e) ∧ (quit_times e ≤ QUIT_TIMES)%nat ∧ screen_ok e.

Lemma after_key_ok e : pre_ok e → editor_ok (after_key e).
Proof.
  intros (Hd & Hc & Hq & Hs). unfold after_key. pose proof (scroll_visible e Hs) as Hv.
  destruct (scroll_fields e) as (_ & Esz & Ec & Ed & _ & Eq).
  destruct (quit_times (scroll e) <? QUIT_TIMES)%nat; constructor; simpl; rewrite ?Ec, ?Ed, ?Eq; try done.
Qed.

Lemma after_key_fields e :
  should_quit (after_key e) = should_quit e ∧ size (after_key e) = size e ∧ document (after_key e) = document e ∧
  ((quit_times e ≤ QUIT_TIMES)%nat → quit_times (after_key e) = QUIT_TIMES) ∧
  (status_message (after_key e) = status_message e ∨ status_message (after_key e) = []).
Proof.
  unfold after_key. destruct (scroll_fields e) as (Eq & Esz & _ & Ed & Es & Et). rewrite Et.
  destruct (Nat.ltb_spec (quit_times e) QUIT_TIMES); simpl.
  - split_and!; [done..|by right].
  - rewrite Et. split_and!; [done..|lia|by left].
Qed.

Lemma edit_key_ok key e : editor_ok e → screen_ok e → pre_ok (edit_key key e).
Proof.
  intros [Hd Hc Hv Hq] Hs.
  assert (Hmove : ∀ k e', doc_wf (document e') → (py (cursor e') ≤ doc_len (document e'))%nat →
    (quit_times e' ≤ QUIT_TIMES)%nat → screen_ok e' → pre_ok (move_cursor k e')).
  { intros k e' ? ? ? ?. pose proof (move_cursor_ok k e' ltac:(done)) as Hc'. unfold move_cursor in *.
    destruct (match k with Up => _ | _ => _ end) as [x y]. by split_and!. }
  assert (Hins : ∀ c, pre_ok (move_cursor Right (set_document (doc_insert (cursor e) c (document e)) e))).
  { intros c. apply Hmove; [by apply doc_insert_wf| |done|done]. simpl.
    pose proof (doc_insert_len (cursor e) c (document e)). destruct Hc. lia. }
  assert (Hdel : ∀ e', pre_ok e' → pre_ok (set_document (doc_delete (cursor e') (document e')) e')).
  { intros e' (? & ? & ? & ?). split_and!; [by apply doc_delete_wf|by apply doc_delete_cursor|done|done]. }
  assert (He : pre_ok e) by by split_and!. destruct Hc as [Hy Hx].
  unfold edit_key. destruct (code key); auto.
  destruct (_ || _); [|done]. apply Hdel. by apply Hmove.
Qed.

(** ** ASCII sessions *)
Record ascii_ok (e : Editor) : Prop := {
  a_status : forallb is_ascii (status_message e) = true;
  a_name : ∀ n, file_name (document e) = Some n → forallb is_ascii n = true;
  a_rows : Forall row_ascii (rows (document e))
}.
Definition key_ascii (key : KeyEvent) : Prop :=
  match code key with Char c => is_ascii c = true | _ => True end.
(** What remains of the terminal behind some calls, and a terminal that delivers ASCII. *)
Definition later (t' t : Tty) : Prop := reads t' `suffix_of` reads t ∧ flushes t' `suffix_of` flushes t.
Definition read_ascii (r : result KeyEvent unit) : Prop := match r with Ok key => key_ascii key | Err _ => True end.
Definition tty_ascii (t : Tty) : Prop := Forall read_ascii (reads t).

#[export] Instance later_preorder : PreOrder later.
Proof. split; [by intros t|intros t1 t2 t3 [] []; split; by etrans]. Qed.
Lemma later_ascii t t' : later t' t → tty_ascii t → tty_ascii t'.
Proof. intros [[k E] _] H. unfold tty_ascii in *. rewrite E in H. by apply Forall_app in H as [_ ?]. Qed.
Lemma flush_later t : later (flush t).2 t ∧ reads (flush t).2 = reads t.
Proof. destruct t as [r [|f fl]]; [done|]. split; [|done]. split; simpl; [done|by apply suffix_cons_r]. Qed.
Lemma later_reads r k fl : later (mkTty k fl) (mkTty (r :: k) fl).
Proof. split; simpl; [by apply suffix_cons_r|done]. Qed.

Lemma truncate_ascii n s : forallb is_ascii s = true → truncate n s = Some (take n s).
Proof.
  revert n. induction s as [|c s IH]; intros n Hs; [by rewrite take_nil|]. simpl in Hs. apply andb_prop in Hs as [Hc Hs].
  cbn [truncate]. destruct n as [|n]; [done|]. simpl (_ =? 0)%nat. cbn iota.
  assert (E : utf8_char c = [c]) by (unfold utf8_char, is_ascii in *; by destruct (c <? 128); [|lia]).
  rewrite E. cbn [length Nat.ltb]. simpl ((S n <? 1)%nat). cbn iota.
  replace (S n - 1)%nat with n by lia. by rewrite IH.
Qed.

Lemma ascii_app s t : forallb is_ascii (s ++ t) = forallb is_ascii s && forallb is_ascii t.
Proof. apply forallb_app. Qed.

Lemma show_nat_ascii n : forallb is_ascii (show_nat n) = true.
Proof.
  unfold show_nat. pose proof (show_digits (Z.of_nat n) ltac:(lia)) as H.
  apply forallb_forall. intros c Hc. rewrite forallb_forall in H. specialize (H c Hc).
  unfold is_ascii_digit in H. unfold is_ascii. lia.
Qed.

Lemma spaces_ascii n : forallb is_ascii (spaces n) = true.
Proof. induction n; done. Qed.

Lemma take_ascii n s : forallb is_ascii s = true → forallb is_ascii (take n s) = true.
Proof.
  intros H. rewrite <-(take_drop n s), ascii_app in H. by apply andb_prop in H as [? _].
Qed.

Lemma refresh_some e : ascii_ok e → is_Some (refresh_screen e).
Proof.
  intros [Hs Hn Hr]. unfold refresh_screen. destruct (should_quit e); [by eexists|].
  assert (Hrows : is_Some (draw_rows e)).
  { unfold draw_rows. destruct (for_each_inv (λ _ : list Command, True)
      (λ terminal_row out, l ← draw_line e terminal_row; Some (out ++ l)) (seq 0 (size e).2) []) as (s & -> & _);
      [done| |by eexists].
    intros k out _ _. unfold draw_line, draw_welcome_message.
    destruct (rows (document e) !! (k + py (offset e))%nat); [by eexists|].
    destruct (_ && _); [|by eexists]. rewrite truncate_ascii; [by eexists|].
    rewrite !ascii_app, spaces_ascii. done. }
  destruct Hrows as [r ->]. cbn [mbind option_bind].
  unfold draw_status_bar. cbn zeta. rewrite truncate_ascii.
  - cbn [mbind option_bind]. unfold draw_message_bar. rewrite truncate_ascii by done. by eexists.
  - rewrite !ascii_app, spaces_ascii, !show_nat_ascii.
    assert (Hname : forallb is_ascii (take 20 match file_name (document e) with Some n => n | None => lit "[No Name]" end) = true).
    { apply take_ascii. destruct (file_name (document e)) as [n|] eqn:E; [by apply Hn|done]. }
    rewrite Hname. by destruct (dirty (document e)).
Qed.

(** What a prompt may change: the cursor, the offset and the status line. *)
Record session (e0 e : Editor) : Prop := {
  n_ok : editor_ok e;
  n_screen : screen_ok e;
  n_ascii : ascii_ok e;
  n_quit : quit_times e = quit_times e0 ∧ should_quit e = should_quit e0;
  n_doc : document e = document e0
}.

Lemma session_status e0 e s : forallb is_ascii s = true → session e0 e → session e0 (set_status s e).
Proof.
  intros Hs [[? ? ? ?] ? [? ? ?] ? ?]. constructor; [by constructor|done|by constructor|done|done].
Qed.

Lemma prompt_session e0 text callback keys fl answer e :
  forallb is_ascii text = true →
  (∀ e key a, session e0 e → forallb is_ascii a = true → session e0 (callback e key a)) →
  session e0 e → forallb is_ascii answer = true → tty_ascii (mkTty keys fl) →
  ∃ r e' t', prompt text callback keys fl answer e = Some (r, e', t') ∧ session e0 e' ∧
    (∀ a, answered r = Some a → forallb is_ascii a = true).
Proof.
  unfold tty_ascii. cbn [reads]. intros Ht Hcb He Ha Hk. revert fl answer e He Ha.
  induction Hk as [|r keys Hkey Hkeys IH]; intros fl answer e He Ha;
    cbn [prompt];
    assert (Hst : session e0 (set_status (text ++ answer) e))
      by (apply session_status; [by rewrite ascii_app, Ht, Ha|done]);
    destruct (refresh_some _ (n_ascii _ _ Hst)) as [cmds ->]; cbn [mbind option_bind];
    destruct (flush _) as [[[]|[]] t]; try by (eexists _, _, _; split_and!).
  destruct r as [key|[]]; [|by (eexists _, _, _; split_and!)].
  assert (Hnext : ∀ a, forallb is_ascii a = true →
    ∃ r e' t', prompt text callback keys (flushes t) a (callback (set_status (text ++ answer) e) key a) = Some (r, e', t') ∧
      session e0 e' ∧ (∀ a, answered r = Some a → forallb is_ascii a = true))
    by (intros a Haa; apply IH; [by apply Hcb|done]).
  simpl in Hkey. unfold key_ascii in Hkey. destruct (code key) as [c| | | | | | | | | | | | |]; try by apply Hnext.
  - apply Hnext. destruct (_ || _); [|done]. rewrite ascii_app, Ha. simpl. by rewrite Hkey.
  - eexists _, _, _. split_and!; [done|by apply session_status|]. by intros a [= <-].
  - apply Hnext. clear -Ha. induction answer as [|c s IH]; [done|]. simpl in Ha. apply andb_prop in Ha as [Hc Hs].
    destruct s; [done|]. cbn [removelast forallb]. rewrite Hc. by apply IH.
  - eexists _, _, _. split_and!; [done|by apply Hcb|done].
Qed.

(** A prompt only reads on. *)
Lemma prompt_later text callback keys fl answer e r e' t' :
  prompt text callback keys fl answer e = Some (r, e', t') → later t' (mkTty keys fl).
Proof.
  revert fl answer e. induction keys as [|k keys IH]; intros fl answer e E; cbn [prompt] in E;
    destruct (refresh_screen _); try done; cbn [mbind option_bind] in E.
  - pose proof (flush_later (mkTty [] fl)) as [H _]. destruct (flush _) as [[[]|[]] t]; by injection E as _ _ <-.
  - pose proof (flush_later (mkTty (k :: keys) fl)) as [H Hr]. destruct (flush _) as [[[]|[]] t]; simpl in H, Hr; [|by injection E as _ _ <-].
    assert (Hl : later (mkTty keys (flushes t)) (mkTty (k :: keys) fl)).
    { etrans; [apply (later_reads k)|]. by destruct t; simpl in Hr; subst. }
    destruct k as [key|[]]; [|by injection E as _ _ <-].
    assert (Hnext : ∀ a, prompt text callback keys (flushes t) a (callback (set_status (text ++ answer) e) key a) = Some (r, e', t') →
      later t' (mkTty (Ok key :: keys) fl)) by (intros a Ea; apply IH in Ea; by etrans).
    destruct (code key); try (by apply Hnext in E); by injection E as _ _ <-.
Qed.

Lemma match_at_cursor query d p : query ≠ [] → match_at query d p = true → cursor_ok p d.
Proof.
  intros Hne Hm. unfold match_at in Hm. destruct (rows d !! py p) as [r|] eqn:Er; [|done].
  split; [apply lookup_lt_Some in Er; unfold doc_len; lia|]. rewrite (width_at_lookup _ _ _ Er).
  unfold match_col in Hm. destruct (Nat.le_gt_cases (px p) (row_len r)); [done|].
  rewrite drop_ge in Hm by (unfold row_len in *; lia). by destruct query.
Qed.

Lemma find_some_true {A} (f : A → bool) l x : List.find f l = Some x → f x = true.
Proof. intros H. by apply find_some in H as [_ ?]. Qed.

Lemma search_callback_session `{Unicode} e0 e key a :
  session e0 e → forallb is_ascii a = true → session e0 (search_callback e key a).
Proof.
  intros He Ha. unfold search_callback. case_bool_decide; [done|].
  destruct (doc_find a (cursor e) (document e)) as [p|] eqn:Ef; [|done].
  assert (Hne : a ≠ []) by (intros ->; discriminate Ef).
  destruct He as [[Hd Hc Hv Hq] Hs [Has Han Har] Hqq Hdoc].
  rewrite doc_find_first in Ef by done. apply find_some_true, match_at_cursor in Ef; [|done].
  destruct (scroll_fields (set_cursor p e)) as (Eq & Esz & Ecur & Ed & Es & Et).
  constructor; [constructor| |constructor| |]; rewrite ?Eq, ?Esz, ?Ecur, ?Ed, ?Es, ?Et; simpl; try done.
  - by apply scroll_visible.
  - unfold screen_ok. by rewrite Esz.
Qed.

(** The hypotheses for a key that opens a prompt. *)
Definition opens_prompt (key : KeyEvent) : bool := is_ctrl 115 key || is_ctrl 102 key.

Lemma session_start e : editor_ok e → screen_ok e → ascii_ok e → session e e.
Proof. intros H1 H2 H3. by constructor. Qed.

(** Saving writes the status line and may name the document. *)
Lemma write_document_spec f e disk :
  let '(e', disk') := write_document f e disk in
  rows (document e') = rows (document e) ∧ file_name (document e') = file_name (document e) ∧
  cursor e' = cursor e ∧ offset e' = offset e ∧ size e' = size e ∧ quit_times e' = quit_times e ∧
  should_quit e' = should_quit e ∧ forallb is_ascii (status_message e') = true.
Proof.
  unfold write_document, save_doc. destruct (file_name (document e)) eqn:En; [|by rewrite ?En].
  destruct f; simpl; by rewrite ?En.
Qed.

Lemma editor_ok_rows e e' :
  rows (document e') = rows (document e) → cursor e' = cursor e → offset e' = offset e → size e' = size e →
  quit_times e' = quit_times e → editor_ok e → editor_ok e'.
Proof.
  intros Er Ec Eo Es Eq [Hd Hc Hv Hq]. constructor.
  - unfold doc_wf. by rewrite Er.
  - unfold cursor_ok, doc_len, width_at in *. by rewrite Er, Ec.
  - unfold visible in *. by rewrite Ec, Eo, Es.
  - by rewrite Eq.
Qed.

(** What a key press that saves or searches leaves. *)
Definition outcome_ok (e : Editor) (o : option (Editor * Tty * Disk)) : Prop :=
  ∃ e' t' disk', o = Some (e', t', disk') ∧ editor_ok e' ∧ screen_ok e' ∧ ascii_ok e' ∧ should_quit e' = should_quit e.

Lemma after_key_ascii e : ascii_ok e → ascii_ok (after_key e).
Proof.
  intros [Hs Hn Hr]. destruct (after_key_fields e) as (_ & _ & Ed & _ & Es). constructor; rewrite ?Ed; [|done..].
  by destruct Es as [->| ->].
Qed.

Lemma finish_ok e0 e t disk :
  editor_ok e → screen_ok e → ascii_ok e → should_quit e = should_quit e0 → outcome_ok e0 (Some (after_key e, t, disk)).
Proof.
  intros [Hd Hc Hv Hq] Hs Ha Hsq. destruct (after_key_fields e) as (E1 & E2 & _).
  exists (after_key e), t, disk. split_and!; [done|by apply after_key_ok| |by apply after_key_ascii|congruence].
  unfold screen_ok. by rewrite E2.
Qed.

Lemma write_finish f e0 e t disk :
  editor_ok e → screen_ok e → ascii_ok e → should_quit e = should_quit e0 →
  outcome_ok e0 (let '(e', disk') := write_document f e disk in Some (after_key e', t, disk')).
Proof.
  intros He Hs [_ Hn Hr] Hsq. pose proof (write_document_spec f e disk) as H.
  destruct (write_document f e disk) as [e' disk']. destruct H as (Er & En & Ec & Eo & Es & Eq & Esq & Hst).
  apply finish_ok; [by eapply editor_ok_rows| |constructor; [done|by rewrite En|by rewrite Er]|congruence]. unfold screen_ok. by rewrite Es.
Qed.

Lemma save_ok f t e disk :
  editor_ok e → screen_ok e → ascii_ok e → tty_ascii t →
  outcome_ok e ('(e', t', disk') ← save f t e disk; Some (after_key e', t', disk')).
Proof.
  intros He Hs Ha Hk. unfold save. destruct (file_name (document e)) as [n|] eqn:En.
  - pose proof (write_finish f e e t disk He Hs Ha eq_refl) as H. by destruct (write_document f e disk).
  - destruct (prompt_session e (lit "Save as: ") (λ e _ _, e) (reads t) (flushes t) [] e) as (r & e1 & t1 & -> & [H1 H2 H3 [H4 H5] H6] & Hans);
      [done|done|by apply session_start|done|done|]. cbn [mbind option_bind]. destruct H3 as [A1 A2 A3].
    destruct (answered r) as [name|].
    + set (e2 := set_document (set_name (Some name) (document e1)) e1).
      assert (He2 : editor_ok e2) by (by apply (editor_ok_rows e1)).
      assert (Ha2 : ascii_ok e2) by (constructor; [done| |done]; intros n [= <-]; by apply Hans).
      pose proof (write_finish f e e2 t1 disk He2 H2 Ha2 H5) as H. by destruct (write_document f e2 disk).
    + apply finish_ok; [by apply (editor_ok_rows e1)|done|by constructor|done].
Qed.

Lemma search_ok `{Unicode} t e disk :
  editor_ok e → screen_ok e → ascii_ok e → tty_ascii t →
  outcome_ok e ('(e', t') ← search t e; Some (after_key e', t', disk)).
Proof.
  intros He Hs Ha Hk. unfold search.
  destruct (prompt_session e (lit "Search (ESC to cancel): ") search_callback (reads t) (flushes t) [] e)
    as (r & e1 & t1 & -> & [H1 H2 H3 [H4 H5] H6] & _);
    [done|intros; by apply search_callback_session|by apply session_start|done|done|]. cbn [mbind option_bind].
  destruct (answered r) as [q|]; cbn [mbind option_bind]; [by apply finish_ok|].
  destruct (scroll_fields (set_cursor (cursor e) e1)) as (Eq & Esz & Ecur & Ed & Est & Et).
  destruct He as [Hd Hc Hv Hq]. destruct H3 as [A1 A2 A3].
  apply finish_ok; [constructor| |constructor|]; rewrite ?Eq, ?Ecur, ?Ed, ?Et, ?Est; simpl; [by rewrite H6|by rewrite H6| |by rewrite H4| |done..].
  - by apply scroll_visible.
  - unfold screen_ok. by rewrite Esz.
Qed.

(** ** Quitting *)
Definition quit_state (e : Editor) : nat * bool := (quit_times e, should_quit e).

Lemma prompt_keeps text callback keys fl answer e r e' t' :
  (∀ e key a, quit_state (callback e key a) = quit_state e) →
  prompt text callback keys fl answer e = Some (r, e', t') → quit_state e' = quit_state e.
Proof.
  intros Hcb. revert fl answer e. induction keys as [|k keys IH]; intros fl answer e E; cbn [prompt] in E;
    destruct (refresh_screen _); try done; cbn [mbind option_bind] in E;
    destruct (flush _) as [[[]|[]] t]; try (by injection E as _ <- _).
  destruct k as [key|[]]; [|by injection E as _ <- _].
  assert (Hnext : ∀ a, prompt text callback keys (flushes t) a (callback (set_status (text ++ answer) e) key a) = Some (r, e', t') →
    quit_state e' = quit_state e) by (intros a Ea; apply IH in Ea; by rewrite Ea, Hcb).
  destruct (code key); try by apply Hnext in E.
  - by injection E as _ <- _.
  - injection E as _ <- _. by rewrite Hcb.
Qed.

Lemma scroll_quit e : quit_state (scroll e) = quit_state e.
Proof. unfold quit_state. destruct (scroll_fields e) as (-> & _ & _ & _ & _ & ->). done. Qed.

Lemma save_quit f t e disk e' t' disk' :
  save f t e disk = Some (e', t', disk') → quit_state e' = quit_state e ∧ later t' t.
Proof.
  assert (Hw : ∀ e disk e' disk', write_document f e disk = (e', disk') → quit_state e' = quit_state e).
  { intros x dk x' dk' Ew. pose proof (write_document_spec f x dk) as H. rewrite Ew in H.
    destruct H as (_ & _ & _ & _ & _ & Eq & Es & _). unfold quit_state. by rewrite Eq, Es. }
  unfold save. destruct (file_name (document e)).
  - destruct (write_document f e disk) as [e1 d1] eqn:Ew. intros [= <- <- _]. split; [by eapply Hw|done].
  - destruct (prompt _ _ (reads t) (flushes t) [] e) as [[[r e1] t1]|] eqn:Ep; [|done]. cbn [mbind option_bind].
    pose proof (prompt_later _ _ _ _ _ _ _ _ _ Ep) as Hl. destruct t as [rs fs]. apply prompt_keeps in Ep; [|done].
    destruct (answered r) as [name|].
    + destruct (write_document f _ disk) as [e2 d2] eqn:Ew. intros [= <- <- _]. apply Hw in Ew. split; [by rewrite Ew, <-Ep|done].
    + by intros [= <- <- _].
Qed.

Lemma search_quit `{Unicode} t e e' t' :
  search t e = Some (e', t') → quit_state e' = quit_state e ∧ later t' t.
Proof.
  unfold search. destruct (prompt _ _ (reads t) (flushes t) [] e) as [[[r e1] t1]|] eqn:Ep; [|done]. cbn [mbind option_bind].
  pose proof (prompt_later _ _ _ _ _ _ _ _ _ Ep) as Hl. destruct t as [rs fs]. apply prompt_keeps in Ep.
  - destruct (answered r); intros [= <- <-]; [done|]. by rewrite scroll_quit, <-Ep.
  - intros x key a. unfold search_callback. case_bool_decide; [done|].
    destruct (doc_find _ _ _); [|done]. by rewrite scroll_quit.
Qed.

Lemma edit_key_quit key e : quit_state (edit_key key e) = quit_state e.
Proof.
  assert (Hm : ∀ k e', quit_state (move_cursor k e') = quit_state e').
  { intros k e'. unfold move_cursor. by destruct (match k with Up => _ | _ => _ end). }
  unfold edit_key. destruct (code key); rewrite ?Hm; try done.
  destruct (_ || _); [|done]. cbn zeta. by rewrite <-(Hm Left e).
Qed.

(** One press either is a refused Ctrl-Q, quits, or leaves the editor running with
    all warnings to come. *)
Lemma press_cases `{Unicode} f key t e disk e' t' disk' :
  (quit_times e ≤ QUIT_TIMES)%nat → should_quit e = false →
  press f key t e disk = Some (e', t', disk') →
  (is_ctrl 113 key = true ∧ dirty (document e) = true ∧ should_quit e' = false ∧ document e' = document e ∧
     quit_times e = S (quit_times e')) ∨
  (is_ctrl 113 key = true ∧ (dirty (document e') = false ∨ quit_times e = 0%nat)) ∨
  (should_quit e' = false ∧ quit_times e' = QUIT_TIMES).
Proof.
  intros Hq Hs E. unfold press in E.
  assert (Hafter : ∀ x, quit_state x = quit_state e → should_quit (after_key x) = false ∧ quit_times (after_key x) = QUIT_TIMES).
  { intros x [= E1 E2]. destruct (after_key_fields x) as (F1 & _ & _ & F2 & _). rewrite F1, E2. split; [done|]. apply F2. lia. }
  destruct (is_ctrl 113 key).
  - destruct (dirty (document e)) eqn:Ed; simpl in E.
    + destruct (Nat.ltb_spec 0 (quit_times e)).
      * injection E as <- _ _. left. split_and!; [done..|simpl; lia].
      * right. left. split; [done|]. right. lia.
    + injection E as <- _ _. right. left. split; [done|]. left.
      destruct (after_key_fields (set_quit e)) as (_ & _ & -> & _). done.
  - right. right. destruct (is_ctrl 115 key).
    + destruct (save f t e disk) as [[[e1 t1] d1]|] eqn:Es; [|done]. injection E as <- _ _.
      by apply Hafter, (save_quit f t e disk e1 t1 d1).
    + destruct (is_ctrl 102 key).
      * destruct (search t e) as [[e1 t1]|] eqn:Es; [|done]. injection E as <- _ _.
        by apply Hafter, (search_quit t e e1 t1).
      * injection E as <- _ _. apply Hafter, edit_key_quit.
Qed.

(** A press only reads on. *)
Lemma press_later `{Unicode} f key t e disk e' t' disk' : press f key t e disk = Some (e', t', disk') → later t' t.
Proof.
  unfold press. destruct (is_ctrl 113 key); [destruct (_ && _); by intros [= _ <- _]|]. destruct (is_ctrl 115 key).
  - destruct (save f t e disk) as [[[e1 t1] d1]|] eqn:Es; [|done]. apply save_quit in Es as [_ Hl]. by intros [= _ <- _].
  - destruct (is_ctrl 102 key); [|by intros [= _ <- _]].
    destruct (search t e) as [[e1 t1]|] eqn:Es; [|done]. apply search_quit in Es as [_ Hl]. by intros [= _ <- _].
Qed.

(** The editor after the presses [ks] (those that [process_keypress] read itself,
    prompts not counted), none of which had quit before. *)
Inductive presses `{Unicode} (e0 : Editor) : list KeyEvent → Editor → Prop :=
| presses_nil : presses e0 [] e0
| presses_snoc ks e f key t t1 disk e' t' disk' :
    presses e0 ks e → should_quit e = false → next_key t = (Ok key, t1) →
    process_keypress f t e disk = Some (Ok tt, (e', t', disk')) →
    presses e0 (ks ++ [key]) e'.

Lemma process_press `{Unicode} f key t t1 e disk e' t' disk' : next_key t = (Ok key, t1) →
  process_keypress f t e disk = Some (Ok tt, (e', t', disk')) → press f key t1 e disk = Some (e', t', disk').
Proof. unfold process_keypress. intros ->. destruct (press f key t1 e disk) as [[[? ?] ?]|]; [|done]. by intros [= -> -> ->]. Qed.

Definition all_ctrl_q (t : list KeyEvent) : Prop := Forall (λ key, is_ctrl 113 key = true) t.

Lemma presses_inv `{Unicode} e0 ks e :
  quit_times e0 = QUIT_TIMES → should_quit e0 = false → presses e0 ks e →
  (should_quit e = false → (quit_times e ≤ QUIT_TIMES)%nat ∧
     ∃ ks0 t, ks = ks0 ++ t ∧ all_ctrl_q t ∧ (length t + quit_times e = QUIT_TIMES)%nat) ∧
  (should_quit e = true → dirty (document e) = false ∨
     ∃ ks0 t, ks = ks0 ++ t ∧ all_ctrl_q t ∧ length t = S QUIT_TIMES).
Proof.
  intros Hq Hs Hp. induction Hp as [|ks e f key t0 t1 disk e' t' disk' Hp [IH _] Hsq Ek E]; [|apply (process_press _ _ _ _ _ _ _ _ _ Ek) in E].
  - split; [|congruence]. intros _. split; [lia|]. exists [], []. rewrite Hq. by split_and!; [|constructor|].
  - destruct (IH Hsq) as (Hle & ks0 & t & -> & Ht & Hlen).
    assert (Hext : is_ctrl 113 key = true → (ks0 ++ t) ++ [key] = ks0 ++ (t ++ [key]) ∧ all_ctrl_q (t ++ [key]) ∧ length (t ++ [key]) = S (length t)).
    { intros Hk. split_and!; [by rewrite app_assoc| |rewrite length_app; simpl; lia].
      apply Forall_app. split; [done|]. by apply Forall_singleton. }
    destruct (press_cases f key t1 e disk e' t' disk' Hle Hsq E)
      as [(Hk & Hd & Hs' & _ & Hq')|[(Hk & Hd)|(Hs' & Hq')]].
    + destruct (Hext Hk) as (E1 & E2 & E3). split; [|congruence]. intros _. split; [lia|].
      exists ks0, (t ++ [key]). split_and!; [done|done|lia].
    + destruct (Hext Hk) as (E1 & E2 & E3). split; [|intros _; destruct Hd as [|Hz]; [by left|right; exists ks0, (t ++ [key]); split_and!; [done|done|lia]]].
      intros Hs'. unfold press in E. rewrite Hk in E.
      destruct (dirty (document e) && (0 <? quit_times e)%nat) eqn:Ew.
      * injection E as <- _ _. simpl in *. apply andb_prop in Ew as [_ Hlt%Nat.ltb_lt].
        split; [lia|]. exists ks0, (t ++ [key]). split_and!; [done|done|lia].
      * injection E as <- _ _. destruct (after_key_fields (set_quit e)) as (F & _). rewrite F in Hs'. discriminate Hs'.
    + split; [|congruence]. intros _. split; [lia|]. exists ((ks0 ++ t) ++ [key]), []. rewrite app_nil_r. split_and!; [done|constructor|simpl; lia].
Qed.

Lemma press_ok `{Unicode} f key t e disk :
  editor_ok e → screen_ok e → (opens_prompt key = true → ascii_ok e ∧ tty_ascii t) →
  ∃ e' t' disk', press f key t e disk = Some (e', t', disk') ∧ editor_ok e' ∧ screen_ok e'.
Proof.
  intros He Hs Ha. unfold opens_prompt in Ha. unfold press. destruct (is_ctrl 113 key).
  - destruct (_ && _) eqn:Ed.
    + eexists _, _, _. split_and!; [done| |done]. destruct He. constructor; [done..|simpl; lia].
    + destruct (after_key_fields (set_quit e)) as (_ & Esz & _).
      eexists _, _, _. split_and!; [done| |unfold screen_ok; by rewrite Esz]. destruct He. by apply after_key_ok.
  - destruct (is_ctrl 115 key).
    + destruct Ha as [Ha Hk]; [done|]. destruct (save_ok f t e disk He Hs Ha Hk) as (e' & k' & d' & E & ? & ? & _).
      rewrite E. by exists e', k', d'.
    + destruct (is_ctrl 102 key).
      * destruct Ha as [Ha Hk]; [done|]. destruct (search_ok t e disk He Hs Ha Hk) as (e' & k' & d' & E & ? & ? & _).
        rewrite E. by exists e', k', d'.
      * pose proof (edit_key_ok key e He Hs) as Hp. destruct (after_key_fields (edit_key key e)) as (_ & Esz & _).
        eexists _, _, _. split_and!; [done|by apply after_key_ok|]. unfold screen_ok. rewrite Esz. apply Hp.
Qed.

(** ** Properties *)

(** C11. Key presses are safe: on a screen with a row and a column for text, after a
    key that opens no prompt the editor has not panicked, the cursor is on a position of
    the text and within the part of it the screen shows, and the document is well formed.
    A key that opens a prompt is as safe if the text, the file name and the keys that the
    prompt reads are ASCII; beyond ASCII [truncate] can cut inside a character. *)
Theorem keypress_safe `{Unicode} f key keys fl e disk :
  editor_ok e → screen_ok e →
  (opens_prompt key = true → ascii_ok e ∧ Forall read_ascii keys) →
  ∃ e' t' disk', process_keypress f (mkTty (Ok key :: keys) fl) e disk = Some (Ok tt, (e', t', disk')) ∧
    editor_ok e' ∧ screen_ok e'.
Proof.
  intros He Hs Ha. destruct (press_ok f key (mkTty keys fl) e disk He Hs Ha) as (e' & t' & d' & E & H1 & H2).
  exists e', t', d'. unfold process_keypress. cbn [next_key reads flushes]. by rewrite E.
Qed.

Definition demo_editor : Editor := mkEditor false (8%nat, 3%nat) (mkPos 2 0) (mkPos 0 0) demo_doc [] QUIT_TIMES.

Lemma demo_editor_ok : editor_ok demo_editor ∧ screen_ok demo_editor ∧ ascii_ok demo_editor.
Proof.
  split_and!; constructor.
  - apply demo_doc_wf.
  - split; vm_compute; lia.
  - split; vm_compute; lia.
  - vm_compute. lia.
  - vm_compute. lia.
  - vm_compute. lia.
  - reflexivity.
  - intros n [=].
  - unfold row_ascii. closed.
Qed.

Definition ctrl (c : char) : KeyEvent := mkKey (Char c) CONTROL.
Definition plain (c : char) : KeyEvent := mkKey (Char c) NoModifier.

(** Search for "d": the cursor jumps to the second row. *)
Lemma keypress_safe_witness :
  let keys := [Ok (ctrl 102); Ok (plain 100); Ok (mkKey Enter NoModifier)] in
  ∃ e' t' disk', @process_keypress ascii_only NoFault (mkTty keys []) demo_editor ∅ = Some (Ok tt, (e', t', disk')) ∧
    editor_ok e' ∧ screen_ok e'.
Proof.
  destruct demo_editor_ok as (H1 & H2 & H3).
  apply (@keypress_safe ascii_only NoFault (ctrl 102) [Ok (plain 100); Ok (mkKey Enter NoModifier)] [] demo_editor ∅ H1 H2).
  intros _. split; [exact H3|]. repeat constructor.
Defined.

(** C40. Unsaved changes: a session that quits with a dirty document has just seen
    four presses of Ctrl-Q in a row, whatever was pressed before: three that count down
    and the one that quits, where [LEARNING.md] speaks of three in all. *)
Theorem quit_needs_confirmation `{Unicode} e0 ks e :
  quit_times e0 = QUIT_TIMES → should_quit e0 = false → presses e0 ks e → should_quit e = true →
  dirty (document e) = false ∨ ∃ ks0 t, ks = ks0 ++ t ∧ all_ctrl_q t ∧ length t = 4%nat.
Proof. intros Hq Hs Hp. apply (presses_inv e0 ks e Hq Hs Hp). Qed.

Ltac press before :=
  eapply (@presses_snoc ascii_only _ _ _ NoFault (ctrl 113) (mkTty [Ok (ctrl 113)] []) (mkTty [] []) ∅);
    [before|reflexivity|reflexivity|vm_compute; reflexivity].

Lemma quit_needs_confirmation_witness :
  let e0 := set_document (set_dirty demo_doc) demo_editor in
  ∃ e, @presses ascii_only e0 [ctrl 113; ctrl 113; ctrl 113; ctrl 113] e ∧ should_quit e = true ∧
    (dirty (document e) = false ∨
     ∃ ks0 t, [ctrl 113; ctrl 113; ctrl 113; ctrl 113] = ks0 ++ t ∧ all_ctrl_q t ∧ length t = 4%nat).
Proof.
  intros e0.
  assert (Hp : ∃ e, @presses ascii_only e0 (((([] ++ [ctrl 113]) ++ [ctrl 113]) ++ [ctrl 113]) ++ [ctrl 113]) e ∧
    should_quit e = true).
  { eexists. split.
    - press ltac:(press ltac:(press ltac:(press ltac:(apply presses_nil)))).
    - reflexivity. }
  destruct Hp as (e & Hp & Hq). exists e. split; [exact Hp|]. split; [exact Hq|].
  exact (@quit_needs_confirmation ascii_only e0 _ e eq_refl eq_refl Hp Hq).
Defined.
