(* ===== verification/TextEditorSession.v ===== *)
(** * The text editor: whole sessions

    [main], from the arguments and the answers of the operating system to the end of
    the process: it always ends, a session on ASCII text never panics in drawing, the
    terminal is given back, and the keys Esc and four times Ctrl-Q end any session. *)
From S2P Require Import Prelude RustStr RustUtf8 TextDocument TextDocumentProps TextEditor TextEditorProps.

(** ** ASCII text stays ASCII *)
Definition all_ascii (r : Row) : Prop := ∀ c, c ∈ chars r → is_ascii c = true.
Lemma row_ascii_all r : row_ascii r ↔ all_ascii r.
Proof. unfold row_ascii, all_ascii. rewrite forallb_forall. by setoid_rewrite list_elem_of_In. Qed.
Lemma rows_ascii_all l : Forall row_ascii l ↔ Forall all_ascii l.
Proof. split; intros H; (eapply Forall_impl; [exact H|]); intros r; apply row_ascii_all. Qed.

Lemma doc_insert_ascii d p c : is_ascii c = true → Forall row_ascii (rows d) → Forall row_ascii (rows (doc_insert p c d)).
Proof.
  intros Hc. rewrite !rows_ascii_all. apply doc_insert_rows.
  - by intros x ?%elem_of_nil.
  - intros i r Hr. split; intros x Hx; apply Hr.
    + by apply (subseteq_take _ (chars r)) in Hx.
    + by apply (subseteq_drop _ (chars r)) in Hx.
  - intros i r Hr _ x Hx. apply elem_of_vec_insert in Hx as [->|]; auto.
Qed.

Lemma doc_delete_ascii d p : Forall row_ascii (rows d) → Forall row_ascii (rows (doc_delete p d)).
Proof.
  rewrite !rows_ascii_all. apply doc_delete_rows.
  - intros i r Hr. unfold row_delete. case_match; [done|]. intros x Hx%elem_of_vec_remove. auto.
  - intros r1 r2 H1 H2 x Hx. apply elem_of_app in Hx as []; auto.
Qed.

Lemma edit_name d p c : file_name (doc_insert p c d) = file_name d ∧ file_name (doc_delete p d) = file_name d.
Proof.
  split.
  - unfold doc_insert, insert_newline. repeat (case_match; try done).
  - unfold doc_delete. repeat (case_match; try done).
Qed.

Lemma set_document_ascii d e : file_name d = file_name (document e) → Forall row_ascii (rows d) → ascii_ok e → ascii_ok (set_document d e).
Proof. intros En Hr [Hs Hn _]. constructor; [done| |done]. cbn [document set_document]. by rewrite En. Qed.

Lemma move_cursor_fields k e : document (move_cursor k e) = document e ∧ status_message (move_cursor k e) = status_message e ∧ size (move_cursor k e) = size e.
Proof. unfold move_cursor. by destruct (match k with Up => _ | _ => _ end). Qed.

Lemma move_cursor_ascii k e : ascii_ok e → ascii_ok (move_cursor k e).
Proof. destruct (move_cursor_fields k e) as (Ed & Es & _). intros [Hs Hn Hr]. constructor; by rewrite ?Ed, ?Es. Qed.

Lemma edit_key_ascii key e : key_ascii key → ascii_ok e → ascii_ok (edit_key key e).
Proof.
  intros Hk Ha. pose proof Ha as [_ _ Hr].
  assert (Hins : ∀ c, is_ascii c = true → ascii_ok (move_cursor Right (set_document (doc_insert (cursor e) c (document e)) e))).
  { intros c Hc. apply move_cursor_ascii, set_document_ascii; [apply edit_name; exact LF|by apply doc_insert_ascii|done]. }
  assert (Hdel : ∀ e', ascii_ok e' → ascii_ok (set_document (doc_delete (cursor e') (document e')) e')).
  { intros e' He'. apply set_document_ascii; [apply edit_name; exact LF|apply doc_delete_ascii, He'|done]. }
  unfold edit_key, key_ascii in *. destruct (code key); auto using move_cursor_ascii.
  destruct (_ || _); [|done]. by apply Hdel, move_cursor_ascii.
Qed.

(** ** One turn of the loop *)
Record live (e : Editor) : Prop := { l_ok : editor_ok e; l_screen : screen_ok e; l_ascii : ascii_ok e }.

Lemma press_live `{Unicode} f key t e disk : live e → key_ascii key → tty_ascii t →
  ∃ e' t' disk', press f key t e disk = Some (e', t', disk') ∧ live e' ∧ later t' t.
Proof.
  intros [He Hs Ha] Hk Ht.
  assert (Hlive : ∃ e' t' disk', press f key t e disk = Some (e', t', disk') ∧ live e').
  { destruct (press_ok f key t e disk He Hs) as (e' & t' & disk' & E & H1 & H2); [done|]. exists e', t', disk'. split; [done|].
    constructor; [done..|]. unfold press in E. destruct (is_ctrl 113 key).
    - destruct (_ && _); injection E as <- _ _; [|by apply after_key_ascii; destruct Ha].
      destruct Ha as [_ Hn Hr]. constructor; [|done..]. cbn [status_message set_quit_times set_status]. unfold quit_warning.
      by rewrite !ascii_app, show_nat_ascii.
    - destruct (is_ctrl 115 key).
      + destruct (save_ok f t e disk He Hs Ha Ht) as (e1 & t1 & d1 & E1 & _ & _ & Ha1 & _). rewrite E in E1. by injection E1 as <- _ _.
      + destruct (is_ctrl 102 key).
        * destruct (search_ok t e disk He Hs Ha Ht) as (e1 & t1 & d1 & E1 & _ & _ & Ha1 & _). rewrite E in E1. by injection E1 as <- _ _.
        * injection E as <- _ _. by apply after_key_ascii, edit_key_ascii. }
  destruct Hlive as (e' & t' & disk' & E & H'). exists e', t', disk'. split_and!; [done..|]. by apply press_later in E.
Qed.

(** ** Every session ends *)
Lemma process_shrinks `{Unicode} f t e disk e' t' disk' :
  process_keypress f t e disk = Some (Ok tt, (e', t', disk')) → (length (reads t') < length (reads t))%nat.
Proof.
  unfold process_keypress, next_key. destruct (reads t) as [|[key|[]] rs]; [by intros [=]| |by intros [=]].
  destruct (press f key _ e disk) as [[[e1 t1] d1]|] eqn:E; [|done]. intros [= _ <- _].
  apply press_later in E as [Hl%suffix_length _]. simpl in *. lia.
Qed.

Lemma run_ends `{Unicode} fuel faults t e disk : (length (reads t) < fuel)%nat → run fuel faults t e disk ≠ Some OutOfFuel.
Proof.
  revert faults t e disk. induction fuel as [|fuel IH]; intros faults t e disk Hf; [lia|]. cbn [run].
  destruct (refresh_screen e) as [scr|]; [|done]. cbn [mbind option_bind]. pose proof (flush_later t) as [_ Hr].
  destruct (flush t) as [[[]|[]] t1]; [|done]. simpl in Hr. destruct (should_quit e); [done|].
  destruct (process_keypress _ t1 e disk) as [[[[]|[]] [[e' t'] disk']]|] eqn:Ep; [|done..]. cbn [mbind option_bind].
  apply process_shrinks in Ep. apply IH. rewrite Hr in Ep. lia.
Qed.

(** What an ASCII session draws last. *)
Definition goodbye : list Command := [Hide; MoveTo 0 0; ClearAll; PrintText (lit "Goodbye." ++ crlf); Show].
Lemma refresh_goodbye e : should_quit e = true → refresh_screen e = Some goodbye.
Proof. intros E. unfold refresh_screen. by rewrite E. Qed.

Definition proper_end (o : option Ending) : Prop :=
  match o with
  | Some (Quits scr e _) => scr = goodbye ∧ should_quit e = true ∧ live e
  | Some (Dies e _) => live e
  | Some OutOfFuel | None => False
  end.

Lemma run_live `{Unicode} fuel faults t e disk :
  live e → tty_ascii t → (length (reads t) < fuel)%nat → proper_end (run fuel faults t e disk).
Proof.
  revert faults t e disk. induction fuel as [|fuel IH]; intros faults t e disk He Ht Hf; [lia|]. cbn [run].
  destruct (refresh_some e (l_ascii e He)) as [scr Es]. rewrite Es. cbn [mbind option_bind].
  pose proof (flush_later t) as [Hl Hr]. destruct (flush t) as [[[]|[]] t1]; [|done]. simpl in Hl, Hr.
  destruct (should_quit e) eqn:Eq; [rewrite refresh_goodbye in Es by done; by injection Es as <-|].
  pose proof (later_ascii _ _ Hl Ht) as Ht1. destruct (process_keypress _ t1 e disk) as [[res [[e' t'] disk']]|] eqn:Ep.
  - cbn [mbind option_bind]. destruct res as [[]|[]].
    + pose proof (process_shrinks _ _ _ _ _ _ _ Ep) as Hs. rewrite Hr in Hs.
      unfold process_keypress, next_key in Ep. destruct (reads t1) as [|[key|[]] rs] eqn:Er; try done.
      unfold tty_ascii in Ht1. rewrite Er in Ht1. inversion_clear Ht1 as [|? ? Hk Hrs].
      destruct (press_live (faults 0%nat) key (mkTty rs (flushes t1)) e disk He Hk Hrs) as (e1 & t2 & d1 & E1 & He1 & Hl1).
      rewrite E1 in Ep. injection Ep as <- <- <-. apply IH; [done|by eapply later_ascii|lia].
    + unfold process_keypress, next_key in Ep. destruct (reads t1) as [|[key|[]] rs]; [by injection Ep as <- _ _| |by injection Ep as <- _ _].
      destruct (press _ _ _ e disk); [|done]. by injection Ep.
  - exfalso. unfold process_keypress, next_key in Ep. destruct (reads t1) as [|[key|[]] rs] eqn:Er; try done.
    unfold tty_ascii in Ht1. rewrite Er in Ht1. inversion_clear Ht1 as [|? ? Hk Hrs].
    destruct (press_live (faults 0%nat) key (mkTty rs (flushes t1)) e disk He Hk Hrs) as (e1 & t2 & d1 & E1 & _). by rewrite E1 in Ep.
Qed.

(** ** Esc and four times Ctrl-Q *)
Definition is_esc (key : KeyEvent) : Prop := code key = Esc.
Definition flushes_ok (t : Tty) : Prop := Forall (λ r, r = Ok tt) (flushes t).
Lemma later_flushes t t' : later t' t → flushes_ok t → flushes_ok t'.
Proof. intros [_ [k E]] H. unfold flushes_ok in *. rewrite E in H. by apply Forall_app in H as [_ ?]. Qed.
Lemma flush_ok t : flushes_ok t → ∃ t', flush t = (Ok tt, t') ∧ reads t' = reads t ∧ flushes_ok t'.
Proof.
  unfold flushes_ok, flush. destruct (flushes t) as [|r fl] eqn:E; intros H; [exists t; by rewrite E|].
  inversion_clear H as [|? ? -> Hfl]. by exists (mkTty (reads t) fl).
Qed.

(** The reads left when the keys [ks] may have been read, or all of them and [esc]. *)
Definition short_of (ks : list KeyEvent) (esc : KeyEvent) (rest : list (result KeyEvent unit)) (t : Tty) : Prop :=
  (∃ ks', (length ks' ≤ length ks)%nat ∧ Forall key_ascii ks' ∧ reads t = List.map Ok ks' ++ Ok esc :: rest) ∨ reads t = rest.

Lemma prompt_esc text callback ks esc rest fl answer e r e' t' : is_esc esc → Forall key_ascii ks →
  prompt text callback (List.map Ok ks ++ Ok esc :: rest) fl answer e = Some (r, e', t') → short_of ks esc rest t'.
Proof.
  intros Hesc Hks. revert fl answer e. induction ks as [|key ks IH]; intros fl answer e; cbn [List.map app prompt];
    (destruct (refresh_screen _); [|done]); cbn [mbind option_bind].
  - pose proof (flush_later (mkTty (Ok esc :: rest) fl)) as [_ Hr]. destruct (flush _) as [[[]|[]] t]; simpl in Hr.
    + rewrite Hesc. intros [= _ _ <-]. by right.
    + intros [= _ _ <-]. left. by exists [].
  - inversion_clear Hks as [|? ? Hk Hks']. pose proof (flush_later (mkTty (Ok key :: List.map Ok ks ++ Ok esc :: rest) fl)) as [_ Hr].
    destruct (flush _) as [[[]|[]] t]; simpl in Hr; [|intros [= _ _ <-]; left; exists (key :: ks); split_and!; [done|by constructor|done]].
    assert (Hnext : ∀ a, prompt text callback (List.map Ok ks ++ Ok esc :: rest) (flushes t) a (callback (set_status (text ++ answer) e) key a)
      = Some (r, e', t') → short_of (key :: ks) esc rest t').
    { intros a Ea. destruct (IH Hks' _ _ _ Ea) as [(ks' & Hl & Ha & E)|E]; [left; exists ks'; simpl; split_and!; [lia|done|done]|by right]. }
    destruct (code key); try (intros E; by apply Hnext in E); (intros [= _ _ <-]; left; exists ks; simpl; split_and!; [lia|done|done]).
Qed.

Lemma press_short `{Unicode} f key ks esc rest fl e disk e' t' disk' : is_esc esc → Forall key_ascii ks →
  press f key (mkTty (List.map Ok ks ++ Ok esc :: rest) fl) e disk = Some (e', t', disk') → short_of ks esc rest t'.
Proof.
  intros Hesc Hks E. assert (Hsame : short_of ks esc rest (mkTty (List.map Ok ks ++ Ok esc :: rest) fl)) by (left; by exists ks).
  unfold press in E. destruct (is_ctrl 113 key); [destruct (_ && _); by injection E as _ <- _|]. destruct (is_ctrl 115 key).
  - unfold save in E. destruct (file_name (document e)); [destruct (write_document _ _ _); by injection E as _ <- _|].
    destruct (prompt _ _ _ _ _ _) as [[[r e1] t1]|] eqn:Ep; [|done]. cbn [mbind option_bind] in E. apply prompt_esc in Ep; [|done..].
    destruct (answered r); [destruct (write_document _ _ _)|]; by injection E as _ <- _.
  - destruct (is_ctrl 102 key); [|by injection E as _ <- _]. unfold search in E.
    destruct (prompt _ _ _ _ _ _) as [[[r e1] t1]|] eqn:Ep; [|done]. cbn [mbind option_bind] in E. apply prompt_esc in Ep; [|done..].
    destruct (answered r); by injection E as _ <- _.
Qed.

(** How one turn of [run] goes on when flushing succeeds. *)
Lemma run_turn `{Unicode} fuel faults t e disk key rs : live e → flushes_ok t → reads t = Ok key :: rs →
  (∃ scr e' disk', run (S fuel) faults t e disk = Some (Quits scr e' disk')) ∨
  ∃ t1, reads t1 = rs ∧ flushes_ok t1 ∧ should_quit e = false ∧
    run (S fuel) faults t e disk = '(e', t', disk') ← press (faults 0%nat) key t1 e disk; run fuel (λ n, faults (S n)) t' e' disk'.
Proof.
  intros He Hf Hr. cbn [run]. destruct (refresh_some e (l_ascii e He)) as [scr ->]. cbn [mbind option_bind].
  destruct (flush_ok t Hf) as (t1 & -> & Hr1 & Hf1). destruct (should_quit e); [left; by eexists _, _, _|]. right.
  exists (mkTty rs (flushes t1)). split_and!; [done..|]. unfold process_keypress, next_key. rewrite Hr1, Hr.
  by destruct (press _ key _ e disk) as [[[e' t'] disk']|].
Qed.

(** The fourth Ctrl-Q in a row quits at the latest. *)
Lemma run_quits `{Unicode} n : ∀ fuel faults t e disk keys rest, live e → flushes_ok t → (quit_times e ≤ n)%nat → (S n < fuel)%nat →
  length keys = S n → Forall (λ key, is_ctrl 113 key = true) keys → reads t = List.map Ok keys ++ rest →
  ∃ scr e' disk', run fuel faults t e disk = Some (Quits scr e' disk').
Proof.
  induction n as [|n IH]; intros fuel faults t e disk keys rest He Hf Hq Hfuel Hlen Hkeys Hr;
    (destruct keys as [|key keys]; [done|]); inversion_clear Hkeys as [|? ? Hk Hkeys']; (destruct fuel as [|fuel]; [lia|]);
    destruct (run_turn fuel faults t e disk key (List.map Ok keys ++ rest) He Hf Hr) as [?|(t1 & Hr1 & Hf1 & Hs & ->)]; try done;
    unfold press; rewrite Hk.
  - assert (Hz : (0 <? quit_times e)%nat = false) by (apply Nat.ltb_ge; lia). rewrite Hz, andb_false_r. cbn [mbind option_bind].
    destruct fuel as [|fuel]; [lia|]. cbn [run]. destruct (after_key_fields (set_quit e)) as (Eq & _).
    rewrite refresh_goodbye by (by rewrite Eq). cbn [mbind option_bind]. destruct (flush_ok t1 Hf1) as (t2 & -> & _). rewrite Eq. by eexists _, _, _.
  - destruct (dirty (document e) && (0 <? quit_times e)%nat) eqn:Ew; cbn [mbind option_bind].
    + simpl in Hlen. apply (IH _ _ _ _ _ keys rest); [|done|simpl; lia|lia|lia|done|done].
      destruct He as [[Hd Hc Hv Hqq] Hsc [Ha1 Ha2 Ha3]]. constructor; [constructor; [done..|simpl; lia]|done|constructor; [|done..]].
      cbn [status_message set_quit_times set_status]. unfold quit_warning. by rewrite !ascii_app, show_nat_ascii.
    + destruct fuel as [|fuel]; [lia|]. cbn [run]. destruct (after_key_fields (set_quit e)) as (Eq & _).
      rewrite refresh_goodbye by (by rewrite Eq). cbn [mbind option_bind]. destruct (flush_ok t1 Hf1) as (t2 & -> & _). rewrite Eq. by eexists _, _, _.
Qed.

Lemma run_esc_quits `{Unicode} fuel faults t e disk ks esc quits rest :
  live e → flushes_ok t → (length ks + 5 < fuel)%nat → is_esc esc → Forall key_ascii ks → tty_ascii t →
  length quits = 4%nat → Forall (λ key, is_ctrl 113 key = true) quits →
  reads t = List.map Ok ks ++ Ok esc :: List.map Ok quits ++ rest →
  ∃ scr e' disk', run fuel faults t e disk = Some (Quits scr e' disk').
Proof.
  intros He Hf Hfuel Hesc Hks Ht Hlen Hq. revert ks faults t e disk He Hf Hfuel Hks Ht.
  induction fuel as [|fuel IH]; intros ks faults t e disk He Hf Hfuel Hks Ht Hr; [lia|].
  assert (Hafter : ∀ faults t e disk, live e → flushes_ok t → reads t = List.map Ok quits ++ rest →
    ∃ scr e' disk', run fuel faults t e disk = Some (Quits scr e' disk')).
  { intros. eapply (run_quits 3); [done|done|by apply e_quit, l_ok|lia|done|done|done]. }
  destruct ks as [|key ks]; cbn [List.map app] in Hr.
  - destruct (run_turn fuel faults t e disk esc _ He Hf Hr) as [?|(t1 & Hr1 & Hf1 & Hs & ->)]; [done|].
    destruct (press_live (faults 0%nat) esc t1 e disk He) as (e' & t' & disk' & E & He' & Hl).
    { unfold key_ascii. by rewrite Hesc. }
    { unfold tty_ascii in *. rewrite Hr in Ht. rewrite Hr1. by inversion_clear Ht. }
    rewrite E. cbn [mbind option_bind]. apply Hafter; [done|by eapply later_flushes|]. unfold press in E.
    assert (Hc : ∀ c, is_ctrl c esc = false) by (intros c; unfold is_ctrl; by rewrite Hesc).
    rewrite !Hc in E. injection E as _ <- _. done.
  - inversion_clear Hks as [|? ? Hk Hks'].
    destruct (run_turn fuel faults t e disk key _ He Hf Hr) as [?|(t1 & Hr1 & Hf1 & Hs & ->)]; [done|].
    assert (Ht1 : tty_ascii t1) by (unfold tty_ascii in *; rewrite Hr in Ht; rewrite Hr1; by inversion_clear Ht).
    destruct (press_live (faults 0%nat) key t1 e disk He Hk Ht1) as (e' & t' & disk' & E & He' & Hl). rewrite E. cbn [mbind option_bind].
    destruct t1 as [rs1 fs1]. simpl in Hr1. subst rs1.
    destruct (press_short _ _ ks esc _ fs1 _ _ _ _ _ Hesc Hks' E) as [(ks' & Hle & Ha & Hr')|Hr'].
    + apply (IH ks'); [done|by eapply later_flushes|simpl in Hfuel; lia|done|by eapply later_ascii|done].
    + apply Hafter; [done|by eapply later_flushes|done].
Qed.

(** ** Starting *)
(** The file named on the command line, if any, is ASCII, and so is its name. *)
Definition ascii_start (args : list str) (os : System) : Prop :=
  ∀ name, args !! 1%nat = Some name → forallb is_ascii name = true ∧ ∀ d, open_doc name (files os) = Some d → Forall row_ascii (rows d).
(** A screen with room for text above the two bars. *)
Definition room (os : System) : Prop := ∀ cols lines, screen os = Ok (cols, lines) → (0 < cols ∧ 2 < lines)%nat.

Lemma editor_new_live args os size raw : ascii_start args os → room os →
  terminal_new (screen os) (enable os) = (Ok size, raw) →
  raw = true ∧ ∃ e, editor_new (args !! 1%nat) (Ok size) (files os) = Ok e ∧ live e.
Proof.
  intros Ha Hroom Ht. unfold terminal_new in Ht. destruct (screen os) as [[cols lines]|] eqn:Es; [|done]. destruct (enable os); [|done].
  destruct (Hroom cols lines Es) as [Hc Hl]. injection Ht as <- <-. split; [done|].
  assert (Hlive : ∀ d st, doc_wf d → forallb is_ascii st = true → (∀ n, file_name d = Some n → forallb is_ascii n = true) → Forall row_ascii (rows d) →
    live (mkEditor false (terminal_size cols lines) (mkPos 0 0) (mkPos 0 0) d st QUIT_TIMES)).
  { intros d st Hd Hst Hn Hr. unfold terminal_size. constructor; [constructor; simpl| |by constructor].
    - done.
    - split; simpl; lia.
    - split; simpl; lia.
    - done.
    - split; simpl; lia. }
  unfold editor_new. destruct (args !! 1%nat) as [name|] eqn:En; [|eexists; split; [reflexivity|]; apply Hlive; try done; constructor].
  destruct (Ha name En) as [Hname Hrows]. destruct (open_doc name (files os)) as [d|] eqn:Ed; (eexists; split; [reflexivity|]); apply Hlive.
  - by eapply open_doc_wf.
  - done.
  - intros n E. unfold open_doc in Ed. destruct (files os !! name); [|done]. cbn [mbind option_bind] in Ed.
    destruct (from_utf8 _); [|done]. injection Ed as <-. by injection E as <-.
  - by apply Hrows.
  - constructor.
  - by rewrite ascii_app, Hname.
  - done.
  - constructor.
Qed.

(** ** Properties *)

(** C4. Every run of the editor ends, whatever the keyboard, the screen, the disk and
    the terminal answer: as many turns as keys are read are enough.  It is not started
    exactly when the size of the terminal or raw mode cannot be had; raw mode stays on
    only if switching it off fails; and a session on ASCII text, keys and names on a
    screen with room ends by quitting, with the cursor on the text, or in [die] after
    an error of the terminal, never by a panic of the drawing. *)
Theorem session_ends `{Unicode} fuel args os :
  (length (key_results (events os)) < fuel)%nat →
  let '(exit, raw) := main fuel args os in
  exit ≠ StillRunning ∧ (raw = true → ∃ err, disable os = Err err) ∧
  ((∃ m, exit = NotStarted m) ↔ (∃ err, screen os = Err err) ∨ ∃ err, enable os = Err err) ∧
  (ascii_start args os → room os → Forall read_ascii (key_results (events os)) →
   exit ≠ DrawingPanicked ∧ ∀ e disk, exit = Returned e disk → should_quit e = true ∧ editor_ok e).
Proof.
  intros Hf. unfold main. destruct (terminal_new (screen os) (enable os)) as [terminal raw] eqn:Et.
  assert (Hdrop : terminal_drop (disable os) raw = true → ∃ err, disable os = Err err).
  { unfold terminal_drop. destruct (disable os) as [|err]; [done|]. by exists err. }
  destruct terminal as [size|err].
  - assert (Hok : ¬ ((∃ err, screen os = Err err) ∨ ∃ err, enable os = Err err)).
    { unfold terminal_new in Et. intros [[err E]|[err E]]; rewrite E in Et; [done|]. by destruct (screen os) as [[]|]. }
    destruct (editor_new (args !! 1%nat) (Ok size) (files os)) as [e|err] eqn:En; [|unfold editor_new in En; by destruct (match args !! 1%nat with Some _ => _ | None => _ end)].
    set (t := mkTty (key_results (events os)) (flushed os)).
    pose proof (run_ends fuel (faults os) t e (files os) Hf) as Hend.
    assert (Hlive : ascii_start args os → room os → Forall read_ascii (key_results (events os)) → proper_end (run fuel (faults os) t e (files os))).
    { intros Ha Hr Hk. destruct (editor_new_live args os size raw Ha Hr Et) as (_ & e' & E' & He'). rewrite En in E'. injection E' as <-. by apply run_live. }
    destruct (run fuel (faults os) t e (files os)) as [[scr e1 d1|e1 d1|]|]; [| |done|].
    + split_and!; [done|done|split; [by intros [? ?]|done]|]. intros Ha Hr Hk. destruct (Hlive Ha Hr Hk) as (_ & Hq & Hl). split; [done|].
      intros e2 d2 [= <- <-]. split; [done|apply Hl].
    + split_and!; [done|done|split; [by intros [? ?]|done]|done].
    + split_and!; [done|done|split; [by intros [? ?]|done]|]. intros Ha Hr Hk. destruct (Hlive Ha Hr Hk).
  - assert (Herr : raw = false ∧ ((∃ err, screen os = Err err) ∨ ∃ err, enable os = Err err)).
    { unfold terminal_new in Et. destruct (screen os) as [[]|e]; [|injection Et as _ <-; eauto].
      destruct (enable os); [done|]. injection Et as _ <-. eauto. }
    destruct Herr as [-> Herr]. unfold editor_new. destruct (match args !! 1%nat with Some _ => _ | None => _ end).
    split_and!; [done|done|split; [done|by eexists]|done].
Qed.

(** Typing "hi", saving it under a name, quitting; a resize in between. *)
Definition demo_keys : list (result Event unit) :=
  List.map (λ k, Ok (KeyPress k)) [plain 104; plain 105; ctrl 115] ++ [Ok OtherEvent] ++
  List.map (λ k, Ok (KeyPress k)) [plain 102; mkKey Enter NoModifier; ctrl 113].
Definition demo_system : System := mkSystem (Ok (20%nat, 5%nat)) (Ok tt) (Ok tt) demo_keys [] (λ _, NoFault) ∅.

Lemma session_ends_witness :
  ∃ e disk, @main ascii_only 7 [lit "hecto"] demo_system = (Returned e disk, false) ∧ disk !! lit "f" = Some (lit "hi" ++ [LF]) ∧ editor_ok e.
Proof.
  pose proof (@session_ends ascii_only 7 [lit "hecto"] demo_system ltac:(vm_compute; lia)) as H.
  destruct (@main ascii_only 7 [lit "hecto"] demo_system) as [exit raw] eqn:E.
  assert (Hm : ∃ e disk, exit = Returned e disk ∧ raw = false ∧ disk !! lit "f" = Some (lit "hi" ++ [LF])).
  { vm_compute in E. injection E as <- <-. eexists _, _. split; [reflexivity|]. split; [reflexivity|]. vm_compute. reflexivity. }
  destruct Hm as (e & disk & -> & -> & Hd). exists e, disk. split; [reflexivity|]. split; [exact Hd|].
  destruct H as (_ & _ & _ & H). destruct H as [_ H]; [by intros name|by intros c l [= <- <-]; vm_compute; split; lia|repeat constructor|].
  by destruct (H e disk eq_refl).
Defined.

(** C10. The user can always leave: from any point of an ASCII session, after any keys
    [ks] and whatever they opened, Esc and then four times Ctrl-Q end it, as long as
    the terminal can be written to; [main] returns and raw mode is switched off. *)
Theorem session_can_quit `{Unicode} fuel args os ks esc quits rest :
  ascii_start args os → room os → (∃ size, screen os = Ok size) → enable os = Ok tt → Forall (λ r, r = Ok tt) (flushed os) →
  Forall read_ascii (key_results (events os)) → code esc = Esc → length quits = 4%nat → Forall (λ key, is_ctrl 113 key = true) quits →
  key_results (events os) = List.map Ok ks ++ Ok esc :: List.map Ok quits ++ rest →
  (length ks + 5 < fuel)%nat →
  ∃ e disk, main fuel args os = (Returned e disk, terminal_drop (disable os) true).
Proof.
  intros Ha Hr [[cols lines] Es] He Hfl Hk Hesc Hlen Hq Ek Hf. unfold main.
  destruct (terminal_new (screen os) (enable os)) as [terminal raw] eqn:Et. unfold terminal_new in Et. rewrite Es, He in Et.
  injection Et as <- <-. destruct (editor_new_live args os (terminal_size cols lines) true Ha Hr) as (_ & e & -> & Hlive).
  { unfold terminal_new. by rewrite Es, He. }
  assert (Hks : Forall key_ascii ks).
  { rewrite Ek in Hk. apply Forall_app in Hk as [Hk _]. clear -Hk. induction ks as [|k ks IH]; [constructor|]. inversion_clear Hk. constructor; auto. }
  destruct (run_esc_quits fuel (faults os) (mkTty (key_results (events os)) (flushed os)) e (files os) ks esc quits rest)
    as (scr & e' & disk' & ->); [done..|]. by eexists _, _.
Qed.

(** Esc leaves the search the keys have opened. *)
Lemma session_can_quit_witness :
  let os := mkSystem (Ok (20%nat, 5%nat)) (Ok tt) (Ok tt)
    (List.map (λ k, Ok (KeyPress k)) ([plain 104; ctrl 102; plain 105] ++ mkKey Esc NoModifier :: replicate 4 (ctrl 113))) [] (λ _, NoFault) ∅ in
  ∃ e disk, @main ascii_only 9 [lit "hecto"] os = (Returned e disk, false).
Proof.
  intros os. change false with (terminal_drop (disable os) true).
  apply (@session_can_quit ascii_only 9 [lit "hecto"] os [plain 104; ctrl 102; plain 105] (mkKey Esc NoModifier) (replicate 4 (ctrl 113)) []);
    [by intros name|by intros c l [= <- <-]; vm_compute; split; lia|by eexists|reflexivity|constructor|repeat constructor|reflexivity|reflexivity|repeat constructor|reflexivity|vm_compute; lia].
Defined.
