(* ===== verification/TextEditorTests.v ===== *)
(** * The unit tests of the text editor

    The tests of [row.rs] and [document.rs] of [2026-08-04-rust-text-editor/src], on the
    definitions of [TextDocument].  The directory for temporary files and the number of
    the process are arguments; the disk is empty before each test.  Lower case is that
    of ASCII, which the texts searched are but for one letter. *)
From S2P Require Import Prelude RustStr RustUtf8 UnitTest TextDocument TextDocumentProps.
#[local] Open Scope rust_scope.

Section tests.
#[local] Existing Instance ascii_only.

(** ** [row.rs] *)
Definition insert_and_delete_roundtrip : test :=
  let row := row_insert 3 108 (row_of (lit "helo")) in
  assert! (as_string row == lit "hello");
  let row := row_delete 0 row in
  assert! (as_string row == lit "ello").

Definition delete_out_of_range_is_a_noop : test :=
  assert! (as_string (row_delete 50 (row_of (lit "hi"))) == lit "hi").

Definition split_keeps_head_and_returns_tail : test :=
  let '(row, tail) := row_split 5 (row_of (lit "hello world")) in
  assert! (as_string row == lit "hello");
  assert! (as_string tail == lit " world").

Definition append_joins_two_rows : test :=
  assert! (as_string (row_append (row_of (lit " world")) (row_of (lit "hello"))) == lit "hello world").

Definition tabs_expand_to_the_next_stop : test :=
  assert! (render (row_of (lit "a" ++ [TAB] ++ lit "b")) == lit "a       b").

Definition find_is_case_insensitive_and_returns_char_index : test :=
  let row := row_of (lit "Hello, World") in
  assert! (row_find (lit "world") 0 row == Some 7%nat);
  assert! (row_find (lit "xyz") 0 row == None).

Definition find_respects_the_from_offset : test :=
  let row := row_of (lit "ababab") in
  assert! (row_find (lit "ab") 0 row == Some 0%nat);
  assert! (row_find (lit "ab") 1 row == Some 2%nat);
  assert! (row_find (lit "ab") 3 row == Some 4%nat).

(** "h", U+00E9, "llo world". *)
Definition find_char_offset_survives_multibyte_content : test :=
  assert! (row_find (lit "world") 0 (row_of (lit "h" ++ [0xE9] ++ lit "llo world")) == Some 6%nat).

(** ** [document.rs] *)
Context (temp_dir : str) (process_id : Z).
Definition temp_path (name : str) : str := temp_dir ++ lit "/hecto-test-" ++ show process_id ++ lit "-" ++ name.
Definition fs_write (path contents : str) (disk : Disk) : Disk := <[path := as_bytes contents]> disk.

Definition row_is (d : Document) (y : nat) (s : str) : test := r ← rows d !! y; assert! (as_string r == s).

Definition open_reads_file_into_rows : test :=
  let path := temp_path (lit "open.txt") in
  let disk := fs_write path (lit "line one" ++ [LF] ++ lit "line two" ++ [LF]) ∅ in
  doc ← open_doc path disk;
  assert! (doc_len doc == 2%nat);
  _ ← row_is doc 0 (lit "line one");
  _ ← row_is doc 1 (lit "line two");
  assert! (negb (dirty doc)).

Definition save_round_trips_edits_to_disk : test :=
  let path := temp_path (lit "save.txt") in
  let disk := fs_write path (lit "hello" ++ [LF]) ∅ in
  doc ← open_doc path disk;
  let doc := doc_insert (mkPos 5 0) 33 doc in
  assert! (dirty doc);
  let '(res, doc, disk) := save_doc NoFault doc disk in
  _ ← match res with Ok _ => Some tt | Err _ => None end;
  assert! (negb (dirty doc));
  bytes ← disk !! path;
  saved ← from_utf8 bytes;
  assert! (saved == lit "hello!" ++ [LF]).

Definition insert_newline_splits_the_row_in_two : test :=
  let doc := doc_insert (mkPos 0 0) 97 doc_default in
  let doc := doc_insert (mkPos 1 0) 98 doc in
  let doc := doc_insert (mkPos 2 0) 99 doc in
  let doc := doc_insert (mkPos 1 0) LF doc in
  assert! (doc_len doc == 2%nat);
  _ ← row_is doc 0 (lit "a");
  row_is doc 1 (lit "bc").

Definition delete_at_end_of_line_joins_the_next_row : test :=
  let doc := doc_insert (mkPos 0 0) 97 doc_default in
  let doc := doc_insert (mkPos 0 1) 98 doc in
  assert! (doc_len doc == 2%nat);
  let doc := doc_delete (mkPos 1 0) doc in
  assert! (doc_len doc == 1%nat);
  row_is doc 0 (lit "ab").

Definition delete_at_end_of_document_is_a_noop : test :=
  let doc := doc_delete (mkPos 1 0) (doc_insert (mkPos 0 0) 97 doc_default) in
  row_is doc 0 (lit "a").

Definition find_wraps_around_to_the_top : test :=
  let path := temp_path (lit "find.txt") in
  let disk := fs_write path (lit "apple" ++ [LF] ++ lit "banana" ++ [LF] ++ lit "cherry" ++ [LF]) ∅ in
  doc ← open_doc path disk;
  assert! (doc_find (lit "apple") (mkPos 0 1) doc == Some (mkPos 0 0)).

Definition find_returns_none_when_query_is_absent : test :=
  let doc := doc_insert (mkPos 0 0) 97 doc_default in
  assert! (doc_find (lit "zzz") (mkPos 0 0) doc == None).

Definition editor_tests : list test :=
  [insert_and_delete_roundtrip; delete_out_of_range_is_a_noop; split_keeps_head_and_returns_tail; append_joins_two_rows;
   tabs_expand_to_the_next_stop; find_is_case_insensitive_and_returns_char_index; find_respects_the_from_offset;
   find_char_offset_survives_multibyte_content; open_reads_file_into_rows; save_round_trips_edits_to_disk;
   insert_newline_splits_the_row_in_two; delete_at_end_of_line_joins_the_next_row; delete_at_end_of_document_is_a_noop;
   find_wraps_around_to_the_top; find_returns_none_when_query_is_absent].
End tests.

Example editor_tests_pass : all_pass (editor_tests (lit "/tmp") 4711) = true.
Proof. vm_compute. reflexivity. Qed.
