(* ===== verification/KvStore.v ===== *)
(** * The microservice: the store ([2026-08-13-rust-microservice/src/store.rs])

    The store is a map under a lock and an atomic counter.  [KvStore] is the
    interface the routes use, with the laws a client may rely on; the operations of
    [store.rs], run one after the other, implement it.  Run concurrently an
    operation is a sequence of atomic actions, between which the other threads may
    act: ids stay distinct, but a value can be lost.  A thread that panics while it
    holds the lock poisons it; the store recovers, and no answer is changed by it.
    [oc] is the overflow mode of the build. *)
From S2P Require Import Prelude.

Inductive PutOutcome : Set := Created | Replaced.

(** ** The interface *)
Class KvStore (S : Type) := {
  kv_create : list Z → S → Z * S;
  kv_get : Z → S → option (list Z);
  kv_put : Z → list Z → S → option (PutOutcome * S);     (* [None]: panic *)
  kv_delete : Z → S → bool * S;
  kv_list : S → list (Z * list Z)
}.

(** What it promises, in terms of the map it shows. *)
Class KvLaws (S : Type) `{KvStore S} := {
  kv_view : S → gmap Z (list Z);
  kv_ok : S → Prop;
  kv_room : S → Prop;       (* the counter can still move *)
  kv_create_law v s : kv_ok s → kv_room s →
    let '(id, s') := kv_create v s in
    kv_ok s' ∧ is_u64 id ∧ kv_view s !! id = None ∧ kv_view s' = <[id := v]> (kv_view s);
  kv_get_law id s : kv_ok s → kv_get id s = kv_view s !! id;
  kv_put_law id v s : kv_ok s → 0 ≤ id < 18446744073709551615 →
    ∃ s', kv_put id v s = Some (match kv_view s !! id with Some _ => Replaced | None => Created end, s') ∧
          kv_ok s' ∧ kv_view s' = <[id := v]> (kv_view s);
  kv_delete_law id s : kv_ok s →
    let '(r, s') := kv_delete id s in
    kv_ok s' ∧ r = bool_decide (is_Some (kv_view s !! id)) ∧ kv_view s' = delete id (kv_view s);
  kv_list_law s : kv_ok s →
    Sorted Z.le (kv_list s).*1 ∧ kv_list s ≡ₚ map_to_list (kv_view s);
  kv_ids_law s id v : kv_ok s → kv_view s !! id = Some v → is_u64 id
}.

(** ** [store.rs], one operation at a time *)

(** [std::sync::RwLock]: what it guards, and whether a thread panicked with a write guard
    in its hands.  Locking gives the guard in either case, in an error when poisoned. *)
Record RwLock (A : Type) : Type := mkLock { guarded : A; is_poisoned : bool }.
Arguments mkLock {A}. Arguments guarded {A}. Arguments is_poisoned {A}.
Definition lock {A} (l : RwLock A) : result A A := if is_poisoned l then Err (guarded l) else Ok (guarded l).
Definition poison {A} (l : RwLock A) : RwLock A := mkLock (guarded l) true.

Record Store : Type := mkStore { items : RwLock (gmap Z (list Z)); next_id : Z }.

Definition new : Store := mkStore (mkLock ∅ false) 1.

(** [unwrap_or_else(|poisoned| poisoned.into_inner())] *)
Definition into_inner {A} (r : result A A) : A := match r with Ok g | Err g => g end.
Definition read (s : Store) : gmap Z (list Z) := into_inner (lock (items s)).
(** ... and what is done to the map under a write guard. *)
Definition write {B} (f : gmap Z (list Z) → B * gmap Z (list Z)) (s : Store) : B * Store :=
  let '(b, m) := f (into_inner (lock (items s))) in (b, mkStore (mkLock m (is_poisoned (items s))) (next_id s)).

(** The atomic actions: [fetch_add], [fetch_max], and what is done under a lock. *)
Definition fetch_add (s : Store) : Z * Store := (next_id s, mkStore (items s) (wrap64 (next_id s + 1))).
Definition fetch_max (n : Z) (s : Store) : Store := mkStore (items s) (Z.max (next_id s) n).
Definition insert_item (id : Z) (v : list Z) : Store → option (list Z) * Store :=
  write (λ m, (m !! id, <[id := v]> m)).

Definition create (value : list Z) (s : Store) : Z * Store :=
  let '(id, s) := fetch_add s in
  let '(_, s) := insert_item id value s in
  (id, s).

Definition get (id : Z) (s : Store) : option (list Z) := read s !! id.

Definition put_outcome (old : option (list Z)) : PutOutcome :=
  match old with Some _ => Replaced | None => Created end.

Definition put (oc : bool) (id : Z) (value : list Z) (s : Store) : option (PutOutcome * Store) :=
  n ← add_u64 oc id 1;
  let s := fetch_max n s in
  let '(old, s) := insert_item id value s in
  Some (put_outcome old, s).

Definition delete_item (id : Z) : Store → bool * Store :=
  write (λ m, (bool_decide (is_Some (m !! id)), delete id m)).

(** A thread panics with the write guard: what the lock guards stays as it is. *)
Definition crash (s : Store) : Store := mkStore (poison (items s)) (next_id s).

(** [items.sort_by_key(|(id, _)| *id)], after a copy in the order of the map. *)
Definition by_id (a b : Z * list Z) : Prop := a.1 ≤ b.1.
#[export] Instance by_id_dec a b : Decision (by_id a b).
Proof. unfold by_id. apply _. Defined.
Definition list_items (s : Store) : list (Z * list Z) := merge_sort by_id (map_to_list (read s)).

(** ** It implements the interface *)
#[export] Instance Store_kv oc : KvStore Store := {|
  kv_create := create; kv_get := get; kv_put := put oc; kv_delete := delete_item; kv_list := list_items
|}.

(** Every id in use is below the counter. *)
Definition store_ok (s : Store) : Prop :=
  1 ≤ next_id s < 18446744073709551616 ∧ ∀ id v, read s !! id = Some v → 0 ≤ id < next_id s.

Lemma read_guarded s : read s = guarded (items s).
Proof. unfold read, lock. by destruct (is_poisoned (items s)). Qed.
Lemma read_mk m p n : read (mkStore (mkLock m p) n) = m.
Proof. by rewrite read_guarded. Qed.
Lemma write_eq {B} (f : gmap Z (list Z) → B * gmap Z (list Z)) s :
  write f s = ((f (read s)).1, mkStore (mkLock (f (read s)).2 (is_poisoned (items s))) (next_id s)).
Proof. unfold write. fold (read s). by destruct (f (read s)). Qed.

(** What [create] and [put] do to the map and the counter. *)
Lemma create_eq v s : create v s =
  (next_id s, mkStore (mkLock (<[next_id s := v]> (read s)) (is_poisoned (items s))) (wrap64 (next_id s + 1))).
Proof. unfold create, fetch_add, insert_item. by rewrite write_eq. Qed.
Lemma put_eq oc id v s : put oc id v s =
  n ← add_u64 oc id 1;
  Some (match read s !! id with Some _ => Replaced | None => Created end,
        mkStore (mkLock (<[id := v]> (read s)) (is_poisoned (items s))) (Z.max (next_id s) n)).
Proof. unfold put, fetch_max, insert_item. destruct (add_u64 oc id 1); [|done]. cbn [mbind option_bind]. by rewrite write_eq. Qed.

Lemma new_ok : store_ok new.
Proof. split; simpl; [lia|by intros id v]. Qed.

Lemma items_fresh s id : store_ok s → next_id s ≤ id → read s !! id = None.
Proof.
  intros [_ Hi] Hid. destruct (read s !! id) as [v|] eqn:E; [|done]. specialize (Hi _ _ E). lia.
Qed.

#[export] Instance by_id_total : Total by_id.
Proof. intros a b. unfold by_id. lia. Qed.
#[export] Instance by_id_trans : Transitive by_id.
Proof. intros a b c. unfold by_id. lia. Qed.

Lemma sorted_fst (l : list (Z * list Z)) : Sorted by_id l → Sorted Z.le l.*1.
Proof.
  induction 1 as [|a l Hl IH Ha]; [constructor|]. simpl. constructor; [done|]. destruct Ha; by constructor.
Qed.

#[export, program] Instance Store_laws oc : KvLaws Store (H := Store_kv oc) := {|
  kv_view := read; kv_ok := store_ok; kv_room := λ s, next_id s < 18446744073709551615
|}.
Next Obligation.
  intros oc v s Hs Hr. cbn [kv_create Store_kv]. simpl in Hr. pose proof Hs as [Hn Hi]. rewrite create_eq. unfold wrap64.
  rewrite Z.mod_small by lia. split_and!; [|unfold_int; lia|by apply items_fresh|by rewrite read_mk].
  split; cbn [next_id]; [lia|]. intros id w. rewrite read_mk. intros [[<- _]|[_ E]]%lookup_insert_Some; [lia|].
  specialize (Hi _ _ E). lia.
Qed.
Next Obligation. done. Qed.
Next Obligation.
  intros oc id v s [Hn Hi] Hid. cbn [kv_put Store_kv]. rewrite put_eq, add_u64_ok by (unfold_int; lia). cbn [mbind option_bind].
  eexists. split; [done|]. split; [|by rewrite read_mk].
  split; cbn [next_id]; [lia|]. intros j w. rewrite read_mk. intros [[<- _]|[_ E]]%lookup_insert_Some; [lia|]. specialize (Hi _ _ E). lia.
Qed.
Next Obligation.
  intros oc id s [Hn Hi]. cbn [kv_delete Store_kv]. unfold delete_item. rewrite write_eq. cbn [fst snd].
  split_and!; [|done|by rewrite read_mk]. split; cbn [next_id]; [done|]. intros j w. rewrite read_mk.
  intros [_ E]%lookup_delete_Some. by apply (Hi j w).
Qed.
Next Obligation.
  intros oc s _. simpl. unfold list_items. split.
  - apply sorted_fst, Sorted_merge_sort, _.
  - apply merge_sort_Permutation.
Qed.
Next Obligation. intros oc s id v [Hn Hi] E. specialize (Hi id v E). unfold_int. lia. Qed.

(** ** Concurrent operations

    A task is one operation of one thread: not begun, between its two atomic
    actions, or done with what it returned; or a thread that panics while it holds the
    write guard. *)
Inductive Answer : Type :=
| ACreated (id : Z) | APut (o : PutOutcome) | AGot (v : option (list Z)) | ADeleted (b : bool)
| AListed (l : list (Z * list Z)) | APanic.
Inductive Task : Type :=
| TCreate (v : list Z) | TInsert (id : Z) (v : list Z)          (* create, after fetch_add *)
| TPut (id : Z) (v : list Z) | TReplace (id : Z) (v : list Z)   (* put, after fetch_max *)
| TGet (id : Z) | TDelete (id : Z) | TList | TCrash
| TDone (a : Answer).

Definition task_step (oc : bool) (t : Task) (s : Store) : option (Task * Store) :=
  match t with
  | TCreate v => let '(id, s) := fetch_add s in Some (TInsert id v, s)
  | TInsert id v => let '(_, s) := insert_item id v s in Some (TDone (ACreated id), s)
  | TPut id v =>
      match add_u64 oc id 1 with
      | None => Some (TDone APanic, s)
      | Some n => Some (TReplace id v, fetch_max n s)
      end
  | TReplace id v => let '(old, s) := insert_item id v s in Some (TDone (APut (put_outcome old)), s)
  | TGet id => Some (TDone (AGot (get id s)), s)
  | TDelete id => let '(b, s) := delete_item id s in Some (TDone (ADeleted b), s)
  | TList => Some (TDone (AListed (list_items s)), s)
  | TCrash => Some (TDone APanic, crash s)
  | TDone _ => None
  end.

(** One action of the task [i] of a pool. *)
Definition pool_step (oc : bool) (i : nat) (ps : list Task * Store) : option (list Task * Store) :=
  t ← ps.1 !! i;
  '(t, s) ← task_step oc t ps.2;
  Some (<[i := t]> ps.1, s).

(** A schedule names the task that acts next. *)
Definition run_pool (oc : bool) (schedule : list nat) (ps : list Task * Store) : option (list Task * Store) :=
  for_each (pool_step oc) schedule ps.

(** Run alone, a task does what the operation does. *)
Lemma create_alone oc v s :
  run_pool oc [0; 0]%nat ([TCreate v], s) = let '(id, s') := create v s in Some ([TDone (ACreated id)], s').
Proof. done. Qed.

Lemma put_alone oc id v s o s' :
  put oc id v s = Some (o, s') → run_pool oc [0; 0]%nat ([TPut id v], s) = Some ([TDone (APut o)], s').
Proof.
  unfold put, run_pool, for_each, pool_step. simpl. destruct (add_u64 oc id 1); [|done]. by intros [= <- <-].
Qed.

(** ** Poisoning *)
Lemma read_crash s : read (crash s) = read s.
Proof. unfold crash, poison. by rewrite read_mk, read_guarded. Qed.
Lemma write_crash {B} (f : gmap Z (list Z) → B * gmap Z (list Z)) s : write f (crash s) = ((write f s).1, crash (write f s).2).
Proof. by rewrite !write_eq, read_crash. Qed.

Lemma task_step_crash oc t s : task_step oc t (crash s) = (λ r, (r.1, crash r.2)) <$> task_step oc t s.
Proof.
  destruct t as [v|id v|id v|id v|id|id| | |a]; cbn [task_step]; unfold insert_item, delete_item, get, list_items.
  - done.
  - rewrite write_crash. by destruct (write _ s).
  - by destruct (add_u64 oc id 1).
  - rewrite write_crash. by destruct (write _ s).
  - by rewrite read_crash.
  - rewrite write_crash. by destruct (write _ s).
  - by rewrite read_crash.
  - done.
  - done.
Qed.

Lemma pool_step_crash oc i pool s : pool_step oc i (pool, crash s) = (λ r, (r.1, crash r.2)) <$> pool_step oc i (pool, s).
Proof.
  unfold pool_step. cbn [fst snd]. destruct (pool !! i) as [t|]; [|done]. cbn [mbind option_bind]. rewrite task_step_crash.
  by destruct (task_step oc t s) as [[t' s']|].
Qed.

(** C16. A poisoned lock does not take the store down: whatever operations run at once, and
    however they interleave, with a lock poisoned beforehand each of them takes the
    same actions, returns the same and leaves the same map and counter as without. *)
Theorem poison_transparent oc schedule pool s :
  run_pool oc schedule (pool, crash s) = (λ r, (r.1, crash r.2)) <$> run_pool oc schedule (pool, s).
Proof.
  unfold run_pool. revert pool s. induction schedule as [|i schedule IH]; intros pool s; [done|]. cbn [for_each]. rewrite pool_step_crash.
  destruct (pool_step oc i (pool, s)) as [[pool' s']|]; [|done]. apply IH.
Qed.

(** ** Ids under concurrency *)
Definition created_id (t : Task) : option Z :=
  match t with TInsert id _ | TDone (ACreated id) => Some id | _ => None end.
Definition to_create (t : Task) : bool := match t with TCreate _ => true | _ => false end.
Definition pending (pool : list Task) : nat := length (List.filter to_create pool).

(** Tasks not begun, whose puts stay in the lower half of the ids. *)
Definition fresh_task (t : Task) : Prop :=
  match t with
  | TCreate _ | TGet _ | TDelete _ | TList | TCrash => True
  | TPut id _ => 0 ≤ id < 2 ^ 63
  | _ => False
  end.
Definition put_low (t : Task) : Prop := match t with TPut id _ => 0 ≤ id < 2 ^ 63 | _ => True end.

Definition ids_differ (t u : Task) : Prop :=
  ∀ a b, created_id t = Some a → created_id u = Some b → a ≠ b.

Record pool_ok (n : nat) (pool : list Task) (s : Store) : Prop := {
  p_low : Forall put_low pool;
  p_ids : ∀ t a, t ∈ pool → created_id t = Some a → 1 ≤ a < next_id s;
  p_differ : pairwise ids_differ pool;
  p_pending : (pending pool ≤ n)%nat;
  p_next : 1 ≤ next_id s ∧ next_id s + Z.of_nat (pending pool) ≤ 2 ^ 63 + Z.of_nat n
}.

Lemma pending_insert pool i t t' :
  pool !! i = Some t →
  (pending (<[i := t']> pool) + (if to_create t then 1 else 0) = pending pool + (if to_create t' then 1 else 0))%nat.
Proof.
  unfold pending. revert i. induction pool as [|u pool IH]; intros [|i] E; simplify_eq/=.
  - destruct (to_create t), (to_create t'); simpl; lia.
  - specialize (IH i E). destruct (to_create u); simpl; lia.
Qed.

(** A task of the pool moves on without taking an id, or takes the next one. *)
Lemma pool_ok_update n pool s i t t' s' :
  pool_ok n pool s → pool !! i = Some t → put_low t' →
  (∀ a, created_id t' = Some a → created_id t = Some a ∨ (next_id s = a ∧ a < next_id s')) →
  next_id s ≤ next_id s' → (pending (<[i := t']> pool) ≤ n)%nat →
  next_id s' + Z.of_nat (pending (<[i := t']> pool)) ≤ 2 ^ 63 + Z.of_nat n →
  pool_ok n (<[i := t']> pool) s'.
Proof.
  intros [Hl Hi Hd Hp Hn] Et Hl' Ha Hle Hp' Hn'. constructor; [| | |done|lia].
  - by apply Forall_insert.
  - intros u a [j [(_ & <- & _)|[_ Hj]]%list_lookup_insert_Some]%list_elem_of_lookup_1 Hu.
    + destruct (Ha a Hu) as [Hold|[<- ?]]; [|lia].
      specialize (Hi t a (list_elem_of_lookup_2 _ _ _ Et) Hold). lia.
    + specialize (Hi u a (list_elem_of_lookup_2 _ _ _ Hj) Hu). lia.
  - apply pairwise_insert; [done|]. intros j u Hj Eu.
    assert (Hne : ∀ a b, created_id u = Some a → created_id t' = Some b → a ≠ b).
    { intros a b Hu Hb. destruct (Ha b Hb) as [Hold|[<- _]]; [by apply (Hd j i u t)|].
      specialize (Hi u a (list_elem_of_lookup_2 _ _ _ Eu) Hu). lia. }
    split; intros a b E1 E2; [by apply Hne|]. intros ->. by apply (Hne b b).
Qed.

Lemma pool_step_ok oc n i pool s pool' s' :
  pool_ok n pool s → Z.of_nat n < 2 ^ 62 → pool_step oc i (pool, s) = Some (pool', s') → pool_ok n pool' s'.
Proof.
  intros D Hn E. unfold pool_step in E. simpl in E. destruct (pool !! i) as [t|] eqn:Et; [|done].
  cbn [mbind option_bind] in E. destruct (task_step oc t s) as [[t' s1]|] eqn:Es; [|done]. injection E as <- <-.
  pose proof (p_next _ _ _ D) as [H0 Hnx]. pose proof (p_pending _ _ _ D) as Hle.
  assert (Hlt : put_low t).
  { pose proof (p_low _ _ _ D) as Hlow. rewrite Forall_forall in Hlow. by eapply Hlow, list_elem_of_lookup_2. }
  pose proof (pending_insert pool i t t' Et) as Hp.
  destruct t as [v|id v|id v|id v|id|id| | |a]; cbn [task_step] in Es.
  - injection Es as <- <-. simpl in Hp |- *.
    assert (Ew : wrap64 (next_id s + 1) = next_id s + 1) by (apply Z.mod_small; lia).
    eapply pool_ok_update; [done|done|done| |simpl; lia|lia|simpl; lia].
    intros a [= <-]. right. simpl. rewrite Ew. lia.
  - injection Es as <- <-. simpl in Hp. eapply pool_ok_update; [done|done|done|by left|simpl; lia..].
  - simpl in Hlt. rewrite add_u64_ok in Es by (unfold_int; lia). injection Es as <- <-. simpl in Hp.
    eapply pool_ok_update; [done|done|done|done|simpl; lia..].
  - injection Es as <- <-. simpl in Hp. eapply pool_ok_update; [done|done|done|done|simpl; lia..].
  - injection Es as <- <-. simpl in Hp. eapply pool_ok_update; [done|done|done|done|simpl; lia..].
  - injection Es as <- <-. simpl in Hp. eapply pool_ok_update; [done|done|done|done|simpl; lia..].
  - injection Es as <- <-. simpl in Hp. eapply pool_ok_update; [done|done|done|done|simpl; lia..].
  - injection Es as <- <-. simpl in Hp. eapply pool_ok_update; [done|done|done|done|simpl; lia..].
  - done.
Qed.

Lemma run_pool_ok oc n schedule pool s pool' s' :
  pool_ok n pool s → Z.of_nat n < 2 ^ 62 → run_pool oc schedule (pool, s) = Some (pool', s') →
  pool_ok n pool' s'.
Proof.
  intros D Hn. revert pool s D. unfold run_pool. induction schedule as [|i schedule IH]; intros pool s D E;
    cbn [for_each] in E; [by injection E as <- <-|].
  destruct (pool_step oc i (pool, s)) as [[pool1 s1]|] eqn:Es; [|done]. cbn [mbind option_bind] in E.
  by eapply IH, E; eapply pool_step_ok.
Qed.

Lemma fresh_pool_ok pool : Forall fresh_task pool → pool_ok (length pool) pool new.
Proof.
  intros Hf. rewrite Forall_forall in Hf.
  assert (Hnone : ∀ t a, t ∈ pool → created_id t = Some a → False).
  { intros t a Ht. specialize (Hf t Ht). by destruct t. }
  assert (Hp : (pending pool ≤ length pool)%nat) by apply List.filter_length_le.
  constructor; [| | |done|simpl; lia].
  - apply Forall_forall. intros t Ht. specialize (Hf t Ht). by destruct t.
  - intros t a Ht Ha. by destruct (Hnone t a Ht Ha).
  - intros i j t u _ Ei Ej a b Ha. by destruct (Hnone t a (list_elem_of_lookup_2 _ _ _ Ei) Ha).
Qed.

(** C15. On a new store, with fewer than 2^62 operations and every put at an id in the lower
    half (below 2^63): whatever creates, puts, gets, deletes, listings and panics run at once,
    and however their atomic actions interleave, the ids that the creates hand out are
    different from each other and lie between 1 and the counter, which does not wrap.
    Beyond these bounds it can: [ids_can_collide] has a put at 2^64 - 2 after which a create
    overwrites item 1. *)
Theorem create_ids_distinct oc pool schedule pool' s' :
  Forall fresh_task pool → Z.of_nat (length pool) < 2 ^ 62 →
  run_pool oc schedule (pool, new) = Some (pool', s') →
  (∀ i j a b, i ≠ j → pool' !! i = Some (TDone (ACreated a)) → pool' !! j = Some (TDone (ACreated b)) → a ≠ b) ∧
  (∀ i a, pool' !! i = Some (TDone (ACreated a)) → 1 ≤ a < next_id s').
Proof.
  intros Hf Hn E. assert (D : pool_ok (length pool) pool' s') by (eapply run_pool_ok, E; [by apply fresh_pool_ok|done]).
  split.
  - intros i j a b Hij Ei Ej. by eapply (p_differ _ _ _ D i j).
  - intros i a Ei. by apply (p_ids _ _ _ D _ a (list_elem_of_lookup_2 _ _ _ Ei)).
Qed.

Lemma create_ids_distinct_witness :
  run_pool true [0; 1; 3; 2; 1; 2; 0]%nat ([TCreate [97]; TPut 500 [98]; TCreate [99]; TCrash], new) =
    Some ([TDone (ACreated 1); TDone (APut Created); TDone (ACreated 501); TDone APanic],
          mkStore (mkLock (<[1 := [97]]> (<[501 := [99]]> (<[500 := [98]]> ∅))) true) 502) ∧
  (∀ i j a b, i ≠ j → [TDone (ACreated 1); TDone (APut Created); TDone (ACreated 501); TDone APanic] !! i = Some (TDone (ACreated a)) →
     [TDone (ACreated 1); TDone (APut Created); TDone (ACreated 501); TDone APanic] !! j = Some (TDone (ACreated b)) → a ≠ b).
Proof.
  assert (E : run_pool true [0; 1; 3; 2; 1; 2; 0]%nat ([TCreate [97]; TPut 500 [98]; TCreate [99]; TCrash], new) =
    Some ([TDone (ACreated 1); TDone (APut Created); TDone (ACreated 501); TDone APanic],
          mkStore (mkLock (<[1 := [97]]> (<[501 := [99]]> (<[500 := [98]]> ∅))) true) 502)) by (vm_compute; reflexivity).
  split; [exact E|].
  apply (create_ids_distinct true [TCreate [97]; TPut 500 [98]; TCreate [99]; TCrash] [0; 1; 3; 2; 1; 2; 0]%nat _
    (mkStore (mkLock (<[1 := [97]]> (<[501 := [99]]> (<[500 := [98]]> ∅))) true) 502)); [|vm_compute; reflexivity|exact E].
  repeat constructor; simpl; lia.
Defined.

(** Where the two sources of ids meet.  (a) A create that has its id and not yet
    its entry, and a put at that id: both report that they created the item, and
    the value of the put is gone.  (b) After a put at 2^64 - 2, creates get 2^64 - 1
    and then 0 and 1, and the last one overwrites item 1.  (c) A put at 2^64 - 1
    panics when the build checks overflow. *)
Theorem ids_can_collide :
  (∀ oc v w, ∃ s, run_pool oc [0; 1; 1; 0]%nat ([TCreate v; TPut 1 w], new) =
     Some ([TDone (ACreated 1); TDone (APut Created)], s) ∧ get 1 s = Some v) ∧
  (∀ oc u v w x y, ∃ s3 s4,
     let s1 := (create u new).2 in
     get 1 s1 = Some u ∧ put oc (2 ^ 64 - 2) v s1 = Some (Created, s3) ∧
     create w s3 = (2 ^ 64 - 1, s4) ∧
     (create x s4).1 = 0 ∧ (create y (create x s4).2).1 = 1 ∧ get 1 (create y (create x s4).2).2 = Some y) ∧
  (∀ v s, put true (2 ^ 64 - 1) v s = None).
Proof.
  split_and!.
  - intros oc v w. eexists. split; [reflexivity|]. by unfold get; rewrite read_mk, lookup_insert_eq.
  - intros oc u v w x y. do 2 eexists. cbn zeta. split; [done|]. split; [by destruct oc|]. split; [reflexivity|].
    split_and!; [reflexivity..|]. unfold get. rewrite create_eq. cbn [snd]. by rewrite read_mk, lookup_insert_eq.
  - done.
Qed.
