(* ===== verification/HttpService.v ===== *)
(** * The microservice: HTTP and the routes
    ([2026-08-13-rust-microservice/src/{http,server}.rs])

    The routes are defined over the interface [KvStore], for whatever implements
    it.  A connection is the bytes its client will ever send; what is written back
    is a list of bytes, and a failing write, which the source only logs, is not
    modelled.  [None] is a panic of the connection's thread. *)
From S2P Require Import Prelude RustStr RustUtf8 KvStore.

(** ** [http.rs]: requests *)
Record Request : Type := mkRequest {
  method : str; path : str; req_headers : list (str * str); req_body : list Z
}.

Inductive ParseError : Type := Io (e : io_error) | Malformed (reason : str).

(** [o.filter(|s| !s.is_empty()).ok_or(Malformed(reason))?] *)
Definition required (reason : str) (part : option str) : reading ParseError str :=
  match part with
  | Some ((_ :: _) as s) => rret s
  | _ => rfail (Malformed reason)
  end.

(** The header loop.  The end of the stream reads as an empty line. *)
Fixpoint parse_headers (fuel : nat) (headers : list (str * str)) : reading ParseError (list (str * str)) :=
  match fuel with
  | O => λ _, None
  | S fuel =>
      let! line := map_err Io read_line in
      let line := trim_end line in
      match line with
      | [] => rret headers
      | _ =>
          match split_once 58 line with
          | None => rfail (Malformed (lit "header missing colon"))
          | Some (name, value) =>
              parse_headers fuel (headers ++ [(to_ascii_lowercase (trim name), trim value)])
          end
      end
  end.

(** Each turn but the last reads at least one byte. *)
Definition read_headers : reading ParseError (list (str * str)) := λ r, parse_headers (S (length r)) [] r.

Definition is_content_length (h : str * str) : bool := bool_decide (h.1 = lit "content-length").

Definition content_length (headers : list (str * str)) : reading ParseError Z :=
  match List.find is_content_length headers with
  | None => rret 0
  | Some (_, value) =>
      match parse_usize value with
      | Some n => rret n
      | None => rfail (Malformed (lit "content-length is not a number"))
      end
  end.

Definition parse : reading ParseError (option Request) :=
  let! request_line := map_err Io read_line in
  match request_line with
  | [] => rret None
  | _ =>
      let parts := splitn 3 SPACE (trim_end request_line) in
      let! method := required (lit "missing method") (parts !! 0%nat) in
      let! path := required (lit "missing path") (parts !! 1%nat) in
      let! _version := required (lit "missing version") (parts !! 2%nat) in
      let! headers := read_headers in
      let! n := content_length headers in
      let! _alloc := or_panic (alloc n) in
      let! body := map_err Io (read_exact n) in
      rret (Some (mkRequest method path headers body))
  end.

(** ** [http.rs]: responses *)
Record Response : Type := mkResponse {
  status : Z; reason : str; headers : list (str * str); body : list Z
}.

Definition new_response (status : Z) (reason : str) : Response := mkResponse status reason [] [].
Definition with_body (b : list Z) (r : Response) : Response := mkResponse (status r) (reason r) (headers r) b.
Definition with_header (name value : str) (r : Response) : Response :=
  mkResponse (status r) (reason r) (headers r ++ [(name, value)]) (body r).

Definition write_header (h : str * str) : str :=
  if eq_ignore_ascii_case h.1 (lit "content-length") then [] else h.1 ++ lit ": " ++ h.2 ++ crlf.

Definition write (r : Response) : list Z :=
  as_bytes (lit "HTTP/1.1 " ++ show (status r) ++ lit " " ++ reason r ++ crlf)
  ++ as_bytes (flat_map write_header (headers r))
  ++ as_bytes (lit "content-length: " ++ show (Z.of_nat (length (body r))) ++ crlf)
  ++ as_bytes (lit "connection: close" ++ crlf)
  ++ as_bytes crlf
  ++ body r.

(** ** [server.rs]: JSON *)
Definition json_byte (b : Z) : list Z :=
  if b =? 34 then [BACKSLASH; 34]
  else if b =? BACKSLASH then [BACKSLASH; BACKSLASH]
  else if b =? LF then [BACKSLASH; 110]
  else if b =? CR then [BACKSLASH; 114]
  else if b =? TAB then [BACKSLASH; 116]
  else if (0x20 <=? b) && (b <=? 0x7e) then [b]
  else [63].
Definition json_string (raw : list Z) : list Z := [34] ++ flat_map json_byte raw ++ [34].

Definition json_item (i : nat) (item : Z * list Z) : list Z :=
  (if (0 <? i)%nat then [44] else [])
  ++ as_bytes (lit "{`id`:" ++ show item.1 ++ lit ",`value`:") ++ json_string item.2 ++ [125].
Definition json_array (items : list (Z * list Z)) : list Z := [91] ++ concat (imap json_item items) ++ [93].

(** ** [server.rs]: routes *)
Section routes.
Context {S : Type} `{KvStore S}.

Definition list_items (store : S) : Response * S :=
  (with_body (json_array (kv_list store))
     (with_header (lit "content-type") (lit "application/json") (new_response 200 (lit "OK"))), store).

Definition item_path (id : Z) : str := lit "/items/" ++ show id.

Definition create_item (request : Request) (store : S) : Response * S :=
  let '(id, store) := kv_create (req_body request) store in
  (with_body (as_bytes (lit "{`id`:" ++ show id ++ lit "}"))
     (with_header (lit "content-type") (lit "application/json")
        (with_header (lit "location") (item_path id) (new_response 201 (lit "Created")))), store).

Definition get_item (id : Z) (store : S) : Response * S :=
  (match kv_get id store with
   | Some value =>
       with_body value
         (with_header (lit "content-type") (lit "application/octet-stream") (new_response 200 (lit "OK")))
   | None => new_response 404 (lit "Not Found")
   end, store).

Definition put_item (id : Z) (request : Request) (store : S) : option (Response * S) :=
  '(outcome, store) ← kv_put id (req_body request) store;
  Some (match outcome with
        | Created => with_header (lit "location") (item_path id) (new_response 201 (lit "Created"))
        | Replaced => new_response 200 (lit "OK")
        end, store).

Definition delete_item (id : Z) (store : S) : Response * S :=
  let '(removed, store) := kv_delete id store in
  (if removed then new_response 204 (lit "No Content") else new_response 404 (lit "Not Found"), store).

Definition with_id (raw : str) (handler : Z → option (Response * S)) (store : S) : option (Response * S) :=
  match parse_u64 raw with
  | Some id => handler id
  | None => Some (with_body (lit "id must be a non-negative integer") (new_response 400 (lit "Bad Request")), store)
  end.

Definition SLASH : char := 47.
Definition is_nonempty (s : str) : bool := match s with [] => false | _ => true end.
Definition segments (path : str) : list str :=
  List.filter is_nonempty (split_on SLASH (trim_start_matches SLASH path)).

(** The arms are tried in the order of the source. *)
Definition route (request : Request) (store : S) : option (Response * S) :=
  let method_is m := bool_decide (method request = m) in
  let not_found := Some (new_response 404 (lit "Not Found"), store) in
  match segments (path request) with
  | [items] =>
      if negb (bool_decide (items = lit "items")) then not_found
      else if method_is (lit "GET") then Some (list_items store)
      else if method_is (lit "POST") then Some (create_item request store)
      else not_found
  | [items; id] =>
      if negb (bool_decide (items = lit "items")) then not_found
      else if method_is (lit "GET") then with_id id (λ id, Some (get_item id store)) store
      else if method_is (lit "PUT") then with_id id (λ id, put_item id request store) store
      else if method_is (lit "DELETE") then with_id id (λ id, Some (delete_item id store)) store
      else not_found
  | _ => not_found
  end.

(** ** [server.rs]: connections *)
Definition handle_connection (input : list Z) (store : S) : option (list Z * S) :=
  match parse input with
  | None => None
  | Some (Ok (Some request, _)) =>
      '(response, store) ← route request store;
      Some (write response, store)
  | Some (Ok (None, _)) => Some ([], store)
  | Some (Err (Malformed reason)) =>
      Some (write (with_body (as_bytes reason) (new_response 400 (lit "Bad Request"))), store)
  | Some (Err (Io _)) => Some ([], store)
  end.

(** [serve], the connections one after the other: each has its own thread, so that
    a panic, which comes before the store is touched, ends that connection only. *)
Fixpoint serve (inputs : list (list Z)) (store : S) : list (option (list Z)) * S :=
  match inputs with
  | [] => ([], store)
  | input :: inputs =>
      match handle_connection input store with
      | None => let '(outs, store) := serve inputs store in (None :: outs, store)
      | Some (out, store) => let '(outs, store) := serve inputs store in (Some out :: outs, store)
      end
  end.
End routes.

(** The tests of the source. *)

Example parse_example :
  parse (lit "POST /items HTTP/1.1" ++ crlf ++ lit "Content-Length: 5" ++ crlf ++ lit "X-Trace: abc" ++ crlf ++ crlf
         ++ lit "hello") =
  Some (Ok (Some (mkRequest (lit "POST") (lit "/items")
    [(lit "content-length", lit "5"); (lit "x-trace", lit "abc")] (lit "hello")), [])).
Proof. vm_compute. reflexivity. Qed.
Example json_example : json_string (lit "say `hi`\now") = lit "`say \`hi\`\\now`".
Proof. vm_compute. reflexivity. Qed.
Example write_example :
  write (with_body (lit "hi") (with_header (lit "Content-Length") (lit "999") (new_response 200 (lit "OK")))) =
  lit "HTTP/1.1 200 OK" ++ crlf ++ lit "content-length: 2" ++ crlf ++ lit "connection: close" ++ crlf ++ crlf ++ lit "hi".
Proof. vm_compute. reflexivity. Qed.
