(* ===== verification/HttpServiceProps.v ===== *)
(** * The microservice: what its clients rely on

    Requests as a client prints them are read back; whatever arrives, the parser
    returns, and what is sent back is a framed response; the routes refine an
    abstract REST service over the interface of the store; listings are JSON. *)
From S2P Require Import Prelude RustStr RustUtf8 HttpText KvStore HttpService.

Lemma header_turn fuel acc h q :
  header_ok h → parse_headers (S fuel) acc (as_bytes (print_header h) ++ q) = parse_headers fuel (acc ++ [lower h]) q.
Proof.
  intros Hh. cbn [parse_headers].
  erewrite rbind_eq by by apply map_err_ok, read_header. destruct (header_line h Hh) as (v & El & Ev). rewrite El.
  destruct Hh as [Hn Hc _ _ _]. rewrite split_once_app by done. rewrite Ev, (trim_id h.1) by by right.
  by destruct (h.1 ++ 58 :: v) as [|c l] eqn:E; [apply app_nil in E as [_ ?]|].
Qed.

Lemma parse_headers_spec hs fuel acc q :
  Forall header_ok hs → (length hs < fuel)%nat →
  parse_headers fuel acc (as_bytes (flat_map print_header hs ++ crlf) ++ q) = Some (Ok (acc ++ List.map lower hs, q)).
Proof.
  intros Hhs. revert fuel acc. induction Hhs as [|h hs Hh Hhs IH]; intros [|fuel] acc Hf; simpl in Hf; try lia.
  - rewrite app_nil_r. change (flat_map print_header [] ++ crlf) with crlf. cbn [parse_headers].
    by erewrite rbind_eq by apply map_err_ok, read_blank.
  - cbn [flat_map]. rewrite <-app_assoc, as_bytes_app, <-app_assoc, header_turn, IH by (done || lia).
    by rewrite <-app_assoc.
Qed.

Lemma read_headers_spec hs q :
  Forall header_ok hs →
  read_headers (as_bytes (flat_map print_header hs ++ crlf) ++ q) = Some (Ok (List.map lower hs, q)).
Proof.
  intros Hhs. unfold read_headers. apply (parse_headers_spec hs _ []); [done|].
  rewrite length_app. pose proof (as_bytes_length (flat_map print_header hs ++ crlf)) as Hl.
  rewrite length_app in Hl. pose proof (print_headers_length hs). lia.
Qed.

(** The header loop always has enough turns. *)
Lemma parse_headers_total fuel acc r : (length r < fuel)%nat → parse_headers fuel acc r ≠ None.
Proof.
  revert acc r. induction fuel as [|fuel IH]; intros acc r Hf; [lia|]. cbn [parse_headers].
  unfold rbind, map_err. destruct (read_line_cases r) as [[e ->]|(s & r' & -> & Hs)]; [done|].
  destruct (trim_end s) as [|c l] eqn:Et; [done|]. destruct Hs as [->|Hlt]; [done|].
  destruct (split_once 58 (c :: l)) as [[n v]|]; [apply IH; lia|done].
Qed.

(** ** Requests *)
Definition print_request (m p v : str) (hs : list (str * str)) (body : list Z) : list Z :=
  as_bytes (m ++ SPACE :: p ++ SPACE :: v ++ crlf) ++ as_bytes (flat_map print_header hs ++ crlf) ++ body.

(** A request line of three words, the last of which may hold spaces. *)
Record line_ok (m p v : str) : Prop := {
  l_method : m ≠ [] ∧ (SPACE ∉ m) ∧ text_ok m;
  l_path : p ≠ [] ∧ (SPACE ∉ p) ∧ text_ok p;
  l_version : (∃ c, last v = Some c ∧ is_whitespace c = false) ∧ text_ok v
}.

Lemma request_line_spec m p v q : line_ok m p v →
  read_line (as_bytes (m ++ SPACE :: p ++ SPACE :: v ++ crlf) ++ q) = Some (Ok (m ++ SPACE :: p ++ SPACE :: v ++ crlf, q)) ∧
  splitn 3 SPACE (trim_end (m ++ SPACE :: p ++ SPACE :: v ++ crlf)) = [m; p; v].
Proof.
  intros [(_ & Hms & Hm) (_ & Hps & Hp) [(c & Hc & Ec) Hv]].
  change (m ++ SPACE :: p ++ SPACE :: v ++ crlf) with (m ++ [SPACE] ++ p ++ [SPACE] ++ v ++ [CR] ++ [LF]). split.
  - rewrite !app_assoc. apply read_text. rewrite !text_ok_app.
    split_and!; [done|by split; [|closed]|done|by split; [|closed]|done|by split; [|closed]].
  - replace (m ++ [SPACE] ++ p ++ [SPACE] ++ v ++ [CR] ++ [LF]) with ((m ++ SPACE :: p ++ SPACE :: v) ++ crlf)
      by by rewrite <-!app_assoc; simpl; rewrite <-!app_assoc.
    rewrite trim_end_ws by done. rewrite trim_end_id.
    + cbn [splitn]. rewrite split_once_app by done. by rewrite split_once_app.
    + intros d. destruct v as [|x v]; [done|]. rewrite last_app_cons, last_cons, last_app_cons, last_cons, Hc.
      by intros [= <-].
Qed.

Lemma required_ok E s : s ≠ [] → required E (Some s) = rret s.
Proof. by destruct s. Qed.

(** What [parse] does once it has the head of a request. *)
Lemma parse_head m p v hs q :
  line_ok m p v → Forall header_ok hs →
  parse (as_bytes (m ++ SPACE :: p ++ SPACE :: v ++ crlf) ++ as_bytes (flat_map print_header hs ++ crlf) ++ q) =
  (let! n := content_length (List.map lower hs) in
   let! _alloc := or_panic (alloc n) in
   let! body := map_err Io (read_exact n) in
   rret (Some (mkRequest m p (List.map lower hs) body))) q.
Proof.
  intros Hl Hhs. destruct (request_line_spec m p v (as_bytes (flat_map print_header hs ++ crlf) ++ q) Hl) as [Er Es].
  unfold parse. erewrite rbind_eq by (apply map_err_ok, Er).
  destruct Hl as [(Hm & _ & _) (Hp & _ & _) [(c & Hc & _) _]].
  destruct (m ++ SPACE :: p ++ SPACE :: v ++ crlf) as [|x l] eqn:El; [by apply app_nil in El as [? _]|].
  rewrite Es. cbn [lookup list_lookup]. rewrite !required_ok by (done || by intros ->).
  unfold rbind at 1 2 3. cbn [rret]. by rewrite (rbind_eq _ _ _ _ _ (read_headers_spec hs q Hhs)).
Qed.

(** The length that the headers of a request announce. *)
Definition announced (hs : list (str * str)) : option Z :=
  match List.find is_content_length (List.map lower hs) with
  | None => Some 0
  | Some h => parse_usize h.2
  end.

Lemma content_length_announced hs n r :
  announced hs = Some n → content_length (List.map lower hs) r = Some (Ok (n, r)).
Proof.
  unfold announced, content_length. destruct (List.find _ _) as [[a b]|]; simpl; [by intros ->|by intros [= <-]].
Qed.

Lemma request_parsed m p v hs body q :
  line_ok m p v → Forall header_ok hs → announced hs = Some (Z.of_nat (length body)) →
  Z.of_nat (length body) ≤ ISIZE_MAX →
  parse (print_request m p v hs body ++ q) = Some (Ok (Some (mkRequest m p (List.map lower hs) body), q)) ∧
  ∀ k, (k < length body)%nat → parse (print_request m p v hs (take k body)) = Some (Err (Io UnexpectedEof)).
Proof.
  intros Hl Hhs Hn Hmax.
  assert (Ha : alloc (Z.of_nat (length body)) = Some tt).
  { unfold alloc. by destruct (Z.leb_spec (Z.of_nat (length body)) ISIZE_MAX); [|lia]. }
  split.
  - unfold print_request. rewrite <-!app_assoc, parse_head by done.
    erewrite rbind_eq by by apply content_length_announced. rewrite Ha.
    unfold rbind at 1. cbn [or_panic]. unfold rbind. by rewrite (map_err_ok _ _ _ _ (read_exact_app _ body q eq_refl)).
  - intros k Hk. unfold print_request. rewrite parse_head by done.
    erewrite rbind_eq by by apply content_length_announced. rewrite Ha.
    unfold rbind, map_err, read_exact. cbn [or_panic]. rewrite length_take.
    by rewrite (proj2 (Z.leb_gt _ _)) by lia.
Qed.

(** C21. A request is read back as the client printed it, header names lowered and
    the body as long as the first Content-Length says, and nothing behind it is
    consumed; cut anywhere within the body it is an unexpected end of the stream. *)
Theorem request_roundtrip m p v hs body q :
  line_ok m p v → Forall header_ok hs → announced hs = Some (Z.of_nat (length body)) →
  Z.of_nat (length body) ≤ ISIZE_MAX →
  parse (print_request m p v hs body ++ q) = Some (Ok (Some (mkRequest m p (List.map lower hs) body), q)) ∧
  ∀ k, (k < length body)%nat → parse (print_request m p v hs (take k body)) = Some (Err (Io UnexpectedEof)).
Proof. apply request_parsed. Qed.


(** Whatever bytes arrive, [parse] returns, except that it panics where a
    request announces a body of more than isize::MAX bytes. *)
Theorem parse_total r :
  parse r = None → ∃ r0 hs q h n, read_headers r0 = Some (Ok (hs, q)) ∧
    List.find is_content_length hs = Some h ∧ parse_usize h.2 = Some n ∧ ISIZE_MAX < n.
Proof.
  unfold parse. unfold rbind at 1, map_err at 1. destruct (read_line_cases r) as [[e ->]|(s & r1 & -> & _)]; [done|].
  destruct s as [|c s]; [done|].
  generalize (splitn 3 SPACE (trim_end (c :: s))). intros parts.
  destruct (parts !! 0%nat) as [[|]|], (parts !! 1%nat) as [[|]|], (parts !! 2%nat) as [[|]|]; try done.
  unfold rbind at 1 2 3 4. cbn [required rret].
  destruct (read_headers r1) as [[[hs q]|e]|] eqn:Eh; [|done|].
  2: { by apply parse_headers_total in Eh; [|lia]. }
  intros H. exists r1, hs, q. revert H. unfold content_length, rbind at 1.
  destruct (List.find is_content_length hs) as [[a b]|].
  - destruct (parse_usize b) as [n|] eqn:En; [|done]. cbn [rret]. unfold rbind at 1, alloc.
    destruct (Z.leb_spec n ISIZE_MAX); cbn [or_panic].
    + unfold rbind, map_err, read_exact. by destruct (n <=? Z.of_nat (length q)).
    + intros _. by exists (a, b), n.
  - cbn [rret]. unfold rbind, map_err, read_exact, alloc. simpl. by destruct (0 <=? Z.of_nat (length q)).
Qed.

(** ** Responses *)
(** What a client sees of a response: a status line, a block of headers that ends
    with the length and the end of the connection, and the body. *)
Definition status_line (r : Response) : str := lit "HTTP/1.1 " ++ show (status r) ++ lit " " ++ reason r ++ crlf.
Definition kept_headers (r : Response) : list (str * str) :=
  List.filter (λ h, negb (eq_ignore_ascii_case h.1 (lit "content-length"))) (headers r).
Definition sent_headers (r : Response) : list (str * str) :=
  kept_headers r ++ [(lit "content-length", show (Z.of_nat (length (body r)))); (lit "connection", lit "close")].

Record response_ok (r : Response) : Prop := {
  r_status : 0 ≤ status r; r_reason : text_ok (reason r); r_headers : Forall header_ok (headers r)
}.

Definition framed (out : list Z) (r : Response) : Prop := ∃ r1,
  read_line out = Some (Ok (status_line r, r1)) ∧
  read_headers r1 = Some (Ok (List.map lower (sent_headers r), body r)) ∧
  List.filter is_content_length (List.map lower (sent_headers r)) =
    [(lit "content-length", show (Z.of_nat (length (body r))))].

Lemma connection_header_ok : header_ok (lit "connection", lit "close").
Proof. closed_header; closed_value. Qed.

Lemma flat_map_write hs :
  flat_map write_header hs =
  flat_map print_header (List.filter (λ h, negb (eq_ignore_ascii_case h.1 (lit "content-length"))) hs).
Proof.
  induction hs as [|h hs IH]; [done|]. cbn [flat_map List.filter]. unfold write_header at 1.
  destruct (eq_ignore_ascii_case h.1 (lit "content-length")); simpl; by rewrite IH.
Qed.

Lemma write_print r :
  write r = as_bytes (status_line r) ++ as_bytes (flat_map print_header (sent_headers r) ++ crlf) ++ body r.
Proof.
  assert (E : flat_map print_header (sent_headers r) =
    flat_map write_header (headers r) ++ (lit "content-length: " ++ show (Z.of_nat (length (body r))) ++ crlf) ++
    (lit "connection: close" ++ crlf)).
  { unfold sent_headers. by rewrite flat_map_app, flat_map_write. }
  unfold write, status_line. rewrite E. by rewrite !as_bytes_app, <-!app_assoc.
Qed.

Lemma write_framed r : response_ok r → framed (write r) r.
Proof.
  intros [Hst Hre Hhs]. rewrite write_print.
  exists (as_bytes (flat_map print_header (sent_headers r) ++ crlf) ++ body r). split_and!.
  - assert (El : status_line r = (lit "HTTP/1.1 " ++ show (status r) ++ lit " " ++ reason r ++ [CR]) ++ [LF])
      by (unfold status_line, crlf; by rewrite <-!app_assoc).
    rewrite El. apply read_text. rewrite !text_ok_app.
    split_and!; [closed|by apply digits_text, show_digits|closed|done|closed].
  - apply read_headers_spec, Forall_app. split; [|constructor; [by apply number_header_ok; [lia|closed..]|]].
    + rewrite Forall_forall in *. intros h Hh. apply Hhs. apply list_elem_of_In.
      by apply list_elem_of_In, filter_In in Hh as [? _].
    + constructor; [apply connection_header_ok|constructor].
  - unfold sent_headers. rewrite List.map_app, List.filter_app.
    enough (E : List.filter is_content_length (List.map lower (kept_headers r)) = []) by by rewrite E.
    unfold kept_headers. induction (headers r) as [|h hs IH]; [done|]. cbn [List.filter].
    inversion_clear Hhs. specialize (IH ltac:(done)).
    destruct (eq_ignore_ascii_case h.1 (lit "content-length")) eqn:E; simpl; [done|].
    unfold eq_ignore_ascii_case in E. apply bool_decide_eq_false in E.
    unfold is_content_length at 1. simpl. rewrite bool_decide_false; [done|]. intros E'. by apply E.
Qed.

(** ** Listings *)
(** A reader of the JSON that the service writes. *)
Definition unescape (e : Z) : option Z :=
  if e =? 34 then Some 34 else if e =? BACKSLASH then Some BACKSLASH
  else if e =? 110 then Some LF else if e =? 114 then Some CR else if e =? 116 then Some TAB else None.
Definition printable (b : Z) : bool := (0x20 <=? b) && (b <=? 0x7e).
Fixpoint read_string (l : list Z) : option (list Z * list Z) :=
  match l with
  | [] => None
  | b :: q =>
      if b =? 34 then Some ([], q)
      else if b =? BACKSLASH then
        match q with
        | [] => None
        | e :: q => c ← unescape e; '(s, r) ← read_string q; Some (c :: s, r)
        end
      else if printable b then '(s, r) ← read_string q; Some (b :: s, r)
      else None
  end.
Fixpoint expect (p l : list Z) : option (list Z) :=
  match p, l with
  | [], _ => Some l
  | b :: p, c :: l => if b =? c then expect p l else None
  | _ :: _, [] => None
  end.
Fixpoint read_number (n : Z) (l : list Z) : Z * list Z :=
  match l with
  | c :: q => if (48 <=? c) && (c <=? 57) then read_number (10 * n + (c - 48)) q else (n, l)
  | [] => (n, [])
  end.
Definition read_item (l : list Z) : option (Z * list Z * list Z) :=
  q ← expect (lit "{`id`:") l;
  let '(id, q) := read_number 0 q in
  q ← expect (lit ",`value`:`") q;
  '(v, q) ← read_string q;
  q ← expect (lit "}") q;
  Some (id, v, q).
Fixpoint read_items (fuel : nat) (l : list Z) : option (list (Z * list Z) * list Z) :=
  match fuel with
  | O => None
  | S fuel =>
      '(item, q) ← read_item l;
      match q with
      | b :: q =>
          if b =? 93 then Some ([item], q)
          else if b =? 44 then '(items, r) ← read_items fuel q; Some (item :: items, r)
          else None
      | [] => None
      end
  end.
Definition read_array (l : list Z) : option (list (Z * list Z) * list Z) :=
  match expect (lit "[]") l with
  | Some r => Some ([], r)
  | None => q ← expect (lit "[") l; read_items (length q) q
  end.

(** What a listing shows of a value: bytes that are not printable become [?]. *)
Definition shown (v : list Z) : list Z :=
  List.map (λ b, if printable b || bool_decide (b ∈ [TAB; LF; CR]) then b else 63) v.

Lemma read_json_string v r : read_string (flat_map json_byte v ++ 34 :: r) = Some (shown v, r).
Proof.
  induction v as [|b v IH]; [done|]. cbn [flat_map shown List.map]. rewrite <-app_assoc. fold (shown v).
  unfold json_byte at 1. destruct (Z.eqb_spec b 34) as [->|H1]; [simpl; by rewrite IH|].
  destruct (Z.eqb_spec b BACKSLASH) as [->|H2]; [simpl; by rewrite IH|].
  destruct (Z.eqb_spec b LF) as [->|H3]; [simpl; by rewrite IH|].
  destruct (Z.eqb_spec b CR) as [->|H4]; [simpl; by rewrite IH|].
  destruct (Z.eqb_spec b TAB) as [->|H5]; [simpl; by rewrite IH|].
  change ((0x20 <=? b) && (b <=? 0x7e)) with (printable b). destruct (printable b) eqn:Ep; cbn [app read_string].
  - rewrite (proj2 (Z.eqb_neq b 34)), (proj2 (Z.eqb_neq b BACKSLASH)) by done. by rewrite Ep, IH.
  - simpl. rewrite IH. simpl. rewrite bool_decide_false; [done|]. rewrite !not_elem_of_cons. auto using not_elem_of_nil.
Qed.

Lemma expect_app p l : expect p (p ++ l) = Some l.
Proof. induction p as [|b p IH]; [done|]. simpl. by rewrite Z.eqb_refl. Qed.

Lemma read_number_spec s c q : forallb is_ascii_digit s = true → is_ascii_digit c = false →
  ∀ n, read_number n (s ++ c :: q) = (foldl (λ a d, a * 10 + (d - 48)) n s, c :: q).
Proof.
  intros Hs Hc. induction s as [|d s IH]; intros n; cbn [app read_number foldl].
  - unfold is_ascii_digit in Hc. by rewrite Hc.
  - cbn [forallb] in Hs. apply andb_prop in Hs as [Hd Hs]. unfold is_ascii_digit in Hd. rewrite Hd, IH by done. do 2 f_equal. lia.
Qed.

Definition item_text (x : Z * list Z) : list Z :=
  as_bytes (lit "{`id`:" ++ show x.1 ++ lit ",`value`:") ++ json_string x.2 ++ [125].

Lemma read_json_item x q : is_u64 x.1 → read_item (item_text x ++ q) = Some (x.1, shown x.2, q).
Proof.
  destruct x as [id v]. intros Hid. cbn [fst snd] in *. pose proof (show_digits id (proj1 Hid)) as Hd.
  assert (E : item_text (id, v) ++ q =
    lit "{`id`:" ++ show id ++ 44 :: lit "`value`:`" ++ flat_map json_byte v ++ 34 :: 125 :: q).
  { unfold item_text, json_string. cbn [fst snd]. rewrite !as_bytes_app, (as_bytes_ascii (show id)).
    - by rewrite <-!app_assoc.
    - rewrite forallb_forall in *. intros c Hc%Hd. unfold is_ascii_digit, is_ascii in *. lia. }
  rewrite E. unfold read_item. rewrite expect_app. cbn [mbind option_bind].
  rewrite read_number_spec by done. change (foldl _ 0 (show id)) with (digits_value (show id)). rewrite show_value by apply Hid.
  change (44 :: lit "`value`:`" ++ ?l) with (lit ",`value`:`" ++ l). rewrite expect_app. cbn [mbind option_bind].
  by rewrite read_json_string.
Qed.

Lemma concat_imap_const {A} (f : nat → A → list Z) g l :
  (∀ i x, f i x = g x) → concat (imap f l) = flat_map g l.
Proof.
  revert f. induction l as [|x l IH]; intros f Hf; [done|]. rewrite imap_cons. simpl. rewrite Hf.
  f_equal. apply IH. intros i y. apply Hf.
Qed.

Lemma json_array_cons x l :
  json_array (x :: l) = 91 :: item_text x ++ flat_map (λ y, 44 :: item_text y) l ++ [93].
Proof.
  unfold json_array. rewrite imap_cons. cbn [concat app]. rewrite <-app_assoc. f_equal. f_equal.
  by rewrite (concat_imap_const _ (λ y, 44 :: item_text y)).
Qed.

Lemma read_items_spec fuel x l r :
  is_u64 x.1 → Forall (λ y, is_u64 y.1) l → (length l < fuel)%nat →
  read_items fuel (item_text x ++ flat_map (λ y, 44 :: item_text y) l ++ 93 :: r) =
    Some (List.map (λ y, (y.1, shown y.2)) (x :: l), r).
Proof.
  intros Hx Hl. revert fuel x Hx. induction Hl as [|y l Hy Hl IH]; intros [|fuel] x Hx Hf; simpl in Hf; try lia;
    cbn [read_items]; rewrite read_json_item by done; cbn [mbind option_bind]; [done|].
  cbn [flat_map app]. rewrite <-app_assoc. cbn [Z.eqb Pos.eqb]. rewrite IH by (done || lia). done.
Qed.

Lemma items_length (l : list (Z * list Z)) :
  (length l ≤ length (flat_map (λ y, (44 : Z) :: item_text y) l))%nat.
Proof. induction l as [|y l IH]; [done|]. cbn [flat_map app length]. rewrite length_app. lia. Qed.

Lemma read_array_spec l r :
  Forall (λ y, is_u64 y.1) l → read_array (json_array l ++ r) = Some (List.map (λ y, (y.1, shown y.2)) l, r).
Proof.
  intros Hl. destruct Hl as [|x l Hx Hl]; [done|]. rewrite json_array_cons. cbn [app].
  rewrite <-!app_assoc. unfold read_array.
  assert (E0 : ∀ q, expect (lit "[]") (91 :: item_text x ++ q) = None) by done. rewrite E0.
  change (expect (lit "[") (91 :: ?q)) with (Some q). cbn [mbind option_bind]. apply read_items_spec; [done..|].
  rewrite !length_app. pose proof (items_length l). simpl. lia.
Qed.

(** ** The routes as an abstract service

    The service is specified without the code's own path and number parsing and JSON. *)
Definition json_headers : list (str * str) := [(lit "content-type", lit "application/json")].
Definition octet_headers : list (str * str) := [(lit "content-type", lit "application/octet-stream")].
Definition location (id : Z) : str * str := (lit "location", lit "/items/" ++ show id).

(** The parts of a path: what is between its slashes and not empty. *)
Inductive path_parts : str → list str → Prop :=
| parts_end ss : Forall (eq SLASH) ss → path_parts ss []
| parts_last ss part : Forall (eq SLASH) ss → part ≠ [] → (SLASH ∉ part) → path_parts (ss ++ part) [part]
| parts_more ss part p l : Forall (eq SLASH) ss → part ≠ [] → (SLASH ∉ part) → path_parts p l →
    path_parts (ss ++ part ++ SLASH :: p) (part :: l).

(** Decimal numerals. *)
Inductive decimal : str → Z → Prop :=
| decimal_digit d : 0 ≤ d ≤ 9 → decimal [48 + d] d
| decimal_more s n d : decimal s n → 0 ≤ d ≤ 9 → decimal (s ++ [48 + d]) (10 * n + d).
(** A numeral, perhaps with a plus sign, of a 64-bit number. *)
Definition item_id (raw : str) (id : Z) : Prop :=
  (decimal raw id ∨ ∃ s, raw = 43 :: s ∧ decimal s id) ∧ id < 2 ^ 64.

(** A JSON array of the items by id, as a reader of JSON gets them. *)
Definition lists (m : gmap Z (list Z)) (b : list Z) : Prop :=
  ∃ l, read_array b = Some (List.map (λ y, (y.1, shown y.2)) l, []) ∧ Sorted Z.le l.*1 ∧ l ≡ₚ map_to_list m.

(** The service: a request, answered from a map of items, which may change. *)
Inductive rest (m : gmap Z (list Z)) (rq : Request) : Response → gmap Z (list Z) → Prop :=
| rest_list b :
    path_parts (path rq) [lit "items"] → method rq = lit "GET" → lists m b →
    rest m rq (mkResponse 200 (lit "OK") json_headers b) m
| rest_create id :
    path_parts (path rq) [lit "items"] → method rq = lit "POST" → is_u64 id → m !! id = None →
    rest m rq (mkResponse 201 (lit "Created") (location id :: json_headers) (as_bytes (lit "{`id`:" ++ show id ++ lit "}")))
      (<[id := req_body rq]> m)
| rest_get raw id v :
    path_parts (path rq) [lit "items"; raw] → method rq = lit "GET" → item_id raw id → m !! id = Some v →
    rest m rq (mkResponse 200 (lit "OK") octet_headers v) m
| rest_put_new raw id :
    path_parts (path rq) [lit "items"; raw] → method rq = lit "PUT" → item_id raw id → m !! id = None →
    rest m rq (mkResponse 201 (lit "Created") [location id] []) (<[id := req_body rq]> m)
| rest_put_again raw id v :
    path_parts (path rq) [lit "items"; raw] → method rq = lit "PUT" → item_id raw id → m !! id = Some v →
    rest m rq (mkResponse 200 (lit "OK") [] []) (<[id := req_body rq]> m)
| rest_delete raw id v :
    path_parts (path rq) [lit "items"; raw] → method rq = lit "DELETE" → item_id raw id → m !! id = Some v →
    rest m rq (mkResponse 204 (lit "No Content") [] []) (delete id m)
| rest_missing raw id :
    path_parts (path rq) [lit "items"; raw] → method rq = lit "GET" ∨ method rq = lit "DELETE" →
    item_id raw id → m !! id = None →
    rest m rq (mkResponse 404 (lit "Not Found") [] []) m
| rest_bad_id raw :
    path_parts (path rq) [lit "items"; raw] → method rq ∈ [lit "GET"; lit "PUT"; lit "DELETE"] →
    (∀ id, ¬ item_id raw id) →
    rest m rq (mkResponse 400 (lit "Bad Request") [] (lit "id must be a non-negative integer")) m
| rest_unknown :
    (∀ l, path_parts (path rq) (lit "items" :: l) →
       match l with
       | [] => method rq ∉ [lit "GET"; lit "POST"]
       | [_] => method rq ∉ [lit "GET"; lit "PUT"; lit "DELETE"]
       | _ => True
       end) →
    rest m rq (mkResponse 404 (lit "Not Found") [] []) m.

(** The one request that can panic: a put at the largest id. *)
Definition put_at_max (rq : Request) : Prop :=
  method rq = lit "PUT" ∧ ∃ raw, path_parts (path rq) [lit "items"; raw] ∧ item_id raw (2 ^ 64 - 1).

(** *** The code's parsing meets it *)
Definition words (p : str) : list str := List.filter is_nonempty (split_on SLASH p).
Lemma words_slash p : words (SLASH :: p) = words p.
Proof. done. Qed.
Lemma words_slashes ss p : Forall (eq SLASH) ss → words (ss ++ p) = words p.
Proof. induction 1 as [|c ss <- _ IH]; [done|]. cbn [app]. by rewrite words_slash. Qed.
Lemma segments_words p : segments p = words p.
Proof.
  unfold segments, trim_start_matches. fold (words (drop_while (Z.eqb SLASH) p)).
  induction p as [|c p IH]; [done|]. cbn [drop_while]. destruct (Z.eqb_spec SLASH c) as [<-|]; [by rewrite words_slash|done].
Qed.
Lemma words_part part p : part ≠ [] → (SLASH ∉ part) → words part = [part] ∧ words (part ++ SLASH :: p) = part :: words p.
Proof.
  intros Hne Hs. unfold words. rewrite split_on_not_in, split_on_app by done. by destruct part.
Qed.
Lemma parts_words p l : path_parts p l → words p = l.
Proof.
  induction 1 as [ss Hss|ss part Hss Hne Hs|ss part p l Hss Hne Hs _ IH].
  - rewrite <-(app_nil_r ss), words_slashes by done. done.
  - rewrite words_slashes by done. by destruct (words_part part [] Hne Hs).
  - rewrite words_slashes by done. destruct (words_part part p Hne Hs) as [_ ->]. by rewrite IH.
Qed.
Lemma parts_front ss p l : Forall (eq SLASH) ss → path_parts p l → path_parts (ss ++ p) l.
Proof.
  intros Hss H. destruct H as [ss' H'|ss' part H' Hne Hs|ss' part p l H' Hne Hs H].
  - constructor. by apply Forall_app.
  - rewrite app_assoc. constructor; [by apply Forall_app|done..].
  - rewrite app_assoc. constructor; [by apply Forall_app|done..].
Qed.
(** The next slash, if there is one. *)
Lemma next_slash p : (SLASH ∉ p) ∨ ∃ part q, p = part ++ SLASH :: q ∧ (SLASH ∉ part).
Proof.
  destruct (decide (SLASH ∈ p)) as [H|H]; [right|by left].
  destruct (list_elem_of_split_l p SLASH H) as (part & q & -> & Hs). by exists part, q.
Qed.
Lemma words_parts p : path_parts p (words p).
Proof.
  induction p as [p IH] using (induction_ltof1 _ (@length char)). unfold ltof in IH.
  destruct (next_slash p) as [H|(part & q & -> & H)].
  - destruct p as [|c p]; [by apply (parts_end [])|]. destruct (words_part (c :: p) [] ltac:(done) H) as [-> _].
    by apply (parts_last [] (c :: p)).
  - assert (path_parts q (words q)) as Hq by (apply IH; rewrite length_app; simpl; lia).
    destruct part as [|c part].
    + cbn [app]. rewrite words_slash. apply (parts_front [SLASH]); [by constructor|done].
    + destruct (words_part (c :: part) q ltac:(done) H) as [_ ->]. by apply (parts_more [] (c :: part)).
Qed.
Lemma segments_parts p l : path_parts p l ↔ segments p = l.
Proof. rewrite segments_words. split; [apply parts_words|]. intros <-. apply words_parts. Qed.

Lemma decimal_value s n : decimal s n ↔ s ≠ [] ∧ forallb is_ascii_digit s = true ∧ digits_value s = n.
Proof.
  split.
  - induction 1 as [d Hd|s n d _ (Hne & Hs & <-) Hd].
    + split_and!; [done| |unfold digits_value; cbn; lia]. cbn. unfold is_ascii_digit. lia.
    + split_and!; [by destruct s| |rewrite digits_value_snoc; lia]. rewrite forallb_app, Hs. cbn. unfold is_ascii_digit. lia.
  - intros (Hne & Hs & <-). induction s as [|c s IH] using rev_ind; [done|].
    rewrite forallb_app in Hs. apply andb_prop in Hs as [Hs Hc]. cbn in Hc. rewrite andb_true_r in Hc. unfold is_ascii_digit in Hc.
    replace c with (48 + (c - 48)) by lia. destruct s as [|x s].
    + unfold digits_value. cbn. replace (48 + (c - 48) - 48) with (c - 48) by lia. constructor. lia.
    + rewrite digits_value_snoc. replace (digits_value (x :: s) * 10 + (48 + (c - 48) - 48)) with (10 * digits_value (x :: s) + (c - 48)) by lia.
      constructor; [by apply IH|lia].
Qed.
Lemma parse_item_id raw id : item_id raw id ↔ parse_u64 raw = Some id.
Proof.
  unfold item_id, parse_u64, parse_uint. setoid_rewrite decimal_value.
  assert (∀ ds, ds ≠ [] → forallb is_ascii_digit ds = true →
    (digits_value ds = id ∧ id < 2 ^ 64 ↔ (if digits_value ds <? 18446744073709551616 then Some (digits_value ds) else None) = Some id)) as Hv.
  { intros ds _ _. destruct (Z.ltb_spec (digits_value ds) 18446744073709551616); [|naive_solver lia]. split; [by intros [-> _]|]. intros [= <-]. done. }
  unfold strip_plus. destruct raw as [|c [|d r]].
  - split; [intros [[(? & _)|(s & ? & _)] _]|]; done.
  - cbn [forallb]. rewrite andb_true_r. destruct (is_ascii_digit c) eqn:Ec.
    + rewrite <-Hv by (done || by cbn; rewrite Ec). split.
      * intros [[(_ & _ & <-)|(s & [= -> <-] & Hne & _)] Hl]; [done|done].
      * intros [E Hl]. split; [left; split_and!; done|done].
    + split; [|done]. intros [[(_ & H & _)|(s & [= -> <-] & Hne & _)] _]; done.
  - destruct (Z.eqb_spec c 43) as [->|Hc].
    + destruct (forallb is_ascii_digit (d :: r)) eqn:Ed.
      * rewrite <-Hv by done. split.
        -- intros [[(_ & H & _)|(s & [= <-] & _ & _ & <-)] Hl]; done.
        -- intros [E Hl]. split; [right; exists (d :: r); split_and!; done|done].
      * split; [|done]. intros [[(_ & H & _)|(s & [= <-] & _ & H & _)] _]; [done|congruence].
    + destruct (forallb is_ascii_digit (c :: d :: r)) eqn:Ed.
      * rewrite <-Hv by done. split.
        -- intros [[(_ & _ & <-)|(s & [= -> _] & _)] Hl]; done.
        -- intros [E Hl]. split; [left; split_and!; done|done].
      * split; [|done]. intros [[(_ & H & _)|(s & [= -> _] & _)] _]; [congruence|done].
Qed.

Section refinement.
Context {S : Type} `{KvLaws S}.

(** An outcome that the service allows. *)
Definition allowed (rq : Request) (s : S) (o : option (Response * S)) : Prop :=
  ∃ resp s', o = Some (resp, s') ∧ kv_ok s' ∧ rest (kv_view s) rq resp (kv_view s').

Lemma allowed_intro rq s resp s' :
  kv_ok s' → rest (kv_view s) rq resp (kv_view s') → allowed rq s (Some (resp, s')).
Proof using All. intros. by exists resp, s'. Qed.

Lemma with_id_allowed rq s raw handler :
  kv_ok s → segments (path rq) = [lit "items"; raw] → method rq ∈ [lit "GET"; lit "PUT"; lit "DELETE"] →
  (∀ id, parse_u64 raw = Some id → allowed rq s (handler id)) → allowed rq s (with_id raw handler s).
Proof using All.
  intros Hs Hseg Hm Hh. unfold with_id. destruct (parse_u64 raw) as [id|] eqn:Er; [by apply Hh|].
  apply allowed_intro; [done|]. apply segments_parts in Hseg. eapply rest_bad_id; [done..|].
  intros id Hid%parse_item_id. congruence.
Qed.

Lemma get_allowed rq s raw id :
  kv_ok s → segments (path rq) = [lit "items"; raw] → method rq = lit "GET" → parse_u64 raw = Some id →
  allowed rq s (Some (get_item id s)).
Proof using All.
  intros Hs Hseg%segments_parts Hm Hid%parse_item_id. apply allowed_intro; [done|]. rewrite (kv_get_law id s Hs).
  destruct (kv_view s !! id) as [v|] eqn:Ev; [by eapply rest_get|]. by eapply rest_missing; [|left| |].
Qed.

Lemma put_allowed rq s raw id :
  kv_ok s → segments (path rq) = [lit "items"; raw] → method rq = lit "PUT" → parse_u64 raw = Some id →
  ¬ put_at_max rq → allowed rq s (put_item id rq s).
Proof using All.
  intros Hs Hseg Hm Hid Hmax. unfold put_item. destruct (kv_put_law id (req_body rq) s Hs) as (s' & -> & Hs' & Hv).
  { pose proof (parse_uint_range _ _ _ Hid). destruct (Z.eq_dec id 18446744073709551615) as [->|]; [|lia].
    destruct Hmax. split; [done|]. exists raw. split; [by apply segments_parts|by apply parse_item_id]. }
  apply segments_parts in Hseg. apply parse_item_id in Hid.
  apply allowed_intro; [done|]. rewrite Hv.
  destruct (kv_view s !! id) as [v|] eqn:Ev; [by eapply rest_put_again|by eapply rest_put_new].
Qed.

Lemma delete_allowed rq s raw id :
  kv_ok s → segments (path rq) = [lit "items"; raw] → method rq = lit "DELETE" → parse_u64 raw = Some id →
  allowed rq s (Some (delete_item id s)).
Proof using All.
  intros Hs Hseg%segments_parts Hm Hid%parse_item_id. unfold delete_item. pose proof (kv_delete_law id s Hs) as Hd.
  destruct (kv_delete id s) as [r s']. destruct Hd as (Hs' & -> & Hv). apply allowed_intro; [done|]. rewrite Hv.
  destruct (kv_view s !! id) as [v|] eqn:Ev.
  - rewrite bool_decide_true by done. by eapply rest_delete.
  - rewrite bool_decide_false by by intros [? ?]. rewrite delete_id by done.
    by eapply rest_missing; [|right| |].
Qed.

Lemma collection_allowed rq s :
  kv_ok s → (method rq = lit "POST" → kv_room s) → segments (path rq) = [lit "items"] →
  (method rq = lit "GET" → allowed rq s (Some (list_items s))) ∧
  (method rq = lit "POST" → allowed rq s (Some (create_item rq s))).
Proof using All.
  intros Hs Hr Hseg%segments_parts. split; intros Hm.
  - destruct (kv_list_law s Hs) as [Hsort Hperm]. apply allowed_intro; [done|]. apply rest_list; [done..|].
    exists (kv_list s). split_and!; [|done..]. cbn [body list_items fst with_body]. rewrite <-(app_nil_r (json_array _)).
    apply read_array_spec, Forall_forall. intros [id v] Hin. rewrite Hperm in Hin. apply elem_of_map_to_list in Hin. by eapply kv_ids_law.
  - pose proof (kv_create_law (req_body rq) s Hs (Hr Hm)) as Hc. unfold create_item.
    destruct (kv_create (req_body rq) s) as [id s']. destruct Hc as (Hs' & Hid & Hn & Hv).
    apply allowed_intro; [done|]. rewrite Hv. by apply rest_create.
Qed.

Ltac no_route Eseg :=
  apply allowed_intro; [done|]; apply rest_unknown; intros ? E%segments_parts; rewrite Eseg in E; simplify_eq;
  rewrite ?not_elem_of_cons; auto using not_elem_of_nil.

Lemma route_allowed rq s : kv_ok s → (method rq = lit "POST" → kv_room s) → ¬ put_at_max rq → allowed rq s (route rq s).
Proof using All.
  intros Hs Hr Hmax. unfold route. destruct (segments (path rq)) as [|i [|raw [|x l]]] eqn:Eseg.
  - no_route Eseg.
  - case_bool_decide as Ei; cbn [negb]; [subst i|no_route Eseg].
    destruct (collection_allowed rq s Hs Hr Eseg).
    case_bool_decide; [auto|]. case_bool_decide; [auto|no_route Eseg].
  - case_bool_decide as Ei; cbn [negb]; [subst i|no_route Eseg].
    case_bool_decide as Eg; [|case_bool_decide as Ep; [|case_bool_decide as Ed]].
    + apply with_id_allowed; [done..|rewrite Eg; by left|]. intros. by eapply get_allowed.
    + apply with_id_allowed; [done..|rewrite Ep; by right; left|]. intros. by eapply put_allowed.
    + apply with_id_allowed; [done..|rewrite Ed; by right; right; left|]. intros. by eapply delete_allowed.
    + no_route Eseg.
  - no_route Eseg.
Qed.
End refinement.

(** ** Whole connections *)
Lemma location_ok id : 0 ≤ id → header_ok (lit "location", item_path id).
Proof.
  intros Hid. pose proof (show_digits id Hid) as Hd. closed_header.
  - right. destruct (digits_trimmed (show id) (show_ne id) Hd) as [_ Hl]. split; [by eexists|].
    destruct Hl as (c & Hl & Hc). exists c. split; [|done].
    change (last (lit "/items/" ++ show id) = Some c). by rewrite last_app, Hl.
  - change (text_ok (lit "/items/" ++ show id)). apply text_ok_app. split; [closed|by apply digits_text].
Qed.

Lemma json_header_ok : header_ok (lit "content-type", lit "application/json").
Proof. closed_header; closed_value. Qed.
Lemma octet_header_ok : header_ok (lit "content-type", lit "application/octet-stream").
Proof. closed_header; closed_value. Qed.
Create HintDb headers discriminated.
#[export] Hint Resolve location_ok json_header_ok octet_header_ok : headers.

(** A literal response. *)
Ltac literal_response :=
  constructor; [done|closed|]; cbn [headers with_header with_body new_response app fst];
  repeat first [apply Forall_nil_2 | apply Forall_cons_2; [by auto with headers|]].

Section connections.
Context {S : Type} `{KvLaws S}.

Lemma put_response_ok id rq s resp s' : 0 ≤ id → put_item id rq s = Some (resp, s') → response_ok resp.
Proof.
  intros Hid. unfold put_item. destruct (kv_put id (req_body rq) s) as [[[] ?]|]; [| |done]; intros [= <- <-].
  all: literal_response.
Qed.

Lemma create_response_ok rq s : kv_ok s → kv_room s → response_ok (create_item rq s).1.
Proof using All.
  intros Hs Hr. pose proof (kv_create_law (req_body rq) s Hs Hr) as Hc. unfold create_item.
  destruct (kv_create (req_body rq) s) as [id s']. destruct Hc as (_ & [Hid _] & _).
  literal_response.
Qed.

Lemma with_id_response_ok raw (handler : Z → option (Response * S)) s resp s' :
  with_id raw handler s = Some (resp, s') →
  (∀ id, 0 ≤ id → handler id = Some (resp, s') → response_ok resp) → response_ok resp.
Proof.
  unfold with_id. intros E Hh. destruct (parse_u64 raw) as [id|] eqn:Er.
  - apply (Hh id); [|done]. by pose proof (parse_uint_range _ _ _ Er) as [? _].
  - injection E as <- <-. literal_response.
Qed.

Lemma route_response_ok rq s resp s' :
  kv_ok s → kv_room s → route rq s = Some (resp, s') → response_ok resp.
Proof using All.
  intros Hs Hr. unfold route.
  assert (Hnf : Some (new_response 404 (lit "Not Found"), s) = Some (resp, s') → response_ok resp).
  { intros [= <- <-]. literal_response. }
  destruct (segments (path rq)) as [|i [|raw [|x l]]]; [done|..|done]; case_bool_decide; [|done| |done]; cbn [negb].
  - case_bool_decide.
    { intros [= <- <-]. literal_response. }
    case_bool_decide; [|done]. intros [= E]. pose proof (create_response_ok rq s Hs Hr) as Hc. by rewrite E in Hc.
  - case_bool_decide; [|case_bool_decide; [|case_bool_decide; [|done]]];
      intros E; apply (with_id_response_ok _ _ _ _ _ E); intros id Hid.
    + intros [= <- <-]. destruct (kv_get id s); literal_response.
    + by apply put_response_ok.
    + unfold delete_item. destruct (kv_delete id s) as [[] ?]; intros [= <- <-]; literal_response.
Qed.

Lemma handle_connection_framed input s out s' :
  kv_ok s → kv_room s → handle_connection input s = Some (out, s') →
  (out = [] ∧ s' = s) ∨ ∃ resp, response_ok resp ∧ framed out resp.
Proof using All.
  intros Hs Hr. unfold handle_connection. destruct (parse input) as [[[[rq|] q]|[e|why]]|]; [| |..|done].
  - destruct (route rq s) as [[resp s1]|] eqn:E; [|done]. intros [= <- <-]. right. exists resp.
    apply route_response_ok in E; [|done..]. split; [done|by apply write_framed].
  - intros [= <- <-]. by left.
  - intros [= <- <-]. by left.
  - intros [= <- <-]. right. eexists. split; [|apply write_framed]; literal_response.
Qed.

(** ** A client that prints its requests *)
Definition HTTP11 : str := lit "HTTP/1.1".
Definition get_request (p : str) : list Z := print_request (lit "GET") p HTTP11 [] [].
Definition delete_request (p : str) : list Z := print_request (lit "DELETE") p HTTP11 [] [].
Definition put_request (p : str) (v : list Z) : list Z :=
  print_request (lit "PUT") p HTTP11 [(lit "Content-Length", show (Z.of_nat (length v)))] v.

Lemma handle_print m p hs v s :
  line_ok m p HTTP11 → Forall header_ok hs → announced hs = Some (Z.of_nat (length v)) →
  Z.of_nat (length v) ≤ ISIZE_MAX →
  handle_connection (print_request m p HTTP11 hs v) s =
    ('(resp, s) ← route (mkRequest m p (List.map lower hs) v) s; Some (write resp, s)).
Proof.
  intros Hl Hhs Hn Hm. unfold handle_connection.
  destruct (request_parsed m p HTTP11 hs v [] Hl Hhs Hn Hm) as [E _]. rewrite app_nil_r in E. by rewrite E.
Qed.

Lemma item_segments id : 0 ≤ id → segments (item_path id) = [lit "items"; show id].
Proof.
  intros Hid. unfold segments, item_path.
  change (trim_start_matches SLASH (lit "/items/" ++ show id)) with (lit "items" ++ SLASH :: show id).
  rewrite split_on_app, split_on_not_in; [|by apply show_not_in|closed]. simpl.
  by destruct (show_nonempty id) as (c & l & ->).
Qed.

Lemma item_line_ok m id : 0 ≤ id → m ≠ [] ∧ (SPACE ∉ m) ∧ text_ok m → line_ok m (item_path id) HTTP11.
Proof.
  intros Hid Hm. pose proof (digits_text _ (show_digits id Hid)) as Ht. constructor; [done| |].
  - unfold item_path. split; [done|]. split; [|apply text_ok_app; split; [closed|done]].
    apply not_elem_of_app. split; [closed|by apply show_not_in].
  - split; [by exists 49|closed].
Qed.

Lemma put_announced (v : list Z) :
  Z.of_nat (length v) ≤ ISIZE_MAX →
  Forall header_ok [(lit "Content-Length", show (Z.of_nat (length v)))] ∧
  announced [(lit "Content-Length", show (Z.of_nat (length v)))] = Some (Z.of_nat (length v)).
Proof.
  intros Hv. split.
  - apply Forall_singleton, number_header_ok; [lia|closed..].
  - apply parse_show. unfold ISIZE_MAX in Hv. lia.
Qed.

(** One printed request on an item: what the connection does is what the arm does. *)
Lemma handle_item m id hs v s :
  0 ≤ id < 18446744073709551616 → m ≠ [] ∧ (SPACE ∉ m) ∧ text_ok m →
  Forall header_ok hs → announced hs = Some (Z.of_nat (length v)) → Z.of_nat (length v) ≤ ISIZE_MAX →
  ∃ rq, req_body rq = v ∧ method rq = m ∧ segments (path rq) = [lit "items"; show id] ∧
    parse_u64 (show id) = Some id ∧
    handle_connection (print_request m (item_path id) HTTP11 hs v) s =
      ('(resp, s) ← route rq s; Some (write resp, s)).
Proof.
  intros Hid Hm Hhs Hn Hv. exists (mkRequest m (item_path id) (List.map lower hs) v). split_and!; [done|done|..].
  - apply item_segments; lia.
  - by apply parse_show.
  - apply handle_print; [apply item_line_ok|..]; done || lia.
Qed.

(** Evaluate [route] at the arm of a literal method on an item. *)
Ltac route_item Eseg Em Er :=
  unfold route; rewrite Eseg, Em;
  repeat first [rewrite bool_decide_true by done | rewrite bool_decide_false by done]; cbn [negb];
  unfold with_id; rewrite Er.

Lemma handle_put id v s :
  kv_ok s → 0 ≤ id < 18446744073709551615 → Z.of_nat (length v) ≤ ISIZE_MAX →
  ∃ s', handle_connection (put_request (item_path id) v) s =
    Some (write (match kv_view s !! id with
                 | Some _ => mkResponse 200 (lit "OK") [] []
                 | None => mkResponse 201 (lit "Created") [location id] []
                 end), s') ∧ kv_ok s' ∧ kv_view s' = <[id := v]> (kv_view s).
Proof using All.
  intros Hs Hid Hv. destruct (put_announced v Hv) as [Hhs Hn].
  destruct (handle_item (lit "PUT") id _ v s ltac:(lia) ltac:(split_and!; closed) Hhs Hn Hv)
    as (rq & <- & Em & Eseg & Er & E).
  destruct (kv_put_law id (req_body rq) s Hs Hid) as (s' & Ep & Hs' & Hv').
  exists s'. split; [|done]. unfold put_request. rewrite E. route_item Eseg Em Er.
  unfold put_item. rewrite Ep. simpl. by destruct (kv_view s !! id).
Qed.

Lemma handle_get id s :
  kv_ok s → 0 ≤ id < 18446744073709551616 →
  handle_connection (get_request (item_path id)) s =
    Some (write (match kv_view s !! id with
                 | Some v => mkResponse 200 (lit "OK") octet_headers v
                 | None => mkResponse 404 (lit "Not Found") [] []
                 end), s).
Proof using All.
  intros Hs Hid.
  destruct (handle_item (lit "GET") id [] [] s Hid ltac:(split_and!; closed) ltac:(constructor) eq_refl ltac:(closed))
    as (rq & _ & Em & Eseg & Er & E).
  unfold get_request. rewrite E. route_item Eseg Em Er.
  unfold get_item. rewrite (kv_get_law id s Hs). simpl. by destruct (kv_view s !! id).
Qed.

Lemma handle_delete id s :
  kv_ok s → 0 ≤ id < 18446744073709551616 →
  ∃ s', handle_connection (delete_request (item_path id)) s =
    Some (write (match kv_view s !! id with
                 | Some _ => mkResponse 204 (lit "No Content") [] []
                 | None => mkResponse 404 (lit "Not Found") [] []
                 end), s') ∧ kv_ok s' ∧ kv_view s' = delete id (kv_view s).
Proof using All.
  intros Hs Hid.
  destruct (handle_item (lit "DELETE") id [] [] s Hid ltac:(split_and!; closed) ltac:(constructor) eq_refl ltac:(closed))
    as (rq & _ & Em & Eseg & Er & E).
  pose proof (kv_delete_law id s Hs) as Hd. unfold delete_request. setoid_rewrite E.
  route_item Eseg Em Er. unfold delete_item. destruct (kv_delete id s) as [r s']. destruct Hd as (Hs' & -> & Hv').
  exists s'. split; [|done]. simpl. by destruct (kv_view s !! id).
Qed.
End connections.

(** ** Properties *)

(** C8. The routes refine the abstract service: over any store that keeps the laws of
    the interface, with room in its counter for a post, every request but one is answered,
    and with a response and new items that the service allows.  The one is a put at the
    largest id, 2^64 - 1, after which the counter would not fit: it panics when the
    build checks overflow ([ids_can_collide]).  The service has its own paths, numerals and
    JSON reader. *)
Theorem route_rest {S} `{KvLaws S} rq s :
  kv_ok s → (method rq = lit "POST" → kv_room s) → ¬ put_at_max rq →
  ∃ resp s', route rq s = Some (resp, s') ∧ kv_ok s' ∧ rest (kv_view s) rq resp (kv_view s').
Proof. apply route_allowed. Qed.

(** Whatever bytes a client sends, what the connection sends back is nothing, the
    store being untouched, or a response in one piece: a status line; headers that
    the reader of headers reads back, with exactly one Content-Length, that of the
    body, whatever the handler had set, and Connection: close; and the body. *)
Theorem response_framing {S} `{KvLaws S} input s out s' :
  kv_ok s → kv_room s → handle_connection input s = Some (out, s') →
  (out = [] ∧ s' = s) ∨ ∃ resp, response_ok resp ∧ framed out resp.
Proof. apply handle_connection_framed. Qed.

(** From bytes to bytes: a client that puts an item, gets it, deletes it and gets
    it again receives 201 (or 200 where the item existed), the bytes it had put,
    204, and 404, and every other item of the store is as before. *)
Theorem item_session {S} `{KvLaws S} id v s :
  kv_ok s → 0 ≤ id < 18446744073709551615 → Z.of_nat (length v) ≤ ISIZE_MAX →
  let p := item_path id in
  ∃ s', serve [put_request p v; get_request p; delete_request p; get_request p] s =
    ([Some (write (match kv_view s !! id with
                   | Some _ => mkResponse 200 (lit "OK") [] []
                   | None => mkResponse 201 (lit "Created") [location id] []
                   end));
      Some (write (mkResponse 200 (lit "OK") octet_headers v));
      Some (write (mkResponse 204 (lit "No Content") [] []));
      Some (write (mkResponse 404 (lit "Not Found") [] []))], s') ∧
    kv_ok s' ∧ kv_view s' = delete id (kv_view s).
Proof.
  intros Hs Hid Hv p. destruct (handle_put id v s Hs Hid Hv) as (s1 & E1 & Hs1 & V1).
  pose proof (handle_get id s1 Hs1 ltac:(lia)) as E2.
  destruct (handle_delete id s1 Hs1 ltac:(lia)) as (s2 & E3 & Hs2 & V2).
  pose proof (handle_get id s2 Hs2 ltac:(lia)) as E4.
  rewrite V1, lookup_insert_eq in E2, E3. rewrite V2, lookup_delete_eq in E4.
  exists s2. split; [|split; [done|by rewrite V2, V1, delete_insert_eq]].
  subst p. cbn [serve]. by rewrite E1, E2, E3, E4.
Qed.

(** The listing is JSON: a reader of JSON gets back every item of the store exactly
    once, by increasing id, the value with each byte that is neither printable nor a
    tab or line break replaced by [?]. *)
Theorem listing_json {S} `{KvLaws S} s r :
  kv_ok s → (∀ id v, kv_view s !! id = Some v → is_u64 id) →
  ∃ l, read_array (body (list_items s).1 ++ r) = Some (List.map (λ y, (y.1, shown y.2)) l, r) ∧
    Sorted Z.le l.*1 ∧ NoDup l.*1 ∧ (∀ id v, (id, v) ∈ l ↔ kv_view s !! id = Some v).
Proof.
  intros Hs Hid. destruct (kv_list_law s Hs) as [Hsort Hperm]. exists (kv_list s).
  assert (Hin : ∀ id v, (id, v) ∈ kv_list s ↔ kv_view s !! id = Some v).
  { intros id v. by rewrite Hperm, elem_of_map_to_list. }
  split_and!; [|done| |done].
  - apply read_array_spec, Forall_forall. intros [id v] Hx%Hin. by apply (Hid id v).
  - rewrite Hperm. apply NoDup_fst_map_to_list.
Qed.

(** ** Witnesses *)
Definition example_store : Store := mkStore (mkLock {[7 := lit "a`b"; 3 := [0; 65]]} false) 8.

Lemma example_store_ok : store_ok example_store.
Proof.
  split; [simpl; lia|]. intros id v. unfold example_store. rewrite read_mk, lookup_insert_Some, lookup_singleton_Some. simpl. lia.
Qed.

Lemma request_roundtrip_witness :
  line_ok (lit "PUT") (lit "/items/7") HTTP11 ∧
  parse (print_request (lit "PUT") (lit "/items/7") HTTP11 [(lit "Content-Length", lit "3")] [1; 2; 3] ++ [9]) =
    Some (Ok (Some (mkRequest (lit "PUT") (lit "/items/7") [(lit "content-length", lit "3")] [1; 2; 3]), [9])).
Proof.
  assert (Hl : line_ok (lit "PUT") (lit "/items/7") HTTP11).
  { constructor; [split_and!; closed..|split; [by exists 49|closed]]. }
  split; [exact Hl|].
  apply (request_roundtrip (lit "PUT") (lit "/items/7") HTTP11 [(lit "Content-Length", lit "3")] [1; 2; 3] [9]);
    [exact Hl| |vm_compute; reflexivity|vm_compute; discriminate].
  apply Forall_singleton. closed_header; closed_value.
Defined.

Lemma parse_total_witness :
  parse (lit "PUT / HTTP/1.1" ++ crlf ++ lit "content-length: 9223372036854775808" ++ crlf ++ crlf) = None ∧
  ∃ r0 hs q h n, read_headers r0 = Some (Ok (hs, q)) ∧ List.find is_content_length hs = Some h ∧
    parse_usize h.2 = Some n ∧ ISIZE_MAX < n.
Proof.
  assert (E : parse (lit "PUT / HTTP/1.1" ++ crlf ++ lit "content-length: 9223372036854775808" ++ crlf ++ crlf) = None)
    by (vm_compute; reflexivity).
  split; [exact E|].
  apply (parse_total (lit "PUT / HTTP/1.1" ++ crlf ++ lit "content-length: 9223372036854775808" ++ crlf ++ crlf)).
  exact E.
Defined.

Lemma route_rest_witness :
  ∃ resp s', @route Store (Store_kv true) (mkRequest (lit "DELETE") (lit "//items/7/") [] []) example_store = Some (resp, s') ∧
    store_ok s' ∧ rest (KvStore.read example_store) (mkRequest (lit "DELETE") (lit "//items/7/") [] []) resp (KvStore.read s').
Proof.
  apply (@route_rest Store (Store_kv true) (Store_laws true) (mkRequest (lit "DELETE") (lit "//items/7/") [] [])
    example_store); [exact example_store_ok|intros [=]|]. by intros [? _].
Defined.

Lemma response_framing_witness :
  ∃ out s', @handle_connection Store (Store_kv true) (get_request (lit "/items")) example_store = Some (out, s') ∧
    (out = [] ∧ s' = example_store ∨ ∃ resp, response_ok resp ∧ framed out resp).
Proof.
  destruct (@handle_connection Store (Store_kv true) (get_request (lit "/items")) example_store) as [[out s']|] eqn:E;
    [|vm_compute in E; discriminate E].
  exists out, s'. split; [reflexivity|].
  apply (@response_framing Store (Store_kv true) (Store_laws true) (get_request (lit "/items")) example_store out s');
    [exact example_store_ok|simpl; lia|exact E].
Defined.

Lemma item_session_witness :
  ∃ s', @serve Store (Store_kv true) [put_request (item_path 5) [104; 105]; get_request (item_path 5);
      delete_request (item_path 5); get_request (item_path 5)] example_store =
    ([Some (write (mkResponse 201 (lit "Created") [location 5] []));
      Some (write (mkResponse 200 (lit "OK") octet_headers [104; 105]));
      Some (write (mkResponse 204 (lit "No Content") [] []));
      Some (write (mkResponse 404 (lit "Not Found") [] []))], s') ∧
    store_ok s' ∧ KvStore.read s' = delete 5 (KvStore.read example_store).
Proof.
  apply (@item_session Store (Store_kv true) (Store_laws true) 5 [104; 105] example_store);
    [exact example_store_ok|lia|vm_compute; discriminate].
Defined.

Lemma listing_json_witness :
  read_array (body (@list_items Store (Store_kv true) example_store).1) = Some ([(3, lit "?A"); (7, lit "a`b")], []) ∧
  ∃ l, read_array (body (@list_items Store (Store_kv true) example_store).1 ++ [10]) =
      Some (List.map (λ y, (y.1, shown y.2)) l, [10]) ∧
    Sorted Z.le l.*1 ∧ NoDup l.*1 ∧ (∀ id v, (id, v) ∈ l ↔ KvStore.read example_store !! id = Some v).
Proof.
  split; [vm_compute; reflexivity|].
  apply (@listing_json Store (Store_kv true) (Store_laws true) example_store [10]); [exact example_store_ok|].
  intros id v E. destruct (proj2 example_store_ok id v E). simpl in *. unfold_int. lia.
Defined.
