(* ===== verification/MicroserviceTests.v ===== *)
(** * The unit tests of the microservice

    The tests of [store.rs], [http.rs] and [server.rs] of [2026-08-13-rust-microservice],
    on the definitions of [KvStore] and [HttpService].  [oc] says whether the build
    checks overflow. *)
From S2P Require Import Prelude RustStr RustUtf8 UnitTest HttpText KvStore HttpService.
#[local] Open Scope rust_scope.

Section tests.
Context (oc : bool).
#[local] Instance PutOutcome_eq_dec : EqDecision PutOutcome.
Proof. solve_decision. Defined.

(** ** [store.rs] *)
Definition create_then_get_round_trips_the_value : test :=
  let '(id, store) := create (lit "hello") new in
  assert! (get id store == Some (lit "hello")).

Definition get_on_a_missing_id_is_none : test := assert! (get 404 new == None).

Definition put_on_a_missing_id_creates_it : test :=
  '(outcome, store) ← put oc 42 (lit "seed") new;
  assert! (outcome == Created);
  assert! (get 42 store == Some (lit "seed")).

Definition put_on_an_existing_id_replaces_it : test :=
  '(_, store) ← put oc 42 (lit "seed") new;
  '(outcome, store) ← put oc 42 (lit "grown") store;
  assert! (outcome == Replaced);
  assert! (get 42 store == Some (lit "grown")).

Definition delete_reports_whether_anything_was_removed : test :=
  let '(id, store) := create (lit "x") new in
  let '(removed, store) := KvStore.delete_item id store in assert! removed;
  let '(removed, store) := KvStore.delete_item id store in assert! (negb removed);
  assert! (get id store == None).

(** [expected] is sorted, as [Vec::sort] does it. *)
Definition list_is_sorted_by_id : test :=
  let '(c, store) := create (lit "c") new in
  '(a, store) ← put oc 1000 (lit "a") store;
  assert! (a == Created);
  let ids := List.map fst (KvStore.list_items store) in
  let expected := merge_sort Z.le [1000; c] in
  assert! (ids == expected).

Definition a_put_id_reserves_the_id_space_against_future_creates : test :=
  '(_, store) ← put oc 500 (lit "seed") new;
  let '(id, store) := create (lit "next") store in
  assert! (500 <? id).

(** Two hundred threads, in the schedule given: each acts twice. *)
Definition concurrent_creates_never_hand_out_the_same_id (schedule : list nat) : test :=
  let threads := List.map (λ i, TCreate (lit "item-" ++ show i)) (seqZ 0 200) in
  '(tasks, _) ← run_pool oc schedule (threads, new);
  let handles := omap (λ t, match t with TDone (ACreated id) => Some id | _ => None end) tasks in
  assert! (length handles == 200%nat);
  assert! (length (remove_dups handles) == 200%nat).

(** The closure that [catch_unwind] calls panics, at the latest at its end; its guard, if
    it got one, is a write guard, so that in either case the lock is poisoned. *)
Definition write_operations_still_work_after_a_writer_panics : test :=
  let '(id, store) := create (lit "before") new in
  let poisoner := store in
  let store := crash poisoner in
  assert! is_poisoned (items store);
  assert! (get id store == Some (lit "before"));
  let '(new_id, store) := create (lit "after poison") store in
  assert! (get new_id store == Some (lit "after poison")).

(** ** [http.rs] *)
Definition parses_method_path_headers_and_body : test :=
  let raw := lit "POST /items HTTP/1.1" ++ crlf ++ lit "Content-Length: 5" ++ crlf ++ lit "X-Trace: abc" ++ crlf ++ crlf ++ lit "hello" in
  match parse raw with
  | Some (Ok (Some request, _)) =>
      assert! (method request == lit "POST");
      assert! (path request == lit "/items");
      assert! (req_body request == lit "hello");
      assert! (vec_contains (lit "x-trace", lit "abc") (req_headers request))
  | _ => None
  end.

Definition header_names_are_case_folded : test :=
  let raw := lit "GET / HTTP/1.1" ++ crlf ++ lit "CoNtEnT-LeNgTh: 0" ++ crlf ++ crlf in
  match parse raw with
  | Some (Ok (Some request, _)) => assert! (existsb (λ h, h.1 == lit "content-length") (req_headers request))
  | _ => None
  end.

Definition missing_content_length_means_an_empty_body : test :=
  match parse (lit "GET / HTTP/1.1" ++ crlf ++ crlf) with
  | Some (Ok (Some request, _)) => assert! (req_body request == [])
  | _ => None
  end.

Definition clean_eof_before_any_bytes_is_none_not_an_error : test :=
  match parse [] with Some (Ok (None, _)) => assert! true | _ => None end.

(** [matches!(err, ParseError::Malformed(_))] *)
Definition malformed {A} (r : option (result A ParseError)) : test :=
  match r with Some (Err (Malformed _)) => assert! true | _ => None end.
Definition a_request_line_missing_the_version_is_malformed : test := malformed (parse (lit "GET /" ++ crlf ++ crlf)).
Definition a_header_without_a_colon_is_malformed : test :=
  malformed (parse (lit "GET / HTTP/1.1" ++ crlf ++ lit "broken header" ++ crlf ++ crlf)).

Definition write_recomputes_content_length_from_the_actual_body : test :=
  let response := with_body (lit "hi") (with_header (lit "content-length") (lit "999") (new_response 200 (lit "OK"))) in
  text ← from_utf8 (write response);
  assert! (contains (lit "content-length: 2" ++ crlf) text);
  assert! (negb (contains (lit "content-length: 999") text));
  assert! (ends_with (lit "hi") text).

(** ** [server.rs] *)
#[local] Instance kv : KvStore Store := Store_kv oc.
Definition req (method path : str) (body : list Z) : Request := mkRequest method path [] body.

Definition unknown_path_is_404 : test :=
  '(response, _) ← route (req (lit "GET") (lit "/nope") []) new;
  assert! (status response == 404).

Definition non_numeric_id_is_400_not_404 : test :=
  '(response, _) ← route (req (lit "GET") (lit "/items/abc") []) new;
  assert! (status response == 400).

Definition full_lifecycle_through_route : test :=
  '(created, store) ← route (req (lit "POST") (lit "/items") (lit "hi")) new;
  assert! (status created == 201);
  assert! (vec_contains (lit "location", lit "/items/1") (headers created));
  '(fetched, store) ← route (req (lit "GET") (lit "/items/1") []) store;
  assert! (status fetched == 200);
  assert! (body fetched == lit "hi");
  '(replaced, store) ← route (req (lit "PUT") (lit "/items/1") (lit "bye")) store;
  assert! (status replaced == 200);
  '(deleted, store) ← route (req (lit "DELETE") (lit "/items/1") []) store;
  assert! (status deleted == 204);
  '(gone, store) ← route (req (lit "GET") (lit "/items/1") []) store;
  assert! (status gone == 404).

Definition json_string_escapes_quotes_and_backslashes : test :=
  assert! (json_string (lit "say `hi`\now") == lit "`say \`hi\`\\now`").

Definition json_string_replaces_non_printable_bytes : test :=
  assert! (json_string [97; 0x00; 98] == lit "`a?b`").
End tests.

(** Two schedules of the threads: one after the other, and all the [fetch_add]s first. *)
Definition one_by_one : list nat := flat_map (λ i, [i; i]) (seq 0 200).
Definition interleaved : list nat := seq 0 200 ++ rev (seq 0 200).

Definition microservice_tests (oc : bool) : list test :=
  [create_then_get_round_trips_the_value; get_on_a_missing_id_is_none; put_on_a_missing_id_creates_it oc;
   put_on_an_existing_id_replaces_it oc; delete_reports_whether_anything_was_removed; list_is_sorted_by_id oc;
   a_put_id_reserves_the_id_space_against_future_creates oc;
   concurrent_creates_never_hand_out_the_same_id oc one_by_one; concurrent_creates_never_hand_out_the_same_id oc interleaved;
   write_operations_still_work_after_a_writer_panics;
   parses_method_path_headers_and_body; header_names_are_case_folded; missing_content_length_means_an_empty_body;
   clean_eof_before_any_bytes_is_none_not_an_error; a_request_line_missing_the_version_is_malformed;
   a_header_without_a_colon_is_malformed; write_recomputes_content_length_from_the_actual_body;
   unknown_path_is_404 oc; non_numeric_id_is_400_not_404 oc; full_lifecycle_through_route oc;
   json_string_escapes_quotes_and_backslashes; json_string_replaces_non_printable_bytes].

Example microservice_tests_pass : all_pass (microservice_tests true) && all_pass (microservice_tests false) = true.
Proof. vm_compute. reflexivity. Qed.
