(* ===== verification/NotesApp.v ===== *)
(** * The notes board ([2026-10-29-rust-simple-web-app/src]): definitions

    [http.rs], [app.rs] and [serve_connection] of [lib.rs], whole.  A [HashMap] is a
    [gmap] of texts: of two entries with one key the later stays.  A connection is
    the bytes its client will send; that the client is slow (a timeout of the
    socket) reads as an error or an end of them.  The [String] of [ParseError::Io]
    only tells errors apart, which [io_error] does.  [None] is a panic, which would
    poison the lock on the board. *)
From S2P Require Import Prelude RustStr RustUtf8.

Abbreviation Dict := (gmap str str) (only parsing).

(** ** [http.rs]: forms *)
(** [(c as char).to_digit(16)] *)
Definition hex (c : Z) : option Z :=
  if is_ascii_digit c then Some (c - 48)
  else if (97 <=? c) && (c <=? 102) then Some (c - 87)
  else if (65 <=? c) && (c <=? 70) then Some (c - 55)
  else None.

(** The loop of [percent_decode]: [i + 2 < b.len()] says that two bytes follow. *)
Fixpoint decode_bytes (b : list Z) : list Z :=
  match b with
  | [] => []
  | c :: r =>
      if c =? 43 then 32 :: decode_bytes r
      else if c =? 37 then
        match r with
        | b1 :: b2 :: r2 =>
            match hex b1, hex b2 with
            | Some h, Some l => h * 16 + l :: decode_bytes r2
            | _, _ => 37 :: decode_bytes r
            end
        | _ => 37 :: decode_bytes r
        end
      else c :: decode_bytes r
  end.
Definition percent_decode (s : str) : str := from_utf8_lossy (decode_bytes (as_bytes s)).

Definition parse_pair (p : str) : str * str :=
  match split_once 61 p with
  | Some (k, v) => (percent_decode k, percent_decode v)
  | None => (percent_decode p, [])
  end.
Definition is_nonempty (s : str) : bool := match s with [] => false | _ => true end.
(** [.collect()] inserts the pairs in order. *)
Definition collect (l : list (str * str)) : Dict := foldl (λ m p, <[p.1 := p.2]> m) ∅ l.
Definition parse_form (s : str) : Dict :=
  collect (List.map parse_pair (List.filter is_nonempty (split_on 38 s))).

(** ** [http.rs]: requests *)
Record Request : Type := mkRequest {
  method : str; path : str; query : Dict; req_headers : Dict; req_body : list Z
}.
Inductive ParseError : Set := Empty | BadRequestLine | BadHeader | BodyTooLarge | Io (e : io_error).
#[export] Instance ParseError_eq_dec : EqDecision ParseError.
Proof. intros a b. unfold Decision. repeat decide equality. Defined.

Definition MAX_BODY : Z := 64 * 1024.

(** The method and the target. *)
Definition request_line (line : str) : option (str * str) :=
  match split_on SPACE (trim_end line) with
  | m :: t :: v :: _ => if starts_with (lit "HTTP/") v && is_nonempty m then Some (m, t) else None
  | _ => None
  end.
Definition split_target (target : str) : str * Dict :=
  match split_once 63 target with
  | Some (p, q) => (p, parse_form q)
  | None => (target, ∅)
  end.

Fixpoint parse_headers (fuel : nat) (headers : Dict) : reading ParseError Dict :=
  match fuel with
  | O => λ _, None
  | S fuel =>
      let! h := map_err Io read_line in
      let n := length h in
      let h := trim_end h in
      if (n =? 0)%nat || negb (is_nonempty h) then rret headers
      else
        match split_once 58 h with
        | None => rfail BadHeader
        | Some (k, v) => parse_headers fuel (<[to_ascii_lowercase (trim k) := trim v]> headers)
        end
  end.
(** Each turn but the last reads at least one byte. *)
Definition read_headers : reading ParseError Dict := λ r, parse_headers (S (length r)) ∅ r.

Definition content_length (headers : Dict) : Z :=
  default 0 (headers !! lit "content-length" ≫= parse_usize).

Definition parse_request : reading ParseError Request :=
  let! line := map_err Io read_line in
  if (length line =? 0)%nat then rfail Empty
  else
    match request_line line with
    | None => rfail BadRequestLine
    | Some (method, target) =>
        let '(path, query) := split_target target in
        let! headers := read_headers in
        let len := content_length headers in
        if MAX_BODY <? len then rfail BodyTooLarge
        else
          let! _alloc := or_panic (alloc len) in
          let! body := map_err Io (read_exact len) in
          rret (mkRequest method path query headers body)
    end.

(** ** [http.rs]: responses *)
Record Response : Type := mkResponse {
  status : Z; content_type : str; location : option str; body : str
}.
Definition TEXT_PLAIN : str := lit "text/plain; charset=utf-8".
Definition html (status : Z) (body : str) : Response := mkResponse status (lit "text/html; charset=utf-8") None body.
Definition text (status : Z) (body : str) : Response := mkResponse status TEXT_PLAIN None body.
Definition redirect (to : str) : Response := mkResponse 303 TEXT_PLAIN (Some to) [].

Definition reason (r : Response) : str :=
  let s := status r in
  if s =? 200 then lit "OK" else if s =? 303 then lit "See Other" else if s =? 400 then lit "Bad Request"
  else if s =? 404 then lit "Not Found" else if s =? 405 then lit "Method Not Allowed"
  else if s =? 413 then lit "Payload Too Large" else lit "Unknown".

Definition to_bytes (r : Response) : list Z :=
  let head :=
    lit "HTTP/1.1 " ++ show (status r) ++ lit " " ++ reason r ++ crlf ++
    lit "Content-Type: " ++ content_type r ++ crlf ++
    lit "Content-Length: " ++ show (Z.of_nat (length (as_bytes (body r)))) ++ crlf ++
    lit "Connection: close" ++ crlf in
  let head := head ++ match location r with Some l => lit "Location: " ++ l ++ crlf | None => [] end in
  as_bytes (head ++ crlf) ++ as_bytes (body r).

Definition html_escape (s : str) : str :=
  replace_char 34 (lit "&quot;") (replace_char 62 (lit "&gt;")
    (replace_char 60 (lit "&lt;") (replace_char 38 (lit "&amp;") s))).

(** ** [app.rs] *)
Record App : Type := mkApp { notes : list str }.
Definition new : App := mkApp [].

Definition render_note (i : nat) (n : str) : str :=
  lit "<li>" ++ html_escape n ++
  lit " <form method=`post` action=`/notes/delete` style=`display:inline`><input type=`hidden` name=`id` value=`" ++
  show (Z.of_nat i) ++ lit "`><button>delete</button></form></li>" ++ [LF].
Definition render_index (a : App) : str :=
  lit "<!doctype html><html><head><meta charset=`utf-8`><title>Notes</title></head><body>" ++ [LF] ++
  lit "<h1>Notes (" ++ show (Z.of_nat (length (notes a))) ++ lit ")</h1>" ++ [LF] ++
  lit "<form method=`post` action=`/notes`><input name=`text` maxlength=`280` autofocus><button>add</button></form>" ++
  [LF] ++ lit "<ul>" ++ [LF] ++ concat (imap render_note (notes a)) ++ lit "</ul>" ++ [LF] ++ lit "</body></html>".

(** [Vec::remove] panics out of range. *)
Definition vec_remove {A} (i : Z) (l : list A) : option (list A) :=
  if i <? Z.of_nat (length l) then Some (delete (Z.to_nat i) l) else None.

Definition add_note (req : Request) (a : App) : Response * App :=
  let form := parse_form (from_utf8_lossy (req_body req)) in
  match form !! lit "text" with
  | None => (text 400 (lit "note text is required"), a)
  | Some t =>
      let t := trim t in
      if is_nonempty t then (redirect (lit "/"), mkApp (notes a ++ [take 280 t]))
      else (text 400 (lit "note text is required"), a)
  end.

Definition delete_note (req : Request) (a : App) : option (Response * App) :=
  let form := parse_form (from_utf8_lossy (req_body req)) in
  match form !! lit "id" ≫= parse_usize with
  | Some i =>
      if i <? Z.of_nat (length (notes a)) then
        ns ← vec_remove i (notes a);
        Some (redirect (lit "/"), mkApp ns)
      else Some (text 400 (lit "unknown note id"), a)
  | None => Some (text 400 (lit "unknown note id"), a)
  end.

Definition PATHS : list str := [lit "/"; lit "/notes"; lit "/notes/delete"; lit "/health"].

Definition handle (req : Request) (a : App) : option (Response * App) :=
  let arm m p := bool_decide (method req = m) && bool_decide (path req = p) in
  if arm (lit "GET") (lit "/") then Some (html 200 (render_index a), a)
  else if arm (lit "POST") (lit "/notes") then Some (add_note req a)
  else if arm (lit "POST") (lit "/notes/delete") then delete_note req a
  else if arm (lit "GET") (lit "/health") then Some (text 200 (lit "ok"), a)
  else if bool_decide (path req ∈ PATHS) then Some (text 405 (lit "method not allowed"), a)
  else Some (text 404 (lit "not found"), a).

(** ** [lib.rs] *)
(** What is written back, and the board. *)
Definition serve_connection (input : list Z) (a : App) : option (list Z * App) :=
  match parse_request input with
  | None => None
  | Some (Ok (req, _)) => '(resp, a) ← handle req a; Some (to_bytes resp, a)
  | Some (Err Empty) => Some ([], a)
  | Some (Err BodyTooLarge) => Some (to_bytes (text 413 (lit "payload too large")), a)
  | Some (Err _) => Some (to_bytes (text 400 (lit "bad request")), a)
  end.

(** The connections in the order in which they take the lock. *)
Definition serve (inputs : list (list Z)) (s : list (list Z) * App) : option (list (list Z) * App) :=
  for_each (λ input s, '(out, a) ← serve_connection input s.2; Some (s.1 ++ [out], a)) inputs s.

(** The tests of the source. *)
Example percent_examples :
  List.map percent_decode [lit "a+b%20c%41"; lit "100%"; lit "%zz"; lit "%e2%9c%93"] =
  [lit "a b cA"; lit "100%"; lit "%zz"; [0x2713]].
Proof. vm_compute. reflexivity. Qed.
Example parse_examples :
  let parse r := option_map (λ x, match x with Ok _ => None | Err e => Some e end) (parse_request r) in
  parse [] = Some (Some Empty) ∧
  parse (lit "GARBAGE" ++ crlf ++ crlf) = Some (Some BadRequestLine) ∧
  parse (lit "GET / HTTP/1.1" ++ crlf ++ lit "nocolon" ++ crlf ++ crlf) = Some (Some BadHeader) ∧
  parse (lit "POST / HTTP/1.1" ++ crlf ++ lit "Content-Length: 999999" ++ crlf ++ crlf) = Some (Some BodyTooLarge).
Proof. vm_compute. repeat split. Qed.
Example routing_examples :
  let go m p b := option_map (λ x, status x.1) (handle (mkRequest m p ∅ ∅ b) new) in
  [go (lit "GET") (lit "/nope") []; go (lit "GET") (lit "/notes") []; go (lit "GET") (lit "/health") [];
   go (lit "POST") (lit "/notes") (lit "text=+++"); go (lit "POST") (lit "/notes") (lit "text=buy+milk");
   go (lit "POST") (lit "/notes/delete") (lit "id=5")] =
  [Some 404; Some 405; Some 200; Some 400; Some 303; Some 400].
Proof. vm_compute. reflexivity. Qed.
