(* ===== verification/NotesAppProps.v ===== *)
(** * The notes board: properties

    Forms round-trip through their percent-encoding; whatever bytes arrive, no
    connection panics and the board keeps its invariant; what a session of a browser
    does; and text of notes that cannot become markup. *)
From S2P Require Import Prelude RustStr RustUtf8 HttpText HtmlText NotesApp.

(** ** Forms as a client prints them *)
Definition hex_digit (n : Z) : Z := if n <? 10 then n + 48 else n + 55.
Definition encode_byte (b : Z) : list Z :=
  if is_ascii_alphanumeric b then [b] else if b =? 32 then [43] else [37; hex_digit (b / 16); hex_digit (b mod 16)].
Definition percent_encode (s : str) : str := flat_map encode_byte (as_bytes s).
Definition print_pair (p : str * str) : str := percent_encode p.1 ++ [61] ++ percent_encode p.2.
Definition print_form (l : list (str * str)) : str := join [38] (List.map print_pair l).

(** Every byte is encoded in ASCII, without the separators of forms, and decoded. *)
Definition encode_check (b : Z) : bool :=
  forallb (λ c, is_ascii c && negb (c =? 38) && negb (c =? 61)) (encode_byte b) &&
  match encode_byte b with
  | [c] => if c =? 43 then b =? 32 else negb (c =? 37) && (c =? b)
  | [c; h; l] => (c =? 37) && bool_decide (hex h = Some (b / 16)) && bool_decide (hex l = Some (b mod 16))
  | _ => false
  end.
Lemma encode_checked b : is_u8 b → encode_check b = true.
Proof. apply (byte_enum encode_check). vm_compute. reflexivity. Qed.

Lemma decode_encode_byte b r : is_u8 b → decode_bytes (encode_byte b ++ r) = b :: decode_bytes r.
Proof.
  intros Hb. pose proof (encode_checked b Hb) as Hc. unfold encode_check in Hc. apply andb_prop in Hc as [_ Hc].
  destruct (encode_byte b) as [|c [|h [|l [|]]]]; try done.
  - cbn [app decode_bytes]. destruct (Z.eqb_spec c 43); [by apply Z.eqb_eq in Hc as ->|].
    apply andb_prop in Hc as [H1%negb_true_iff ->%Z.eqb_eq]. by rewrite H1.
  - apply andb_prop in Hc as [[->%Z.eqb_eq Hh%bool_decide_eq_true]%andb_prop Hl%bool_decide_eq_true].
    cbn [app decode_bytes Z.eqb Pos.eqb]. rewrite Hh, Hl. f_equal. int_lia.
Qed.

Lemma decode_encode bs : Forall is_u8 bs → decode_bytes (flat_map encode_byte bs) = bs.
Proof.
  induction 1 as [|b bs Hb Hbs IH]; [done|]. cbn [flat_map]. by rewrite decode_encode_byte, IH.
Qed.

Lemma encoded_chars s c : forallb is_scalar s = true → c ∈ percent_encode s → is_ascii c = true ∧ c ≠ 38 ∧ c ≠ 61.
Proof.
  intros Hs%as_bytes_bytes Hc%list_elem_of_In%in_flat_map. destruct Hc as (b & Hb & Hc).
  rewrite Forall_forall in Hs. apply list_elem_of_In, Hs, encode_checked, andb_prop in Hb as [Hb _].
  rewrite forallb_forall in Hb. specialize (Hb c Hc).
  apply andb_prop in Hb as [[? ?%negb_true_iff]%andb_prop ?%negb_true_iff]. split; [done|]. by rewrite !Z.eqb_neq in *.
Qed.

Lemma percent_roundtrip s : forallb is_scalar s = true → percent_decode (percent_encode s) = s.
Proof.
  intros Hs. unfold percent_decode. rewrite as_bytes_ascii.
  - unfold percent_encode. rewrite decode_encode by by apply as_bytes_bytes. by apply from_utf8_lossy_as_bytes.
  - apply forallb_forall. intros c Hc%list_elem_of_In. by apply (encoded_chars s c).
Qed.

Definition pair_ok (p : str * str) : Prop := forallb is_scalar p.1 = true ∧ forallb is_scalar p.2 = true.

Lemma parse_print_pair p : pair_ok p → parse_pair (print_pair p) = p.
Proof.
  intros [Hk Hv]. unfold parse_pair, print_pair. cbn [app].
  rewrite split_once_app by (intros Hin; by apply (encoded_chars p.1 61) in Hin as (_ & _ & ?)).
  rewrite !percent_roundtrip by done. by destruct p.
Qed.

Lemma parse_print_form l : Forall pair_ok l → parse_form (print_form l) = collect l.
Proof.
  intros Hl. unfold parse_form. f_equal. destruct l as [|p l]; [done|].
  unfold print_form. rewrite split_on_join; [|done|].
  - induction Hl as [|q k Hq Hk IH]; [done|]. cbn [List.map List.filter].
    assert (En : is_nonempty (print_pair q) = true) by (unfold print_pair; by destruct (percent_encode q.1)).
    rewrite En. cbn [List.map]. by rewrite IH, parse_print_pair.
  - apply Forall_map. eapply Forall_impl; [exact Hl|]. intros q [Hk Hv] Hin. unfold print_pair in Hin.
    rewrite !elem_of_app, list_elem_of_singleton in Hin. destruct Hin as [Hin|[Hin|Hin]]; [|done|].
    + by apply (encoded_chars q.1 38) in Hin as (_ & ? & _).
    + by apply (encoded_chars q.2 38) in Hin as (_ & ? & _).
Qed.

(** C28. A form of any texts, percent-encoded as a browser does, is read back: every
    key with its text, the later of two entries with one key. *)
Theorem form_roundtrip l :
  Forall pair_ok l →
  parse_form (print_form l) = collect l ∧
  ∀ k v l1 l2, l = l1 ++ (k, v) :: l2 → k ∉ l2.*1 → parse_form (print_form l) !! k = Some v.
Proof.
  intros Hl. rewrite parse_print_form by done. split; [done|]. intros k v l1 l2 -> Hk.
  unfold collect. rewrite foldl_app. cbn [foldl]. generalize (foldl (λ m p, <[p.1:=p.2]> m) ∅ l1 : gmap str str).
  intros m. assert (E : (<[k := v]> m : gmap str str) !! k = Some v) by by rewrite lookup_insert_eq.
  cbn [fst snd]. revert E. generalize (<[k:=v]> m : gmap str str). clear m Hl.
  induction l2 as [|[k' v'] l2 IH]; intros m E; [done|]. cbn [foldl fst snd].
  rewrite fmap_cons in Hk. apply not_elem_of_cons in Hk as [Hne Hk]. apply IH; [done|]. by rewrite lookup_insert_ne.
Qed.

(** ** Requests *)
Definition set_header (m : gmap str str) (h : str * str) : gmap str str := <[to_ascii_lowercase h.1 := h.2]> m.

Lemma notes_header_turn fuel m h q :
  header_ok h → parse_headers (S fuel) m (as_bytes (print_header h) ++ q) = parse_headers fuel (set_header m h) q.
Proof.
  intros Hh. cbn [parse_headers]. erewrite rbind_eq by by apply map_err_ok, read_header.
  destruct (header_line h Hh) as (v & El & Ev). rewrite El.
  assert (Hne : length (print_header h) ≠ 0%nat).
  { pose proof (print_headers_length [h]) as Hl. cbn [flat_map length] in Hl. rewrite app_nil_r in Hl. lia. }
  rewrite (proj2 (Nat.eqb_neq _ _)) by done.
  replace (is_nonempty (h.1 ++ 58 :: v)) with true by by destruct h.1. cbn [orb negb].
  destruct Hh as [Hn Hc _ _ _]. rewrite split_once_app by done. rewrite Ev, (trim_id h.1) by by right. done.
Qed.

Lemma notes_headers_spec hs fuel m q :
  Forall header_ok hs → (length hs < fuel)%nat →
  parse_headers fuel m (as_bytes (flat_map print_header hs ++ crlf) ++ q) = Some (Ok (foldl set_header m hs, q)).
Proof.
  intros Hhs. revert fuel m. induction Hhs as [|h hs Hh Hhs IH]; intros [|fuel] m Hf; simpl in Hf; try lia.
  - change (flat_map print_header [] ++ crlf) with crlf. cbn [parse_headers].
    by erewrite rbind_eq by apply map_err_ok, read_blank.
  - cbn [flat_map]. rewrite <-app_assoc, as_bytes_app, <-app_assoc, notes_header_turn by done. apply IH. lia.
Qed.

Lemma notes_read_headers hs q :
  Forall header_ok hs →
  read_headers (as_bytes (flat_map print_header hs ++ crlf) ++ q) = Some (Ok (foldl set_header ∅ hs, q)).
Proof.
  intros Hhs. unfold read_headers. apply notes_headers_spec; [done|].
  rewrite length_app. pose proof (as_bytes_length (flat_map print_header hs ++ crlf)) as Hl.
  rewrite length_app in Hl. pose proof (print_headers_length hs). lia.
Qed.

Lemma notes_headers_total fuel m r : (length r < fuel)%nat → parse_headers fuel m r ≠ None.
Proof.
  revert m r. induction fuel as [|fuel IH]; intros m r Hf; [lia|]. cbn [parse_headers].
  unfold rbind, map_err. destruct (read_line_cases r) as [[e ->]|(s & r' & -> & Hs)]; [done|].
  destruct Hs as [->|Hlt]; [done|]. destruct (_ || _); [done|].
  destruct (split_once 58 (trim_end s)) as [[k v]|]; [apply IH; lia|done].
Qed.

Lemma content_length_nonneg m : 0 ≤ content_length m.
Proof.
  unfold content_length. destruct (m !! _) as [v|]; cbn [mbind option_bind]; [|done].
  destruct (parse_usize v) as [n|] eqn:E; [|done]. by apply parse_uint_range in E as [? _].
Qed.

(** The parser returns, and what it allocates is bounded. *)
Definition bounded (o : option (result (Request * list Z) ParseError)) : Prop :=
  match o with
  | None => False
  | Some (Err _) => True
  | Some (Ok (rq, _)) =>
      Z.of_nat (length (req_body rq)) = content_length (req_headers rq) ∧ content_length (req_headers rq) ≤ MAX_BODY
  end.

Lemma parse_request_bounded r : bounded (parse_request r).
Proof.
  unfold parse_request. unfold rbind at 1, map_err at 1.
  destruct (read_line_cases r) as [[e ->]|(s & r1 & -> & _)]; [done|].
  destruct (length s =? 0)%nat; [done|]. destruct (request_line s) as [[m t]|]; [|done].
  destruct (split_target t) as [p qy]. unfold rbind at 1.
  destruct (read_headers r1) as [[[hs q1]|e]|] eqn:Eh; [|done|by apply notes_headers_total in Eh; [|lia]].
  destruct (Z.ltb_spec MAX_BODY (content_length hs)) as [|Hle]; [done|].
  assert (Ea : alloc (content_length hs) = Some tt).
  { unfold alloc. by rewrite (proj2 (Z.leb_le _ _)) by (unfold MAX_BODY, ISIZE_MAX in *; lia). }
  rewrite Ea. unfold rbind, map_err. cbn [or_panic].
  destruct (read_exact (content_length hs) q1) as [[[b q2]|e]|] eqn:Eb; [|done|by unfold read_exact in Eb; destruct (_ <=? _)].
  split; [|done]. by apply read_exact_inv in Eb as [_ ?]; [|apply content_length_nonneg].
Qed.

(** ** Responses *)
Definition response_headers (r : Response) : list (str * str) :=
  [(lit "Content-Type", content_type r);
   (lit "Content-Length", show (Z.of_nat (length (as_bytes (body r))))); (lit "Connection", lit "close")] ++
  match location r with Some l => [(lit "Location", l)] | None => [] end.
Definition status_line (r : Response) : str := lit "HTTP/1.1 " ++ show (status r) ++ lit " " ++ reason r ++ crlf.

Lemma to_bytes_print r :
  to_bytes r = as_bytes (status_line r) ++ as_bytes (flat_map print_header (response_headers r) ++ crlf) ++ as_bytes (body r).
Proof.
  assert (E : flat_map print_header (response_headers r) =
    (lit "Content-Type: " ++ content_type r ++ crlf) ++
    (lit "Content-Length: " ++ show (Z.of_nat (length (as_bytes (body r)))) ++ crlf) ++
    (lit "Connection: close" ++ crlf) ++
    match location r with Some l => lit "Location: " ++ l ++ crlf | None => [] end).
  { unfold response_headers. destruct (location r) as [l|]; cbn [flat_map app]; by rewrite ?app_nil_r. }
  unfold to_bytes, status_line. rewrite E. by rewrite !as_bytes_app, <-!app_assoc.
Qed.

(** What the application answers with. *)
Record response_ok (r : Response) : Prop := {
  r_status : 0 ≤ status r;
  r_type : header_ok (lit "Content-Type", content_type r);
  r_location : ∀ l, location r = Some l → header_ok (lit "Location", l)
}.

(** A client that reads the status line and the headers has the body before it, as long
    as the one Content-Length says. *)
Definition framed (out : list Z) (r : Response) : Prop := ∃ r1 hs,
  read_line out = Some (Ok (status_line r, r1)) ∧
  read_headers r1 = Some (Ok (hs, as_bytes (body r))) ∧
  content_length hs = Z.of_nat (length (as_bytes (body r))).

Lemma reason_ok r : text_ok (reason r).
Proof. unfold reason. repeat (destruct (_ =? _); [closed|]). closed. Qed.

Lemma to_bytes_framed r :
  response_ok r → Z.of_nat (length (as_bytes (body r))) ≤ ISIZE_MAX → framed (to_bytes r) r.
Proof.
  intros [Hst Hct Hloc] Hlen. rewrite to_bytes_print.
  eexists _, (foldl set_header ∅ (response_headers r)). split_and!.
  - assert (El : status_line r = (lit "HTTP/1.1 " ++ show (status r) ++ lit " " ++ reason r ++ [CR]) ++ [LF])
      by (unfold status_line, crlf; by rewrite <-!app_assoc).
    rewrite El. apply read_text. rewrite !text_ok_app.
    split_and!; [closed|by apply digits_text, show_digits|closed|apply reason_ok|closed].
  - apply notes_read_headers. unfold response_headers. apply Forall_app. split.
    + repeat apply Forall_cons_2; [done|apply number_header_ok; [lia|closed..]|closed_header; closed_value|apply Forall_nil_2].
    + destruct (location r) as [l|]; [|constructor]. apply Forall_singleton. by apply Hloc.
  - unfold response_headers. rewrite foldl_app. cbn [foldl].
    assert (E : ∀ m : gmap str str, content_length (set_header (set_header m
        (lit "Content-Length", show (Z.of_nat (length (as_bytes (body r)))))) (lit "Connection", lit "close")) =
      Z.of_nat (length (as_bytes (body r)))).
    { intros m. unfold content_length, set_header. rewrite lookup_insert_ne by done.
      change (to_ascii_lowercase (lit "Content-Length", show (Z.of_nat (length (as_bytes (body r))))).1)
        with (lit "content-length"). rewrite lookup_insert_eq. cbn [mbind option_bind snd].
      unfold parse_usize. by rewrite parse_show by (unfold ISIZE_MAX in *; lia). }
    destruct (location r) as [l|]; cbn [foldl]; [|apply E].
    unfold content_length, set_header at 1. rewrite lookup_insert_ne by done. apply E.
Qed.

(** ** The board *)
(** A note has 1 to 280 chars and does not begin with white space. *)
Definition note_ok (n : str) : Prop := (length n ≤ 280)%nat ∧ ∃ c, head n = Some c ∧ is_whitespace c = false.

Definition answered (out : list Z) : Prop :=
  out = [] ∨ ∃ r, out = to_bytes r ∧ response_ok r ∧
    (Z.of_nat (length (as_bytes (body r))) ≤ ISIZE_MAX → framed out r).

Lemma answered_to_bytes r : response_ok r → answered (to_bytes r).
Proof. intros Hr. right. exists r. split_and!; [done..|]. by apply to_bytes_framed. Qed.

Lemma text_response_ok st b : 0 ≤ st → response_ok (text st b).
Proof. intros Hst. constructor; [done|closed_header; closed_value|done]. Qed.
Lemma redirect_response_ok : response_ok (redirect (lit "/")).
Proof. constructor; [done|closed_header; closed_value|]. intros l [= <-]. closed_header; closed_value. Qed.
Lemma html_response_ok st b : 0 ≤ st → response_ok (html st b).
Proof. intros Hst. constructor; [done|closed_header; closed_value|done]. Qed.

Create HintDb board discriminated.
#[export] Hint Resolve text_response_ok redirect_response_ok html_response_ok : board.
#[export] Hint Extern 1 (_ ≤ _) => lia : board.

Lemma add_note_ok rq a :
  Forall note_ok (notes a) → response_ok (add_note rq a).1 ∧ Forall note_ok (notes (add_note rq a).2).
Proof.
  intros Ha. unfold add_note. destruct (parse_form _ !! lit "text") as [t|]; cbn [fst snd]; [|auto with board].
  destruct (trim t) as [|c t'] eqn:E; cbn [is_nonempty fst snd]; [auto with board|].
  split; [auto with board|]. apply Forall_app. split; [done|]. apply Forall_singleton.
  split; [rewrite length_take; lia|]. destruct (trim_trimmed t) as [(d & Hd & Ed) _]; [by rewrite E|].
  rewrite E in Hd. exists d. split; [by destruct t'|done].
Qed.

Lemma delete_note_ok rq a : Forall note_ok (notes a) →
  ∃ resp a', delete_note rq a = Some (resp, a') ∧ response_ok resp ∧ Forall note_ok (notes a').
Proof.
  intros Ha. unfold delete_note.
  destruct (parse_form _ !! lit "id" ≫= parse_usize) as [i|]; [|eauto 6 with board].
  destruct (i <? _) eqn:Ei; [|eauto 6 with board]. unfold vec_remove. rewrite Ei. cbn [mbind option_bind].
  do 2 eexists. split_and!; [done|auto with board|]. by apply Forall_delete.
Qed.

Lemma handle_ok rq a : Forall note_ok (notes a) →
  ∃ resp a', handle rq a = Some (resp, a') ∧ response_ok resp ∧ Forall note_ok (notes a').
Proof.
  intros Ha. unfold handle. destruct (_ && _); [eauto 6 with board|].
  destruct (_ && _).
  { destruct (add_note_ok rq a Ha). destruct (add_note rq a) as [resp a']. eauto. }
  destruct (_ && _); [by apply delete_note_ok|].
  destruct (_ && _); [eauto 6 with board|]. case_bool_decide; eauto 6 with board.
Qed.

Lemma serve_connection_ok input a : Forall note_ok (notes a) →
  ∃ out a', serve_connection input a = Some (out, a') ∧ answered out ∧ Forall note_ok (notes a').
Proof.
  intros Ha. unfold serve_connection. pose proof (parse_request_bounded input) as Hb.
  destruct (parse_request input) as [[[rq q]|e]|]; [| |done].
  - destruct (handle_ok rq a Ha) as (resp & a' & -> & Hr & Ha'). cbn [mbind option_bind].
    do 2 eexists. split_and!; [done|by apply answered_to_bytes|done].
  - destruct e; do 2 eexists; (split_and!; [done| |done]); [by left|..]; apply answered_to_bytes; auto with board.
Qed.

(** C17. Whatever bytes any number of clients send: a request is read in bounded memory
    (a body has at most 64 KiB), no connection panics, so that the lock on the board
    is never poisoned; every client is answered with nothing or with one response
    whose Content-Length is that of its body; and every note on the board has 1 to
    280 chars and does not begin with white space. *)
Theorem serve_safe inputs :
  (∀ r, bounded (parse_request r)) ∧
  ∃ outs a, serve inputs ([], new) = Some (outs, a) ∧
    length outs = length inputs ∧ Forall answered outs ∧ Forall note_ok (notes a).
Proof.
  split; [exact parse_request_bounded|].
  destruct (for_each_count (λ n s, length s.1 = n ∧ Forall answered s.1 ∧ Forall note_ok (notes s.2))
    (λ input s, '(out, a) ← serve_connection input s.2; Some (s.1 ++ [out], a)) inputs 0 ([], new))
    as ([outs a] & E & Hl & Ho & Ha); [by split_and!|..].
  - intros input k [outs a] _ _ (Hl & Ho & Ha). cbn [fst snd] in *.
    destruct (serve_connection_ok input a Ha) as (out & a' & -> & Hout & Ha'). cbn [mbind option_bind].
    eexists. split; [done|]. cbn [fst snd]. rewrite length_app. split_and!; [simpl; lia| |done].
    apply Forall_app. split; [done|]. by apply Forall_singleton.
  - exists outs, a. by split_and!.
Qed.

(** ** A session of a browser *)
Definition print_request (line : str) (hs : list (str * str)) (body : list Z) : list Z :=
  as_bytes (line ++ crlf) ++ as_bytes (flat_map print_header hs ++ crlf) ++ body.
Definition get_request (p : str) : list Z := print_request (lit "GET " ++ p ++ lit " HTTP/1.1") [] [].
Definition post_request (p : str) (form : list (str * str)) : list Z :=
  let b := as_bytes (print_form form) in
  print_request (lit "POST " ++ p ++ lit " HTTP/1.1") [(lit "Content-Length", show (Z.of_nat (length b)))] b.

Lemma parse_printed line m p hs b :
  text_ok line → request_line (line ++ crlf) = Some (m, p) → split_target p = (p, ∅) → Forall header_ok hs →
  content_length (foldl set_header ∅ hs) = Z.of_nat (length b) → Z.of_nat (length b) ≤ MAX_BODY →
  parse_request (print_request line hs b) = Some (Ok (mkRequest m p ∅ (foldl set_header ∅ hs) b, [])).
Proof.
  intros Hline Hm Ht Hhs Hn Hmax. unfold print_request, parse_request.
  assert (Er : ∀ q, read_line (as_bytes (line ++ crlf) ++ q) = Some (Ok (line ++ crlf, q))).
  { intros q. change crlf with ([CR] ++ [LF]). rewrite app_assoc. apply read_text.
    apply text_ok_app. by split; [|closed]. }
  erewrite rbind_eq by by apply map_err_ok, Er.
  rewrite (proj2 (Nat.eqb_neq _ _)) by (rewrite length_app; simpl; lia).
  rewrite Hm, Ht. erewrite rbind_eq by by apply notes_read_headers.
  cbv zeta. rewrite Hn, (proj2 (Z.ltb_ge _ _)) by done.
  assert (Ea : alloc (Z.of_nat (length b)) = Some tt).
  { unfold alloc. by rewrite (proj2 (Z.leb_le _ _)) by (unfold MAX_BODY, ISIZE_MAX in *; lia). }
  rewrite Ea. unfold rbind at 1. cbn [or_panic]. unfold rbind.
  pose proof (read_exact_app _ b [] eq_refl) as E. rewrite app_nil_r in E. by rewrite (map_err_ok _ _ _ _ E).
Qed.

Lemma form_text l : Forall pair_ok l → from_utf8_lossy (as_bytes (print_form l)) = print_form l.
Proof.
  intros Hl. apply from_utf8_lossy_as_bytes. unfold print_form.
  assert (Henc : ∀ s, forallb is_scalar s = true → forallb is_scalar (percent_encode s) = true).
  { intros s Hs. apply forallb_forall. intros c Hc%list_elem_of_In.
    apply (encoded_chars s c Hs) in Hc as [Ha _]. apply is_scalar_spec. unfold is_ascii in Ha. lia. }
  induction Hl as [|p l [Hk Hv] Hl IH]; [done|]. cbn [List.map].
  assert (Hp : forallb is_scalar (print_pair p) = true).
  { unfold print_pair. by rewrite !forallb_app, !Henc. }
  destruct (List.map print_pair l) as [|q k]; cbn [join]; [done|].
  cbn [join] in IH. by rewrite !forallb_app, Hp, IH.
Qed.

Lemma parse_post p l :
  text_ok (lit "POST " ++ p ++ lit " HTTP/1.1") →
  request_line ((lit "POST " ++ p ++ lit " HTTP/1.1") ++ crlf) = Some (lit "POST", p) → split_target p = (p, ∅) →
  Forall pair_ok l → Z.of_nat (length (as_bytes (print_form l))) ≤ MAX_BODY →
  ∃ rq, parse_request (post_request p l) = Some (Ok (rq, [])) ∧ method rq = lit "POST" ∧ path rq = p ∧
    parse_form (from_utf8_lossy (req_body rq)) = collect l.
Proof.
  intros Ht Hm Hp Hl Hmax. eexists. split; [|split_and!].
  - unfold post_request. apply parse_printed; try done.
    + apply Forall_singleton, number_header_ok; [lia|closed..].
    + cbn [foldl]. unfold content_length, set_header. rewrite lookup_insert_eq. cbn [mbind option_bind snd].
      unfold parse_usize. by rewrite parse_show by (unfold MAX_BODY in *; lia).
  - done.
  - done.
  - cbn [req_body]. rewrite form_text by done. by apply parse_print_form.
Qed.

(** The three requests of the page. *)
Lemma serve_post_note a t :
  forallb is_scalar t = true → trim t ≠ [] → Z.of_nat (length (as_bytes (print_form [(lit "text", t)]))) ≤ MAX_BODY →
  serve_connection (post_request (lit "/notes") [(lit "text", t)]) a =
    Some (to_bytes (redirect (lit "/")), mkApp (notes a ++ [take 280 (trim t)])).
Proof.
  intros Ht Hne Hmax.
  destruct (parse_post (lit "/notes") [(lit "text", t)]) as (rq & E & Hm & Hp & Hf); [closed|reflexivity|reflexivity| |done|].
  { apply Forall_singleton. by split. }
  unfold serve_connection. rewrite E. unfold handle. rewrite Hm, Hp. simpl. unfold add_note. rewrite Hf.
  unfold collect. cbn [foldl fst snd]. rewrite lookup_insert_eq. by destruct (trim t).
Qed.

Lemma show_length n : (length (show n) ≤ S (Z.to_nat (Z.log2 n)))%nat.
Proof.
  unfold show. generalize (S (Z.to_nat (Z.log2 n))). intros f. revert n.
  induction f as [|f IH]; intros n; [done|]. cbn [show_fuel]. destruct (n <? 10); [simpl; lia|].
  rewrite length_app. specialize (IH (n / 10)). simpl. lia.
Qed.

Lemma encode_digits s : forallb is_ascii_digit s = true → percent_encode s = s.
Proof.
  intros Hs. unfold percent_encode. rewrite as_bytes_ascii.
  - induction s as [|c s IH]; [done|]. simpl in Hs. apply andb_prop in Hs as [Hc Hs]. cbn [flat_map].
    rewrite IH by done. unfold encode_byte, is_ascii_alphanumeric. by rewrite Hc.
  - rewrite forallb_forall in *. intros c Hc%Hs. unfold is_ascii_digit, is_ascii in *. lia.
Qed.

Lemma id_form_short i :
  0 ≤ i < 18446744073709551616 → Z.of_nat (length (as_bytes (print_form [(lit "id", show i)]))) ≤ MAX_BODY.
Proof.
  intros Hi. pose proof (show_digits i ltac:(lia)) as Hd. unfold print_form. cbn [List.map join].
  unfold print_pair. cbn [fst snd]. rewrite (encode_digits (show i)) by done. rewrite as_bytes_ascii.
  - pose proof (show_length i). assert (Z.log2 i < 64) by (destruct (Z.eq_dec i 0) as [->|]; [done|apply Z.log2_lt_pow2; lia]).
    rewrite !length_app. unfold MAX_BODY. pose proof (Z.log2_nonneg i). simpl. lia.
  - rewrite !forallb_app. simpl. rewrite forallb_forall in *. intros c Hc%Hd. unfold is_ascii_digit, is_ascii in *. lia.
Qed.

Lemma serve_post_delete a i :
  0 ≤ i < 18446744073709551616 →
  serve_connection (post_request (lit "/notes/delete") [(lit "id", show i)]) a =
    Some (if i <? Z.of_nat (length (notes a)) then (to_bytes (redirect (lit "/")), mkApp (delete (Z.to_nat i) (notes a)))
          else (to_bytes (text 400 (lit "unknown note id")), a)).
Proof.
  intros Hi. pose proof (show_digits i ltac:(lia)) as Hd.
  destruct (parse_post (lit "/notes/delete") [(lit "id", show i)]) as (rq & E & Hm & Hp & Hf);
    [closed|reflexivity|reflexivity| | |].
  { apply Forall_singleton. split; [done|]. by apply digits_text. }
  { by apply id_form_short. }
  unfold serve_connection. rewrite E. unfold handle. rewrite Hm, Hp. simpl. unfold delete_note. rewrite Hf.
  unfold collect. cbn [foldl fst snd]. rewrite lookup_insert_eq. cbn [mbind option_bind].
  unfold parse_usize. rewrite parse_show by done. unfold vec_remove. by destruct (i <? _).
Qed.

Lemma serve_get_index a : serve_connection (get_request (lit "/")) a = Some (to_bytes (html 200 (render_index a)), a).
Proof.
  unfold serve_connection, get_request.
  rewrite (parse_printed _ (lit "GET") (lit "/")); [|closed|reflexivity|reflexivity|constructor|reflexivity|done].
  reflexivity.
Qed.

Lemma render_index_markup a b : length (notes a) = length (notes b) → markup (render_index a) = markup (render_index b).
Proof.
  intros Hl.
  assert (E : ∀ (ns ns' : list str) (f f' : nat → str → str), length ns = length ns' → (∀ i n n', markup (f i n) = markup (f' i n')) →
    markup (concat (imap f ns)) = markup (concat (imap f' ns'))).
  { intros ns. induction ns as [|n ns IH]; intros [|n' ns'] f f' Hns Hf; simplify_eq/=; [done|].
    rewrite !markup_app. f_equal; [apply Hf|]. apply IH; [done|]. intros i m m'. apply Hf. }
  unfold render_index. rewrite Hl, !markup_app, (E (notes a) (notes b) render_note render_note Hl); [done|].
  intros i n n'. unfold render_note.
  rewrite !markup_app. unfold html_escape. by rewrite !replace_chain, !html_escaped_markup.
Qed.

(** From bytes to bytes: a browser that posts a text, percent-encoded, and loads the
    page is redirected and then shown the board with the trimmed text, cut to 280
    chars, behind its notes; one that posts the number of a note deletes exactly that
    one, and a number without a note changes nothing; and no texts of notes open or
    close a tag or an attribute of the page. *)
Theorem board_session a t i :
  forallb is_scalar t = true → trim t ≠ [] → Z.of_nat (length (as_bytes (print_form [(lit "text", t)]))) ≤ MAX_BODY →
  0 ≤ i < 18446744073709551616 →
  (let a' := mkApp (notes a ++ [take 280 (trim t)]) in
   serve [post_request (lit "/notes") [(lit "text", t)]; get_request (lit "/")] ([], a) =
     Some ([to_bytes (redirect (lit "/")); to_bytes (html 200 (render_index a'))], a')) ∧
  serve [post_request (lit "/notes/delete") [(lit "id", show i)]] ([], a) =
    Some (if i <? Z.of_nat (length (notes a))
          then ([to_bytes (redirect (lit "/"))], mkApp (delete (Z.to_nat i) (notes a)))
          else ([to_bytes (text 400 (lit "unknown note id"))], a)) ∧
  ∀ b, length (notes a) = length (notes b) → markup (render_index a) = markup (render_index b).
Proof.
  intros Ht Hne Hmax Hi. unfold serve. cbn [for_each]. split_and!.
  - cbn [snd]. rewrite serve_post_note by done. cbn [mbind option_bind snd fst app]. by rewrite serve_get_index.
  - cbn [snd]. rewrite serve_post_delete by done. by destruct (i <? _).
  - intros b. apply render_index_markup.
Qed.

Lemma form_roundtrip_witness :
  let l := [(lit "text", lit "a&b=<c> " ++ [0x2713]); (lit "id", lit "7")] in
  Forall pair_ok l ∧ parse_form (print_form l) = collect l.
Proof.
  intros l. assert (Hl : Forall pair_ok l) by (repeat constructor). split; [exact Hl|]. exact (proj1 (form_roundtrip l Hl)).
Defined.

Lemma board_session_witness :
  let a := mkApp [lit "buy milk"; lit "call mum"] in
  serve [post_request (lit "/notes/delete") [(lit "id", show 1)]] ([], a) =
    Some ([to_bytes (redirect (lit "/"))], mkApp [lit "buy milk"]).
Proof.
  intros a. refine (proj1 (proj2 (board_session a (lit " <b>x</b> ") 1 _ _ _ _)));
    [reflexivity|vm_compute; discriminate|vm_compute; discriminate|lia].
Defined.
