(* ===== verification/Servers.v ===== *)
(** * The programs of the three servers
    ([main.rs] and [run] of [2026-08-13-rust-microservice], [2026-09-05-rust-websocket-chat]
    and [2026-10-29-rust-simple-web-app])

    What each does with its argument, with a listener that cannot be bound and with a
    connection that cannot be accepted, around the connections of [HttpService],
    [ChatServer] and [NotesApp].  A listener is what the operating system gives for an
    address: its own address and the connections so far, each with the bytes that its
    client sends, or an error. *)
From S2P Require Import Prelude RustStr KvStore HttpService ChatServer NotesApp.

Record Listener : Type := mkListener { local_addr : result str str; incoming : list (result (list Z) str) }.
(** [TcpListener::bind] *)
Abbreviation Net := (str → result Listener str) (only parsing).

(** A process that still accepts, in some state, or that has ended; and its output. *)
Inductive Process (S : Type) : Type :=
| Accepting (out : str) (s : S)
| Exited (code : Z) (out err : str) (s : S).
Arguments Accepting {S}. Arguments Exited {S}.

(** [env::args().nth(1).unwrap_or_else(..)] *)
Definition addr_arg (args : list str) (d : str) : str := default d (args !! 1%nat).
Definition println (s : str) : str := s ++ [LF].

(** The connections up to the first error, and it. *)
Fixpoint until_error {A E} (l : list (result A E)) : list A * option E :=
  match l with
  | [] => ([], None)
  | Err e :: _ => ([], Some e)
  | Ok a :: l => let '(as_, e) := until_error l in (a :: as_, e)
  end.
(** [incoming().flatten()] *)
Definition flatten {A E} (l : list (result A E)) : list A := omap (λ r, match r with Ok a => Some a | Err _ => None end) l.

Lemma until_error_app {A E} (l : list A) (e : E) r : until_error (List.map Ok l ++ Err e :: r) = (l, Some e).
Proof. induction l as [|a l IH]; [done|]. cbn. by rewrite IH. Qed.
Lemma until_error_ok {A E} (l : list A) : until_error (E := E) (List.map Ok l) = (l, None).
Proof. induction l as [|a l IH]; [done|]. cbn. by rewrite IH. Qed.
Lemma flatten_app {A E} (l : list A) (e : E) r : flatten (List.map Ok l ++ Err e :: r) = l ++ flatten r.
Proof.
  unfold flatten. rewrite omap_app. cbn. f_equal. induction l as [|a l IH]; [done|]. cbn. by rewrite IH.
Qed.

(** ** The microservice: [run], [serve] and [main] *)
Module Microservice.
Section program.
Context (oc : bool) (net : Net).
#[local] Instance kv : KvStore Store := Store_kv oc.

(** What was written back on each connection, and the store; its state. *)
Definition Served : Type := list (option (list Z)) * Store.

(** [stream?]: the first connection that cannot be accepted ends the loop. *)
Definition serve (l : Listener) (store : Store) : Served * result unit str :=
  let '(inputs, e) := until_error (incoming l) in
  (HttpService.serve inputs store, match e with Some e => Err e | None => Ok tt end).

(** The output, the state, and the error that it returns, if it does. *)
Definition run (addr : str) (store : Store) : str * Served * result unit str :=
  match net addr with
  | Err e => ([], ([], store), Err e)
  | Ok l =>
      match local_addr l with
      | Err e => ([], ([], store), Err e)
      | Ok a => let '(s, r) := serve l store in (println (lit "listening on " ++ a), s, r)
      end
  end.

Definition default_addr : str := lit "127.0.0.1:7878".
Definition main (args : list str) : Process Served :=
  let '(out, s, r) := run (addr_arg args default_addr) KvStore.new in
  match r with
  | Err e => Exited 1 out (println (lit "server error: " ++ e)) s
  | Ok _ => Accepting out s
  end.

(** The program answers every connection up to the first that cannot be accepted, and
    ends there with an error, like when it cannot listen. *)
Lemma main_listens args l a inputs : net (addr_arg args default_addr) = Ok l → local_addr l = Ok a →
  (incoming l = List.map Ok inputs → main args = Accepting (println (lit "listening on " ++ a)) (HttpService.serve inputs KvStore.new)) ∧
  (∀ e rest, incoming l = List.map Ok inputs ++ Err e :: rest →
     main args = Exited 1 (println (lit "listening on " ++ a)) (println (lit "server error: " ++ e)) (HttpService.serve inputs KvStore.new)).
Proof.
  intros Hn Ha. unfold main, run, serve. rewrite Hn, Ha. split.
  - intros ->. by rewrite until_error_ok.
  - intros e rest ->. by rewrite until_error_app.
Qed.
Lemma microservice_cannot_listen args e : net (addr_arg args default_addr) = Err e →
  main args = Exited 1 [] (println (lit "server error: " ++ e)) ([], KvStore.new).
Proof. intros Hn. unfold main, run. by rewrite Hn. Qed.
End program.
End Microservice.

(** ** The chat: [run] and [main]; its threads are those of [ChatServer] *)
Module Chat.
Section program.
Context (net : Net).

(** The accept loop on its own: what cannot be accepted takes no id. *)
Definition serve (l : Listener) : Server := foldl (λ s input, accept input s) serve_init (flatten (incoming l)).

Definition run (addr : str) : result Server str := match net addr with Ok l => Ok (serve l) | Err e => Err e end.

Definition default_addr : str := lit "127.0.0.1:9001".
Definition banner (addr : str) : str :=
  println (lit "wschat listening on " ++ addr ++
    lit " (connect with a WebSocket client, e.g. a browser console: new WebSocket('ws://" ++ addr ++ lit "'))").
(** An error that [main] returns is printed with [{:?}], which [debug] stands for. *)
Definition main (debug : str → str) (args : list str) : Process (option Server) :=
  let addr := addr_arg args default_addr in
  match run addr with
  | Ok s => Accepting (banner addr) (Some s)
  | Err e => Exited 1 (banner addr) (println (lit "Error: " ++ debug e)) None
  end.

(** The banner comes first, even when the address cannot be bound. *)
Lemma chat_cannot_listen debug args e : net (addr_arg args default_addr) = Err e →
  main debug args = Exited 1 (banner (addr_arg args default_addr)) (println (lit "Error: " ++ debug e)) None.
Proof. intros Hn. unfold main, run. by rewrite Hn. Qed.

Lemma accepts_reach oc inputs s : reach oc [] s → Z.of_nat (length inputs) < 2 ^ 64 - next_id s →
  reach oc [] (foldl (λ s input, accept input s) s inputs).
Proof.
  revert s. induction inputs as [|input inputs IH]; intros s Hr Hl; cbn [foldl length] in *; [done|].
  assert (0 <= next_id s) by (pose proof (k_next _ _ (reach_ok _ _ _ Hr)); lia).
  apply IH; [change (@nil Bcast) with (@nil Bcast ++ []); eapply reach_step; [done|lia|by instantiate (1 := Accept input)]|].
  cbn [accept next_id]. unfold wrap64. rewrite Z.mod_small; lia.
Qed.
(** A connection that cannot be accepted changes nothing, and the state of the loop is one
    that the theorems on the server speak about. *)
Lemma serve_reach oc l : Z.of_nat (length (flatten (incoming l))) < 2 ^ 64 - 1 → reach oc [] (serve l).
Proof. intros H. apply accepts_reach; [constructor|exact H]. Qed.
End program.
End Chat.

(** ** The notes board: [main] *)
Module Notes.
Section program.
Context (net : Net).

Definition default_addr : str := lit "127.0.0.1:8080".
(** The inner option is a panic in a connection. *)
Definition main (debug : str → str) (args : list str) : Process (option (list (list Z) * App)) :=
  let addr := addr_arg args default_addr in
  match net addr with
  | Err e => Exited 1 [] (println (lit "Error: " ++ debug e)) None
  | Ok l => Accepting (println (lit "listening on http://" ++ addr)) (serve (flatten (incoming l)) ([], new))
  end.

(** Connections that cannot be accepted are passed over. *)
Lemma main_passes_over debug args l inputs e rest : net (addr_arg args default_addr) = Ok l →
  incoming l = List.map Ok inputs ++ Err e :: List.map Ok rest →
  main debug args = Accepting (println (lit "listening on http://" ++ addr_arg args default_addr)) (serve (inputs ++ rest) ([], new)).
Proof.
  intros Hn Hi. unfold main. rewrite Hn, Hi, flatten_app. do 4 f_equal.
  unfold flatten. clear. induction rest as [|a l IH]; [done|]. cbn. by rewrite IH.
Qed.
End program.
End Notes.

(** ** Examples *)
Definition two_then_error : Net := λ addr,
  if bool_decide (addr = lit "localhost:1") then
    Ok (mkListener (Ok addr) [Ok (lit "GET /items HTTP/1.1" ++ [CR; LF; CR; LF]); Ok []; Err (lit "Too many open files (os error 24)"); Ok []])
  else Err (lit "Address already in use (os error 98)").
Example microservice_ends :
  match Microservice.main true two_then_error [lit "s"; lit "localhost:1"] with
  | Exited code out err (answers, _) => code = 1 ∧ out = lit "listening on localhost:1" ++ [LF] ∧ length answers = 2%nat ∧
      err = lit "server error: Too many open files (os error 24)" ++ [LF]
  | _ => False
  end.
Proof. by vm_compute. Qed.
Example chat_goes_on :
  match Chat.main two_then_error (λ e, e) [lit "s"; lit "localhost:1"] with
  | Accepting _ (Some s) => ChatServer.next_id s = 4
  | _ => False
  end.
Proof. by vm_compute. Qed.
