(* ===== verification/Genetic.v ===== *)
(** * Neuroevolution: networks and the genetic algorithm
    ([2026-09-13-rust-neuroevolution/src/{neural_network,genetic_algorithm}.rs])

    The crate [rand] is a class: what its methods draw from a generator.  A computation
    that draws is a function of the generator's state, and [None] is a panic; an
    iterator of weights is threaded in the same way.  Counts of elements are [nat]. *)
From S2P Require Import Prelude RustStr F32 F32Math.

(** ** Computations with a state *)
Definition st (S A : Type) : Type := S → option (A * S).
Definition ret {S A} (a : A) : st S A := λ s, Some (a, s).
Definition bind {S A B} (m : st S A) (k : A → st S B) : st S B := λ s,
  match m s with Some (a, s') => k a s' | None => None end.
Notation "'let*' x := m 'in' k" := (bind m (λ x, k))
  (at level 10, x name, m at level 100, k at level 200).
(** [assert!], and what panics on [None]. *)
Definition assert {S} (b : bool) : st S unit := λ s, if b then Some (tt, s) else None.
Definition or_panic {S A} (o : option A) : st S A := λ s, match o with Some a => Some (a, s) | None => None end.
(** [(0..n).map(|_| f).collect()] and [l.into_iter().map(f).collect()] *)
Fixpoint collect {S A} (n : nat) (f : st S A) : st S (list A) :=
  match n with O => ret [] | S n => let* a := f in let* l := collect n f in ret (a :: l) end.
Fixpoint st_map {S A B} (f : A → st S B) (l : list A) : st S (list B) :=
  match l with [] => ret [] | a :: l => let* b := f a in let* bs := st_map f l in ret (b :: bs) end.

(** ** The crate [rand] *)
Class Rng (R : Type) : Type := {
  gen_bool : f32 → R → bool * R;
  gen_unit : R → f32 * R;
  gen_range : f32 → f32 → R → f32 * R;
  gen_range_inclusive : f32 → f32 → R → f32 * R;
  (** The index of the chosen element, or the error. *)
  choose_weighted : list f32 → R → option nat * R }.
Definition sample {R A} (f : R → A * R) : st R A := λ r, Some (f r).

(** Its documentation: a number is drawn from the range, and a choice succeeds among
    weights that are not negative and have a sum that is positive and finite. *)
Class RngLaws (R : Type) `{Rng R} : Prop := {
  gen_unit_range r : leb zero (gen_unit r).1 = true ∧ ltb (gen_unit r).1 one = true;
  gen_range_range lo hi r : ltb lo hi = true → valid lo = true → valid hi = true →
    valid (gen_range lo hi r).1 = true ∧ leb lo (gen_range lo hi r).1 = true ∧ ltb (gen_range lo hi r).1 hi = true;
  choose_weighted_index ws r : Forall (λ w, leb zero w = true) ws → ltb zero (foldl add zero ws) = true →
    finite (foldl add zero ws) → ∃ i, (choose_weighted ws r).1 = Some i ∧ (i < length ws)%nat }.

(** ** [neural_network.rs] *)
Record LayerTopology : Type := mkTopology { neurons_count : nat }.
Record Neuron : Type := mkNeuron { bias : f32; weights : list f32 }.
Record Layer : Type := mkLayer { neurons : list Neuron }.
Record Network : Type := mkNetwork { layers : list Layer }.

(** [windows(2)] *)
Fixpoint windows2 {A} (l : list A) : list (A * A) :=
  match l with a :: ((b :: _) as t) => (a, b) :: windows2 t | _ => [] end.

Definition minus_one : f32 := opp one.
Definition Neuron_random {R} `{Rng R} (input_size : nat) : st R Neuron :=
  let* b := sample (gen_range_inclusive minus_one one) in
  let* ws := collect input_size (sample (gen_range_inclusive minus_one one)) in
  ret (mkNeuron b ws).
Definition Layer_random {R} `{Rng R} (input_size output_size : nat) : st R Layer :=
  let* ns := collect output_size (Neuron_random input_size) in ret (mkLayer ns).
Definition Network_random {R} `{Rng R} (topology : list LayerTopology) : st R Network :=
  let* _a := assert (1 <? length topology)%nat in
  let* ls := st_map (λ p, Layer_random (neurons_count p.1) (neurons_count p.2)) (windows2 topology) in
  ret (mkNetwork ls).

(** [weights.next().expect(..)], on the rest of the iterator. *)
Definition next_weight : st (list f32) f32 := λ ws, match ws with w :: ws => Some (w, ws) | [] => None end.
Definition Neuron_from_weights (input_size : nat) : st (list f32) Neuron :=
  let* b := next_weight in
  let* ws := collect input_size next_weight in
  ret (mkNeuron b ws).
Definition Layer_from_weights (input_size output_size : nat) : st (list f32) Layer :=
  let* ns := collect output_size (Neuron_from_weights input_size) in ret (mkLayer ns).
Definition Network_from_weights (topology : list LayerTopology) (ws : list f32) : option Network :=
  if (1 <? length topology)%nat then
    match st_map (λ p, Layer_from_weights (neurons_count p.1) (neurons_count p.2)) (windows2 topology) ws with
    | Some (ls, []) => Some (mkNetwork ls)
    | _ => None
    end
  else None.

Definition network_weights (n : Network) : list f32 :=
  flat_map (λ l, flat_map (λ n, bias n :: weights n) (neurons l)) (layers n).

(** [sum] of floats starts at [-0.0]. *)
Definition fsum (l : list f32) : f32 := foldl add (opp zero) l.
Definition Neuron_propagate (inputs : list f32) (n : Neuron) : option f32 :=
  if (length inputs =? length (weights n))%nat
  then Some (fmax (add (bias n) (fsum (zip_with mul inputs (weights n)))) zero) else None.
Definition Layer_propagate (inputs : list f32) (l : Layer) : option (list f32) := mapM (Neuron_propagate inputs) (neurons l).
Definition Network_propagate (n : Network) (inputs : list f32) : option (list f32) :=
  foldl (λ i l, i ← i; Layer_propagate i l) (Some inputs) (layers n).

(** ** [genetic_algorithm.rs] *)
Record Chromosome : Type := mkChromosome { genes : list f32 }.
Definition chromosome_len (c : Chromosome) : nat := length (genes c).
(** [chromosome[i]] *)
Definition chromosome_index (c : Chromosome) (i : nat) : option f32 := genes c !! i.
(** [collect()] and [into_iter()] *)
Definition from_iter (l : list f32) : Chromosome := mkChromosome l.
Definition chromosome_into_iter (c : Chromosome) : list f32 := genes c.

Class Individual (I : Type) : Type := {
  fitness : I → f32;
  chromosome : I → Chromosome;
  create : Chromosome → I }.

Record Statistics : Type := mkStatistics { min_fitness : f32; max_fitness : f32; avg_fitness : f32 }.

Section genetic.
Context {R : Type} `{Rng R}.

(** [RouletteWheelSelection] *)
Definition weight_floor : f32 := of_decimal 1 5.
Definition select {I} `{Individual I} (population : list I) : st R I :=
  let* i := sample (choose_weighted (map (λ i, fmax (fitness i) weight_floor) population)) in
  let* i := or_panic i in
  or_panic (population !! i).

(** [UniformCrossover] *)
Definition half : f32 := of_decimal 5 1.
Definition crossover_gene (p : f32 * f32) : st R f32 :=
  let* b := sample (gen_bool half) in ret (if b : bool then p.1 else p.2).
Definition crossover (parent_a parent_b : Chromosome) : st R Chromosome :=
  let* _a := assert (chromosome_len parent_a =? chromosome_len parent_b)%nat in
  let* l := st_map crossover_gene (zip (genes parent_a) (genes parent_b)) in
  ret (from_iter l).

(** [GaussianMutation] *)
Record GaussianMutation : Type := mkMutation { chance : f32; coeff : f32 }.
Definition GaussianMutation_new (chance coeff : f32) : option GaussianMutation :=
  if leb zero chance && leb chance one then Some (mkMutation chance coeff) else None.
Definition mutate_gene (g : GaussianMutation) (gene : f32) : st R f32 :=
  let* b := sample (gen_bool (chance g)) in
  if b : bool then
    let* n := sample (gen_bool half) in
    let* u := sample gen_unit in
    ret (add gene (mul (mul (if n : bool then minus_one else one) (coeff g)) u))
  else ret gene.
Definition mutate (g : GaussianMutation) (child : Chromosome) : st R Chromosome :=
  let* l := st_map (mutate_gene g) (genes child) in ret (mkChromosome l).

(** The methods of a [GeneticAlgorithm]; the program has one of each. *)
Record GeneticAlgorithm : Type := mkGA {
  crossover_method : Chromosome → Chromosome → st R Chromosome;
  mutation_method : Chromosome → st R Chromosome }.
Definition GeneticAlgorithm_new (g : GaussianMutation) : GeneticAlgorithm := mkGA crossover (mutate g).

Definition Statistics_new {I} `{Individual I} (population : list I) : option Statistics :=
  match population with
  | [] => None
  | _ =>
      let f := map fitness population in
      Some (mkStatistics (foldl fmin (Inf false) f) (foldl fmax (Inf true) f)
        (div (foldl add zero f) (of_Z (Z.of_nat (length population)))))
  end.

Definition make_child {I} `{Individual I} (ga : GeneticAlgorithm) (population : list I) : st R I :=
  let* a := select population in
  let* b := select population in
  let* child := crossover_method ga (chromosome a) (chromosome b) in
  let* child := mutation_method ga child in
  ret (create child).
Definition evolve {I} `{Individual I} (ga : GeneticAlgorithm) (population : list I) : st R (list I * Statistics) :=
  let* _a := assert (match population with [] => false | _ => true end) in
  let* new_population := collect (length population) (make_child ga population) in
  let* s := or_panic (Statistics_new population) in
  ret (new_population, s).
End genetic.
Arguments GeneticAlgorithm R : clear implicits.
