(* ===== verification/GeneticProps.v ===== *)
(** * Neuroevolution: properties of networks and of the genetic algorithm

    Weights round-trip through networks; a propagation is total and never yields a NaN;
    what a generation inherits from the one before. *)
From S2P Require Import Prelude RustStr F32 F32Math Genetic.

(** ** Decoders

    [f] reads what [enc] writes, exactly: [k] numbers, of every stream that has them. *)
Record decodes {A} (f : st (list f32) A) (enc : A → list f32) (ok : A → Prop) (k : nat) : Prop := {
  decodes_reads a rest : ok a → f (enc a ++ rest) = Some (a, rest);
  decodes_inv ws a rest : f ws = Some (a, rest) → ok a ∧ ws = enc a ++ rest;
  decodes_length a : ok a → length (enc a) = k;
  decodes_total ws : (k ≤ length ws)%nat → f ws ≠ None }.

Lemma decodes_next : decodes next_weight (λ w, [w]) (λ _, True) 1.
Proof.
  split; [done| |done|].
  - intros [|w ws] a rest; [done|]. by intros [= -> ->].
  - intros [|w ws]; simpl; [lia|done].
Qed.

Lemma decodes_bind {A B} (f : st (list f32) A) (g : st (list f32) B) enc enc' ok ok' k k' :
  decodes f enc ok k → decodes g enc' ok' k' →
  decodes (let* a := f in let* b := g in ret (a, b)) (λ p, enc p.1 ++ enc' p.2) (λ p, ok p.1 ∧ ok' p.2) (k + k').
Proof.
  intros Hf Hg. split.
  - intros [a b] rest [Ha Hb]. cbn [fst snd]. unfold Genetic.bind. rewrite <-app_assoc, (decodes_reads _ _ _ _ Hf) by done.
    by rewrite (decodes_reads _ _ _ _ Hg).
  - intros ws [a b] rest. unfold Genetic.bind. destruct (f ws) as [[a' w1]|] eqn:E1; [|done].
    destruct (g w1) as [[b' w2]|] eqn:E2; [|done]. intros [= -> -> ->].
    apply (decodes_inv _ _ _ _ Hf) in E1 as [Ha ->]. apply (decodes_inv _ _ _ _ Hg) in E2 as [Hb ->]. cbn [fst snd]. by rewrite <-app_assoc.
  - intros [a b] [Ha Hb]. cbn [fst snd] in *. by rewrite length_app, (decodes_length _ _ _ _ Hf), (decodes_length _ _ _ _ Hg).
  - intros ws Hws. unfold Genetic.bind. pose proof (decodes_total _ _ _ _ Hf ws ltac:(lia)) as H1.
    destruct (f ws) as [[a w1]|] eqn:E; [|done]. pose proof (decodes_inv _ _ _ _ Hf _ _ _ E) as [Ha ->].
    rewrite length_app, (decodes_length _ _ _ _ Hf a Ha) in Hws. pose proof (decodes_total _ _ _ _ Hg w1 ltac:(lia)) as H2.
    by destruct (g w1) as [[b w2]|].
Qed.

(** The same, in the form of another type. *)
Lemma decodes_iso {A B} (f : st (list f32) A) (h : A → B) (h' : B → A) enc ok k :
  (∀ a, h' (h a) = a) → (∀ b, h (h' b) = b) → decodes f enc ok k →
  decodes (let* a := f in ret (h a)) (λ b, enc (h' b)) (λ b, ok (h' b)) k.
Proof.
  intros H1 H2 Hf. split.
  - intros b rest Hb. unfold Genetic.bind, ret. by rewrite (decodes_reads _ _ _ _ Hf), H2.
  - intros ws b rest. unfold Genetic.bind, ret. destruct (f ws) as [[a w]|] eqn:E; [|done]. intros [= <- <-]. rewrite H1.
    by apply (decodes_inv _ _ _ _ Hf).
  - intros b Hb. by apply (decodes_length _ _ _ _ Hf).
  - intros ws Hws. unfold Genetic.bind, ret. pose proof (decodes_total _ _ _ _ Hf ws Hws). by destruct (f ws) as [[a w]|].
Qed.

Definition decodes_ext {A} (f g : st (list f32) A) enc ok k (Hfg : ∀ ws, g ws = f ws) (Hf : decodes f enc ok k) : decodes g enc ok k.
Proof.
  split.
  - intros. rewrite Hfg. by apply (decodes_reads _ _ _ _ Hf).
  - intros ws a rest. rewrite Hfg. apply (decodes_inv _ _ _ _ Hf).
  - apply (decodes_length _ _ _ _ Hf).
  - intros ws. rewrite Hfg. apply (decodes_total _ _ _ _ Hf).
Qed.

Section sequences.
Context {A B : Type} (f : B → st (list f32) A) (enc : A → list f32) (ok : B → A → Prop) (k : B → nat).

Lemma decodes_st_map (l : list B) : (∀ b, b ∈ l → decodes (f b) enc (ok b) (k b)) →
  decodes (st_map f l) (flat_map enc) (Forall2 ok l) (sum_list_with k l).
Proof.
  induction l as [|b l IH]; intros Hf.
  - split.
    + intros [|a l] rest Ha; [done|inversion Ha].
    + intros ws a rest [= <- <-]. by split.
    + intros a Ha. by inversion Ha.
    + done.
  - pose proof (Hf b ltac:(by left)) as Hb. pose proof (IH (λ b' H, Hf b' (list_elem_of_further _ _ _ H))) as Hl. split.
    + intros as' rest Ha. inversion Ha as [|? a ? l' H1 H2]; subst. cbn [st_map flat_map]. unfold Genetic.bind, ret.
      rewrite <-app_assoc, (decodes_reads _ _ _ _ Hb) by done. by rewrite (decodes_reads _ _ _ _ Hl).
    + intros ws a rest. cbn [st_map]. unfold Genetic.bind, ret. destruct (f b ws) as [[a' w1]|] eqn:E1; [|done].
      destruct (st_map f l w1) as [[l' w2]|] eqn:E2; [|done]. intros [= <- <-].
      apply (decodes_inv _ _ _ _ Hb) in E1 as [Ha ->]. apply (decodes_inv _ _ _ _ Hl) in E2 as [Hl' ->].
      split; [by constructor|]. cbn [flat_map]. by rewrite <-app_assoc.
    + intros as' Ha. inversion Ha as [|? a ? l' H1 H2]; subst. cbn [flat_map sum_list_with].
      by rewrite length_app, (decodes_length _ _ _ _ Hb), (decodes_length _ _ _ _ Hl).
    + intros ws Hws. cbn [sum_list_with] in Hws. cbn [st_map]. unfold Genetic.bind, ret.
      pose proof (decodes_total _ _ _ _ Hb ws ltac:(lia)) as H1. destruct (f b ws) as [[a w1]|] eqn:E; [|done].
      pose proof (decodes_inv _ _ _ _ Hb _ _ _ E) as [Ha ->]. rewrite length_app, (decodes_length _ _ _ _ Hb a Ha) in Hws.
      pose proof (decodes_total _ _ _ _ Hl w1 ltac:(lia)) as H2. by destruct (st_map f l w1) as [[l' w2]|].
Qed.
End sequences.

Lemma collect_st_map {S A} n (f : st S A) s : collect n f s = st_map (λ _ : nat, f) (replicate n 0%nat) s.
Proof. revert s. induction n as [|n IH]; intros s; [done|]. cbn. unfold Genetic.bind. destruct (f s) as [[a s']|]; [|done]. by rewrite IH. Qed.

Lemma decodes_collect {A} n (f : st (list f32) A) enc ok k : decodes f enc ok k →
  decodes (collect n f) (flat_map enc) (λ l, length l = n ∧ Forall ok l) (n * k).
Proof.
  intros Hf. assert (H := decodes_st_map (λ _ : nat, f) enc (λ _, ok) (λ _, k) (replicate n 0%nat) (λ _ _, Hf)).
  assert (Hs : sum_list_with (λ _ : nat, k) (replicate n 0%nat) = (n * k)%nat) by (clear; induction n; simpl; lia).
  rewrite Hs in H.
  assert (Hok : ∀ l, Forall2 (λ _ : nat, ok) (replicate n 0%nat) l ↔ length l = n ∧ Forall ok l).
  { clear. intros l. revert l. induction n as [|n IH]; intros l; cbn [replicate].
    - split; [intros H; inversion H; by split|]. by intros [->%nil_length_inv _].
    - split.
      + intros H. inversion H as [|? a ? l' H1 H2]; subst. apply IH in H2 as [<- H2]. by split; [|constructor].
      + intros [Hl Ha]. destruct l as [|a l]; [done|]. inversion_clear Ha. constructor; [done|]. apply IH. by split; [injection Hl|]. }
  apply (decodes_ext (st_map (λ _ : nat, f) (replicate n 0%nat))); [intros; apply collect_st_map|]. destruct H as [H1 H2 H3 H4]. split.
  - intros a rest Ha. by apply H1, Hok.
  - intros ws a rest E. by rewrite <-Hok; apply H2.
  - intros a Ha. by apply H3, Hok.
  - done.
Qed.

(** ** Networks *)
Definition neuron_shape (inputs : nat) (n : Neuron) : Prop := length (weights n) = inputs.
Definition layer_shape (p : LayerTopology * LayerTopology) (l : Layer) : Prop :=
  length (neurons l) = neurons_count p.2 ∧ Forall (neuron_shape (neurons_count p.1)) (neurons l).
Definition shaped (topology : list LayerTopology) (n : Network) : Prop := Forall2 layer_shape (windows2 topology) (layers n).
Definition layer_count (p : LayerTopology * LayerTopology) : nat := neurons_count p.2 * (1 + neurons_count p.1).
Definition weight_count (topology : list LayerTopology) : nat := sum_list_with layer_count (windows2 topology).

Definition neuron_enc (n : Neuron) : list f32 := bias n :: weights n.
Definition layer_enc (l : Layer) : list f32 := flat_map neuron_enc (neurons l).

Lemma flat_map_single {A} (l : list A) : flat_map (λ a, [a]) l = l.
Proof. induction l as [|a l IH]; [done|]. cbn [flat_map app]. by rewrite IH. Qed.

Lemma decodes_neuron k : decodes (Neuron_from_weights k) neuron_enc (neuron_shape k) (1 + k).
Proof.
  pose proof (decodes_bind _ _ _ _ _ _ _ _ decodes_next (decodes_collect k _ _ _ _ decodes_next)) as H.
  apply (decodes_iso _ (λ p, mkNeuron p.1 p.2) (λ n, (bias n, weights n))) in H; [|by intros []|by intros []].
  rewrite Nat.mul_1_r in H. destruct H as [H1 H2 H3 H4]. cbn [fst snd] in *.
  assert (E : ∀ ws, Neuron_from_weights k ws =
    (let* a := let* a := next_weight in let* b := collect k next_weight in ret (a, b) in ret (mkNeuron a.1 a.2)) ws).
  { intros [|w ws]; [done|]. unfold Neuron_from_weights, Genetic.bind, ret. cbn [next_weight]. by destruct (collect k next_weight ws) as [[? ?]|]. }
  assert (Henc : ∀ n : Neuron, ([bias n] ++ flat_map (λ w, [w]) (weights n))%list = neuron_enc n)
    by (intros n; unfold neuron_enc; by rewrite flat_map_single).
  split.
  - intros n rest Hn. rewrite E, <-Henc. apply H1. split; [done|]. split; [done|]. by apply Forall_true.
  - intros ws n rest. rewrite E. intros Hn. apply H2 in Hn as [(_ & Hl & _) ->]. by rewrite Henc.
  - intros n Hn. rewrite <-Henc. apply H3. split; [done|]. split; [done|]. by apply Forall_true.
  - intros ws Hws. rewrite E. by apply H4.
Qed.

Lemma decodes_layer p : decodes (Layer_from_weights (neurons_count p.1) (neurons_count p.2)) layer_enc (layer_shape p) (layer_count p).
Proof.
  apply (decodes_iso (collect (neurons_count p.2) (Neuron_from_weights (neurons_count p.1))) mkLayer neurons (flat_map neuron_enc)
    (λ l, length l = neurons_count p.2 ∧ Forall (neuron_shape (neurons_count p.1)) l)); [done|by intros []|].
  apply decodes_collect, decodes_neuron.
Qed.

Lemma decodes_layers topology :
  decodes (st_map (λ p, Layer_from_weights (neurons_count p.1) (neurons_count p.2)) (windows2 topology))
    (flat_map layer_enc) (Forall2 layer_shape (windows2 topology)) (weight_count topology).
Proof. apply decodes_st_map. intros p _. apply decodes_layer. Qed.

Lemma network_weights_enc n : network_weights n = flat_map layer_enc (layers n).
Proof. done. Qed.

Lemma from_weights_some topology ws n : (1 < length topology)%nat →
  Network_from_weights topology ws = Some n ↔ shaped topology n ∧ network_weights n = ws.
Proof.
  intros Ht. unfold Network_from_weights. rewrite (proj2 (Nat.ltb_lt _ _)) by done. pose proof (decodes_layers topology) as D.
  split.
  - destruct (st_map _ _ ws) as [[ls [|w rest]]|] eqn:E; [|done..]. intros [= <-]. apply (decodes_inv _ _ _ _ D) in E as [Hs ->].
    split; [done|]. by rewrite app_nil_r.
  - intros [Hs <-]. destruct n as [ls]. rewrite <-(app_nil_r (network_weights _)).
    unfold network_weights. cbn [layers]. change (flat_map _ ls) with (flat_map layer_enc ls).
    by rewrite (decodes_reads _ _ _ _ D).
Qed.

Lemma shaped_weights topology n : shaped topology n → length (network_weights n) = weight_count topology.
Proof. intros Hs. apply (decodes_length _ _ _ _ (decodes_layers topology)). done. Qed.

Lemma from_weights_total topology ws : (1 < length topology)%nat → length ws = weight_count topology →
  ∃ n, Network_from_weights topology ws = Some n.
Proof.
  intros Ht Hl. unfold Network_from_weights. rewrite (proj2 (Nat.ltb_lt _ _)) by done. pose proof (decodes_layers topology) as D.
  pose proof (decodes_total _ _ _ _ D ws ltac:(lia)) as H. destruct (st_map _ _ ws) as [[ls rest]|] eqn:E; [|done].
  pose proof (decodes_inv _ _ _ _ D _ _ _ E) as [Hs ->]. rewrite length_app, (decodes_length _ _ _ _ D ls Hs) in Hl.
  assert (rest = []) as -> by (apply nil_length_inv; lia). eauto.
Qed.

(** C30. A network and its weights: rebuilding a network from the weights it lists gives
    the network back, listing the weights of a rebuilt network gives the stream back,
    and a stream is refused exactly when it is shorter or longer than the topology. *)
Theorem weights_roundtrip topology : (1 < length topology)%nat →
  (∀ n, shaped topology n → Network_from_weights topology (network_weights n) = Some n) ∧
  (∀ ws n, Network_from_weights topology ws = Some n → network_weights n = ws ∧ shaped topology n) ∧
  (∀ ws, Network_from_weights topology ws = None ↔ length ws ≠ weight_count topology).
Proof.
  intros Ht. split; [|split].
  - intros n Hn. by apply from_weights_some.
  - intros ws n [? ?]%from_weights_some; done.
  - intros ws. split.
    + intros E Hl. destruct (from_weights_total topology ws Ht Hl) as [n En]. congruence.
    + intros Hl. destruct (Network_from_weights topology ws) as [n|] eqn:E; [|done].
      apply from_weights_some in E as [Hs <-]; [|done]. by apply shaped_weights in Hs.
Qed.
Lemma weights_roundtrip_witness :
  let topology := [mkTopology 2; mkTopology 1] in
  Network_from_weights topology [zero; one; one] = Some (mkNetwork [mkLayer [mkNeuron zero [one; one]]]) ∧
  Network_from_weights topology [zero; one] = None.
Proof.
  intros topology. destruct (weights_roundtrip topology) as (H1 & _ & H3); [unfold topology; simpl; lia|]. split.
  - apply (H1 (mkNetwork [mkLayer [mkNeuron zero [one; one]]])). by repeat constructor.
  - apply H3. done.
Defined.

(** ** Propagation *)
Definition not_nan (v : f32) : Prop := v ≠ NaN.

Lemma fmax_not_nan v : not_nan (fmax v zero).
Proof. unfold not_nan. destruct v; cbn [fmax zero]; [done|by destruct (ltb _ _)..]. Qed.

Lemma neuron_propagates inputs n : neuron_shape (length inputs) n →
  ∃ v, Neuron_propagate inputs n = Some v ∧ not_nan v.
Proof.
  intros Hn. unfold Neuron_propagate. rewrite Hn, Nat.eqb_refl. eexists. split; [done|]. apply fmax_not_nan.
Qed.

Lemma layer_propagates p l inputs : layer_shape p l → length inputs = neurons_count p.1 →
  ∃ out, Layer_propagate inputs l = Some out ∧ length out = neurons_count p.2 ∧ Forall not_nan out.
Proof.
  intros [Hn Hs] Hi. unfold Layer_propagate. rewrite <-Hn, <-Hi in *. clear Hn. induction Hs as [|n ns Hn Hs IH]; [by exists []|].
  destruct IH as (out & E & Hl & Ho). destruct (neuron_propagates inputs n Hn) as (v & Ev & Hv).
  exists (v :: out). simpl. rewrite Ev. cbn [mbind option_bind]. rewrite E. split; [done|]. split; [by rewrite Hl|by constructor].
Qed.

(** A network of the shape of its topology answers every input of the right length. *)
Lemma layers_propagate ts : ∀ t ls inputs, Forall2 layer_shape (windows2 (t :: ts)) ls → length inputs = neurons_count t →
  ∃ out, foldl (λ i l, i ← i; Layer_propagate i l) (Some inputs) ls = Some out ∧
    length out = neurons_count (foldl (λ _ u, u) t ts) ∧ (ts ≠ [] → Forall not_nan out).
Proof.
  induction ts as [|t' ts IH]; intros t ls inputs Hs Hi.
  - inversion Hs; subst. by exists inputs.
  - inversion Hs as [|? l ? ls' Hl Hls]; subst. destruct (layer_propagates _ _ inputs Hl Hi) as (o & Eo & Lo & No).
    cbn [fst snd] in Lo. destruct (IH t' ls' o Hls Lo) as (out & E & L & N). exists out. cbn [foldl mbind option_bind]. rewrite Eo.
    split; [done|]. split.
    + by rewrite L.
    + intros _. destruct ts as [|t2 ts]; [|by apply N]. inversion Hls; subst. by injection E as <-.
Qed.
Lemma network_propagates t ts n inputs : shaped (t :: ts) n → length inputs = neurons_count t → ts ≠ [] →
  ∃ out, Network_propagate n inputs = Some out ∧ length out = neurons_count (foldl (λ _ u, u) t ts) ∧ Forall not_nan out.
Proof. intros Hs Hi Ht. destruct (layers_propagate ts t (layers n) inputs Hs Hi) as (out & E & L & N). exists out. auto. Qed.

(** ** Computations that do not panic *)
Definition gives {S A} (m : st S A) (P : A → Prop) : Prop := ∀ s, ∃ a s', m s = Some (a, s') ∧ P a.

Lemma gives_ret {S A} (a : A) (P : A → Prop) : P a → gives (S := S) (ret a) P.
Proof. intros Ha s. by exists a, s. Qed.
Lemma gives_bind {S A B} (m : st S A) (k : A → st S B) (P : A → Prop) (Q : B → Prop) :
  gives m P → (∀ a, P a → gives (k a) Q) → gives (let* a := m in k a) Q.
Proof. intros Hm Hk s. unfold Genetic.bind. destruct (Hm s) as (a & s' & -> & Ha). by apply Hk. Qed.
Lemma gives_mono {S A} (m : st S A) (P Q : A → Prop) : gives m P → (∀ a, P a → Q a) → gives m Q.
Proof. intros Hm H s. destruct (Hm s) as (a & s' & E & Ha). exists a, s'. auto. Qed.
Lemma gives_sample {S A} (f : S → A * S) (P : A → Prop) : (∀ s, P (f s).1) → gives (sample f) P.
Proof. intros Hf s. unfold sample. exists (f s).1, (f s).2. by rewrite <-surjective_pairing. Qed.
Lemma gives_assert {S} b : b = true → gives (S := S) (assert b) (λ _, True).
Proof. intros -> s. by exists tt, s. Qed.
Lemma gives_or_panic {S A} (o : option A) (P : A → Prop) : (∃ a, o = Some a ∧ P a) → gives (S := S) (or_panic o) P.
Proof. intros (a & -> & Ha) s. by exists a, s. Qed.
Lemma gives_collect {S A} n (f : st S A) (P : A → Prop) : gives f P → gives (collect n f) (λ l, length l = n ∧ Forall P l).
Proof.
  intros Hf. induction n as [|n IH]; [by apply gives_ret|]. cbn [collect].
  eapply gives_bind; [done|]. intros a Ha. eapply gives_bind; [done|]. intros l [<- Hl]. apply gives_ret. by split; [|constructor].
Qed.
Lemma gives_st_map {S A B} (f : A → st S B) (l : list A) (P : A → B → Prop) :
  (∀ a, a ∈ l → gives (f a) (P a)) → gives (st_map f l) (Forall2 P l).
Proof.
  induction l as [|a l IH]; intros Hf; [by apply gives_ret|]. cbn [st_map].
  eapply gives_bind; [apply Hf; by left|]. intros b Hb. eapply gives_bind; [apply IH; intros; apply Hf; by right|].
  intros bs Hbs. apply gives_ret. by constructor.
Qed.
Create HintDb gives discriminated.
#[export] Hint Resolve gives_ret gives_sample gives_assert gives_or_panic gives_collect : gives.

(** ** The genetic algorithm *)
Lemma weight_floor_positive : ltb zero weight_floor = true.
Proof. vm_compute. done. Qed.

(** What one gene can be after mutation. *)
Definition mutated (g : GaussianMutation) (p c : f32) : Prop :=
  c = p ∨ ∃ sign u, (sign = one ∨ sign = minus_one) ∧ leb zero u = true ∧ ltb u one = true ∧ c = add p (mul (mul sign (coeff g)) u).
(** ... and after crossover of [pa] and [pb]. *)
Definition inherits (g : GaussianMutation) (pa pb : Chromosome) (c : Chromosome) : Prop :=
  chromosome_len c = chromosome_len pa ∧
  ∀ i v, genes c !! i = Some v → ∃ p, (genes pa !! i = Some p ∨ genes pb !! i = Some p) ∧ mutated g p v.

Section genetic.
Context {R : Type} `{RngLaws R}.

Lemma gives_gen_unit : gives (sample gen_unit) (λ u, leb zero u = true ∧ ltb u one = true).
Proof using All. apply gives_sample, gen_unit_range. Qed.
Lemma gives_gen_range lo hi : ltb lo hi = true → valid lo = true → valid hi = true →
  gives (sample (gen_range lo hi)) (λ u, ranges lo u hi).
Proof using All.
  intros Hl H1 H2. apply gives_sample. intros r. destruct (gen_range_range lo hi r Hl H1 H2) as (? & ? & ?%ltb_leb). by split.
Qed.

Lemma gives_crossover_gene p : gives (crossover_gene p) (λ c, c = p.1 ∨ c = p.2).
Proof using All.
  unfold crossover_gene. eapply (gives_bind _ _ (λ _, True)); [by apply gives_sample|]. intros b _. apply gives_ret. destruct b; auto.
Qed.

Lemma gives_crossover pa pb : chromosome_len pa = chromosome_len pb →
  gives (crossover pa pb) (λ c, chromosome_len c = chromosome_len pa ∧
    ∀ i v, genes c !! i = Some v → genes pa !! i = Some v ∨ genes pb !! i = Some v).
Proof using All.
  intros Hlen. unfold crossover. eapply gives_bind; [apply gives_assert; by apply Nat.eqb_eq|]. intros _ _.
  eapply gives_bind; [apply gives_st_map; intros p _; apply gives_crossover_gene|]. intros l Hl. apply gives_ret.
  unfold chromosome_len, from_iter in *. cbn [genes]. split.
  - apply Forall2_length in Hl. rewrite <-Hl, length_zip. lia.
  - intros i v Hi. destruct (Forall2_lookup_r _ _ _ _ _ Hl Hi) as ([a b] & Hz & Hv).
    apply lookup_zip_with_Some in Hz as (a' & b' & [= -> ->] & Ha & Hb). destruct Hv as [->| ->]; auto.
Qed.

Lemma gives_mutate g c : gives (mutate g c) (λ c', chromosome_len c' = chromosome_len c ∧
  ∀ i v, genes c' !! i = Some v → ∃ p, genes c !! i = Some p ∧ mutated g p v).
Proof using All.
  unfold mutate. eapply (gives_bind _ _ (Forall2 (mutated g) (genes c))).
  - apply gives_st_map. intros p _. unfold mutate_gene. eapply (gives_bind _ _ (λ _, True)); [by apply gives_sample|].
    intros [|] _; [|apply gives_ret; by left]. eapply (gives_bind _ _ (λ _, True)); [by apply gives_sample|]. intros n _.
    eapply gives_bind; [apply gives_gen_unit|]. intros u [Hu0 Hu1]. apply gives_ret. right.
    exists (if n : bool then minus_one else one), u. destruct n; auto.
  - intros l Hl. apply gives_ret. unfold chromosome_len. cbn [genes]. split; [by apply Forall2_length in Hl|].
    intros i v Hi. apply (Forall2_lookup_r _ _ _ _ _ Hl Hi).
Qed.

Context {I : Type} `{Individual I}.

(** The weight of a choice, and the populations that have a valid one. *)
Definition weight (i : I) : f32 := fmax (fitness i) weight_floor.
Definition selectable (population : list I) : Prop :=
  population ≠ [] ∧ finite (foldl add zero (map weight population)).

Lemma weight_positive i : ltb zero (weight i) = true.
Proof using All.
  unfold weight. assert (Hf : ∀ v, (if ltb v weight_floor then weight_floor else v) = weight_floor ∨ leb weight_floor v = true ∨ v = NaN).
  { intros v. unfold ltb, leb, compare_with. destruct (order v) as [z|] eqn:E; [|right; right; by destruct v].
    destruct (order weight_floor) as [k|] eqn:E'; [|by vm_compute in E']. destruct (Z.ltb_spec z k); [by left|right; left; lia]. }
  assert (Hw : weight_floor ≠ NaN) by (vm_compute; done).
  destruct (fitness i) as [|s|s m]; [apply weight_floor_positive|..];
    match goal with |- ltb zero (fmax ?v weight_floor) = true => 
      replace (fmax v weight_floor) with (if ltb v weight_floor then weight_floor else v) by (by destruct weight_floor);
      destruct (Hf v) as [->|[Hl|E]]; [apply weight_floor_positive| |done];
      destruct (ltb v weight_floor); [apply weight_floor_positive|];
      eapply ltb_leb_trans; [apply weight_floor_positive|done]
    end.
Qed.

Lemma gives_select population : selectable population → gives (select population) (λ i, i ∈ population).
Proof using All.
  intros [Hne Hfin]. unfold select. fold weight.
  assert (Hpos : Forall (λ w, ltb zero w = true) (map weight population)).
  { apply Forall_map, Forall_true. apply weight_positive. }
  eapply (gives_bind _ _ (λ o, ∃ i, o = Some i ∧ (i < length population)%nat)).
  - apply gives_sample. intros r. destruct (choose_weighted_index (map weight population) r) as (i & E & Hi).
    + eapply Forall_impl; [apply Hpos|]. intros w. apply ltb_leb.
    + apply sum_positive; [done|by destruct population|done].
    + done.
    + exists i. split; [done|]. by rewrite length_map in Hi.
  - intros o (i & -> & Hi). eapply (gives_bind _ _ (λ j, j = i)); [apply gives_or_panic; eauto|]. intros ? ->.
    apply gives_or_panic. apply lookup_lt_is_Some in Hi as [a Ha]. exists a. split; [done|]. by eapply list_elem_of_lookup_2.
Qed.

Lemma statistics_some (population : list I) : population ≠ [] → ∃ s, Statistics_new population = Some s.
Proof using All. destruct population; [done|]. intros _. unfold Statistics_new. eauto. Qed.

Lemma gives_make_child g k population : selectable population → Forall (λ i, chromosome_len (chromosome i) = k) population →
  gives (make_child (GeneticAlgorithm_new g) population) (λ child, ∃ a b c, a ∈ population ∧ b ∈ population ∧ child = create c ∧
    inherits g (chromosome a) (chromosome b) c).
Proof using All.
  intros Hs Hk. rewrite Forall_forall in Hk. unfold make_child. cbn [crossover_method mutation_method GeneticAlgorithm_new].
  eapply gives_bind; [by apply gives_select|]. intros a Ha. eapply gives_bind; [by apply gives_select|]. intros b Hb.
  eapply gives_bind; [apply gives_crossover; by rewrite (Hk a), (Hk b)|]. intros c [Hc Hg].
  eapply gives_bind; [apply gives_mutate|]. intros c' [Hc' Hm]. apply gives_ret. exists a, b, c'.
  split; [done|]. split; [done|]. split; [done|]. split; [congruence|]. intros i v Hv. destruct (Hm i v Hv) as (p & Hp & Hpv). exists p. split; [|done]. by apply Hg.
Qed.

Lemma gives_evolve g k population : selectable population → Forall (λ i, chromosome_len (chromosome i) = k) population →
  gives (evolve (GeneticAlgorithm_new g) population) (λ r, length r.1 = length population ∧ Statistics_new population = Some r.2 ∧
    Forall (λ child, ∃ a b c, a ∈ population ∧ b ∈ population ∧ child = create c ∧ inherits g (chromosome a) (chromosome b) c) r.1).
Proof using All.
  intros Hs Hk. pose proof Hs as [Hne _]. unfold evolve. eapply gives_bind; [apply gives_assert; by destruct population|]. intros _ _.
  eapply gives_bind; [eapply gives_collect, gives_make_child; [done|exact Hk]|]. intros l [Hl Hc].
  destruct (statistics_some population Hne) as [s E]. eapply (gives_bind _ _ (λ s', s' = s)); [apply gives_or_panic; eauto|]. intros ? ->.
  apply gives_ret. done.
Qed.

(** C27. A generation: evolving a population that is not empty never panics; it yields as
    many individuals as there were, and every gene of each is that of one of its two
    parents at the same place, or that gene moved, up or down, by the coefficient of the
    mutation times a number below one.  An empty population panics. *)
Theorem evolve_inherits g k population r :
  (selectable population → Forall (λ i, chromosome_len (chromosome i) = k) population →
   ∃ children stats r', evolve (GeneticAlgorithm_new g) population r = Some ((children, stats), r') ∧
    length children = length population ∧ Statistics_new population = Some stats ∧
    Forall (λ child, ∃ a b c, a ∈ population ∧ b ∈ population ∧ child = create c ∧ inherits g (chromosome a) (chromosome b) c) children) ∧
  evolve (I := I) (GeneticAlgorithm_new g) [] r = None.
Proof using All.
  split; [|done]. intros Hs Hk. destruct (gives_evolve g k population Hs Hk r) as ([l s] & r' & E & Hlen & Hst & Hc).
  by exists l, s, r'.
Qed.
End genetic.

(** *** A generator that satisfies the documentation *)
Definition counting : Rng nat := {|
  gen_bool _ n := (Nat.even n, S n);
  gen_unit n := (if Nat.even n then zero else half, S n);
  gen_range lo _ n := (lo, S n);
  gen_range_inclusive lo hi n := (if Nat.even n then lo else hi, S n);
  choose_weighted ws n := (match ws with [] => None | _ => Some (n mod length ws)%nat end, S n) |}.
Lemma counting_laws : @RngLaws nat counting.
Proof.
  split.
  - intros n. cbn. destruct (Nat.even n); vm_compute; done.
  - intros lo hi n Hl Hv _. cbn. split; [done|]. split; [|done]. unfold leb, ltb, compare_with in *. destruct (order lo); [lia|done].
  - intros ws n _ Hpos _. destruct ws as [|w ws]; [by vm_compute in Hpos|].
    exists (n mod length (w :: ws))%nat. split; [done|]. by apply Nat.mod_upper_bound.
Qed.

(** The fitness of a chromosome of one gene is that gene. *)
Definition gene_individual : Individual (list f32) := {| fitness l := default zero (head l); chromosome := mkChromosome; create := genes |}.
Lemma evolve_inherits_witness :
  let pop := [[one]; [zero]] in
  ∃ children stats r', @evolve nat counting (list f32) gene_individual (@GeneticAlgorithm_new nat counting (mkMutation zero one)) pop 0%nat =
    Some ((children, stats), r') ∧ length children = 2%nat.
Proof.
  intros pop.
  destruct (@evolve_inherits nat counting counting_laws (list f32) gene_individual (mkMutation zero one) 1 pop 0%nat) as [H _].
  destruct H as (children & stats & r' & E & L & _).
  - split; [done|]. vm_compute. exact I.
  - by repeat constructor.
  - exists children, stats, r'. split; [exact E|exact L].
Defined.
