(* ===== verification/Evolution.v ===== *)
(** * Neuroevolution: the simulation
    ([2026-09-13-rust-neuroevolution/src/{vec2,food,eye,brain,animal,animal_individual,world,simulation,main}.rs])

    Animals, their eyes and brains, the world and its generations, and what [main]
    reads and draws.  [oc] says whether the build checks overflow. *)
From S2P Require Import Prelude RustStr F32 F32Math Genetic.

(** ** [vec2.rs] *)
Record Vec2 : Type := mkVec2 { x : f32; y : f32 }.

Definition vec2_add (a b : Vec2) : Vec2 := mkVec2 (add (x a) (x b)) (add (y a) (y b)).
Definition vec2_sub (a b : Vec2) : Vec2 := mkVec2 (sub (x a) (x b)) (sub (y a) (y b)).
Definition vec2_mul (a : Vec2) (k : f32) : Vec2 := mkVec2 (mul (x a) k) (mul (y a) k).
Definition from_angle `{Trig} (angle : f32) : Vec2 := mkVec2 (cos angle) (sin angle).
Definition vec2_length (a : Vec2) : f32 := fsqrt (add (mul (x a) (x a)) (mul (y a) (y a))).
Definition angle `{Trig} (a : Vec2) : f32 := atan2 (y a) (x a).
Definition wrap (lo hi : f32) (a : Vec2) : Vec2 :=
  let range := sub hi lo in
  mkVec2 (add lo (rem_euclid (sub (x a) lo) range)) (add lo (rem_euclid (sub (y a) lo) range)).
Definition two : f32 := of_Z 2.
Definition TWO_PI : f32 := mul two PI.
Definition wrap_angle (a : f32) : f32 := sub (rem_euclid (add a PI) TWO_PI) PI.
Definition Vec2_random {R} `{Rng R} : st R Vec2 :=
  let* a := sample (gen_range zero one) in
  let* b := sample (gen_range zero one) in
  ret (mkVec2 a b).

(** ** [food.rs] *)
Record Food : Type := mkFood { food_position : Vec2 }.
Definition Food_random {R} `{Rng R} : st R Food := let* p := Vec2_random in ret (mkFood p).

(** ** [eye.rs] *)
Definition FOV_RANGE : f32 := of_decimal 25 2.
Definition FOV_ANGLE : f32 := add PI FRAC_PI_4.
Definition CELLS : nat := 9.

Record Eye : Type := mkEye { fov_range : f32; fov_angle : f32; cells : nat }.
Definition Eye_new (fov_range fov_angle : f32) (cells : nat) : option Eye :=
  if ltb zero fov_range && ltb zero fov_angle && (0 <? cells)%nat then Some (mkEye fov_range fov_angle cells) else None.
Definition Eye_default : Eye := mkEye FOV_RANGE FOV_ANGLE CELLS.

(** The cell in which an eye sees a point, and how strongly. *)
Definition sees `{Trig} (e : Eye) (position : Vec2) (rotation : f32) (f : Food) : option (nat * f32) :=
  let offset := vec2_sub (food_position f) position in
  let distance := vec2_length offset in
  if eqf distance zero || leb (fov_range e) distance then None
  else
    let a := wrap_angle (sub (angle offset) rotation) in
    if ltb a (div (opp (fov_angle e)) two) || ltb (div (fov_angle e) two) a then None
    else
      let a := add a (div (fov_angle e) two) in
      let cell := to_usize (mul (div a (fov_angle e)) (of_Z (Z.of_nat (cells e)))) in
      Some (Z.to_nat (Z.min cell (Z.of_nat (cells e) - 1)), div (sub (fov_range e) distance) (fov_range e)).
Definition process_vision `{Trig} (e : Eye) (position : Vec2) (rotation : f32) (foods : list Food) : option (list f32) :=
  for_each (λ f v,
    match sees e position rotation f with
    | None => Some v
    | Some (cell, energy) => s ← v !! cell; Some (<[cell := add s energy]> v)
    end) foods (replicate (cells e) zero).

(** ** [brain.rs] *)
Definition SPEED_ACCEL : f32 := of_decimal 2 1.
Definition ROTATION_ACCEL : f32 := FRAC_PI_2.

Record Brain : Type := mkBrain { nn : Network }.
Definition topology (e : Eye) : list LayerTopology :=
  [mkTopology (cells e); mkTopology (2 * cells e); mkTopology 2].
Definition Brain_random {R} `{Rng R} (e : Eye) : st R Brain := let* n := Network_random (topology e) in ret (mkBrain n).
Definition Brain_from_chromosome (c : Chromosome) (e : Eye) : option Brain :=
  n ← Network_from_weights (topology e) (chromosome_into_iter c); Some (mkBrain n).
Definition brain_chromosome (b : Brain) : Chromosome := from_iter (network_weights (nn b)).

(** [(response.clamp(0.0, 1.0) - 0.5) * 2.0 * limit] *)
Definition centered (response limit : f32) : option f32 :=
  c ← clamp response zero one; Some (mul (mul (sub c half) two) limit).
Definition Brain_propagate (b : Brain) (vision : list f32) : option (f32 * f32) :=
  response ← Network_propagate (nn b) vision;
  r0 ← response !! 0%nat;
  speed_delta ← centered r0 SPEED_ACCEL;
  r1 ← response !! 1%nat;
  rotation_delta ← centered r1 ROTATION_ACCEL;
  Some (speed_delta, rotation_delta).

(** ** [animal.rs] *)
Definition SPEED_MIN : f32 := of_decimal 1 3.
Definition SPEED_MAX : f32 := of_decimal 5 3.

Record Animal : Type := mkAnimal {
  position : Vec2; rotation : f32; speed : f32; eye : Eye; brain : Brain; satiation : Z }.

Definition Animal_new {R} `{Rng R} (e : Eye) (b : Brain) : st R Animal :=
  let* p := Vec2_random in
  let* r := sample (gen_range zero TWO_PI) in
  ret (mkAnimal p r SPEED_MIN e b 0).
Definition Animal_random {R} `{Rng R} : st R Animal :=
  let* b := Brain_random Eye_default in Animal_new Eye_default b.
Definition Animal_from_chromosome {R} `{Rng R} (c : Chromosome) : st R Animal :=
  let* b := or_panic (Brain_from_chromosome c Eye_default) in Animal_new Eye_default b.
Definition animal_chromosome (a : Animal) : Chromosome := brain_chromosome (brain a).
Definition vision `{Trig} (a : Animal) (foods : list Food) : option (list f32) :=
  process_vision (eye a) (position a) (rotation a) foods.
Definition think (v : list f32) (a : Animal) : option Animal :=
  d ← Brain_propagate (brain a) v;
  s ← clamp (add (speed a) d.1) SPEED_MIN SPEED_MAX;
  Some (mkAnimal (position a) (wrap_angle (add (rotation a) d.2)) s (eye a) (brain a) (satiation a)).
Definition walk `{Trig} (a : Animal) : Animal :=
  mkAnimal (wrap zero one (vec2_add (position a) (vec2_mul (from_angle (rotation a)) (speed a))))
    (rotation a) (speed a) (eye a) (brain a) (satiation a).
Definition eat (oc : bool) (a : Animal) : option Animal :=
  s ← chk_u64 oc (satiation a + 1);
  Some (mkAnimal (position a) (rotation a) (speed a) (eye a) (brain a) s).

(** ** [animal_individual.rs] *)
Record AnimalIndividual : Type := mkIndividual { individual_fitness : f32; individual_chromosome : Chromosome }.
#[export] Instance animal_individual : Individual AnimalIndividual := {
  fitness := individual_fitness;
  chromosome := individual_chromosome;
  create := mkIndividual zero }.
Definition from_animal (a : Animal) : AnimalIndividual := mkIndividual (of_Z (satiation a)) (animal_chromosome a).
Definition into_animal {R} `{Rng R} (i : AnimalIndividual) : st R Animal := Animal_from_chromosome (individual_chromosome i).

(** ** [world.rs] *)
Record World : Type := mkWorld { animals : list Animal; foods : list Food }.
Definition World_random {R} `{Rng R} (num_animals num_foods : nat) : st R World :=
  let* l := collect num_animals Animal_random in
  let* f := collect num_foods Food_random in
  ret (mkWorld l f).

(** ** [simulation.rs] *)
Definition GENERATION_LENGTH : nat := 2500.
Definition FOOD_SIZE : f32 := of_decimal 1 2.

Section simulation.
Context {R : Type} `{Rng R} `{Trig}.

Record Simulation : Type := mkSimulation { world : World; ga : GeneticAlgorithm R; age : nat }.
Definition mutation_chance : f32 := of_decimal 1 2.
Definition mutation_coeff : f32 := of_decimal 3 1.
Definition Simulation_random (num_animals num_foods : nat) : st R Simulation :=
  let* w := World_random num_animals num_foods in
  let* g := or_panic (GaussianMutation_new mutation_chance mutation_coeff) in
  ret (mkSimulation w (GeneticAlgorithm_new g) 0).

Definition process_brains (w : World) : option World :=
  l ← mapM (λ a, v ← vision a (foods w); think v a) (animals w); Some (mkWorld l (foods w)).
Definition process_movement (w : World) : World := mkWorld (map walk (animals w)) (foods w).

Definition touches (a : Animal) (f : Food) : bool :=
  leb (vec2_length (vec2_sub (position a) (food_position f))) FOOD_SIZE.
(** The inner loop: one animal, every food in turn. *)
Fixpoint feed (oc : bool) (a : Animal) (l : list Food) : st R (Animal * list Food) :=
  match l with
  | [] => ret (a, [])
  | f :: l =>
      if touches a f then
        let* a := or_panic (eat oc a) in
        let* p := Vec2_random in
        let* r := feed oc a l in
        ret (r.1, mkFood p :: r.2)
      else let* r := feed oc a l in ret (r.1, f :: r.2)
  end.
Fixpoint feed_all (oc : bool) (l : list Animal) (fs : list Food) : st R (list Animal * list Food) :=
  match l with
  | [] => ret ([], fs)
  | a :: l =>
      let* r := feed oc a fs in
      let* q := feed_all oc l r.2 in
      ret (r.1 :: q.1, q.2)
  end.
Definition process_collisions (oc : bool) (w : World) : st R World :=
  let* r := feed_all oc (animals w) (foods w) in ret (mkWorld r.1 r.2).

Definition evolve_world (s : Simulation) : st R (Simulation * Statistics) :=
  let current_population := map from_animal (animals (world s)) in
  let* e := evolve (ga s) current_population in
  let* l := st_map into_animal e.1 in
  let* f := collect (length (foods (world s))) Food_random in
  ret (mkSimulation (mkWorld l f) (ga s) 0, e.2).

Definition step (oc : bool) (s : Simulation) : st R (Simulation * option Statistics) :=
  let* w := or_panic (process_brains (world s)) in
  let w := process_movement w in
  let* w := process_collisions oc w in
  let s := mkSimulation w (ga s) (S (age s)) in
  if (GENERATION_LENGTH <=? age s)%nat
  then let* e := evolve_world s in ret (e.1, Some e.2)
  else ret (s, None).

(** The loop of [train]; [None] inside is the end of the fuel. *)
Fixpoint train_fuel (fuel : nat) (oc : bool) (s : Simulation) : st R (option (Simulation * Statistics)) :=
  match fuel with
  | O => ret None
  | S fuel =>
      let* r := step oc s in
      match r.2 with
      | Some stats => ret (Some (r.1, stats))
      | None => train_fuel fuel oc r.1
      end
  end.
Definition train (oc : bool) : Simulation → st R (option (Simulation * Statistics)) := train_fuel GENERATION_LENGTH oc.

(** The loop of [main]; it prints the statistics. *)
Fixpoint run (oc : bool) (generations : nat) (s : Simulation) : st R (option (Simulation * list Statistics)) :=
  match generations with
  | O => ret (Some (s, []))
  | S generations =>
      let* r := train oc s in
      match r with
      | None => ret None
      | Some (s, stats) =>
          let* q := run oc generations s in
          ret (match q with Some (s, l) => Some (s, stats :: l) | None => None end)
      end
  end.
End simulation.
Arguments Simulation R : clear implicits.

(** ** [main.rs] *)
Record Args : Type := mkArgs { generations : Z; population : Z; food : Z; seed : option Z }.
Definition default_args : Args := mkArgs 100 40 40 None.
Definition unwrap_or (o : option Z) (d : Z) : Z := match o with Some z => z | None => d end.
Fixpoint parse_args (args : list str) (p : Args) : Args :=
  match args with
  | flag :: v :: args =>
      parse_args args
        (if bool_decide (flag = lit "--generations") then mkArgs (unwrap_or (parse_usize v) (generations p)) (population p) (food p) (seed p)
         else if bool_decide (flag = lit "--population") then mkArgs (generations p) (unwrap_or (parse_usize v) (population p)) (food p) (seed p)
         else if bool_decide (flag = lit "--food") then mkArgs (generations p) (population p) (unwrap_or (parse_usize v) (food p)) (seed p)
         else if bool_decide (flag = lit "--seed") then mkArgs (generations p) (population p) (food p) (parse_u64 v)
         else p)
  | _ => p
  end.
Definition Args_parse (args : list str) : Args := parse_args args default_args.

Definition WIDTH : nat := 60.
Definition HEIGHT : nat := 24.
Definition to_cell (px py : f32) (w h : nat) : nat * nat :=
  (Z.to_nat (Z.min (to_usize (mul px (of_Z (Z.of_nat w)))) (Z.of_nat w - 1)),
   Z.to_nat (Z.min (to_usize (mul py (of_Z (Z.of_nat h)))) (Z.of_nat h - 1))).
Definition heading_char (rotation : f32) : char :=
  let normalized := rem_euclid rotation TWO_PI in
  match Z.rem (round_to_i64 (div normalized (div PI (of_Z 4)))) 8 with
  | 0 => 62 | 1 => BACKSLASH | 2 => 118 | 3 => 47 | 4 => 60 | 5 => BACKSLASH | 6 => 94 | _ => 47
  end.
(** [grid[y][x] = c] *)
Definition put (c : char) (p : Vec2) (grid : list str) : option (list str) :=
  let '(cx, cy) := to_cell (x p) (y p) WIDTH HEIGHT in
  row ← grid !! cy;
  _old ← row !! cx;
  Some (<[cy := <[cx := c]> row]> grid).
Definition render (w : World) : option str :=
  let grid := replicate HEIGHT (replicate WIDTH SPACE) in
  grid ← for_each (λ f, put 46 (food_position f)) (foods w) grid;
  grid ← for_each (λ a, put (heading_char (rotation a)) (position a)) (animals w) grid;
  Some (join [LF] grid).

(** From the arguments and a generator: the table that is printed, one line for each
    generation, and the picture. *)
Definition main {R} `{Rng R} `{Trig} (oc : bool) (args : Args) : st R (option (list Statistics * str)) :=
  let* sim := Simulation_random (Z.to_nat (population args)) (Z.to_nat (food args)) in
  let* q := run oc (Z.to_nat (generations args)) sim in
  match q with
  | None => ret None
  | Some (sim, table) => let* picture := or_panic (render (world sim)) in ret (Some (table, picture))
  end.
