(* ===== verification/EvolutionProps.v ===== *)
(** * Neuroevolution: properties of the simulation

    The limits of a brain's answers and of an animal's motion; every generation ends;
    drawing the world; where the descriptions of eyes and of wrapping are too strong. *)
From S2P Require Import Prelude RustStr F32 F32Math Genetic GeneticProps Evolution.

(** ** Constants *)
Definition mag (x : f32) : Z := match x with Fin _ m => m | _ => 0 end.
Lemma fin_constant x : valid x = true → nonneg x = true → x ≠ Inf false → x = Fin false (mag x) ∧ representable (mag x) = true.
Proof. by destruct x as [|[]|[] m]. Qed.

Definition half_mag : Z := 2 ^ 148.
Lemma one_fin : one = Fin false one_mag. Proof. vm_compute. done. Qed.
Lemma minus_one_fin : opp one = Fin true one_mag. Proof. vm_compute. done. Qed.
Lemma half_fin : half = Fin false half_mag. Proof. vm_compute. done. Qed.
Lemma two_fin : two = Fin false (2 * one_mag). Proof. vm_compute. done. Qed.
Definition pi_mag : Z := mag PI.
Lemma PI_fin : PI = Fin false pi_mag. Proof. vm_compute. done. Qed.
Lemma TWO_PI_fin : TWO_PI = Fin false (2 * pi_mag). Proof. vm_compute. done. Qed.
Lemma FRAC_PI_2_fin : FRAC_PI_2 = Fin false (mag FRAC_PI_2). Proof. vm_compute. done. Qed.

(** ** Brains *)
Lemma centered_ranges r limit l : r ≠ NaN → limit = Fin false l → representable l = true →
  ∃ d, centered r limit = Some d ∧ ranges (Fin true l) d (Fin false l).
Proof.
  intros Hr -> Hl. unfold centered. destruct (clamp_within r zero one) as (c & -> & Hc); [vm_compute; done|done|].
  rewrite one_fin in Hc. apply within_fin in Hc as (s & k & -> & Hs); [|done..]. cbn [mbind option_bind]. eexists. split; [done|].
  assert (H1 : ranges (Fin true half_mag) (sub (Fin s k) half) (Fin false half_mag)).
  { rewrite half_fin. apply add_ranges; [done..|]. change (signed (negb false) half_mag) with (- half_mag).
    change (signed false 0) with 0 in Hs. change (signed false one_mag) with (half_mag + half_mag) in Hs. lia. }
  apply ranges_fin in H1 as (s1 & k1 & -> & Hk1 & Hs1); [|done..]. pose proof (representable_range k1 Hk1).
  change (signed true half_mag) with (- half_mag) in Hs1. change (signed false half_mag) with half_mag in Hs1.
  assert (H2 : ranges (Fin true one_mag) (mul (Fin s1 k1) two) (Fin false one_mag)).
  { rewrite two_fin. apply mul_ranges; [done..|]. change one_mag with (2 * half_mag) at 2.
    assert (k1 ≤ half_mag) by (destruct s1; unfold signed in Hs1; lia). unfold one_mag, half_mag in *. nia. }
  apply ranges_fin in H2 as (s2 & k2 & -> & Hk2 & Hs2); [|done..]. pose proof (representable_range k2 Hk2). pose proof (representable_range l Hl).
  apply mul_ranges; [done..|]. assert (k2 ≤ one_mag) by (destruct s2; unfold signed in Hs2; lia). nia.
Qed.

(** A brain fits the eyes of animals. *)
Definition brain_shaped (b : Brain) : Prop := shaped (topology Eye_default) (nn b).

Lemma brain_propagates b v : brain_shaped b → length v = CELLS →
  ∃ d r, Brain_propagate b v = Some (d, r) ∧ ranges (opp SPEED_ACCEL) d SPEED_ACCEL ∧ ranges (opp ROTATION_ACCEL) r ROTATION_ACCEL.
Proof.
  intros Hs Hv. unfold Brain_propagate.
  destruct (network_propagates _ _ _ v Hs Hv) as (out & -> & Hl & Hn); [done|]. cbn [mbind option_bind foldl neurons_count] in *.
  destruct out as [|r0 [|r1 [|? ?]]]; try done. inversion_clear Hn as [|? ? N0 Hn']. inversion_clear Hn' as [|? ? N1 _].
  cbn [lookup list_lookup mbind option_bind].
  destruct (centered_ranges r0 SPEED_ACCEL (mag SPEED_ACCEL)) as (d & -> & Hd); [done|vm_compute; done..|].
  destruct (centered_ranges r1 ROTATION_ACCEL (mag ROTATION_ACCEL)) as (r & -> & Hr); [done|vm_compute; done..|].
  cbn [mbind option_bind]. exists d, r. split; [done|]. split; [exact Hd|exact Hr].
Qed.

(** C32. What a brain answers is within the physical limits of an animal, whatever its
    weights and whatever it sees, infinities and NaNs included: it never panics, the
    change of speed is at most [SPEED_ACCEL] and the turn at most [ROTATION_ACCEL],
    either way. *)
Theorem brain_limits b v : brain_shaped b → length v = CELLS →
  ∃ speed_delta rotation_delta, Brain_propagate b v = Some (speed_delta, rotation_delta) ∧
    within (opp SPEED_ACCEL) speed_delta SPEED_ACCEL ∧ within (opp ROTATION_ACCEL) rotation_delta ROTATION_ACCEL.
Proof. intros Hs Hv. destruct (brain_propagates b v Hs Hv) as (d & r & E & [_ Hd] & [_ Hr]). by exists d, r. Qed.

(** A brain all of whose weights are infinite. *)
Definition wild_brain : Brain :=
  mkBrain (mkNetwork [mkLayer (replicate 18 (mkNeuron (Inf false) (replicate 9 (Inf true))));
                      mkLayer (replicate 2 (mkNeuron (Inf true) (replicate 18 (Inf false))))]).
Lemma brain_limits_witness : ∃ d r, Brain_propagate wild_brain (replicate 9 NaN) = Some (d, r) ∧ within (opp SPEED_ACCEL) d SPEED_ACCEL.
Proof.
  destruct (brain_limits wild_brain (replicate 9 NaN)) as (d & r & E & H & _).
  - repeat constructor.
  - reflexivity.
  - exists d, r. split; [exact E|exact H].
Defined.

(** ** Motion *)
Definition speed_ok (v : f32) : Prop := ranges SPEED_MIN v SPEED_MAX.
Definition unit_ok (v : f32) : Prop := ranges zero v one.
Definition position_ok (p : Vec2) : Prop := unit_ok (x p) ∧ unit_ok (y p).
(** A new animal's heading is up to a full turn, one that has thought at most half of one. *)
Definition rotation_ok (v : f32) : Prop := ranges (opp PI) v TWO_PI.

Lemma rotation_fin v : rotation_ok v ↔ ∃ s k, v = Fin s k ∧ representable k = true ∧ - pi_mag ≤ signed s k ≤ 2 * pi_mag.
Proof. unfold rotation_ok. rewrite PI_fin, TWO_PI_fin. apply (ranges_fin true pi_mag false (2 * pi_mag)); vm_compute; done. Qed.
Lemma unit_fin v : unit_ok v ↔ ∃ s k, v = Fin s k ∧ representable k = true ∧ 0 ≤ signed s k ≤ one_mag.
Proof. unfold unit_ok. rewrite one_fin. apply (ranges_fin false 0 false one_mag); vm_compute; done. Qed.

(** An angle of at most two turns, wrapped. *)
Lemma wrap_angle_ranges s k : - (8 * pi_mag) ≤ signed s k ≤ 8 * pi_mag → ranges (opp PI) (wrap_angle (Fin s k)) PI.
Proof.
  intros Hs. unfold wrap_angle. rewrite TWO_PI_fin, PI_fin.
  assert (H1 : ranges (Fin true (16 * pi_mag)) (add (Fin s k) (Fin false pi_mag)) (Fin false (16 * pi_mag))).
  { apply add_ranges; [vm_compute; done..|]. change (signed false pi_mag) with pi_mag. assert (0 < pi_mag) by (vm_compute; done). lia. }
  apply ranges_fin in H1 as (s1 & k1 & -> & Hk1 & _); [|vm_compute; done..].
  pose proof (rem_euclid_ranges s1 k1 (2 * pi_mag) Hk1 ltac:(vm_compute; done) ltac:(vm_compute; done)) as H2.
  apply (ranges_fin false 0) in H2 as (s2 & k2 & -> & _ & Hs2); [|vm_compute; done..].
  apply (add_ranges s2 k2 true pi_mag pi_mag pi_mag); [vm_compute; done..|].
  change (signed true pi_mag) with (- pi_mag). change (signed false 0) with 0 in Hs2.
  change (signed false (2 * pi_mag)) with (2 * pi_mag) in Hs2. lia.
Qed.

Lemma wrap_unit s k : - (4 * one_mag) ≤ signed s k ≤ 4 * one_mag →
  unit_ok (add zero (rem_euclid (sub (Fin s k) zero) (sub one zero))).
Proof.
  intros Hs. replace (sub one zero) with (Fin false one_mag) by (vm_compute; done).
  assert (H1 : ranges (Fin true (4 * one_mag)) (sub (Fin s k) zero) (Fin false (4 * one_mag))).
  { apply (add_ranges s k true 0); [vm_compute; done..|]. change (signed true 0) with 0. lia. }
  apply ranges_fin in H1 as (s1 & k1 & -> & Hk1 & _); [|vm_compute; done..].
  pose proof (rem_euclid_ranges s1 k1 one_mag Hk1 ltac:(vm_compute; done) ltac:(vm_compute; done)) as H2.
  apply (ranges_fin false 0) in H2 as (s2 & k2 & -> & _ & Hs2); [|vm_compute; done..].
  assert (H3 : ranges (Fin true 0) (add (Fin false 0) (Fin s2 k2)) (Fin false one_mag)).
  { apply add_ranges; [vm_compute; done..|]. change (signed false 0) with 0 in *. change (signed false one_mag) with one_mag in Hs2. lia. }
  apply ranges_fin in H3 as (s3 & k3 & E & Hk3 & Hs3); [|vm_compute; done..]. apply unit_fin. unfold zero at 1. rewrite E.
  exists s3, k3. split; [done|]. split; [done|]. exact Hs3.
Qed.

(** Thinking turns the animal by at most a quarter of a turn, and keeps its limits. *)
Lemma thinks v a : brain_shaped (brain a) → length v = CELLS → rotation_ok (rotation a) → speed_ok (speed a) →
  ∃ s r, think v a = Some (mkAnimal (position a) r s (eye a) (brain a) (satiation a)) ∧ speed_ok s ∧ rotation_ok r.
Proof.
  intros Hb Hv Hr Hs. unfold think. destruct (brain_propagates (brain a) v Hb Hv) as (d & t & -> & Hd & Ht). cbn [mbind option_bind fst snd].
  unfold speed_ok in *. replace SPEED_MIN with (Fin false (mag SPEED_MIN)) in * by (vm_compute; done).
  replace SPEED_MAX with (Fin false (mag SPEED_MAX)) in * by (vm_compute; done).
  pose proof Hs as Hs'. apply ranges_fin in Hs' as (s1 & k1 & E1 & Hk1 & _); [|vm_compute; done..]. rewrite E1.
  replace SPEED_ACCEL with (Fin false (mag SPEED_ACCEL)) in Hd by (vm_compute; done). cbn [opp negb] in Hd.
  apply ranges_fin in Hd as (s2 & k2 & -> & Hk2 & _); [|vm_compute; done..].
  destruct (clamp_ranges (add (Fin s1 k1) (Fin s2 k2)) (Fin false (mag SPEED_MIN)) (Fin false (mag SPEED_MAX))) as (c & -> & Hc);
    [vm_compute; done|apply add_fin_not_nan|apply add_fin_valid|vm_compute; done..|]. cbn [mbind option_bind].
  apply rotation_fin in Hr as (s3 & k3 & -> & Hk3 & Hs3).
  unfold ROTATION_ACCEL in Ht. rewrite FRAC_PI_2_fin in Ht. cbn [opp negb] in Ht.
  apply ranges_fin in Ht as (s4 & k4 & -> & Hk4 & Hs4); [|vm_compute; done..].
  exists c, (wrap_angle (add (Fin s3 k3) (Fin s4 k4))). split; [done|]. split; [done|].
  assert (Hm : mag FRAC_PI_2 ≤ pi_mag) by (vm_compute; done). change (signed true (mag FRAC_PI_2)) with (- mag FRAC_PI_2) in Hs4. change (signed false (mag FRAC_PI_2)) with (mag FRAC_PI_2) in Hs4.
  assert (0 < pi_mag) by (vm_compute; done).
  assert (Hr : ranges (Fin true (4 * pi_mag)) (add (Fin s3 k3) (Fin s4 k4)) (Fin false (4 * pi_mag))).
  { apply add_ranges; [vm_compute; done..|]. lia. }
  apply ranges_fin in Hr as (s5 & k5 & -> & Hk5 & Hs5); [|vm_compute; done..]. 
  change (signed true (4 * pi_mag)) with (- (4 * pi_mag)) in Hs5. change (signed false (4 * pi_mag)) with (4 * pi_mag) in Hs5.
  pose proof (wrap_angle_ranges s5 k5 ltac:(lia)) as Hw. rewrite PI_fin in Hw. apply (ranges_fin true pi_mag) in Hw as (s6 & k6 & -> & Hk6 & Hs6); [|vm_compute; done..].
  apply rotation_fin. exists s6, k6. split; [done|]. split; [done|].
  change (signed true pi_mag) with (- pi_mag) in Hs6. change (signed false pi_mag) with pi_mag in Hs6. lia.
Qed.

(** Walking stays on the torus. *)
Section walks.
Context `{TrigLaws}.

Lemma step_unit p c v : unit_ok p → ranges (opp one) c one → speed_ok v →
  unit_ok (add zero (rem_euclid (sub (add p (mul c v)) zero) (sub one zero))).
Proof using All.
  intros Hp Hc Hv. apply unit_fin in Hp as (s1 & k1 & -> & Hk1 & Hs1). rewrite minus_one_fin, one_fin in Hc.
  apply ranges_fin in Hc as (s2 & k2 & -> & Hk2 & Hs2); [|vm_compute; done..].
  unfold speed_ok in Hv. replace SPEED_MIN with (Fin false (mag SPEED_MIN)) in Hv by (vm_compute; done).
  replace SPEED_MAX with (Fin false (mag SPEED_MAX)) in Hv by (vm_compute; done).
  apply ranges_fin in Hv as (s3 & k3 & -> & Hk3 & Hs3); [|vm_compute; done..].
  change (signed true one_mag) with (- one_mag) in Hs2. change (signed false one_mag) with one_mag in Hs2.
  assert (Hm : 0 ≤ mag SPEED_MIN ∧ mag SPEED_MAX ≤ one_mag) by (vm_compute; done). change (signed false (mag SPEED_MIN)) with (mag SPEED_MIN) in Hs3. change (signed false (mag SPEED_MAX)) with (mag SPEED_MAX) in Hs3.
  pose proof (representable_range _ Hk2) as R2. pose proof (representable_range _ Hk3) as R3.
  assert (k2 ≤ one_mag) by (destruct s2; unfold signed in Hs2; lia).
  assert (k3 ≤ one_mag) by (destruct s3; unfold signed in Hs3; lia).
  assert (Hx : ranges (Fin true one_mag) (mul (Fin s2 k2) (Fin s3 k3)) (Fin false one_mag)) by (apply mul_ranges; [done..|nia]).
  apply ranges_fin in Hx as (s4 & k4 & -> & Hk4 & Hs4); [|vm_compute; done..].
  change (signed true one_mag) with (- one_mag) in Hs4. change (signed false one_mag) with one_mag in Hs4.
  assert (Hy : ranges (Fin true (2 * one_mag)) (add (Fin s1 k1) (Fin s4 k4)) (Fin false (2 * one_mag))) by (apply add_ranges; [done..|lia]).
  apply ranges_fin in Hy as (s5 & k5 & -> & Hk5 & Hs5); [|vm_compute; done..].
  apply wrap_unit. change (signed true (2 * one_mag)) with (- (2 * one_mag)) in Hs5. change (signed false (2 * one_mag)) with (2 * one_mag) in Hs5. lia.
Qed.

Lemma walks a : position_ok (position a) → rotation_ok (rotation a) → speed_ok (speed a) → position_ok (position (walk a)).
Proof using All.
  intros [Hx Hy] Hr Hs. assert (Hf : finite (rotation a)) by (apply rotation_fin in Hr as (s & k & -> & _); done).
  split; apply step_unit; try done; [apply cos_range|apply sin_range]; done.
Qed.
End walks.
