(* ===== verification/StatisticsProps.v ===== *)
(** * Neuroevolution: the statistics of a generation

    [Statistics::new] on fitnesses that are whole numbers with a sum of at most 2^24:
    the sums are exact, and the one rounding, of the average, cannot leave the range
    between the least and the greatest fitness. *)
From S2P Require Import Prelude F32 F32Math Genetic.

(** A lower bound that is a float survives rounding. *)
Lemma round_ge n d k : 0 < d → representable k = true → k * d ≤ n → k ≤ round n d.
Proof.
  intros Hd Hk Hkn. pose proof (representable_range k Hk) as Hr. unfold round. set (N := n / d). set (e := excess N).
  assert (HkN : k ≤ N) by (unfold N; apply Z.div_le_lower_bound; lia).
  assert (Hp : 0 < 2 ^ e) by (apply Z.pow_pos_nonneg; [lia|apply excess_nonneg]).
  assert (Hq : n / (d * 2 ^ e) = N / 2 ^ e) by (unfold N; by rewrite Z.div_div by lia). rewrite Hq.
  assert (Hle : k ≤ 2 ^ e * (N / 2 ^ e)).
  { destruct (Z.le_gt_cases e (excess k)) as [He|He].
    - unfold representable in Hk. apply andb_prop in Hk as [_ Hm%Z.eqb_eq].
      apply Z.mod_divide in Hm as [c Hc]; [|apply Z.pow_nonzero; [lia|apply excess_nonneg]].
      assert (E : k = c * 2 ^ (excess k - e) * 2 ^ e).
      { rewrite Hc at 1. rewrite <-Z.mul_assoc, <-Z.pow_add_r by (unfold e in *; pose proof (excess_nonneg N); lia). do 2 f_equal. lia. }
      set (j := c * 2 ^ (excess k - e)) in *. clearbody j. rewrite E, (Z.mul_comm j). apply Z.mul_le_mono_nonneg_l; [lia|].
      apply Z.div_le_lower_bound; lia.
    - unfold e, excess in He. assert (He' : e = Z.log2 N - 23) by (unfold e, excess; lia). assert (Hlk : Z.log2 k < Z.log2 N) by lia.
      assert (HN : 0 < N) by (destruct (Z.le_gt_cases N 0); [rewrite (Z.log2_nonpos N) in * by lia; pose proof (Z.log2_nonneg k); lia|lia]).
      pose proof (Z.log2_spec N HN) as [HN1 _]. assert (Hk2 : k < 2 ^ Z.log2 N).
      { destruct (Z.eq_dec k 0) as [->|]; [apply Z.pow_pos_nonneg; [lia|apply Z.log2_nonneg]|]. apply Z.log2_lt_pow2; lia. }
      assert (E : 2 ^ Z.log2 N = 2 ^ e * 2 ^ 23) by (rewrite <-Z.pow_add_r by lia; f_equal; lia).
      assert (2 ^ 23 ≤ N / 2 ^ e) by (apply Z.div_le_lower_bound; lia). nia. }
  destruct (_ || _); nia.
Qed.

(** ** Whole numbers *)
Definition sum_list (l : list Z) : Z := foldl Z.add 0 l.
Lemma foldl_add_shift l a : foldl Z.add a l = a + sum_list l.
Proof.
  unfold sum_list. revert a. induction l as [|z l IH]; intros a; cbn [foldl]; [lia|]. rewrite IH, (IH (0 + z)). lia.
Qed.
Lemma sum_list_cons z l : sum_list (z :: l) = z + sum_list l.
Proof. change (foldl Z.add z l = z + sum_list l). apply foldl_add_shift. Qed.
Lemma sum_list_nonneg l : Forall (λ z, 0 ≤ z) l → 0 ≤ sum_list l.
Proof. induction 1 as [|z l Hz Hl IH]; [done|]. rewrite sum_list_cons. lia. Qed.

Definition whole (z : Z) : f32 := fx 149 z.
Lemma add_whole a b : small (a + b) → add (whole a) (whole b) = whole (a + b).
Proof. apply add_fx. lia. Qed.
Lemma ltb_whole a b : ltb (whole a) (whole b) = (a <? b).
Proof. apply ltb_fx. lia. Qed.

Lemma fsum_exact l : ∀ a, 0 ≤ a → Forall (λ z, 0 ≤ z) l → a + sum_list l ≤ 2 ^ 24 → foldl add (whole a) (map whole l) = whole (a + sum_list l).
Proof.
  induction l as [|z l IH]; intros a Ha Hl Hs; [cbn; by rewrite Z.add_0_r|]. inversion_clear Hl as [|? ? Hz Hl'].
  pose proof (sum_list_nonneg l Hl'). rewrite sum_list_cons in *. cbn [map foldl].
  rewrite add_whole by (unfold small; lia). rewrite IH by (done || lia). f_equal. lia.
Qed.

(** The least and the greatest, by [f32::min] and [f32::max]. *)
Lemma fmin_whole a z : fmin (whole a) (whole z) = whole (Z.min a z).
Proof.
  change (fmin (whole a) (whole z)) with (if ltb (whole z) (whole a) then whole z else whole a).
  rewrite ltb_whole. destruct (Z.ltb_spec z a); f_equal; lia.
Qed.
Lemma fmax_whole a z : fmax (whole a) (whole z) = whole (Z.max a z).
Proof.
  change (fmax (whole a) (whole z)) with (if ltb (whole a) (whole z) then whole z else whole a).
  rewrite ltb_whole. destruct (Z.ltb_spec a z); f_equal; lia.
Qed.
Lemma foldl_map_whole (f : f32 → f32 → f32) (g : Z → Z → Z) l : (∀ a z, f (whole a) (whole z) = whole (g a z)) →
  ∀ a, foldl f (whole a) (map whole l) = whole (foldl g a l).
Proof. intros Hf. induction l as [|z l IH]; intros a; [done|]. cbn [map foldl]. by rewrite Hf, IH. Qed.

Definition least (z : Z) (l : list Z) : Z := foldl Z.min z l.
Definition greatest (z : Z) (l : list Z) : Z := foldl Z.max z l.
Lemma least_spec l : ∀ z, least z l ∈ z :: l ∧ Forall (λ y, least z l ≤ y) (z :: l).
Proof.
  induction l as [|y l IH]; intros z; [split; [apply elem_of_cons; by left|by repeat constructor]|].
  change (least z (y :: l)) with (least (Z.min z y) l). destruct (IH (Z.min z y)) as [Hin Hle]. inversion_clear Hle as [|? ? Hz Hl]. split.
  - apply elem_of_cons in Hin as [->|Hin]; [|rewrite !elem_of_cons; tauto]. destruct (Z.min_spec z y) as [[_ ->]|[_ ->]]; rewrite !elem_of_cons; tauto.
  - constructor; [lia|]. constructor; [lia|done].
Qed.
Lemma greatest_spec l : ∀ z, greatest z l ∈ z :: l ∧ Forall (λ y, y ≤ greatest z l) (z :: l).
Proof.
  induction l as [|y l IH]; intros z; [split; [apply elem_of_cons; by left|by repeat constructor]|].
  change (greatest z (y :: l)) with (greatest (Z.max z y) l). destruct (IH (Z.max z y)) as [Hin Hle]. inversion_clear Hle as [|? ? Hz Hl]. split.
  - apply elem_of_cons in Hin as [->|Hin]; [|rewrite !elem_of_cons; tauto]. destruct (Z.max_spec z y) as [[_ ->]|[_ ->]]; rewrite !elem_of_cons; tauto.
  - constructor; [lia|]. constructor; [lia|done].
Qed.
Lemma sum_list_bounds lo hi l : Forall (λ z, lo ≤ z) l → Forall (λ z, z ≤ hi) l →
  lo * Z.of_nat (length l) ≤ sum_list l ≤ hi * Z.of_nat (length l).
Proof.
  induction l as [|z l IH]; intros Hlo Hhi; [cbn; lia|]. inversion_clear Hlo as [|? ? H1 Hlo']. inversion_clear Hhi as [|? ? H2 Hhi'].
  specialize (IH Hlo' Hhi'). rewrite sum_list_cons. cbn [length]. lia.
Qed.

(** ** [Statistics::new] *)
Lemma average_between lo hi s n : 0 ≤ lo → small lo → small hi → small s → 0 < n → small n → lo * n ≤ s ≤ hi * n →
  ∃ m, div (whole s) (whole n) = Fin false m ∧ lo * 2 ^ 149 ≤ m ≤ hi * 2 ^ 149.
Proof.
  intros Hlo Hl Hh Hs Hn Hsn [H1 H2]. assert (Hhi : 0 ≤ hi) by nia. assert (0 ≤ s) by nia. unfold whole, fx. cbn [div].
  rewrite !(Z.abs_eq s), !(Z.abs_eq n), (proj2 (Z.ltb_ge s 0)), (proj2 (Z.ltb_ge n 0)) by lia.
  unfold F32.div.   rewrite (proj2 (Z.eqb_neq _ _)) by lia. cbn [xorb].
  assert (Hrep : ∀ z, 0 ≤ z → small z → representable (z * 2 ^ 149) = true).
  { intros z Hz Hsz. pose proof (fx_valid 149 ltac:(lia) z Hsz) as Hv. unfold fx in Hv. cbn [valid] in Hv. by rewrite Z.abs_eq in Hv. }
  unfold one_mag. destruct (make_bound false (s * 2 ^ 149 * 2 ^ 149) (n * 2 ^ 149) (hi * 2 ^ 149)) as (m & E & Hm); [nia|lia|by apply Hrep|nia|].
  exists m. split; [done|]. split; [|lia]. unfold make in E. destruct (_ <? _) in E; [|done]. injection E as <-.
  apply round_ge; [lia|by apply Hrep|nia].
Qed.

(** What the statistics of a generation look like when nobody has eaten more than [k]. *)
Definition stats_ok (k : Z) (s : Statistics) : Prop :=
  ∃ lo hi m, min_fitness s = whole lo ∧ max_fitness s = whole hi ∧ avg_fitness s = Fin false m ∧
    0 ≤ lo ≤ hi ∧ hi ≤ k ∧ lo * 2 ^ 149 ≤ m ≤ hi * 2 ^ 149.

Lemma stats_ok_ordered k s : stats_ok k s →
  leb zero (min_fitness s) = true ∧ leb (min_fitness s) (avg_fitness s) = true ∧ leb (avg_fitness s) (max_fitness s) = true ∧
  leb (max_fitness s) (whole k) = true.
Proof.
  intros (lo & hi & m & -> & -> & -> & Hlo & Hk & Hm). assert (Hw : ∀ z, 0 ≤ z → whole z = Fin false (z * 2 ^ 149)).
  { intros z Hz. unfold whole, fx. by rewrite (proj2 (Z.ltb_ge z 0)), Z.abs_eq by lia. }
  rewrite !Hw by lia. unfold zero. rewrite !leb_fin. unfold signed. nia.
Qed.

Section statistics.
Context {I} `{Individual I}.
Lemma statistics_ok population zs k : map fitness population = map of_Z zs → zs ≠ [] → Forall (λ z, 0 ≤ z ≤ k) zs →
  k * Z.of_nat (length zs) ≤ 2 ^ 24 → 1 ≤ k →
  ∃ s, Statistics_new population = Some s ∧ stats_ok k s ∧
    ∃ lo hi, lo ∈ zs ∧ hi ∈ zs ∧ Forall (λ z, lo ≤ z ≤ hi) zs ∧ min_fitness s = whole lo ∧ max_fitness s = whole hi.
Proof.
  intros Ef Hne Hzs Hsum Hk. assert (Hlen : length population = length zs) by (by rewrite <-(length_map fitness), Ef, length_map).
  destruct zs as [|z0 zs0] eqn:Ez; [done|]. rewrite <-Ez in *. assert (Hz0 : Forall (λ z, 0 ≤ z) zs) by (eapply Forall_impl; [exact Hzs|]; simpl; lia).
  assert (Hkz : Forall (λ z, z ≤ k) zs) by (eapply Forall_impl; [exact Hzs|]; simpl; lia).
  assert (Hn : 0 < Z.of_nat (length zs)) by (rewrite Ez; simpl; lia).
  assert (Hwhole : map of_Z zs = map whole zs).
  { apply map_ext_in. intros z Hin. apply of_Z_fx. rewrite Forall_forall in Hzs. apply list_elem_of_In in Hin. specialize (Hzs z Hin). unfold small. nia. }
  pose proof (sum_list_bounds 0 k zs Hz0 Hkz) as Hb.
  destruct (least_spec zs0 z0) as [Hlin Hlle]. destruct (greatest_spec zs0 z0) as [Hgin Hgle]. rewrite <-Ez in *.
  set (lo := least z0 zs0) in *. set (hi := greatest z0 zs0) in *.
  assert (Hlo : 0 ≤ lo ≤ k) by (rewrite Forall_forall in Hzs; by apply Hzs). assert (Hhi : 0 ≤ hi ≤ k) by (rewrite Forall_forall in Hzs; by apply Hzs).
  assert (Hlohi : lo ≤ hi) by (rewrite Forall_forall in Hlle; by apply Hlle).
  destruct (average_between lo hi (sum_list zs) (Z.of_nat (length zs))) as (m & Em & Hm);
    [lia|unfold small; nia|unfold small; nia|unfold small; lia|lia|unfold small; nia|by apply sum_list_bounds|].
  assert (E : Statistics_new population = Some (mkStatistics (whole lo) (whole hi) (Fin false m))).
  { unfold Statistics_new. rewrite Ef, Hwhole, Hlen. destruct population; [rewrite Ez in Hlen; done|]. do 2 f_equal.
    - rewrite Ez. cbn [map foldl]. change (fmin (Inf false) (whole z0)) with (if ltb (whole z0) (Inf false) then whole z0 else Inf false).
      assert (Hlt : ltb (whole z0) (Inf false) = true).
      { unfold ltb, compare_with, whole. rewrite order_fx by lia. cbn [order]. apply Z.ltb_lt. unfold signed.
        assert (small z0) by (rewrite Forall_forall in Hzs; specialize (Hzs z0 ltac:(rewrite Ez; apply elem_of_cons; by left)); unfold small; nia).
        pose proof (fx_bound 149 ltac:(lia) z0 ltac:(done)). lia. }
      rewrite Hlt. apply (foldl_map_whole fmin Z.min), fmin_whole.
    - rewrite Ez. cbn [map foldl]. change (fmax (Inf true) (whole z0)) with (if ltb (Inf true) (whole z0) then whole z0 else Inf true).
      assert (Hlt : ltb (Inf true) (whole z0) = true).
      { unfold ltb, compare_with, whole. rewrite order_fx by lia. cbn [order]. apply Z.ltb_lt. unfold signed.
        assert (0 ≤ z0) by (rewrite Forall_forall in Hz0; apply Hz0; rewrite Ez; apply elem_of_cons; by left). lia. }
      rewrite Hlt. apply (foldl_map_whole fmax Z.max), fmax_whole.
    - change zero with (whole 0). rewrite fsum_exact by (done || lia). rewrite Z.add_0_l, of_Z_fx by (unfold small; nia). exact Em. }
  exists (mkStatistics (whole lo) (whole hi) (Fin false m)). split; [done|]. split; [exists lo, hi, m; split_and!; (done || lia)|].
  exists lo, hi. split_and!; try done. rewrite Forall_forall in Hlle, Hgle. apply Forall_forall. intros z Hz. split; [by apply Hlle|by apply Hgle].
Qed.
End statistics.
