(* ===== verification/SimulationProps.v ===== *)
(** * Neuroevolution: the life of a population

    What every tick keeps, that every generation ends, and that every world can be
    drawn.  The hypotheses are those of the classes [RngLaws] and [TrigLaws]. *)
From S2P Require Import Prelude RustStr F32 F32Math Genetic GeneticProps Evolution EvolutionProps StatisticsProps.

(** ** The invariant *)
Record animal_ok (bound : Z) (a : Animal) : Prop := {
  ok_eye : eye a = Eye_default;
  ok_brain : brain_shaped (brain a);
  ok_position : position_ok (position a);
  ok_rotation : rotation_ok (rotation a);
  ok_speed : speed_ok (speed a);
  ok_satiation : 0 ≤ satiation a ≤ bound }.
Definition food_ok (f : Food) : Prop := position_ok (food_position f).
Record world_ok (n m : nat) (bound : Z) (w : World) : Prop := {
  ok_count : length (animals w) = n;
  ok_foods_count : length (foods w) = m;
  ok_animals : Forall (animal_ok bound) (animals w);
  ok_foods : Forall food_ok (foods w) }.

Lemma animal_ok_mono b b' a : b ≤ b' → animal_ok b a → animal_ok b' a.
Proof. intros Hb [? ? ? ? ? ?]. split; [done..|lia]. Qed.

(** ** Seeing *)
Lemma sees_in_range `{Trig} p r f i energy : sees Eye_default p r f = Some (i, energy) → (i < CELLS)%nat.
Proof.
  unfold sees. destruct (_ || _); [done|]. destruct (_ || _); [done|]. set (c := to_usize _). set (q := div _ _). clearbody c q.
  intros [= <- _]. change (Z.of_nat (cells Eye_default) - 1) with 8. unfold CELLS. lia.
Qed.
Lemma vision_total `{Trig} a fs : eye a = Eye_default → ∃ v, vision a fs = Some v ∧ length v = CELLS.
Proof.
  intros He. unfold vision, process_vision. rewrite He. apply (for_each_inv (λ v, length v = CELLS)).
  - by rewrite length_replicate.
  - intros f v _ Hv. destruct (sees _ _ _ f) as [[i energy]|] eqn:E; [|by exists v]. apply sees_in_range in E.
    destruct (lookup_lt_is_Some_2 v i ltac:(lia)) as [s ->]. cbn [mbind option_bind]. eexists. split; [done|]. by rewrite length_insert.
Qed.

(** ** The choice of parents *)
Definition bounded (k : Z) (v : f32) : Prop := ∃ s m, v = Fin s m ∧ 0 ≤ signed s m ≤ k.
Lemma satiation_bounded z : 0 ≤ z < 2 ^ 64 → bounded (2 ^ 213) (of_Z z).
Proof.
  intros Hz. unfold of_Z. rewrite (proj2 (Z.ltb_ge z 0)), Z.abs_eq by lia.
  destruct (make_bound false (z * one_mag) 1 (2 ^ 213)) as (m & -> & Hm); [unfold one_mag; lia|done|done|unfold one_mag; lia|].
  by exists false, m.
Qed.
Lemma floor_bounded v : bounded (2 ^ 213) v → bounded (2 ^ 213) (fmax v weight_floor).
Proof.
  intros (s & m & -> & Hm). replace weight_floor with (Fin false (mag weight_floor)) by (vm_compute; done). cbn [fmax].
  destruct (ltb _ _); [|by exists s, m]. exists false, (mag weight_floor). split; [done|]. by vm_compute.
Qed.
Lemma sum_bounded ws : Forall (bounded (2 ^ 213)) ws → ∀ j acc, bounded (j * 2 ^ 213) acc → 0 ≤ j → j + Z.of_nat (length ws) ≤ 2 ^ 24 →
  finite (foldl add acc ws).
Proof.
  intros Hws. induction Hws as [|w ws (s & m & -> & Hm) Hws IH]; intros j acc (t & k & -> & Hk) Hj Hl; [done|].
  cbn [foldl length] in *. apply (IH (j + 1)); [|lia..].
  destruct (add_bound t k s m 0 ((j + 1) * 2 ^ 213)) as (u & i & -> & _ & Hi); [done|apply representable_shift; lia|lia|].
  by exists u, i.
Qed.

(** ** Drawing *)
Definition grid_ok (grid : list str) : Prop := length grid = HEIGHT ∧ Forall (λ row : str, length row = WIDTH) grid.
Lemma put_total c p grid : grid_ok grid → ∃ grid', put c p grid = Some grid' ∧ grid_ok grid'.
Proof.
  intros [Hh Hw]. unfold put, to_cell. set (vx := to_usize (mul (x p) _)). set (vy := to_usize (mul (y p) _)). clearbody vx vy.
  set (cx := Z.to_nat (Z.min vx _)). set (cy := Z.to_nat (Z.min vy _)).
  assert (Hx : (cx < WIDTH)%nat) by (unfold cx; change (Z.of_nat WIDTH - 1) with 59; unfold WIDTH; lia).
  assert (Hy : (cy < HEIGHT)%nat) by (unfold cy; change (Z.of_nat HEIGHT - 1) with 23; unfold HEIGHT; lia).
  clearbody cx cy.
  destruct (lookup_lt_is_Some_2 grid cy ltac:(lia)) as [row Er]. rewrite Er. cbn [mbind option_bind].
  pose proof (Forall_lookup_1 _ _ _ _ Hw Er) as Hr. cbn in Hr. destruct (lookup_lt_is_Some_2 row cx ltac:(lia)) as [old ->].
  cbn [mbind option_bind]. eexists. split; [done|]. split; [by rewrite length_insert|].
  apply Forall_insert; [done|]. by rewrite length_insert.
Qed.
(** Every world can be drawn: [HEIGHT] lines of [WIDTH] characters. *)
Lemma render_total w : ∃ grid, render w = Some (join [LF] grid) ∧ grid_ok grid.
Proof.
  assert (H0 : grid_ok (replicate HEIGHT (replicate WIDTH SPACE))) by (split; [done|]; repeat constructor).
  unfold render. destruct (for_each_inv grid_ok (λ f, put 46 (food_position f)) (foods w) _ H0) as (g & -> & Hg).
  { intros f s _ Hs. by apply put_total. }
  cbn [mbind option_bind].
  destruct (for_each_inv grid_ok (λ a, put (heading_char (rotation a)) (position a)) (animals w) _ Hg) as (g' & -> & Hg').
  { intros a s _ Hs. by apply put_total. }
  by exists g'.
Qed.

Section simulation.
Context {R : Type} `{RngLaws R} `{TrigLaws}.

(** ** Births *)
Lemma gives_position : gives (S := R) Vec2_random position_ok.
Proof using All.
  unfold Vec2_random. do 2 (eapply gives_bind; [apply gives_gen_range; vm_compute; done|]; intros ? ?). by apply gives_ret.
Qed.
Lemma gives_food : gives (S := R) Food_random food_ok.
Proof using All. unfold Food_random. eapply gives_bind; [apply gives_position|]. intros p Hp. by apply gives_ret. Qed.
Lemma gives_foods m : gives (S := R) (collect m Food_random) (λ l, length l = m ∧ Forall food_ok l).
Proof using All. apply gives_collect, gives_food. Qed.

Lemma gives_animal b : brain_shaped b → gives (S := R) (Animal_new Eye_default b) (animal_ok 0).
Proof using All.
  intros Hb. unfold Animal_new. eapply gives_bind; [apply gives_position|]. intros p Hp.
  eapply gives_bind; [apply (gives_gen_range zero TWO_PI); vm_compute; done|]. intros r Hr. apply gives_ret. split; cbn; [done..| | |done].
  - rewrite TWO_PI_fin in Hr. apply (ranges_fin false 0) in Hr as (s & k & -> & Hk & Hs); [|vm_compute; done..].
    apply rotation_fin. exists s, k. split; [done|]. split; [done|]. change (signed false 0) with 0 in Hs.
    change (signed false (2 * pi_mag)) with (2 * pi_mag) in Hs. assert (0 < pi_mag) by (vm_compute; done). lia.
  - vm_compute. done.
Qed.

Lemma gives_brain : gives (S := R) (Brain_random Eye_default) brain_shaped.
Proof using All.
  unfold Brain_random, Network_random. eapply (gives_bind _ _ (shaped (topology Eye_default))); [|intros n Hn; by apply gives_ret].
  eapply gives_bind; [by apply gives_assert|]. intros _ _.
  eapply gives_bind; [|intros ls Hls; apply gives_ret; exact Hls].
  apply gives_st_map. intros p _. unfold Layer_random. eapply gives_bind; [|intros ns Hns; apply gives_ret; exact Hns].
  apply gives_collect. unfold Neuron_random. eapply (gives_bind _ _ (λ _, True)); [by apply gives_sample|]. intros b _.
  eapply (gives_bind _ _ (λ l, length l = neurons_count p.1)); [|intros ws Hws; by apply gives_ret].
  eapply gives_mono; [apply (gives_collect _ _ (λ _, True)); by apply gives_sample|]. by intros l [? _].
Qed.
Lemma gives_world n m : gives (S := R) (World_random n m) (world_ok n m 0).
Proof using All.
  unfold World_random. eapply gives_bind.
  - apply gives_collect. unfold Animal_random. eapply gives_bind; [apply gives_brain|]. intros b Hb. by apply gives_animal.
  - intros l [Hl Ha]. eapply gives_bind; [apply gives_foods|]. intros f [Hf Hp]. by apply gives_ret.
Qed.

(** An animal that grows from a chromosome of the right length. *)
Definition GENES : nat := weight_count (topology Eye_default).
Lemma gives_from_chromosome c : chromosome_len c = GENES → gives (S := R) (Animal_from_chromosome c) (animal_ok 0).
Proof using All.
  intros Hc. unfold Animal_from_chromosome. eapply (gives_bind _ _ brain_shaped).
  - apply gives_or_panic. unfold Brain_from_chromosome, chromosome_into_iter.
    destruct (from_weights_total (topology Eye_default) (genes c)) as [n E]; [simpl; lia|exact Hc|]. rewrite E. cbn [mbind option_bind].
    eexists. split; [done|]. apply from_weights_some in E as [Hs _]; [done|simpl; lia].
  - intros b Hb. by apply gives_animal.
Qed.
Lemma chromosome_ok b a : animal_ok b a → chromosome_len (animal_chromosome a) = GENES.
Proof using All. intros Ha. apply (shaped_weights (topology Eye_default)). apply (ok_brain _ _ Ha). Qed.

(** ** A tick *)
Lemma brains_total n m b w : world_ok n m b w → ∃ w', process_brains w = Some w' ∧ world_ok n m b w'.
Proof using All.
  intros [Hn Hm Ha Hf]. unfold process_brains.
  assert (E : ∃ l, mapM (λ a, v ← vision a (foods w); think v a) (animals w) = Some l ∧ length l = n ∧ Forall (animal_ok b) l).
  { rewrite <-Hn. clear Hn Hm Hf. induction Ha as [|a l Ha Hl IH]; [by exists []|].
    destruct (vision_total a (foods w)) as (v & E & Hv); [apply Ha|]. destruct Ha as [He Hb Hp Hr Hs Hst].
    destruct (thinks v a) as (s & r & E2 & Hs' & Hr'); [done..|]. destruct IH as (l' & El & Ll & Hl').
    eexists (_ :: l'). cbn [mapM]. rewrite E. cbn [mbind option_bind]. rewrite E2. cbn [mbind option_bind]. rewrite El.
    split; [done|]. split; [simpl; lia|]. by constructor. }
  destruct E as (l & -> & Hl & Hok). cbn [mbind option_bind]. eexists. split; [done|]. by split.
Qed.
Lemma movement_ok n m b w : world_ok n m b w → world_ok n m b (process_movement w).
Proof using All.
  intros [Hn Hm Ha Hf]. split; cbn; [by rewrite length_map|done| |done]. apply Forall_map. eapply Forall_impl; [exact Ha|].
  intros a [? ? ? ? ? ?]. split; [done..| |done|done|done]. by apply walks.
Qed.

Lemma gives_feed oc b l : ∀ a, animal_ok b a → Forall food_ok l → b + Z.of_nat (length l) < 2 ^ 64 →
  gives (feed oc a l) (λ r, animal_ok (b + Z.of_nat (length l)) r.1 ∧ length r.2 = length l ∧ Forall food_ok r.2).
Proof using All.
  revert b. induction l as [|f l IH]; intros b a Ha Hl Hb.
  - apply gives_ret. split; [|done]. by rewrite Z.add_0_r.
  - inversion_clear Hl as [|? ? Hf Hl']. cbn [feed length] in *. destruct (touches a f).
    + eapply (gives_bind _ _ (animal_ok (b + 1))).
      { apply gives_or_panic. unfold eat. destruct Ha as [? ? ? ? ? Hs]. rewrite chk_u64_ok by (unfold is_u64; lia).
        eexists. split; [done|]. split; [done..|cbn; lia]. }
      intros a' Ha'. eapply gives_bind; [apply gives_position|]. intros p Hp.
      eapply gives_bind; [apply (IH (b + 1)); [done..|lia]|]. intros [a2 l2] (K2 & Hlen & Hf2). apply gives_ret. cbn in *.
      split; [|split; [by rewrite Hlen|by constructor]]. eapply animal_ok_mono; [|exact K2]. lia.
    + eapply gives_bind; [apply (IH b); [done..|lia]|]. intros [a2 l2] (K2 & Hlen & Hf2). apply gives_ret. cbn in *.
      split; [|split; [by rewrite Hlen|by constructor]]. eapply animal_ok_mono; [|exact K2]. lia.
Qed.
Lemma gives_feed_all oc b l : ∀ fs, Forall (animal_ok b) l → Forall food_ok fs → b + Z.of_nat (length fs) < 2 ^ 64 →
  gives (feed_all oc l fs) (λ r, length r.1 = length l ∧ length r.2 = length fs ∧
    Forall (animal_ok (b + Z.of_nat (length fs))) r.1 ∧ Forall food_ok r.2).
Proof using All.
  induction l as [|a l IH]; intros fs Ha Hf Hb; [by apply gives_ret|]. inversion_clear Ha as [|? ? Ha1 Ha2]. cbn [feed_all].
  eapply gives_bind; [by apply gives_feed|]. intros [a' fs'] (K1 & K2 & K3). cbn [fst snd] in *.
  eapply gives_bind; [apply IH; [done..|by rewrite K2]|]. intros [l' fs''] (L1 & L2 & L3 & L4). apply gives_ret. cbn [fst snd] in *.
  rewrite K2 in *. split; [cbn; by rewrite L1|]. split; [done|]. split; [by constructor|done].
Qed.
Lemma gives_collisions oc n m b w : world_ok n m b w → b + Z.of_nat m < 2 ^ 64 →
  gives (process_collisions oc w) (world_ok n m (b + Z.of_nat m)).
Proof using All.
  intros [Hn Hm Ha Hf] Hb. unfold process_collisions. rewrite <-Hm in *.
  eapply gives_bind; [by apply gives_feed_all|]. intros [l fs] (L1 & L2 & L3 & L4). apply gives_ret. cbn [fst snd] in *.
  split; cbn; [congruence|done..].
Qed.

Lemma population_selectable n m b w : world_ok n m b w → (0 < n)%nat → Z.of_nat n ≤ 2 ^ 24 → b < 2 ^ 64 →
  selectable (map from_animal (animals w)).
Proof using All.
  intros [Hn Hm Ha Hf] Hpos Hlim Hb. split; [destruct (animals w); [simpl in Hn; lia|done]|].
  apply (sum_bounded _) with (j := 0); [|by exists false, 0|done|].
  - rewrite map_map. apply Forall_map. eapply Forall_impl; [exact Ha|]. intros a Hok. unfold weight. cbn.
    apply floor_bounded, satiation_bounded. pose proof (ok_satiation _ _ Hok). lia.
  - rewrite !length_map, Hn. lia.
Qed.

(** ** Generations *)
Definition mutation : GaussianMutation := mkMutation mutation_chance mutation_coeff.
Record simulation_ok (n m : nat) (s : Simulation R) : Prop := {
  ok_world : world_ok n m (Z.of_nat (m * age s)) (world s);
  ok_ga : ga s = GeneticAlgorithm_new mutation;
  ok_age : (age s < GENERATION_LENGTH)%nat }.
(** The counts of the population and of the food, for the theorems. *)
Definition counts_ok (n m : nat) : Prop := Z.of_nat n ≤ 2 ^ 24 ∧ Z.of_nat m * 2500 < 2 ^ 64.
(** The statistics of a generation, where what is eaten in all fits the 24 bits of a float. *)
Definition line_ok (n m : nat) (stats : Statistics) : Prop :=
  (0 < m)%nat → Z.of_nat n * (Z.of_nat m * 2500) ≤ 2 ^ 24 → stats_ok (Z.of_nat m * 2500) stats.

Lemma world_statistics n m b w stats : world_ok n m b w → (0 < n)%nat → Statistics_new (map from_animal (animals w)) = Some stats →
  1 ≤ b → Z.of_nat n * b ≤ 2 ^ 24 → stats_ok b stats.
Proof using All.
  intros [Hn _ Ha _] Hpos E Hb Hlim. destruct (statistics_ok (map from_animal (animals w)) (map satiation (animals w)) b) as (s & Es & Hs & _).
  - rewrite !map_map. by apply map_ext.
  - destruct (animals w); [simpl in Hn; lia|done].
  - apply Forall_map. eapply Forall_impl; [exact Ha|]. intros a Hok. cbn. pose proof (ok_satiation _ _ Hok). lia.
  - rewrite length_map, Hn. lia.
  - done.
  - rewrite E in Es. by injection Es as <-.
Qed.

Lemma gives_simulation n m : gives (S := R) (Simulation_random n m) (λ s, simulation_ok n m s ∧ age s = 0%nat).
Proof using All.
  unfold Simulation_random. eapply gives_bind; [apply gives_world|]. intros w Hw.
  eapply (gives_bind _ _ (λ g, g = mutation)); [apply gives_or_panic; exists mutation; split; [vm_compute; done|done]|].
  intros g ->. apply gives_ret. split; [|done]. split; cbn [age world ga]; [by rewrite Nat.mul_0_r|done|by apply Nat.ltb_lt].
Qed.

Lemma gives_evolve_world n m b s : (0 < n)%nat → Z.of_nat n ≤ 2 ^ 24 → b < 2 ^ 64 → world_ok n m b (world s) →
  ga s = GeneticAlgorithm_new mutation → gives (evolve_world s) (λ r, simulation_ok n m r.1 ∧ age r.1 = 0%nat ∧
    Statistics_new (map from_animal (animals (world s))) = Some r.2).
Proof using All.
  intros Hn Hlim Hb Hw Hg. unfold evolve_world. rewrite Hg.
  assert (Hc : Forall (λ i, chromosome_len (chromosome i) = GENES) (map from_animal (animals (world s)))).
  { apply Forall_map. eapply Forall_impl; [apply (ok_animals _ _ _ _ Hw)|]. intros a Ha. by apply (chromosome_ok b). }
  eapply gives_bind; [eapply (gives_evolve mutation GENES); [by eapply population_selectable|done]|].
  intros [l st] (Hl & Est & Hi). cbn [fst snd] in *. rewrite length_map, (ok_count _ _ _ _ Hw) in Hl.
  eapply (gives_bind _ _ (λ l', length l' = n ∧ Forall (animal_ok 0) l')).
  { eapply gives_mono; [apply (gives_st_map _ l (λ _, animal_ok 0))|].
    - intros c Hin. apply gives_from_chromosome. rewrite Forall_forall in Hi, Hc. destruct (Hi c Hin) as (a & _ & c' & Ha & _ & -> & Hlen & _).
      cbn. rewrite Hlen. by apply Hc.
    - intros l' Hl'. split; [apply Forall2_length in Hl'; lia|]. by eapply Forall2_Forall_r; [exact Hl'|apply Forall_true]. }
  intros l' [Hl' Ha']. rewrite (ok_foods_count _ _ _ _ Hw). eapply gives_bind; [apply gives_foods|]. intros f [Hf Hfo]. apply gives_ret.
  split; [|done]. split; cbn [age world ga]; [rewrite Nat.mul_0_r; by split|done|by apply Nat.ltb_lt].
Qed.

(** A tick, up to the question whether the generation is over. *)
Lemma step_cases oc n m s r : counts_ok n m → simulation_ok n m s → ∃ w r',
  let s' := mkSimulation w (ga s) (S (age s)) in
  world_ok n m (Z.of_nat (m * S (age s))) w ∧
  step oc s r = if (GENERATION_LENGTH <=? S (age s))%nat
    then (let* e := evolve_world s' in ret (e.1, Some e.2)) r' else Some ((s', None), r').
Proof using All.
  intros [_ Hm] [Hw Hg Ha]. assert (HL : Z.of_nat GENERATION_LENGTH = 2500) by (vm_compute; done).
  destruct (brains_total n m _ _ Hw) as (w1 & E1 & H1'). pose proof (movement_ok _ _ _ _ H1') as H2'.
  destruct (gives_collisions oc n m _ _ H2' ltac:(nia) r) as (w2 & r' & E2 & H3').
  replace (Z.of_nat (m * age s) + Z.of_nat m) with (Z.of_nat (m * S (age s))) in H3' by nia.
  exists w2, r'. split; [done|]. unfold step, or_panic. rewrite E1. unfold Genetic.bind at 1 2. rewrite E2. cbn [age]. by destruct (_ <=? _)%nat.
Qed.

Lemma gives_step oc n m s : (0 < n)%nat → counts_ok n m → simulation_ok n m s →
  gives (step oc s) (λ r, simulation_ok n m r.1 ∧
    if (GENERATION_LENGTH <=? S (age s))%nat then (∃ stats, r.2 = Some stats ∧ line_ok n m stats) ∧ age r.1 = 0%nat
    else r.2 = None ∧ age r.1 = S (age s)).
Proof using All.
  intros Hn Hc Hs r. destruct (step_cases oc n m s r Hc Hs) as (w & r' & Hw & ->).
  pose proof Hs as [_ Hg Ha]. destruct Hc as [Hlim Hm]. assert (HL : Z.of_nat GENERATION_LENGTH = 2500) by (vm_compute; done).
  destruct (Nat.leb_spec GENERATION_LENGTH (S (age s))).
  - destruct (gives_evolve_world n m (Z.of_nat (m * S (age s))) (mkSimulation w (ga s) (S (age s))) Hn Hlim ltac:(nia) Hw Hg r')
      as ([s' stats] & r'' & E & Hs' & Ha' & Est).
    unfold Genetic.bind. rewrite E. exists (s', Some stats), r''. split; [done|]. split; [done|]. split; [|done]. exists stats. split; [done|].
    intros Hm0 Hsum. cbn [world] in Est. replace (Z.of_nat (m * S (age s))) with (Z.of_nat m * 2500) in Hw by nia.
    by apply (world_statistics n m _ w); [..|lia|].
  - eexists (_, None), r'. split; [done|]. split; [by split|done].
Qed.

Lemma gives_train oc n m : (0 < n)%nat → counts_ok n m → ∀ fuel s, simulation_ok n m s → (GENERATION_LENGTH - age s ≤ fuel)%nat →
  gives (train_fuel fuel oc s) (λ o, ∃ s' stats, o = Some (s', stats) ∧ line_ok n m stats ∧ simulation_ok n m s' ∧ age s' = 0%nat).
Proof using All.
  intros Hn Hc fuel. induction fuel as [|fuel IH]; intros s Hs Hf; pose proof (ok_age _ _ _ Hs) as Ha; [lia|].
  cbn [train_fuel]. eapply gives_bind; [by apply gives_step|]. intros [s' o] [Hs' Hcase]. cbn [fst snd] in *.
  destruct (Nat.leb_spec GENERATION_LENGTH (S (age s))).
  - destruct Hcase as [(stats & -> & Hst) Ha']. apply gives_ret. by exists s', stats.
  - destruct Hcase as [-> Ha']. apply IH; [done|]. lia.
Qed.

Lemma gives_run oc n m : (0 < n)%nat → counts_ok n m → ∀ k s, simulation_ok n m s → age s = 0%nat →
  gives (run oc k s) (λ o, ∃ s' l, o = Some (s', l) ∧ length l = k ∧ Forall (line_ok n m) l ∧ simulation_ok n m s' ∧ age s' = 0%nat).
Proof using All.
  intros Hn Hc k. induction k as [|k IH]; intros s Hs Ha; [apply gives_ret; by exists s, []|]. cbn [run].
  eapply gives_bind; [unfold train; eapply gives_train; [done..|lia]|]. intros o (s1 & stats & -> & Hst & Hs1 & Ha1).
  eapply gives_bind; [by apply IH|]. intros o' (s2 & l & -> & Hl & Hlst & Hs2 & Ha2). apply gives_ret. exists s2, (stats :: l).
  split; [done|]. split; [by rewrite <-Hl|]. split; [by constructor|done].
Qed.

(** Nobody to evolve. *)
Lemma train_panics oc m : counts_ok 0 m → ∀ fuel s r, simulation_ok 0 m s → (GENERATION_LENGTH - age s ≤ fuel)%nat → train_fuel fuel oc s r = None.
Proof using All.
  intros Hc fuel. induction fuel as [|fuel IH]; intros s r Hs Hf; pose proof (ok_age _ _ _ Hs) as Ha; [lia|].
  cbn [train_fuel]. unfold Genetic.bind at 1. destruct (step_cases oc 0 m s r Hc Hs) as (w & r' & Hw & ->).
  destruct (Nat.leb_spec GENERATION_LENGTH (S (age s))).
  - assert (Hnil : animals w = []) by (apply nil_length_inv, (ok_count _ _ _ _ Hw)).
    unfold Genetic.bind at 1. unfold evolve_world. cbn [world]. by rewrite Hnil.
  - cbn [fst snd]. apply IH; [split; [done|apply (ok_ga _ _ _ Hs)|done]|]. cbn [age]. lia.
Qed.

(** C14. What every tick keeps.  A new world and, after any tick, the next one has its
    animals and its food in number; positions are on the map, [0, 1] both ways; speeds
    are between [SPEED_MIN] and [SPEED_MAX] and headings between -PI and 2 PI, never a
    NaN; brains fit their eyes, and no animal has eaten more than all the food at every
    tick of its generation.  No tick panics, and exactly the 2500th evolves. *)
Theorem tick_keeps_world oc n m : (0 < n)%nat → counts_ok n m →
  (∀ r, ∃ s r', Simulation_random n m r = Some (s, r') ∧ simulation_ok n m s ∧ age s = 0%nat) ∧
  (∀ s r, simulation_ok n m s → ∃ s' o r', step oc s r = Some ((s', o), r') ∧ simulation_ok n m s' ∧
    if (GENERATION_LENGTH <=? S (age s))%nat then (∃ stats, o = Some stats) ∧ age s' = 0%nat
    else o = None ∧ age s' = S (age s)).
Proof using All.
  intros Hn Hc. split.
  - intros r. destruct (gives_simulation n m r) as (s & r' & E & Hs). by exists s, r'.
  - intros s r Hs. destruct (gives_step oc n m s Hn Hc Hs r) as ([s' o] & r' & E & Hok). exists s', o, r'. split; [done|]. split; [apply Hok|].
    destruct Hok as [_ Hok]. cbn [fst snd] in Hok. destruct (_ <=? _)%nat; [|done]. destruct Hok as [(stats & -> & _) ?]. split; [by exists stats|done].
Qed.

(** The program makes progress: with at least one animal, it goes through all its
    generations, whatever the generator draws, and ends with one line of statistics for
    each and with a picture of [HEIGHT] lines of [WIDTH] characters; where all that could
    be eaten fits the 24 bits of a float, as it does by default, every line has
    0 <= min <= avg <= max <= the food of a generation, in floats.  Without animals it
    panics at the end of the first generation.  The bounds on the arguments (16 million
    animals, 2^64 meals) keep floats finite and counters from overflowing. *)
Lemma main_ends oc args r : 0 ≤ population args ≤ 2 ^ 24 → 0 ≤ food args → food args * 2500 < 2 ^ 64 → 0 ≤ generations args →
  (population args ≠ 0 → ∃ table grid r', main oc args r = Some (Some (table, join [LF] grid), r') ∧
    Z.of_nat (length table) = generations args ∧ grid_ok grid ∧
    (0 < food args → population args * (food args * 2500) ≤ 2 ^ 24 → Forall (λ line,
       leb zero (min_fitness line) = true ∧ leb (min_fitness line) (avg_fitness line) = true ∧
       leb (avg_fitness line) (max_fitness line) = true ∧ leb (max_fitness line) (of_Z (food args * 2500)) = true) table)) ∧
  (population args = 0 → generations args ≠ 0 → main oc args r = None).
Proof using All.
  intros Hp Hf0 Hf Hg. set (n := Z.to_nat (population args)). set (m := Z.to_nat (food args)).
  assert (Hc : counts_ok n m) by (unfold counts_ok, n, m; lia). unfold main. fold n m.
  destruct (gives_simulation n m r) as (s & r1 & E & Hs & Ha). split.
  - intros Hn. destruct (gives_run oc n m ltac:(lia) Hc (Z.to_nat (generations args)) s Hs Ha r1) as (o & r2 & Er & s' & l & -> & Hl & Hlst & Hs' & _).
    destruct (render_total (world s')) as (grid & Eg & Hok). exists l, grid, r2.
    unfold Genetic.bind, or_panic. rewrite E, Er, Eg. split; [done|]. split; [lia|]. split; [done|].
    intros Hf1 Hsum. eapply Forall_impl; [exact Hlst|]. intros line Hline. cbn beta in Hline.
    assert (Efood : Z.of_nat m * 2500 = food args * 2500) by (unfold m; lia). unfold line_ok in Hline. rewrite Efood in Hline.
    rewrite of_Z_fx by (unfold small; nia). apply stats_ok_ordered, Hline; unfold n, m; nia.
  - intros Hn Hk. unfold Genetic.bind at 1. rewrite E. destruct (Z.to_nat (generations args)) as [|k] eqn:Ek; [lia|].
    assert (n = 0%nat) as Hn0 by lia. rewrite Hn0 in Hc, Hs. cbn [run]. unfold Genetic.bind at 1 2, train.
    rewrite (train_panics oc m Hc); [done|done|]. apply Nat.le_sub_l.
Qed.
End simulation.

(** *** Functions that satisfy the laws *)
Definition constant_trig : Trig := {| cos _ := one; sin _ := zero; atan2 _ _ := zero |}.
Lemma constant_laws : @TrigLaws constant_trig.
Proof. split; intros v _; (split; [vm_compute; done|]); split; vm_compute; done. Qed.

Lemma tick_keeps_world_witness : ∃ s r', @Simulation_random nat counting 3 2 0%nat = Some (s, r') ∧
  ∃ q, @step nat counting constant_trig true s r' = Some q.
Proof.
  destruct (@tick_keeps_world nat counting counting_laws constant_trig constant_laws true 3 2) as [H1 H2]; [lia|by split|].
  destruct (H1 0%nat) as (s & r' & E & Hs & _). exists s, r'. split; [exact E|].
  destruct (H2 s r' Hs) as (s' & o & r'' & E2 & _). exists (s', o, r''). exact E2.
Defined.

(** ** Where the descriptions are too strong *)
(** "Wraps both coordinates into [[min, max)]": just below [min], the sum rounds to [max]. *)
Example wrap_reaches_max : wrap zero one (mkVec2 (Fin true (2 ^ 119)) zero) = mkVec2 one zero.
Proof. vm_compute. done. Qed.
(** "One entry per cell, each in [[0.0, 1.0]]": the energies of the food in a cell add up. *)
Example vision_above_one :
  let f := mkFood (mkVec2 (Fin false (2 ^ 140)) zero) in
  match @process_vision constant_trig Eye_default (mkVec2 zero zero) zero [f; f] with
  | Some v => match v !! 4%nat with Some e => ltb one e | None => false end
  | None => false
  end = true.
Proof. vm_compute. done. Qed.
