(* ===== verification/EvolutionMain.v ===== *)
(** * The neuroevolution: the program
    ([2026-09-13-rust-neuroevolution/src/main.rs], [main])

    From the command line to the text that is printed, around the run of [Evolution]:
    the generator that the seed makes, the table of the generations, the snapshot. *)
From S2P Require Import Prelude RustStr F32 F32Math F32Text Genetic GeneticProps Evolution EvolutionProps StatisticsProps SimulationProps.

(** [rand::SeedableRng]: a generator from a seed, and the one that the system seeds. *)
Class SeedableRng (R : Type) : Type := { seed_from_u64 : Z → R; from_entropy : R }.

Definition generator {R} `{SeedableRng R} (args : Args) : R :=
  match seed args with Some s => seed_from_u64 s | None => from_entropy end.

(** [{:>3}   {:>6.2}   {:>6.2}   {:>6.2}] *)
Definition GAP : str := lit "   ".
Definition column (x : f32) : str := pad_left 6 (show_fixed 2 x).
Definition table_line (generation : Z) (stats : Statistics) : str :=
  pad_left 3 (show generation) ++ GAP ++ column (min_fitness stats) ++ GAP ++ column (avg_fitness stats) ++ GAP ++ column (max_fitness stats).
Definition table_lines (table : list Statistics) : list str := imap (λ i, table_line (Z.of_nat i + 1)) table.

Definition HEADER : str := lit "gen    min      avg      max".
Definition CAPTION : str := lit "final snapshot ('.' = food, arrow = an animal's heading):".
Definition printed (table : list Statistics) (picture : str) : list str :=
  [HEADER] ++ table_lines table ++ [[]; CAPTION; picture].

(** [main]: the lines that are printed; [None] when it panics, and [Some None] when the
    fuel of a generation runs out. *)
Definition main {R} `{Rng R} `{SeedableRng R} `{Trig} (oc : bool) (argv : list str) : option (option (list str)) :=
  let args := Args_parse (skipn 1 argv) in
  '(q, _) ← Evolution.main oc args (generator args);
  Some (option_map (λ '(table, picture), printed table picture) q).

(** ** The arguments *)
Definition args_ok (a : Args) : Prop := 0 ≤ generations a < 2 ^ 64 ∧ 0 ≤ population a < 2 ^ 64 ∧ 0 ≤ food a < 2 ^ 64.
Lemma unwrap_or_ok v d : 0 ≤ d < 2 ^ 64 → 0 ≤ unwrap_or (parse_usize v) d < 2 ^ 64.
Proof. intros Hd. destruct (parse_usize v) as [z|] eqn:E; [|exact Hd]. apply parse_uint_range in E. exact E. Qed.
Lemma parse_args_ok args a : args_ok a → args_ok (parse_args args a).
Proof.
  assert (H : ∀ n args a, (length args ≤ n)%nat → args_ok a → args_ok (parse_args args a)); [|by apply H with (n := length args)].
  clear. induction n as [|n IH]; intros [|flag [|v args]] a Hl Ha; [done|cbn in Hl; lia|cbn in Hl; lia|done|done|].
  cbn [parse_args]. apply IH; [cbn in Hl; lia|]. destruct Ha as (H1 & H2 & H3).
  destruct (bool_decide _); [|destruct (bool_decide _); [|destruct (bool_decide _); [|destruct (bool_decide _)]]];
    unfold args_ok; cbn [generations population food]; auto using unwrap_or_ok.
Qed.

(** ** What is printed *)
Lemma table_lines_length table : length (table_lines table) = length table.
Proof. apply length_imap. Qed.

(** A column shows a number that is off by at most a hundredth's half. *)
Lemma column_near s m : 0 ≤ m → ∃ c, column (Fin s m) = pad_left 6 (sign_text s ++ with_point c 2) ∧
  0 ≤ c ∧ 2 * Z.abs (c * one_mag - 100 * m) ≤ one_mag.
Proof.
  intros Hm. exists (round_places m 2). split; [done|]. destruct (round_places_near m 2 Hm) as [H1 H2]. split; [done|].
  by replace (100 * m) with (m * 10 ^ Z.of_nat 2) by (change (10 ^ Z.of_nat 2) with 100; lia).
Qed.

Section program.
Context {R : Type} `{RngLaws R} `{SeedableRng R} `{TrigLaws}.

(** C13. The program from its command line to its output, for every generator that a seed
    can make: with at least one animal it goes through all its generations, whatever is
    drawn, and prints the header, one line for each generation, and a picture of
    [HEIGHT] lines of [WIDTH] characters; where all that could be eaten fits the 24 bits
    of a float, as it does by default, every line has 0 <= min <= avg <= max <= the food
    of a generation, in floats.  Without animals it panics at the end of the first
    generation.  The bounds on the arguments (16 million animals, 2^64 meals) keep floats
    finite and counters from overflowing. *)
Theorem program_ends oc argv :
  let args := Args_parse (skipn 1 argv) in
  population args ≤ 2 ^ 24 → food args * 2500 < 2 ^ 64 →
  (population args ≠ 0 → ∃ table grid, main oc argv = Some (Some (printed table (join [LF] grid))) ∧
    Z.of_nat (length table) = generations args ∧ grid_ok grid ∧
    (0 < food args → population args * (food args * 2500) ≤ 2 ^ 24 → Forall (λ line,
       leb zero (min_fitness line) = true ∧ leb (min_fitness line) (avg_fitness line) = true ∧
       leb (avg_fitness line) (max_fitness line) = true ∧ leb (max_fitness line) (of_Z (food args * 2500)) = true) table)) ∧
  (population args = 0 → generations args ≠ 0 → main oc argv = None).
Proof using All.
  intros args Hp Hf. destruct (parse_args_ok (skipn 1 argv) default_args) as (Hg & Hp0 & Hf0); [by vm_compute|].
  fold (Args_parse (skipn 1 argv)) in Hg, Hp0, Hf0. fold args in Hg, Hp0, Hf0.
  destruct (main_ends oc args (generator args)) as [Hends Hpanics]; [lia..|]. unfold main. fold args. split.
  - intros Hn. destruct (Hends Hn) as (table & grid & r & -> & Hend). by exists table, grid.
  - intros Hn Hk. by rewrite (Hpanics Hn Hk).
Qed.
End program.

(** A generator that counts what is drawn, from its seed. *)
Definition counting_seeds : SeedableRng nat := {| seed_from_u64 z := Z.to_nat z; from_entropy := 0%nat |}.
Lemma program_ends_witness : ∃ table grid,
  @main nat counting counting_seeds constant_trig true (List.map lit ["evolve"; "--food"; "7"; "--seed"; "3"]%string) =
    Some (Some (printed table (join [LF] grid))) ∧ length table = 100%nat.
Proof.
  destruct (@program_ends nat counting counting_laws counting_seeds constant_trig constant_laws true
    (List.map lit ["evolve"; "--food"; "7"; "--seed"; "3"]%string)) as [H _]; [vm_compute; done..|].
  destruct H as (table & grid & E & Hl & _); [vm_compute; done|]. exists table, grid. split; [exact E|].
  apply Nat2Z.inj. exact Hl.
Defined.

Example table_line_example :
  table_line 7 (mkStatistics (of_decimal 5 1) (of_Z 1234) (div (of_Z 2) (of_Z 3))) = lit "  7     0.50     0.67   1234.00".
Proof. by vm_compute. Qed.
