(* ===== verification/NeuroevolutionTests.v ===== *)
(** * The unit tests of the neuroevolution

    The tests of [2026-09-13-rust-neuroevolution/src], on the definitions of [Genetic]
    and [Evolution].  A test that seeds a generator takes any generator; most are run
    with [lcg], those of the simulation are proved for all generators that do what the
    documentation of [rand] says.  [oc] says whether the build checks overflow. *)
From S2P Require Import Prelude RustStr UnitTest F32 F32Math Genetic GeneticProps Evolution EvolutionProps StatisticsProps SimulationProps.
#[local] Open Scope rust_scope.

(** A test that draws; [==] on floats is that of Rust. *)
Definition drawing {R} (m : st R unit) (r : R) : test := _ ← m r; Some tt.
Definition eqs (a b : list f32) : bool := (length a =? length b)%nat && forallb (λ p : f32 * f32, eqf p.1 p.2) (zip a b).
Definition close (a b : f32) (e : Z) : bool := ltb (fabs (sub a b)) (of_decimal 1 e).
Definition is_finite (v : f32) : bool := match v with Fin _ _ => true | _ => false end.

(** ** [vec2.rs] *)
Definition length_is_pythagorean : test := assert! (close (vec2_length (mkVec2 (of_Z 3) (of_Z 4))) (of_Z 5) 6).

Definition from_angle_zero_points_along_positive_x `{Trig} : test :=
  let v := from_angle zero in
  assert! (close (x v) one 6);
  assert! (ltb (fabs (y v)) (of_decimal 1 6)).

Definition wrap_brings_out_of_range_values_back_in : test :=
  let v := wrap zero one (mkVec2 (of_decimal 12 1) (opp (of_decimal 3 1))) in
  assert! (close (x v) (of_decimal 2 1) 6);
  assert! (close (y v) (of_decimal 7 1) 6).

Definition wrap_angle_normalizes_into_plus_minus_pi : test :=
  assert! (close (fabs (wrap_angle (mul (of_Z 3) PI))) PI 5);
  assert! (close (fabs (wrap_angle (mul (opp (of_Z 3)) PI))) PI 5);
  assert! (close (wrap_angle (div PI two)) (div PI two) 6);
  assert! (ltb (fabs (wrap_angle zero)) (of_decimal 1 6)).

(** ** [neural_network.rs] *)
Definition two_to_one : list LayerTopology := [mkTopology 2; mkTopology 1].

Definition propagate_matches_hand_computed_relu : test :=
  network ← Network_from_weights two_to_one [opp half; half; opp one];
  out ← Network_propagate network [one; one];
  assert! (eqs out [zero]);
  out ← Network_propagate network [of_Z 4; zero];
  assert! (eqs out [of_decimal 15 1]).

Definition weights_round_trip_through_from_weights {R} `{Rng R} : R → test :=
  let topology := [mkTopology 3; mkTopology 2; mkTopology 1] in
  drawing (
    let* original := Network_random topology in
    let weights := network_weights original in
    let* rebuilt := or_panic (Network_from_weights topology weights) in
    assert (eqs weights (network_weights rebuilt))).

(** [#[should_panic]]; what the panic says is not modelled. *)
Definition should_panic {A} (o : option A) : test := match o with None => Some tt | Some _ => None end.
Definition from_weights_panics_on_too_few_weights : test := should_panic (Network_from_weights two_to_one [zero]).
Definition from_weights_panics_on_too_many_weights : test :=
  should_panic (Network_from_weights two_to_one [zero; zero; zero; of_Z 99]).

(** ** [genetic_algorithm.rs] *)
Record TestIndividual : Type := mkTestIndividual { test_chromosome : Chromosome }.
Definition TestIndividual_new (genes : list f32) : TestIndividual := mkTestIndividual (mkChromosome genes).
#[local] Instance test_individual : Individual TestIndividual := {|
  fitness i := fsum (genes (test_chromosome i)); chromosome := test_chromosome; create := mkTestIndividual |}.

Definition statistics_reports_min_max_avg : test :=
  stats ← Statistics_new (List.map TestIndividual_new [[of_Z 1]; [of_Z 2]; [of_Z 4]; [of_Z 1]]);
  assert! (eqf (min_fitness stats) (of_Z 1));
  assert! (eqf (max_fitness stats) (of_Z 4));
  assert! (eqf (avg_fitness stats) (of_Z 2)).

Section drawing.
Context {R : Type} `{Rng R}.

(** [draws] selections, of which more than [least] choose the fittest. *)
Definition roulette (draws : nat) (least : Z) : R → test :=
  let population := List.map TestIndividual_new [[zero]; [zero]; [zero]; [of_Z 30]] in
  drawing (
    let* winners := collect draws (select population) in
    let selected_high_fitness := length (List.filter (λ w, eqf (fitness w) (of_Z 30)) winners) in
    assert (least <? Z.of_nat selected_high_fitness)).
Definition roulette_wheel_favors_higher_fitness : R → test := roulette 1000 950.

Definition uniform_crossover_only_ever_copies_a_parent_gene : R → test :=
  let parent_a := from_iter (List.map of_Z [1; 2; 3; 4]) in
  let parent_b := from_iter (List.map of_Z [10; 20; 30; 40]) in
  drawing (
    let* child := crossover parent_a parent_b in
    let* _len := assert (chromosome_len child =? 4)%nat in
    or_panic (for_each (λ i _,
      c ← chromosome_index child i; a ← chromosome_index parent_a i; b ← chromosome_index parent_b i;
      UnitTest.assert (eqf c a || eqf c b)) (seq 0 4) tt)).

(** The mutation of 1, 2, 3 and what it has to do with the original. *)
Definition mutation_test (chance coeff : f32) (related : Chromosome → Chromosome → bool) : R → test :=
  let original := from_iter (List.map of_Z [1; 2; 3]) in
  drawing (
    let* g := or_panic (GaussianMutation_new chance coeff) in
    let* mutated := mutate g original in
    assert (related original mutated)).
Definition gaussian_mutation_with_zero_chance_changes_nothing : R → test := mutation_test zero (of_Z 5) (λ a b, eqs (genes a) (genes b)).
Definition gaussian_mutation_with_zero_coeff_changes_nothing : R → test := mutation_test one zero (λ a b, eqs (genes a) (genes b)).
Definition gaussian_mutation_with_full_chance_changes_every_gene : R → test :=
  mutation_test one one (λ a b, bool_decide (for_each (λ i _,
    g ← chromosome_index a i; h ← chromosome_index b i; UnitTest.assert (negb (eqf g h))) (seq 0 3) tt = Some tt)).

(** The average fitness, [k] generations, and whether evolution raises the average. *)
Definition average (pop : list TestIndividual) : f32 := div (fsum (List.map fitness pop)) (of_Z (Z.of_nat (length pop))).
Fixpoint evolve_times (ga : GeneticAlgorithm R) (k : nat) (population : list TestIndividual) : st R (list TestIndividual) :=
  match k with O => ret population | S k => let* e := evolve ga population in evolve_times ga k e.1 end.
Definition evolving (individuals length generations : nat) : R → test :=
  drawing (
    let* g := or_panic (GaussianMutation_new (of_decimal 2 1) (of_decimal 3 1)) in
    let* population := collect individuals (let* genes := collect length (sample (gen_range zero one)) in ret (TestIndividual_new genes)) in
    let starting_avg := average population in
    let* population := evolve_times (GeneticAlgorithm_new g) generations population in
    assert (ltb starting_avg (average population))).
Definition evolving_a_sum_maximization_task_improves_average_fitness : R → test := evolving 30 8 30.

(** ** [brain.rs] *)
Definition chromosome_round_trips_through_a_brain : R → test :=
  let eye := Eye_default in
  drawing (
    let* original := Brain_random eye in
    let* rebuilt := or_panic (Brain_from_chromosome (brain_chromosome original) eye) in
    assert (eqs (genes (brain_chromosome original)) (genes (brain_chromosome rebuilt)))).

Definition propagate_output_is_within_physical_limits : R → test :=
  let eye := Eye_default in
  drawing (
    let* brain := Brain_random eye in
    let* d := or_panic (Brain_propagate brain (replicate (cells eye) half)) in
    let* _s := assert (leb (opp SPEED_ACCEL) d.1 && leb d.1 SPEED_ACCEL) in
    assert (leb (opp ROTATION_ACCEL) d.2 && leb d.2 ROTATION_ACCEL)).

(** ** [animal.rs] *)
Definition new_animal_starts_at_minimum_speed_and_zero_satiation : R → test :=
  drawing (
    let* animal := Animal_random in
    let* _s := assert (satiation animal =? 0) in
    assert (eqf (speed animal) SPEED_MIN)).

Definition eating_increments_satiation_only (oc : bool) : R → test :=
  drawing (
    let* animal := Animal_random in
    let position_before := position animal in
    let* animal := or_panic (eat oc animal) in
    let* animal := or_panic (eat oc animal) in
    let* _s := assert (satiation animal =? 2) in
    assert (eqf (x (position animal)) (x position_before) && eqf (y (position animal)) (y position_before))).

(** ** [simulation.rs]; the inner option of [train] is the end of its fuel. *)
Context `{Trig}.
Definition population_size_survives_a_generation (oc : bool) : R → test :=
  drawing (
    let* sim := Simulation_random 12 8 in
    let* trained := train oc sim in
    let* trained := or_panic trained in
    let '(sim, stats) := trained in
    let* _a := assert (length (animals (world sim)) =? 12)%nat in
    let* _f := assert (length (foods (world sim)) =? 8)%nat in
    let* _1 := assert (is_finite (min_fitness stats)) in
    let* _2 := assert (is_finite (max_fitness stats)) in
    let* _3 := assert (is_finite (avg_fitness stats)) in
    assert (leb zero (min_fitness stats))).

Fixpoint train_and_check (oc : bool) (k : nat) (sim : Simulation R) : st R unit :=
  match k with
  | O => ret tt
  | S k =>
      let* trained := train oc sim in
      let* trained := or_panic trained in
      let '(sim, stats) := trained in
      let* _1 := assert (is_finite (avg_fitness stats)) in
      let* _2 := assert (leb (avg_fitness stats) (max_fitness stats)) in
      let* _3 := assert (leb (min_fitness stats) (avg_fitness stats)) in
      train_and_check oc k sim
  end.
Definition several_generations_all_produce_finite_stats (oc : bool) : R → test :=
  drawing (let* sim := Simulation_random 10 10 in train_and_check oc 3 sim).
End drawing.

(** ** [eye.rs] *)
Section eye.
Context `{Trig}.
Definition food_at (x y : f32) : Food := mkFood (mkVec2 x y).
Definition center : Vec2 := mkVec2 half half.

Definition food_directly_ahead_lands_in_the_middle_cell : test :=
  eye ← Eye_new one PI 3;
  vision ← process_vision eye center zero [food_at (of_decimal 6 1) half];
  assert! (length vision == 3%nat);
  v1 ← vision !! 1%nat; assert! (ltb zero v1);
  v0 ← vision !! 0%nat; assert! (eqf v0 zero);
  v2 ← vision !! 2%nat; assert! (eqf v2 zero).

Definition food_behind_the_animal_is_invisible : test :=
  eye ← Eye_new one PI 3;
  vision ← process_vision eye center zero [food_at (of_decimal 4 1) half];
  assert! (forallb (λ e, eqf e zero) vision).

Definition food_beyond_fov_range_is_invisible : test :=
  eye ← Eye_new (of_decimal 1 1) PI 3;
  vision ← process_vision eye center zero [food_at (of_decimal 6 1) half];
  assert! (forallb (λ e, eqf e zero) vision).

Definition closer_food_registers_more_energy_than_farther_food : test :=
  eye ← Eye_new one PI 1;
  near ← process_vision eye center zero [food_at (of_decimal 55 2) half];
  far ← process_vision eye center zero [food_at (of_decimal 9 1) half];
  n0 ← near !! 0%nat; f0 ← far !! 0%nat;
  assert! (ltb f0 n0).
End eye.

(** ** For every generator *)
Section laws.
Context {R : Type} `{RngLaws R} `{TrigLaws}.

Lemma passes_drawing (m : st R unit) r : gives m (λ _, True) → drawing m r = Some tt.
Proof. intros Hm. destruct (Hm r) as (u & r' & E & _). unfold drawing. by rewrite E. Qed.
Lemma eqf_refl v lo : leb lo v = true → eqf v v = true.
Proof. unfold leb, eqf, compare_with. destruct (order lo), (order v); [|done..]. intros _. apply Z.eqb_refl. Qed.
Lemma ranges_leb lo v hi : ranges lo v hi → leb lo v && leb v hi = true.
Proof. intros (_ & -> & ->). done. Qed.

(** The tests of [brain.rs] and [animal.rs] that only look at ranges. *)
Lemma brain_test_passes r : propagate_output_is_within_physical_limits r = Some tt.
Proof using All.
  apply passes_drawing. eapply gives_bind; [apply gives_brain|]. intros b Hb.
  destruct (brain_propagates b (replicate (cells Eye_default) half) Hb) as (d & q & E & Hd & Hq); [done|]. rewrite E.
  eapply (gives_bind _ _ (λ p, p = (d, q))); [apply gives_or_panic; by eexists|]. intros p ->.
  eapply gives_bind; [by apply gives_assert, ranges_leb|]. intros _ _. by apply gives_assert, ranges_leb.
Qed.

Lemma new_animal_test_passes r : new_animal_starts_at_minimum_speed_and_zero_satiation r = Some tt.
Proof using All.
  apply passes_drawing. unfold Animal_random, Animal_new. apply (gives_bind _ _ (λ a, satiation a = 0 ∧ speed a = SPEED_MIN)).
  - eapply gives_bind; [apply gives_brain|]. intros b _. eapply gives_bind; [apply gives_position|]. intros p _.
    eapply (gives_bind _ _ (λ _, True)); [by apply gives_sample|]. intros h _. by apply gives_ret.
  - intros a [-> ->]. eapply gives_bind; [by apply gives_assert|]. intros _ _. apply gives_assert. by vm_compute.
Qed.

Lemma eating_test_passes oc r : eating_increments_satiation_only oc r = Some tt.
Proof using All.
  apply passes_drawing. apply (gives_bind _ _ (animal_ok 0)).
  - unfold Animal_random. eapply gives_bind; [apply gives_brain|]. intros b Hb. by apply gives_animal.
  - intros a Ha. destruct (ok_satiation _ _ Ha) as [? ?]. assert (E : satiation a = 0) by lia.
    assert (Hx : eqf (x (position a)) (x (position a)) && eqf (y (position a)) (y (position a)) = true).
    { destruct (ok_position _ _ Ha) as [(_ & Hx & _) (_ & Hy & _)]. by rewrite (eqf_refl _ _ Hx), (eqf_refl _ _ Hy). }
    unfold eat, chk_u64. eapply (gives_bind _ _ (λ a', a' = mkAnimal (position a) (rotation a) (speed a) (eye a) (brain a) 1)).
    { apply gives_or_panic. rewrite E. destruct oc; by eexists. }
    intros ? ->. eapply (gives_bind _ _ (λ a', a' = mkAnimal (position a) (rotation a) (speed a) (eye a) (brain a) 2)).
    { apply gives_or_panic. destruct oc; by eexists. }
    intros ? ->. eapply gives_bind; [by apply gives_assert|]. intros _ _. by apply gives_assert.
Qed.

(** Those of [simulation.rs], by the theorems on the simulation. *)
Lemma line_finite n m line : (0 < m)%nat → Z.of_nat n * (Z.of_nat m * 2500) ≤ 2 ^ 24 → line_ok n m line →
  is_finite (min_fitness line) = true ∧ is_finite (max_fitness line) = true ∧ is_finite (avg_fitness line) = true ∧
  leb zero (min_fitness line) = true ∧ leb (min_fitness line) (avg_fitness line) = true ∧ leb (avg_fitness line) (max_fitness line) = true.
Proof.
  intros Hm Hsum Hline. pose proof (Hline Hm Hsum) as Hok. destruct (stats_ok_ordered _ _ Hok) as (O1 & O2 & O3 & _).
  destruct Hok as (lo & hi & a & E1 & E2 & E3 & _). rewrite E1, E2, E3 in *. done.
Qed.

Lemma train_gives oc n m s : (0 < n)%nat → counts_ok n m → simulation_ok n m s → age s = 0%nat →
  gives (let* o := train oc s in or_panic o) (λ q, line_ok n m q.2 ∧ simulation_ok n m q.1 ∧ age q.1 = 0%nat).
Proof using All.
  intros Hn Hc Hs Ha. eapply gives_bind; [unfold train; eapply gives_train; [done..|lia]|].
  intros o (s' & stats & -> & H'). apply gives_or_panic. by exists (s', stats).
Qed.

Lemma bind_assoc {S A B C} (m : st S A) (k : A → st S B) (h : B → st S C) (P : C → Prop) :
  gives (let* b := (let* a := m in k a) in h b) P → gives (let* a := m in let* b := k a in h b) P.
Proof. intros Hg s. destruct (Hg s) as (c & s' & E & HP). exists c, s'. split; [|done]. unfold Genetic.bind in *. by destruct (m s) as [[? ?]|]. Qed.

Lemma population_test_passes oc r : population_size_survives_a_generation oc r = Some tt.
Proof using All.
  apply passes_drawing. eapply gives_bind; [apply (gives_simulation 12 8)|]. intros s [Hs Ha].
  apply bind_assoc. eapply gives_bind; [apply (train_gives oc 12 8 s); [lia|by split|done..]|]. intros [s' stats] (Hline & [Hw _ _] & _).
  cbn [fst snd] in *. destruct (line_finite 12 8 stats) as (F1 & F2 & F3 & F4 & _); [lia|by vm_compute|done|].
  eapply gives_bind; [apply gives_assert; by rewrite (ok_count _ _ _ _ Hw)|]. intros _ _.
  eapply gives_bind; [apply gives_assert; by rewrite (ok_foods_count _ _ _ _ Hw)|]. intros _ _.
  do 3 (eapply gives_bind; [by apply gives_assert|]; intros _ _). by apply gives_assert.
Qed.

Lemma generations_test_passes oc r : several_generations_all_produce_finite_stats oc r = Some tt.
Proof using All.
  apply passes_drawing. eapply gives_bind; [apply (gives_simulation 10 10)|]. intros s [Hs Ha].
  generalize 3%nat. intros k. revert s Hs Ha. induction k as [|k IH]; intros s Hs Ha; [by apply gives_ret|]. cbn [train_and_check].
  apply bind_assoc. eapply gives_bind; [apply (train_gives oc 10 10 s); [lia|by split|done..]|]. intros [s' stats] (Hline & Hs' & Ha').
  cbn [fst snd] in *. destruct (line_finite 10 10 stats) as (_ & _ & F3 & _ & F5 & F6); [lia|by vm_compute|done|].
  do 3 (eapply gives_bind; [by apply gives_assert|]; intros _ _). by apply IH.
Qed.
End laws.

(** ** Running the others

    The two tests that make thousands of draws are run in a smaller size, with the same
    definitions.  A linear congruential generator with 24 bits for each number, and the
    values of the trigonometric functions on the axes. *)
Definition lcg_next (r : Z) : Z := wrap64 (6364136223846793005 * r + 1442695040888963407).
Definition lcg_unit (r : Z) : f32 * Z := let r := lcg_next r in (Fin false (Z.shiftr r 40 * 2 ^ 125), r).
Fixpoint weighted (target : f32) (i : nat) (ws : list f32) : nat :=
  match ws with
  | [] | [_] => i
  | w :: ws => if ltb target w then i else weighted (sub target w) (S i) ws
  end.
#[local] Instance lcg : Rng Z := {|
  gen_bool p r := let '(u, r) := lcg_unit r in (ltb u p, r);
  gen_unit := lcg_unit;
  gen_range lo hi r := let '(u, r) := lcg_unit r in (add lo (mul (sub hi lo) u), r);
  gen_range_inclusive lo hi r := let '(u, r) := lcg_unit r in (add lo (mul (sub hi lo) u), r);
  choose_weighted ws r := let '(u, r) := lcg_unit r in
    (match ws with [] => None | _ => Some (weighted (mul u (foldl add zero ws)) 0 ws) end, r) |}.
#[local] Instance axes : Trig := {|
  cos _ := one; sin _ := zero; atan2 y x := if ltb x zero then PI else zero |}.

Example neuroevolution_tests_pass :
  all_pass [length_is_pythagorean; from_angle_zero_points_along_positive_x; wrap_brings_out_of_range_values_back_in;
    wrap_angle_normalizes_into_plus_minus_pi; propagate_matches_hand_computed_relu; weights_round_trip_through_from_weights 2;
    from_weights_panics_on_too_few_weights; from_weights_panics_on_too_many_weights; statistics_reports_min_max_avg;
    roulette 30 28 0; uniform_crossover_only_ever_copies_a_parent_gene 1;
    gaussian_mutation_with_zero_chance_changes_nothing 2; gaussian_mutation_with_zero_coeff_changes_nothing 3;
    gaussian_mutation_with_full_chance_changes_every_gene 4; evolving 4 3 3 1; chromosome_round_trips_through_a_brain 0;
    food_directly_ahead_lands_in_the_middle_cell; food_behind_the_animal_is_invisible; food_beyond_fov_range_is_invisible;
    closer_food_registers_more_energy_than_farther_food] = true.
Proof. vm_compute. reflexivity. Qed.
